(** * EMS-ESP-Flasher: the serial bootloader client of [own_esptool.py]

    A shallow embedding of the parts of [src/emsesp_flasher/own_esptool.py]
    that carry the protocol: SLIP framing ([ESPLoader.write], [slip_reader]),
    the command channel ([ESPLoader.command], [ESPLoader.sync]), the RAM
    download used for the stub ([mem_begin], [run_stub]), the flash writer
    ([flash_begin], [flash_block], [write_flash]) and the firmware image
    checks ([BaseFirmwareImage.verify], [_update_image_flash_params]).

    Python [bytes] are lists of integers; a byte is a [Z] in [0, 256).
    Exceptions are values of an error type; mutable objects are records
    threaded through the functions that mutate them. *)

From Stdlib Require Import String ZArith List Bool Lia.
Import ListNotations.
Local Open Scope Z_scope.

Definition bytes := list Z.

Definition len (b : bytes) : Z := Z.of_nat (length b).

(* ------------------------------------------------------------------ *)
(** ** Module constants *)

Definition ESP_CHECKSUM_MAGIC : Z := 0xef.
Definition ESP_IMAGE_MAGIC : Z := 0xe9.
Definition ROM_INVALID_RECV_MSG : Z := 0x05.
Definition WRITE_BLOCK_ATTEMPTS : nat := 3.

Definition ESP_FLASH_BEGIN : Z := 0x02.
Definition ESP_FLASH_DATA : Z := 0x03.
Definition ESP_FLASH_END : Z := 0x04.
Definition ESP_MEM_BEGIN : Z := 0x05.
Definition ESP_MEM_END : Z := 0x06.
Definition ESP_MEM_DATA : Z := 0x07.
Definition ESP_SYNC : Z := 0x08.
Definition ESP_READ_REG : Z := 0x0a.

(* ------------------------------------------------------------------ *)
(** ** [ESPLoader.checksum] *)

(** [for b in data: state ^= b; return state] *)
Fixpoint checksum (data : bytes) (state : Z) : Z :=
  match data with
  | [] => state
  | b :: rest => checksum rest (Z.lxor state b)
  end.

(* ------------------------------------------------------------------ *)
(** ** SLIP framing *)

Module Slip.

(** [bytes.replace(old, new)] for a one-byte pattern [old]: the
    occurrences are scanned left to right and never overlap. *)
Fixpoint replace1 (old : Z) (new : bytes) (s : bytes) : bytes :=
  match s with
  | [] => []
  | b :: rest =>
      (if b =? old then new else [b]) ++ replace1 old new rest
  end.

(** [ESPLoader.write]: the buffer handed to [self._port.write]. *)
Definition write (packet : bytes) : bytes :=
  [0xc0]
  ++ replace1 0xc0 [0xdb; 0xdc] (replace1 0xdb [0xdb; 0xdd] packet)
  ++ [0xc0].

(** The serial port as the reader sees it: the bytes already in the
    driver's buffer ([inWaiting]) and the bursts that will arrive later.
    An empty burst is a read timeout that elapses with nothing received. *)
Record port := mkPort {
  in_waiting : bytes;
  arrivals : list bytes
}.

(** [port.read(1 if waiting == 0 else waiting)] *)
Definition port_read (p : port) : bytes * port :=
  match in_waiting p with
  | _ :: _ => (in_waiting p, mkPort [] (arrivals p))
  | [] =>
      match arrivals p with
      | [] => ([], p)
      | [] :: later => ([], mkPort [] later)
      | (b :: more) :: later => ([b], mkPort more later)
      end
  end.

(** The [FatalError]s of [slip_reader], by message. *)
Inductive slip_error :=
| NoSerialData                  (* "No serial data received." *)
| StreamStopped                 (* "Serial data stream stopped: ..." *)
| TransferStopped (n : nat)     (* "Packet content transfer stopped (received n bytes)" *)
| InvalidHead (b : Z)           (* "Invalid head of packet (0x..)" *)
| InvalidEscape (b : Z).        (* "Invalid SLIP escape (0xdb, 0x..)" *)

(** The local variables of the generator. [partial_packet = None] is
    AwaitingStart, [Some _] with [in_escape = false] is InPacket and with
    [in_escape = true] is InEscape. *)
Record locals := mkLocals {
  partial_packet : option bytes;
  in_escape : bool;
  successful_slip : bool
}.

Definition fresh : locals := mkLocals None false false.

(** Outcome of running the [for b in read_bytes] loop over one buffer. *)
Inductive feed_result :=
| NeedMore (l : locals)                      (* buffer exhausted *)
| FYield (pkt : bytes) (l : locals) (rest : bytes)  (* [yield], loop suspended at [rest] *)
| FRaise (e : slip_error).

Fixpoint feed (l : locals) (read_bytes : bytes) : feed_result :=
  match read_bytes with
  | [] => NeedMore l
  | b :: rest =>
      match partial_packet l with
      | None =>
          if b =? 0xc0
          then feed (mkLocals (Some []) (in_escape l) (successful_slip l)) rest
          else FRaise (InvalidHead b)
      | Some pp =>
          if in_escape l then
            if b =? 0xdc
            then feed (mkLocals (Some (pp ++ [0xc0])) false (successful_slip l)) rest
            else if b =? 0xdd
            then feed (mkLocals (Some (pp ++ [0xdb])) false (successful_slip l)) rest
            else FRaise (InvalidEscape b)
          else if b =? 0xdb
          then feed (mkLocals (Some pp) true (successful_slip l)) rest
          else if b =? 0xc0
          then FYield pp (mkLocals None false true) rest
          else feed (mkLocals (Some (pp ++ [b])) false (successful_slip l)) rest
      end
  end.

(** The message chosen when [port.read] returns [b''] *)
Definition stop_error (l : locals) : slip_error :=
  match partial_packet l with
  | None => if successful_slip l then StreamStopped else NoSerialData
  | Some pp => TransferStopped (length pp)
  end.

(** A suspended generator: its locals and the unread tail of the buffer
    the [for] loop is iterating over. The port is the loader's, shared
    with the generator, and is passed along. *)
Record reader := mkReader {
  vars : locals;
  pending : bytes
}.

(** [Raise] keeps the port as the exception leaves it: on invalid data
    the reader drains [port.read(port.inWaiting())] for its trace. *)
Inductive next_result :=
| Yield (pkt : bytes) (r : reader) (p : port)
| Raise (e : slip_error) (p : port).

(** The [while True] loop once the driver's buffer is empty: one blocking
    one-byte read per burst, then the rest of the burst in one read. *)
Fixpoint read_arrivals (l : locals) (arr : list bytes) : next_result :=
  match arr with
  | [] => Raise (stop_error l) (mkPort [] [])
  | [] :: later => Raise (stop_error l) (mkPort [] later)
  | (b :: more) :: later =>
      match feed l [b] with
      | FRaise e => Raise e (mkPort [] later)
      | FYield pkt l' rest => Yield pkt (mkReader l' rest) (mkPort more later)
      | NeedMore l1 =>
          match more with
          | [] => read_arrivals l1 later
          | _ :: _ =>
              match feed l1 more with
              | FRaise e => Raise e (mkPort [] later)
              | FYield pkt l' rest => Yield pkt (mkReader l' rest) (mkPort [] later)
              | NeedMore l2 => read_arrivals l2 later
              end
          end
      end
  end.

(** The [while True] loop entered with whatever the driver has buffered. *)
Definition read_loop (l : locals) (p : port) : next_result :=
  match in_waiting p with
  | [] => read_arrivals l (arrivals p)
  | _ :: _ =>
      match feed l (in_waiting p) with
      | FRaise e => Raise e (mkPort [] (arrivals p))
      | FYield pkt l' rest => Yield pkt (mkReader l' rest) (mkPort [] (arrivals p))
      | NeedMore l1 => read_arrivals l1 (arrivals p)
      end
  end.

(** [next(slip_reader)]: resume the [for] loop where the last [yield]
    left it, then go back to reading the port. *)
Definition next (r : reader) (p : port) : next_result :=
  match feed (vars r) (pending r) with
  | FRaise e => Raise e (mkPort [] (arrivals p))
  | FYield pkt l' rest => Yield pkt (mkReader l' rest) p
  | NeedMore l1 => read_loop l1 p
  end.

(** [slip_reader(port, trace)] before its first [next]. *)
Definition slip_reader : reader := mkReader fresh [].

End Slip.

(* ------------------------------------------------------------------ *)
(** ** Exceptions and the result monad *)

Inductive exn :=
| FatalSlip (e : Slip.slip_error)      (* FatalError raised by slip_reader *)
| StopIteration                        (* next() on a finished generator *)
| ResponseMismatch                     (* "Response doesn't match request" *)
| UnsupportedCommandError (op : Z)
| StatusTooShort (got : Z)             (* "Only got %d byte status response." *)
| CommandFailed (status_bytes : bytes) (* FatalError.WithResult *)
| StubOverlap (start end_ load_start load_end : Z)  (* mem_begin *)
| StubHandshake (p : bytes)            (* "Failed to start stub." *)
| NotImplementedInROMError
| Md5Mismatch (calcmd5 res : bytes)    (* "MD5 of file does not match data in flash!" *)
| Md5Unexpected (res : bytes)          (* "MD5Sum command returned unexpected result" *)
| InvalidImageMagic (magic : Z)
| InvalidSegmentCount (n : nat)
| EndOfFileReadingSegment (offset size actual : Z)
| InvalidAppendDigest (v : Z)          (* RuntimeError of load_extended_header *)
| UnsupportedFlashArg                  (* parse_flash_size_arg / parse_flash_freq_arg *)
| EncryptedDownloadDisabled            (* "This chip has encrypt functionality ... disabled." *)
| EncryptedWriteRefused                (* "Can't perform encrypted flash write, ..." *)
| WillNotFit                           (* "File ... will not fit in ... bytes of flash" *)
| UnknownSize
| StructError                          (* struct.error *)
| IndexError
| TypeError
| KeyError
| AttributeError
| ValueError
| UnicodeDecodeError                   (* bytes.decode("utf-8") *)
| ZeroDivisionError
| LoopBound.   (* not an exception of the program: a modelled [while]
                  loop reached its iteration bound, the loop does not end *)

(** Is the exception a [FatalError] (or a subclass of it)?
    [UnsupportedCommandError] derives from [RuntimeError] only. *)
Definition is_FatalError (e : exn) : bool :=
  match e with
  | FatalSlip _ | ResponseMismatch | StatusTooShort _ | CommandFailed _
  | StubOverlap _ _ _ _ | StubHandshake _ | NotImplementedInROMError
  | Md5Mismatch _ _ | Md5Unexpected _ | InvalidImageMagic _
  | InvalidSegmentCount _ | EndOfFileReadingSegment _ _ _
  | UnsupportedFlashArg | EncryptedDownloadDisabled | EncryptedWriteRefused
  | WillNotFit
  | UnknownSize => true
  | _ => false
  end.

Definition result (A : Type) : Type := (exn + A)%type.

(** A computation on a mutable object of type [S]: the object survives an
    exception with the mutations made before it. *)
Definition M (S A : Type) : Type := S -> result A * S.

Definition ret {S A} (a : A) : M S A := fun s => (inr a, s).
Definition raise {S A} (e : exn) : M S A := fun s => (inl e, s).
Definition bind {S A B} (m : M S A) (k : A -> M S B) : M S B :=
  fun s => match m s with
           | (inr a, s') => k a s'
           | (inl e, s') => (inl e, s')
           end.
Definition get {S} : M S S := fun s => (inr s, s).
Definition modify {S} (f : S -> S) : M S unit := fun s => (inr tt, f s).
(** [try: m  except FatalError: h] *)
Definition try_FatalError {S A} (m : M S A) (h : exn -> M S A) : M S A :=
  fun s => match m s with
           | (inl e, s') => if is_FatalError e then h e s' else (inl e, s')
           | r => r
           end.

Declare Scope monad_scope.
Delimit Scope monad_scope with monad.
Notation "x <- m ;; k" := (bind m (fun x => k))
  (at level 61, m at next level, right associativity) : monad_scope.
Notation "' pat <- m ;; k" := (bind m (fun x => match x with pat => k end))
  (at level 61, pat pattern, m at next level, right associativity) : monad_scope.
Notation "m ;;; k" := (bind m (fun _ => k))
  (at level 61, right associativity) : monad_scope.
Local Open Scope monad_scope.

(* ------------------------------------------------------------------ *)
(** ** [struct.pack] / [struct.unpack], little-endian *)

(** The [n] low bytes of [v], least significant first. *)
Fixpoint le_bytes (n : nat) (v : Z) : bytes :=
  match n with
  | O => []
  | S k => (v mod 256) :: le_bytes k (v / 256)
  end.

Fixpoint le_value (b : bytes) : Z :=
  match b with
  | [] => 0
  | x :: rest => x + 256 * le_value rest
  end.

(** One field of a format: its width in bytes and its value.
    [struct.pack] raises [struct.error] when a value does not fit. *)
Fixpoint pack (fields : list (nat * Z)) : result bytes :=
  match fields with
  | [] => inr []
  | (w, v) :: rest =>
      if (0 <=? v) && (v <? 256 ^ Z.of_nat w) then
        match pack rest with
        | inr b => inr (le_bytes w v ++ b)
        | inl e => inl e
        end
      else inl StructError
  end.

Definition B (v : Z) : nat * Z := (1%nat, v).
Definition H (v : Z) : nat * Z := (2%nat, v).
Definition I (v : Z) : nat * Z := (4%nat, v).

(** [data[a:b]] for [0 <= a <= b] *)
Definition slice (data : bytes) (a b : nat) : bytes :=
  firstn (b - a) (skipn a data).

(** [byte(bitstr, index)] *)
Definition byte (bitstr : bytes) (index : nat) : result Z :=
  match nth_error bitstr index with
  | Some b => inr b
  | None => inl IndexError
  end.

(* ------------------------------------------------------------------ *)
(** ** The serial command channel: [read], [write], [command] *)

Module Serial.

(** The part of an [ESPLoader] that the channel touches: the port (its
    input side and what has been written to it) and the generator.
    [_slip_reader = None] is a generator that has raised. *)
Record channel := mkChannel {
  _port : Slip.port;
  written : list bytes;
  _slip_reader : option Slip.reader
}.

(** [ESPLoader.read]: [next(self._slip_reader)] *)
Definition read : M channel bytes := fun c =>
  match _slip_reader c with
  | None => (inl StopIteration, c)
  | Some r =>
      match Slip.next r (_port c) with
      | Slip.Yield pkt r' p' => (inr pkt, mkChannel p' (written c) (Some r'))
      | Slip.Raise e p' => (inl (FatalSlip e), mkChannel p' (written c) None)
      end
  end.

(** [ESPLoader.write] *)
Definition write (packet : bytes) : M channel unit :=
  modify (fun c => mkChannel (_port c) (written c ++ [Slip.write packet]) (_slip_reader c)).

(** [ESPLoader.flush_input] *)
Definition flush_input : M channel unit :=
  modify (fun c => mkChannel (Slip.mkPort [] (Slip.arrivals (_port c)))
                             (written c) (Some Slip.slip_reader)).

(** The [for retry in range(100)] loop of [command], [n] iterations left. *)
Fixpoint wait_response_loop (n : nat) (op : option Z) : M channel (Z * bytes) :=
  match n with
  | O => raise ResponseMismatch
  | S k =>
      p <- read ;;
      if len p <? 8 then wait_response_loop k op
      else
        let resp := le_value (slice p 0 1) in
        let op_ret := le_value (slice p 1 2) in
        let val := le_value (slice p 4 8) in
        if negb (resp =? 1) then wait_response_loop k op
        else
          let data := skipn 8 p in
          match op with
          | None => ret (val, data)
          | Some o =>
              if op_ret =? o then ret (val, data)
              else
                match byte data 0 with
                | inl e => raise e
                | inr b0 =>
                    if negb (b0 =? 0) then
                      match byte data 1 with
                      | inl e => raise e
                      | inr b1 =>
                          if b1 =? ROM_INVALID_RECV_MSG
                          then flush_input ;;; raise (UnsupportedCommandError o)
                          else wait_response_loop k op
                      end
                    else wait_response_loop k op
                end
          end
  end.

(** [ESPLoader.command]. The read timeout it sets on the port and
    restores on exit is a float and is left out. *)
Definition command (op : option Z) (data : bytes) (chk : Z) (wait_response : bool)
  : M channel (option (Z * bytes)) :=
  match op with
  | Some o =>
      match pack [B 0x00; B o; H (len data); I chk] with
      | inr hdr => write (hdr ++ data)
      | inl e => raise e
      end
  | None => ret tt
  end ;;;
  if wait_response
  then r <- wait_response_loop 100 op ;; ret (Some r)
  else ret None.

(** [val, data = self.command(op, data, chk)]: the call waits for the
    response and the pair it returns is unpacked. *)
Definition unpack_reply (r : option (Z * bytes)) : M channel (Z * bytes) :=
  match r with
  | Some vd => ret vd
  | None => raise TypeError
  end.

Definition command_val_data (op : option Z) (data : bytes) (chk : Z)
  : M channel (Z * bytes) :=
  bind (command op data chk true) unpack_reply.

(** The loader attributes that [sync] works on. *)
Record ESPLoader := mkLoader {
  chan : channel;
  sync_stub_detected : bool
}.

(** Run a channel operation on the loader's channel. *)
Definition on_chan {A} (m : M channel A) : M ESPLoader A := fun e =>
  match m (chan e) with
  | (r, c') => (r, mkLoader c' (sync_stub_detected e))
  end.

Definition set_sync_stub_detected (b : bool) : M ESPLoader unit :=
  modify (fun e => mkLoader (chan e) b).

Definition sync_payload : bytes := [0x07; 0x07; 0x12; 0x20] ++ repeat 0x55 32.

(** The [for _ in range(7)] loop of [sync] *)
Fixpoint sync_drain (n : nat) : M ESPLoader unit :=
  match n with
  | O => ret tt
  | S k =>
      '(val, _) <- on_chan (command_val_data None [] 0) ;;
      e <- get ;;
      set_sync_stub_detected (sync_stub_detected e && (val =? 0)) ;;;
      sync_drain k
  end.

(** [ESPLoader.sync] *)
Definition sync : M ESPLoader unit :=
  '(val, _) <- on_chan (command_val_data (Some ESP_SYNC) sync_payload 0) ;;
  set_sync_stub_detected (val =? 0) ;;;
  sync_drain 7.

End Serial.

(* ------------------------------------------------------------------ *)
(** ** Console output

    The lines the modelled functions [print], by kind. Progress lines
    ([print_overwrite], timings) are left out. *)

Inductive message :=
| WarnSuspiciousSegment (offset size : Z)
| WarnUnexpectedChipId (expected got : Z)
| WarnReservedHeaderFields
| WarnNotAnImageFile (address : Z)
| WarnNotAValidImage (address : Z)
| FlashParamsSetTo (params : bytes)
| UnexpectedCryptConfig (v : Z)
| KeyNotProgrammed
| NotAlignedForEncryption (name : string) (address align : Z)
| WarnNotSectorAligned (address sector bytes_over : Z)
| WillBeErased (first last : Z)
| ErasingFlashChip
| WarnMutuallyExclusive
| WillFlashUncompressed (name : string)
| ErasingFlash
| WarnFileEmpty (name : string)
| HashVerified
| FileMd5 (calcmd5 : bytes)
| FlashMd5 (res : bytes)
| Leaving
| VerifyingJustWritten
| WarnCannotVerifyEncrypted
| StubAlreadyRunning
| UploadingStub
| RunningStub
| StubRunning.

(** [pad_to(data, alignment, pad_character)] *)
Definition pad_to (data : bytes) (alignment : Z) (pad_character : Z) : result bytes :=
  if alignment =? 0 then inl ZeroDivisionError
  else
    let pad_mod := len data mod alignment in
    if negb (pad_mod =? 0)
    then inr (data ++ repeat pad_character (Z.to_nat (alignment - pad_mod)))
    else inr data.

(** [div_roundup(a, b)], also written out in [flash_begin] *)
Definition div_roundup (a b : Z) : result Z :=
  if b =? 0 then inl ZeroDivisionError else inr ((a + b - 1) / b).

(* ------------------------------------------------------------------ *)
(** ** Firmware images *)

Module Image.

Record ImageSegment := mkSegment {
  addr : Z;
  data : bytes;
  file_offs : option Z;
  include_in_checksum : bool
}.

(** [ImageSegment.__init__]: segments with a non-zero address are padded
    with zero bytes to a multiple of 4. *)
Definition new_ImageSegment (addr : Z) (data : bytes) (file_offs : option Z) : ImageSegment :=
  mkSegment addr
    (if negb (addr =? 0)
     then match pad_to data 4 0x00 with inr d => d | inl _ => data end
     else data)
    file_offs true.

(** The attributes [ESP32FirmwareImage] adds to the base image. *)
Record ExtendedHeader := mkExtended {
  wp_pin : Z;
  drv : list Z;                 (* clk, q, d, cs, hd, wp *)
  min_rev : Z;
  min_rev_full : Z;
  max_rev_full : Z;
  append_digest : bool;
  stored_digest : option bytes;
  calc_digest : option bytes
}.

(** The attributes of a loaded [BaseFirmwareImage]. *)
Record FirmwareImage := mkImage {
  segments : list ImageSegment;
  entrypoint : Z;
  flash_mode : Z;
  flash_size_freq : Z;
  image_checksum : Z;
  extended : option ExtendedHeader
}.

(** [BaseFirmwareImage.verify] *)
Definition verify (image : FirmwareImage) : result unit :=
  if (16 <? length (segments image))%nat
  then inl (InvalidSegmentCount (length (segments image)))
  else inr tt.

(** An [io.BytesIO] opened for reading, and the lines printed so far. *)
Record load_file := mkFile {
  buf : bytes;
  pos : nat;
  printed : list message
}.

Definition BytesIO (b : bytes) : load_file := mkFile b 0 [].

(** [f.read(n)] *)
Definition read (n : Z) : M load_file bytes := fun f =>
  let left := skipn (pos f) (buf f) in
  let got := firstn (Z.to_nat (Z.min n (len left))) left in
  (inr got, mkFile (buf f) (pos f + length got) (printed f)).

Definition tell : M load_file Z := fun f => (inr (Z.of_nat (pos f)), f).

(** [f.seek(offset, 1)] for [offset >= 0] and [f.seek(offset)] *)
Definition seek_cur (offset : Z) : M load_file unit :=
  modify (fun f => mkFile (buf f) (pos f + Z.to_nat offset) (printed f)).
Definition seek (offset : Z) : M load_file unit :=
  modify (fun f => mkFile (buf f) (Z.to_nat offset) (printed f)).

Definition print (m : message) : M load_file unit :=
  modify (fun f => mkFile (buf f) (pos f) (printed f ++ [m])).

(** [struct.unpack(fmt, b)] with [widths] the field sizes of [fmt]:
    [struct.error] unless [b] has exactly the size of the format. *)
Fixpoint split_fields (widths : list nat) (b : bytes) : list Z :=
  match widths with
  | [] => []
  | w :: rest => le_value (firstn w b) :: split_fields rest (skipn w b)
  end.

Definition unpack {S} (widths : list nat) (b : bytes) : M S (list Z) :=
  if (length b =? fold_right Nat.add 0 widths)%nat
  then ret (split_fields widths b)
  else raise StructError.

Definition field (fields : list Z) (i : nat) : Z := nth i fields 0.

(** [load_common_header]: returns the segment count and the header
    attributes it stores on the image. *)
Definition load_common_header (expected_magic : Z) : M load_file (Z * (Z * Z * Z)) :=
  b <- read 8 ;;
  fs <- unpack [1; 1; 1; 1; 4]%nat b ;;
  let magic := field fs 0 in
  if negb (magic =? expected_magic) then raise (InvalidImageMagic magic)
  else ret (field fs 1, (field fs 2, field fs 3, field fs 4)).

(** [warn_if_unusual_segment] of [BaseFirmwareImage]; the ESP32 image
    class overrides it with [pass]. *)
Definition warn_if_unusual_segment (esp32 : bool) (offset size : Z) (is_irom_segment : bool)
  : M load_file unit :=
  if esp32 then ret tt
  else if negb is_irom_segment
          && ((0x40200000 <? offset) || (offset <? 0x3ffe0000) || (65536 <? size))
  then print (WarnSuspiciousSegment offset size)
  else ret tt.

(** [load_segment] *)
Definition load_segment (esp32 : bool) : M load_file ImageSegment :=
  file_offs <- tell ;;
  b <- read 8 ;;
  fs <- unpack [4; 4]%nat b ;;
  let offset := field fs 0 in
  let size := field fs 1 in
  warn_if_unusual_segment esp32 offset size false ;;;
  segment_data <- read size ;;
  if len segment_data <? size
  then raise (EndOfFileReadingSegment offset size (len segment_data))
  else ret (new_ImageSegment offset segment_data (Some file_offs)).

(** [for _ in range(segments): self.load_segment(load_file)] *)
Fixpoint load_segments (esp32 : bool) (n : nat) : M load_file (list ImageSegment) :=
  match n with
  | O => ret []
  | S k =>
      s <- load_segment esp32 ;;
      rest <- load_segments esp32 k ;;
      ret (s :: rest)
  end.

(** [align_file_position(f, size)] *)
Definition align_file_position (size : Z) : M load_file unit :=
  t <- tell ;;
  seek_cur ((size - 1) - (t mod size)).

(** [read_checksum]: [ord(f.read(1))] *)
Definition read_checksum : M load_file Z :=
  align_file_position 16 ;;;
  b <- read 1 ;;
  match b with
  | [c] => ret c
  | _ => raise TypeError
  end.

Definition lift {S A} (r : result A) : M S A :=
  match r with inr a => ret a | inl e => raise e end.

(** [ESP8266ROMFirmwareImage.__init__(load_file)] *)
Definition ESP8266ROMFirmwareImage : M load_file FirmwareImage :=
  '(nsegs, (fm, fsf, entry)) <- load_common_header ESP_IMAGE_MAGIC ;;
  segs <- load_segments false (Z.to_nat nsegs) ;;
  chk <- read_checksum ;;
  let image := mkImage segs entry fm fsf chk None in
  lift (verify image) ;;;
  ret image.

Definition split_byte (n : Z) : Z * Z :=
  (Z.land n 0x0F, Z.land (Z.shiftr n 4) 0x0F).

(** [ESP32FirmwareImage.load_extended_header]: returns
    (wp_pin, drive strengths, min_rev, min_rev_full, max_rev_full, append_digest). *)
Definition load_extended_header (IMAGE_CHIP_ID : Z)
  : M load_file (Z * list Z * (Z * Z * Z) * bool) :=
  b <- read 16 ;;
  fields <- unpack [1; 1; 1; 1; 2; 1; 2; 2; 1; 1; 1; 1; 1]%nat b ;;
  let '(clk, q) := split_byte (field fields 1) in
  let '(d, cs) := split_byte (field fields 2) in
  let '(hd, wp) := split_byte (field fields 3) in
  let chip_id := field fields 4 in
  (if negb (chip_id =? IMAGE_CHIP_ID)
   then print (WarnUnexpectedChipId IMAGE_CHIP_ID chip_id) else ret tt) ;;;
  (if existsb (fun f => negb (f =? 0)) (slice fields 8 12)
   then print WarnReservedHeaderFields else ret tt) ;;;
  let append_digest := field fields 12 in
  if (append_digest =? 0) || (append_digest =? 1)
  then ret (field fields 0, [clk; q; d; cs; hd; wp],
            (field fields 5, field fields 6, field fields 7), append_digest =? 1)
  else raise (InvalidAppendDigest append_digest).

(** [ESP32FirmwareImage.__init__(load_file)]; [sha256] is
    [hashlib.sha256(..).digest()]. *)
Definition ESP32FirmwareImage (sha256 : bytes -> bytes) (IMAGE_CHIP_ID : Z)
  : M load_file FirmwareImage :=
  start <- tell ;;
  '(nsegs, (fm, fsf, entry)) <- load_common_header ESP_IMAGE_MAGIC ;;
  '(wp_pin, drv, (r1, r2, r3), append) <- load_extended_header IMAGE_CHIP_ID ;;
  segs <- load_segments true (Z.to_nat nsegs) ;;
  chk <- read_checksum ;;
  '(stored, calc) <-
     (if append : bool then
        end_ <- tell ;;
        stored <- read 32 ;;
        seek start ;;;
        covered <- read (end_ - start) ;;
        ret (Some stored, Some (sha256 covered))
      else ret (None, None)) ;;
  let image := mkImage segs entry fm fsf chk
                       (Some (mkExtended wp_pin drv r1 r2 r3 append stored calc)) in
  lift (verify image) ;;;
  ret image.

End Image.

(* ------------------------------------------------------------------ *)
(** ** The loader classes as data *)

Inductive chip :=
| ESP8266 | ESP32 | ESP32S2 | ESP32S3 | ESP32C3 | ESP32C6 | ESP32H2 | ESP32C2.

(** [isinstance(self, ESP32ROM)]: every class but [ESP8266ROM] and its
    stub derives from [ESP32ROM]. *)
Definition isinstance_ESP32ROM (c : chip) : bool :=
  match c with ESP8266 => false | _ => true end.

(** [isinstance(self, (ESP32S2ROM, ESP32S3ROM, ESP32C3ROM, ESP32C6ROM,
    ESP32H2ROM, ESP32C2ROM))]; [ESP32C6ROM] derives from [ESP32C3ROM], so
    the shorter tuple of [flash_encrypt_block] selects the same chips. *)
Definition isinstance_S2_or_later (c : chip) : bool :=
  match c with ESP8266 | ESP32 => false | _ => true end.

(** A [STUB_CODE] dictionary. *)
Record stub_code := mkStub {
  text : option bytes;
  text_start : Z;
  data : option bytes;
  data_start : Z;
  entry : Z
}.

(** The class and instance attributes of an [ESPLoader] that the
    embedded methods read. *)
Record ESPLoader := mkESP {
  CHIP : chip;
  IS_STUB : bool;
  ESP_RAM_BLOCK : Z;
  FLASH_WRITE_SIZE : Z;
  FLASH_SECTOR_SIZE : Z;
  STATUS_BYTES_LENGTH : nat;
  BOOTLOADER_FLASH_OFFSET : Z;
  IMAGE_CHIP_ID : Z;
  FLASH_ENCRYPTED_WRITE_ALIGN : option Z;
  FLASH_SIZES : list (string * Z);
  FLASH_FREQUENCY : list (string * Z);
  STUB_CODE : stub_code;
  secure_download_mode : bool;
  sync_stub_detected : bool
}.

Definition CHIP_DETECT_MAGIC_REG_ADDR : Z := 0x40001000.
Definition ESP_FLASH_DEFL_BEGIN : Z := 0x10.
Definition ESP_FLASH_DEFL_DATA : Z := 0x11.
Definition ESP_FLASH_DEFL_END : Z := 0x12.
Definition ESP_SPI_FLASH_MD5 : Z := 0x13.
Definition ESP_ERASE_FLASH : Z := 0xD0.
Definition ESP_FLASH_ENCRYPT_DATA : Z := 0xD4.

(** What the loader methods need from the link to the target:
    [command(op, data, chk)] waiting for the response, [read()] and
    [flush_input()]. *)
Class Transport (C : Type) := {
  command : option Z -> bytes -> Z -> M C (Z * bytes);
  read : M C bytes;
  flush_input : M C unit
}.

(** The serial port is one transport. *)
#[export] Instance serial_transport : Transport Serial.channel := {
  command := Serial.command_val_data;
  read := Serial.read;
  flush_input := Serial.flush_input
}.

(** A scripted target is another: it answers from the requests it has
    seen so far and records every request. *)
Inductive request :=
| Command (op : option Z) (data : bytes) (chk : Z)
| Read
| FlushInput.

Record device := mkDevice {
  on_command : list request -> option Z -> bytes -> Z -> result (Z * bytes);
  on_read : list request -> result bytes;
  log : list request
}.

Definition record_request (r : request) (d : device) : device :=
  mkDevice (on_command d) (on_read d) (log d ++ [r]).

#[export] Instance scripted_transport : Transport device := {
  command op data chk := fun d =>
    (on_command d (log d) op data chk, record_request (Command op data chk) d);
  read := fun d => (on_read d (log d), record_request Read d);
  flush_input := modify (record_request FlushInput)
}.

(** The loader's world while it runs: the transport and the console. *)
Record session (C : Type) := mkSession {
  transport : C;
  stdout : list message
}.
Arguments mkSession {C}.
Arguments transport {C}.
Arguments stdout {C}.

(** [hashlib] and [zlib], as far as [write_flash] uses them. *)
Record libraries := mkLibraries {
  md5_hexdigest : bytes -> bytes;     (* hashlib.md5(b).hexdigest() *)
  sha256_digest : bytes -> bytes;     (* hashlib.sha256(b).digest() *)
  zlib_compress : bytes -> bytes      (* zlib.compress(b, 9) *)
}.

(* ------------------------------------------------------------------ *)
(** ** Loader methods over a transport *)

Section Loader.

Context {C : Type} `{Transport C}.

Definition on_transport {A} (m : M C A) : M (session C) A := fun s =>
  match m (transport s) with
  | (r, c') => (r, mkSession c' (stdout s))
  end.

Definition print (m : message) : M (session C) unit :=
  modify (fun s => mkSession (transport s) (stdout s ++ [m])).

Definition lift {A} (r : result A) : M (session C) A :=
  match r with inr a => ret a | inl e => raise e end.

(** What [check_command] returns: the reply header's [val], or the
    body without its status bytes. *)
Inductive reply :=
| RVal (val : Z)
| RData (body : bytes).

(** [data[-n:]] and [data[:-n]]; with [n = 0] the bound [-0] is [0], the
    first is then all of [data] and the second is empty. *)
Definition last_n (n : nat) (b : bytes) : bytes :=
  match n with O => b | S _ => skipn (length b - n) b end.
Definition but_last_n (n : nat) (b : bytes) : bytes :=
  match n with O => [] | S _ => firstn (length b - n) b end.

(** [raise FatalError.WithResult(message, result)]: the error code is
    unpacked from [result[:2]], and [struct.unpack] raises [struct.error]
    on fewer than two bytes. *)
Definition raise_WithResult {A} (result : bytes) : M (session C) A :=
  if (length result <? 2)%nat then raise StructError else raise (CommandFailed result).

(** [ESPLoader.check_command] *)
Definition check_command (esp : ESPLoader) (op : option Z) (data : bytes) (chk : Z)
  : M (session C) reply :=
  '(val, data) <- on_transport (command op data chk) ;;
  if (length data <? STATUS_BYTES_LENGTH esp)%nat
  then raise (StatusTooShort (len data))
  else
    let status_bytes := last_n (STATUS_BYTES_LENGTH esp) data in
    b0 <- lift (byte status_bytes 0) ;;
    if negb (b0 =? 0) then raise_WithResult status_bytes
    else if (STATUS_BYTES_LENGTH esp <? length data)%nat
    then ret (RData (but_last_n (STATUS_BYTES_LENGTH esp) data))
    else ret (RVal val).

(** [ESPLoader.read_reg] *)
Definition read_reg (addr : Z) : M (session C) Z :=
  payload <- lift (pack [I addr]) ;;
  '(val, data) <- on_transport (command (Some ESP_READ_REG) payload 0) ;;
  b0 <- lift (byte data 0) ;;
  if negb (b0 =? 0) then raise_WithResult data else ret val.

(** The decorator [stub_and_esp32_function_only] *)
Definition stub_and_esp32_function_only {A} (esp : ESPLoader) (m : M (session C) A)
  : M (session C) A :=
  if IS_STUB esp || isinstance_ESP32ROM (CHIP esp) then m
  else raise NotImplementedInROMError.

(** *** RAM download *)

(** The ranges [mem_begin] compares with: data first, then text. *)
Definition stub_ranges (stub : stub_code) : result (list (Z * Z)) :=
  match data stub, text stub with
  | Some d, Some t =>
      inr [(data_start stub, data_start stub + len d);
           (text_start stub, text_start stub + len t)]
  | _, _ => inl KeyError
  end.

(** The first range of the list that the load range overlaps. *)
Fixpoint first_overlap (load_start load_end : Z) (ranges : list (Z * Z)) : option (Z * Z) :=
  match ranges with
  | [] => None
  | (start, end_) :: rest =>
      if (load_start <? end_) && (start <? load_end)
      then Some (start, end_)
      else first_overlap load_start load_end rest
  end.

(** [ESPLoader.mem_begin] *)
Definition mem_begin (esp : ESPLoader) (size blocks blocksize offset : Z)
  : M (session C) reply :=
  (if IS_STUB esp then
     ranges <- lift (stub_ranges (STUB_CODE esp)) ;;
     let load_start := offset in
     let load_end := offset + size in
     match first_overlap load_start load_end ranges with
     | Some (start, end_) => raise (StubOverlap start end_ load_start load_end)
     | None => ret tt
     end
   else ret tt) ;;;
  params <- lift (pack [I size; I blocks; I blocksize; I offset]) ;;
  check_command esp (Some ESP_MEM_BEGIN) params 0.

(** [ESPLoader.mem_block] *)
Definition mem_block (esp : ESPLoader) (data : bytes) (seq : Z) : M (session C) reply :=
  hdr <- lift (pack [I (len data); I seq; I 0; I 0]) ;;
  check_command esp (Some ESP_MEM_DATA) (hdr ++ data) (checksum data ESP_CHECKSUM_MAGIC).

(** [ESPLoader.mem_finish]; [None] is the [pass] of the handler. *)
Definition mem_finish (esp : ESPLoader) (entrypoint : Z) : M (session C) (option reply) :=
  data <- lift (pack [I (if entrypoint =? 0 then 1 else 0); I entrypoint]) ;;
  try_FatalError
    (r <- check_command esp (Some ESP_MEM_END) data 0 ;; ret (Some r))
    (fun e => if IS_STUB esp then raise e else ret None).

(** [for seq in range(blocks)] of [run_stub], from [seq] for [n] rounds *)
Fixpoint upload_blocks (esp : ESPLoader) (field : bytes) (n : nat) (seq : Z)
  : M (session C) unit :=
  match n with
  | O => ret tt
  | S k =>
      let from_offs := seq * ESP_RAM_BLOCK esp in
      let to_offs := from_offs + ESP_RAM_BLOCK esp in
      mem_block esp (slice field (Z.to_nat from_offs) (Z.to_nat to_offs)) seq ;;;
      upload_blocks esp field k (seq + 1)
  end.

(** The body of [for field in ['text', 'data']] of [run_stub] *)
Definition upload_field (esp : ESPLoader) (field : option bytes) (offs : Z)
  : M (session C) unit :=
  match field with
  | None => ret tt
  | Some bytes_ =>
      let length := len bytes_ in
      blocks <- lift (div_roundup length (ESP_RAM_BLOCK esp)) ;;
      mem_begin esp length blocks (ESP_RAM_BLOCK esp) offs ;;;
      upload_blocks esp bytes_ (Z.to_nat blocks) 0
  end.

Definition OHAI : bytes := [0x4f; 0x48; 0x41; 0x49].

Definition bytes_eqb (a b : bytes) : bool :=
  if list_eq_dec Z.eq_dec a b then true else false.

(** [ESPLoader.run_stub]; [STUB_CLASS] is the constructor of the chip's
    stub loader class. *)
Definition run_stub (STUB_CLASS : ESPLoader -> M (session C) ESPLoader)
    (esp : ESPLoader) (stub : option stub_code) : M (session C) ESPLoader :=
  let stub := match stub with Some s => s | None => STUB_CODE esp end in
  if sync_stub_detected esp then
    print StubAlreadyRunning ;;;
    STUB_CLASS esp
  else
    print UploadingStub ;;;
    upload_field esp (text stub) (text_start stub) ;;;
    upload_field esp (data stub) (data_start stub) ;;;
    print RunningStub ;;;
    mem_finish esp (entry stub) ;;;
    p <- on_transport read ;;
    if negb (bytes_eqb p OHAI) then raise (StubHandshake p)
    else
      print StubRunning ;;;
      STUB_CLASS esp.

(** [ESP8266StubLoader.__init__] and its likes (the chips without
    USB-OTG, whose stub classes change no block size at run time): the
    class attributes of the stub class and the copied instance attributes. *)
Definition StubLoader (rom_loader : ESPLoader) : M (session C) ESPLoader :=
  on_transport flush_input ;;;
  ret (mkESP (CHIP rom_loader) true (ESP_RAM_BLOCK rom_loader) 0x4000
             (FLASH_SECTOR_SIZE rom_loader) 2 (BOOTLOADER_FLASH_OFFSET rom_loader)
             (IMAGE_CHIP_ID rom_loader) (FLASH_ENCRYPTED_WRITE_ALIGN rom_loader)
             (FLASH_SIZES rom_loader) (FLASH_FREQUENCY rom_loader)
             (STUB_CODE rom_loader) (secure_download_mode rom_loader) false).

(** *** Flash commands *)

(** [get_erase_size]: the ESP8266 ROM works around its erase bug; its
    stub and the ESP32 family return [size]. *)
Definition get_erase_size (esp : ESPLoader) (offset size : Z) : result Z :=
  match CHIP esp, IS_STUB esp with
  | ESP8266, false =>
      let sectors_per_block := 16 in
      let sector_size := FLASH_SECTOR_SIZE esp in
      if sector_size =? 0 then inl ZeroDivisionError
      else
        let num_sectors := (size + sector_size - 1) / sector_size in
        let start_sector := offset / sector_size in
        let head_sectors := sectors_per_block - (start_sector mod sectors_per_block) in
        let head_sectors := if num_sectors <? head_sectors then num_sectors else head_sectors in
        if num_sectors <? 2 * head_sectors
        then inr ((num_sectors + 1) / 2 * sector_size)
        else inr ((num_sectors - head_sectors) * sector_size)
  | _, _ => inr size
  end.

(** [ESPLoader.flash_begin] *)
Definition flash_begin (esp : ESPLoader) (size offset : Z) (begin_rom_encrypted : bool)
  : M (session C) Z :=
  num_blocks <- lift (div_roundup size (FLASH_WRITE_SIZE esp)) ;;
  erase_size <- lift (get_erase_size esp offset size) ;;
  params <- lift (pack [I erase_size; I num_blocks; I (FLASH_WRITE_SIZE esp); I offset]) ;;
  extra <- (if isinstance_S2_or_later (CHIP esp) && negb (IS_STUB esp)
            then lift (pack [I (if begin_rom_encrypted then 1 else 0)])
            else ret []) ;;
  check_command esp (Some ESP_FLASH_BEGIN) (params ++ extra) 0 ;;;
  ret num_blocks.

(** The retry loop shared by the three block writers:
    [for attempts_left in range(WRITE_BLOCK_ATTEMPTS - 1, -1, -1)],
    entered with [attempts_left = n]. *)
Fixpoint write_block_attempts (esp : ESPLoader) (op : Z) (data : bytes) (seq : Z)
    (attempts_left : nat) : M (session C) unit :=
  try_FatalError
    (hdr <- lift (pack [I (len data); I seq; I 0; I 0]) ;;
     check_command esp (Some op) (hdr ++ data) (checksum data ESP_CHECKSUM_MAGIC) ;;;
     ret tt)
    (fun e =>
       match attempts_left with
       | O => raise e
       | S k => write_block_attempts esp op data seq k
       end).

(** [ESPLoader.flash_block] *)
Definition flash_block (esp : ESPLoader) (data : bytes) (seq : Z) : M (session C) unit :=
  write_block_attempts esp ESP_FLASH_DATA data seq (WRITE_BLOCK_ATTEMPTS - 1).

(** [ESPLoader.flash_encrypt_block] *)
Definition flash_encrypt_block (esp : ESPLoader) (data : bytes) (seq : Z)
  : M (session C) unit :=
  if isinstance_S2_or_later (CHIP esp) && negb (IS_STUB esp)
  then flash_block esp data seq
  else write_block_attempts esp ESP_FLASH_ENCRYPT_DATA data seq (WRITE_BLOCK_ATTEMPTS - 1).

(** [ESPLoader.flash_finish] *)
Definition flash_finish (esp : ESPLoader) (reboot : bool) : M (session C) unit :=
  pkt <- lift (pack [I (if negb reboot then 1 else 0)]) ;;
  check_command esp (Some ESP_FLASH_END) pkt 0 ;;;
  ret tt.

(** [ESPLoader.flash_defl_begin] *)
Definition flash_defl_begin (esp : ESPLoader) (size compsize offset : Z) : M (session C) Z :=
  stub_and_esp32_function_only esp
    (num_blocks <- lift (div_roundup compsize (FLASH_WRITE_SIZE esp)) ;;
     erase_blocks <- lift (div_roundup size (FLASH_WRITE_SIZE esp)) ;;
     let write_size :=
       if IS_STUB esp then size else erase_blocks * FLASH_WRITE_SIZE esp in
     params <- lift (pack [I write_size; I num_blocks; I (FLASH_WRITE_SIZE esp); I offset]) ;;
     extra <- (if isinstance_S2_or_later (CHIP esp) && negb (IS_STUB esp)
               then lift (pack [I 0]) else ret []) ;;
     check_command esp (Some ESP_FLASH_DEFL_BEGIN) (params ++ extra) 0 ;;;
     ret num_blocks).

(** [ESPLoader.flash_defl_block] *)
Definition flash_defl_block (esp : ESPLoader) (data : bytes) (seq : Z)
  : M (session C) unit :=
  stub_and_esp32_function_only esp
    (write_block_attempts esp ESP_FLASH_DEFL_DATA data seq (WRITE_BLOCK_ATTEMPTS - 1)).

(** [ESPLoader.flash_defl_finish] *)
Definition flash_defl_finish (esp : ESPLoader) (reboot : bool) : M (session C) unit :=
  stub_and_esp32_function_only esp
    (if negb reboot && negb (IS_STUB esp) then ret tt
     else
       pkt <- lift (pack [I (if negb reboot then 1 else 0)]) ;;
       check_command esp (Some ESP_FLASH_DEFL_END) pkt 0 ;;;
       ret tt).

(** One lower-case hexadecimal digit, as a character code *)
Definition hex_digit (d : Z) : Z := if d <? 10 then 48 + d else 87 + d.

(** [hexify(s).lower()] *)
Definition hexify_lower (s : bytes) : bytes :=
  flat_map (fun c => [hex_digit (c / 16); hex_digit (c mod 16)]) s.

(** A continuation byte of UTF-8 *)
Definition continuation (b : Z) : bool := (0x80 <=? b) && (b <=? 0xBF).

(** [b.decode("utf-8")], the strict decoder: the code points of the
    string, or [None] where Python raises [UnicodeDecodeError] (a byte
    that starts no sequence, a sequence cut short, an overlong form, a
    surrogate, a code point above U+10FFFF). *)
Fixpoint utf8_decode (b : bytes) : option (list Z) :=
  match b with
  | [] => Some []
  | b0 :: rest =>
      if (0 <=? b0) && (b0 <? 0x80) then option_map (cons b0) (utf8_decode rest)
      else if (0xC2 <=? b0) && (b0 <=? 0xDF) then
        match rest with
        | b1 :: rest =>
            if continuation b1
            then option_map (cons ((b0 - 0xC0) * 64 + (b1 - 0x80))) (utf8_decode rest)
            else None
        | _ => None
        end
      else if (0xE0 <=? b0) && (b0 <=? 0xEF) then
        match rest with
        | b1 :: b2 :: rest =>
            if continuation b1 && continuation b2
               && (if b0 =? 0xE0 then 0xA0 <=? b1 else true)
               && (if b0 =? 0xED then b1 <=? 0x9F else true)
            then option_map (cons ((b0 - 0xE0) * 4096 + (b1 - 0x80) * 64 + (b2 - 0x80)))
                            (utf8_decode rest)
            else None
        | _ => None
        end
      else if (0xF0 <=? b0) && (b0 <=? 0xF4) then
        match rest with
        | b1 :: b2 :: b3 :: rest =>
            if continuation b1 && continuation b2 && continuation b3
               && (if b0 =? 0xF0 then 0x90 <=? b1 else true)
               && (if b0 =? 0xF4 then b1 <=? 0x8F else true)
            then option_map (cons ((b0 - 0xF0) * 262144 + (b1 - 0x80) * 4096
                                   + (b2 - 0x80) * 64 + (b3 - 0x80)))
                            (utf8_decode rest)
            else None
        | _ => None
        end
      else None
  end.

(** [ESPLoader.flash_md5sum]; the string it returns is given by its
    code points. *)
Definition flash_md5sum (esp : ESPLoader) (addr size : Z) : M (session C) bytes :=
  stub_and_esp32_function_only esp
    (params <- lift (pack [I addr; I size; I 0; I 0]) ;;
     res <- check_command esp (Some ESP_SPI_FLASH_MD5) params 0 ;;
     match res with
     | RVal _ => raise TypeError
     | RData res =>
         if (length res =? 32)%nat then
           match utf8_decode res with
           | Some str => ret str
           | None => raise UnicodeDecodeError
           end
         else if (length res =? 16)%nat then ret (hexify_lower res)
         else raise (Md5Unexpected res)
     end).

(** The decorator [stub_function_only] *)
Definition stub_function_only {A} (esp : ESPLoader) (m : M (session C) A)
  : M (session C) A :=
  if IS_STUB esp then m else raise NotImplementedInROMError.

(** [ESPLoader.erase_flash] *)
Definition erase_flash (esp : ESPLoader) : M (session C) unit :=
  stub_function_only esp
    (check_command esp (Some ESP_ERASE_FLASH) [] 0 ;;;
     ret tt).

End Loader.

(* ------------------------------------------------------------------ *)
(** ** [write_flash] and its helpers *)

(** An open file of [args.addr_filename]. Every [read()] of
    [write_flash] is made at position 0 and returns the whole content. *)
Record argfile := mkFile {
  name : string;
  content : bytes
}.

(** The [args] namespace, as far as [write_flash] reads it. *)
Record Args := mkArgs {
  compress : option bool;
  no_compress : bool;
  no_stub : bool;
  encrypt : bool;
  encrypt_files : option (list (Z * argfile));
  addr_filename : list (Z * argfile);
  flash_mode : string;
  flash_freq : string;
  flash_size : string;
  erase_all : bool;
  verify : bool;
  ignore_flash_encryption_efuse_setting : bool
}.

(** The blanks that [int] passes over: tab, line feed, vertical tab,
    form feed, carriage return and space. *)
Definition is_space (c : Ascii.ascii) : bool :=
  let n := Z.of_nat (Ascii.nat_of_ascii c) in
  ((9 <=? n) && (n <=? 13)) || (n =? 32).

Fixpoint skip_spaces (s : string) : string :=
  match s with
  | String c rest => if is_space c then skip_spaces rest else s
  | EmptyString => EmptyString
  end.

(** The digits of a literal, with single underscores between digits:
    the value and what follows the last digit. [after_digit] tells
    whether the character before was a digit. *)
Fixpoint int_digits (s : string) (acc : Z) (after_digit : bool)
  : option (Z * string) :=
  match s with
  | EmptyString => if after_digit then Some (acc, EmptyString) else None
  | String c rest =>
      let n := Z.of_nat (Ascii.nat_of_ascii c) in
      if (48 <=? n) && (n <=? 57) then int_digits rest (10 * acc + (n - 48)) true
      else if n =? 95 then
        if after_digit then int_digits rest acc false else None
      else if after_digit then Some (acc, s) else None
  end.

(** [int(s)] for a string of ASCII characters: blanks before and
    behind, a sign, decimal digits with single underscores between
    them. (The interpreter's limit on the number of digits is left
    out.) *)
Definition int (s : string) : result Z :=
  let s := skip_spaces s in
  let '(sign, s) :=
    match s with
    | String c rest =>
        let n := Z.of_nat (Ascii.nat_of_ascii c) in
        if n =? 43 then (1, rest)            (* + *)
        else if n =? 45 then (-1, rest)      (* - *)
        else (1, s)
    | EmptyString => (1, s)
    end in
  match int_digits s 0 false with
  | Some (v, rest) =>
      match skip_spaces rest with
      | EmptyString => inr (sign * v)
      | _ => inl ValueError
      end
  | None => inl ValueError
  end.

(** [flash_size_bytes] *)
Definition flash_size_bytes (size : string) : result Z :=
  match index 0 "MB" size with
  | Some i =>
      match int (substring 0 i size) with
      | inr v => inr (v * 1024 * 1024)
      | inl e => inl e
      end
  | None =>
      match index 0 "KB" size with
      | Some i =>
          match int (substring 0 i size) with
          | inr v => inr (v * 1024)
          | inl e => inl e
          end
      | None => inl UnknownSize
      end
  end.

(** [dict[key]] *)
Fixpoint lookup (key : string) (dict : list (string * Z)) : option Z :=
  match dict with
  | [] => None
  | (k, v) :: rest => if String.eqb k key then Some v else lookup key rest
  end.

(** [parse_flash_size_arg] and [parse_flash_freq_arg] *)
Definition parse_flash_arg (dict : list (string * Z)) (arg : string) : result Z :=
  match lookup arg dict with
  | Some v => inr v
  | None => inl UnsupportedFlashArg
  end.

(** [sorted(l, key=lambda x: x[0])]: a stable sort by address *)
Fixpoint insert_by_address {A} (x : Z * A) (l : list (Z * A)) : list (Z * A) :=
  match l with
  | [] => [x]
  | y :: rest =>
      if fst x <=? fst y then x :: y :: rest
      else y :: insert_by_address x rest
  end.

Definition sorted_by_address {A} (l : list (Z * A)) : list (Z * A) :=
  fold_right insert_by_address [] l.

(** The methods and functions [write_flash] calls that are taken as
    given: the efuse queries of the chip class and [verify_flash]. *)
Record collaborators (C : Type) := mkCollaborators {
  get_encrypted_download_disabled : M (session C) bool;
  get_flash_crypt_config : M (session C) (option Z);
  is_flash_encryption_key_valid : M (session C) bool;
  verify_flash : M (session C) unit
}.
Arguments get_encrypted_download_disabled {C}.
Arguments get_flash_crypt_config {C}.
Arguments is_flash_encryption_key_valid {C}.
Arguments verify_flash {C}.

Section FlashWriter.

Context {C : Type} `{Transport C}.
Variable lib : libraries.

(** [esp.BOOTLOADER_IMAGE(io.BytesIO(image))] *)
Definition BOOTLOADER_IMAGE (esp : ESPLoader) : M Image.load_file Image.FirmwareImage :=
  match CHIP esp with
  | ESP8266 => Image.ESP8266ROMFirmwareImage
  | _ => Image.ESP32FirmwareImage (sha256_digest lib) (IMAGE_CHIP_ID esp)
  end.

(** The [try] block of [_update_image_flash_params]: build the image
    and [verify()] it once more. *)
Definition load_and_verify (esp : ESPLoader) (image : bytes)
  : result unit * list message :=
  match BOOTLOADER_IMAGE esp (Image.BytesIO image) with
  | (inr test_image, f) => (Image.verify test_image, Image.printed f)
  | (inl e, f) => (inl e, Image.printed f)
  end.

Fixpoint print_all (ms : list message) : M (session C) unit :=
  match ms with
  | [] => ret tt
  | m :: rest => print m ;;; print_all rest
  end.

Definition flash_mode_codes : list (string * Z) :=
  [("qio", 0); ("qout", 1); ("dio", 2); ("dout", 3)]%string.

Definition is_keep (s : string) : bool := String.eqb s "keep".

(** [_update_image_flash_params] *)
Definition _update_image_flash_params (esp : ESPLoader) (address : Z) (args : Args)
    (image : bytes) : M (session C) bytes :=
  if len image <? 8 then ret image
  else
    let magic := nth 0 image 0 in
    let flash_mode_byte := nth 2 image 0 in
    let flash_size_freq := nth 3 image 0 in
    if negb (address =? BOOTLOADER_FLASH_OFFSET esp) then ret image
    else if is_keep (flash_mode args) && is_keep (flash_freq args)
            && is_keep (flash_size args)
    then ret image
    else if negb (magic =? ESP_IMAGE_MAGIC)
    then print (WarnNotAnImageFile address) ;;; ret image
    else
      let '(r, printed) := load_and_verify esp image in
      print_all printed ;;;
      match r with
      | inl _ => print (WarnNotAValidImage address) ;;; ret image
      | inr _ =>
          flash_mode_byte <-
            (if negb (is_keep (flash_mode args))
             then match lookup (flash_mode args) flash_mode_codes with
                  | Some v => ret v
                  | None => raise KeyError
                  end
             else ret flash_mode_byte) ;;
          flash_freq_bits <-
            (if negb (is_keep (flash_freq args))
             then lift (parse_flash_arg (FLASH_FREQUENCY esp) (flash_freq args))
             else ret (Z.land flash_size_freq 0x0F)) ;;
          flash_size_bits <-
            (if negb (is_keep (flash_size args))
             then lift (parse_flash_arg (FLASH_SIZES esp) (flash_size args))
             else ret (Z.land flash_size_freq 0xF0)) ;;
          flash_params <- lift (pack [B flash_mode_byte; B (flash_size_bits + flash_freq_bits)]) ;;
          if negb (bytes_eqb flash_params (slice image 2 4))
          then
            print (FlashParamsSetTo flash_params) ;;;
            ret (slice image 0 2 ++ flash_params ++ skipn 4 image)
          else ret image
      end.

(** [try: m  except NotImplementedInROMError: pass] *)
Definition ignore_NotImplementedInROM (m : M (session C) unit) : M (session C) unit :=
  fun s => match m s with
           | (inl NotImplementedInROMError, s') => (inr tt, s')
           | r => r
           end.

(** The [while len(image) > 0] loop of [write_flash], at most [bound]
    iterations. Each iteration removes [FLASH_WRITE_SIZE] bytes from
    the front of [image], so [length image] iterations are enough
    whenever the block size is positive, as it is in every loader class. *)
Fixpoint write_blocks (esp : ESPLoader) (compress encrypted : bool) (bound : nat)
    (image : bytes) (seq : Z) : M (session C) unit :=
  match image with
  | [] => ret tt
  | _ :: _ =>
      match bound with
      | O => raise LoopBound
      | S k =>
          let block := slice image 0 (Z.to_nat (FLASH_WRITE_SIZE esp)) in
          (if compress then flash_defl_block esp block seq
           else
             let block :=
               block ++ repeat 0xff (Z.to_nat (FLASH_WRITE_SIZE esp - len block)) in
             if encrypted then flash_encrypt_block esp block seq
             else flash_block esp block seq) ;;;
          write_blocks esp compress encrypted k
            (skipn (Z.to_nat (FLASH_WRITE_SIZE esp)) image) (seq + 1)
      end
  end.

(** Is [args.compress] true once [write_flash] has set its default?
    [None] stays when [--no-compress] is given and is false. *)
Definition args_compress (args : Args) : bool :=
  match compress args with
  | None => if negb (no_compress args) then negb (no_stub args) else false
  | Some b => b
  end.

(** The body of [for address, argfile, encrypted in all_files] *)
Definition write_file (esp : ESPLoader) (args : Args)
    (file : Z * argfile * bool) : M (session C) unit :=
  let '(address, argfile, encrypted) := file in
  let compress := args_compress args in
  compress <-
    (if compress && encrypted then
       print WarnMutuallyExclusive ;;;
       print (WillFlashUncompressed (name argfile)) ;;;
       ret false
     else ret compress) ;;
  (if no_stub args then print ErasingFlash else ret tt) ;;;
  alignment <-
    (if encrypted : bool then
       match FLASH_ENCRYPTED_WRITE_ALIGN esp with
       | Some a => ret a
       | None => raise AttributeError
       end
     else ret 4) ;;
  image <- lift (pad_to (content argfile) alignment 0xFF) ;;
  if len image =? 0 then print (WarnFileEmpty (name argfile))
  else
    image <- _update_image_flash_params esp address args image ;;
    let calcmd5 := md5_hexdigest lib image in
    let uncsize := len image in
    '(image, blocks) <-
      (if compress : bool then
         let uncimage := image in
         let image := zlib_compress lib uncimage in
         blocks <- flash_defl_begin esp uncsize (len image) address ;;
         ret (image, blocks)
       else
         blocks <- flash_begin esp uncsize address encrypted ;;
         ret (image, blocks)) ;;
    write_blocks esp compress encrypted (length image) image 0 ;;;
    (if IS_STUB esp
     then read_reg CHIP_DETECT_MAGIC_REG_ADDR ;;; ret tt
     else ret tt) ;;;
    if negb encrypted && negb (secure_download_mode esp) then
      ignore_NotImplementedInROM
        (res <- flash_md5sum esp address uncsize ;;
         if negb (bytes_eqb res calcmd5) then
           print (FileMd5 calcmd5) ;;;
           print (FlashMd5 res) ;;;
           raise (Md5Mismatch calcmd5 res)
         else print HashVerified)
    else ret tt.

(** [for ... in all_files: ...] *)
Fixpoint write_files (esp : ESPLoader) (args : Args)
    (all_files : list (Z * argfile * bool)) : M (session C) unit :=
  match all_files with
  | [] => ret tt
  | file :: rest => write_file esp args file ;;; write_files esp args rest
  end.

(** The list [all_files] that [write_flash] builds *)
Definition all_files (args : Args) : list (Z * argfile * bool) :=
  let plain := map (fun '(offs, filename) => (offs, (filename, encrypt args)))
                   (addr_filename args) in
  let keyed :=
    match encrypt_files args with
    | None => plain
    | Some enc =>
        sorted_by_address
          (plain ++ map (fun '(offs, filename) => (offs, (filename, true))) enc)
    end in
  map (fun '(offs, (filename, flag)) => (offs, filename, flag)) keyed.

(** The sanity checks made when files are to be encrypted *)
Fixpoint check_alignment (align : Z) (files : list (Z * argfile)) (do_write : bool)
  : M (session C) bool :=
  match files with
  | [] => ret do_write
  | (address, argfile) :: rest =>
      if align =? 0 then raise ZeroDivisionError
      else if negb (address mod align =? 0) then
        print (NotAlignedForEncryption (name argfile) address align) ;;;
        check_alignment align rest false
      else check_alignment align rest do_write
  end.

Definition encryption_checks (q : collaborators C) (esp : ESPLoader) (args : Args)
  : M (session C) unit :=
  do_write <-
    (if negb (secure_download_mode esp) then
       disabled <- get_encrypted_download_disabled q ;;
       if disabled : bool then raise EncryptedDownloadDisabled
       else
         crypt_cfg_efuse <- get_flash_crypt_config q ;;
         do_write <-
           (match crypt_cfg_efuse with
            | Some v =>
                if negb (v =? 0xF)
                then print (UnexpectedCryptConfig v) ;;; ret false
                else ret true
            | None => ret true
            end) ;;
         enc_key_valid <- is_flash_encryption_key_valid q ;;
         if negb enc_key_valid then print KeyNotProgrammed ;;; ret false
         else ret do_write
     else ret true) ;;
  let files_to_encrypt :=
    if encrypt args then addr_filename args
    else match encrypt_files args with Some l => l | None => [] end in
  match files_to_encrypt, FLASH_ENCRYPTED_WRITE_ALIGN esp with
  | _ :: _, None => raise AttributeError
  | _, align =>
      do_write <- check_alignment (match align with Some a => a | None => 1 end)
                                  files_to_encrypt do_write ;;
      if negb do_write && negb (ignore_flash_encryption_efuse_setting args)
      then raise EncryptedWriteRefused
      else ret tt
  end.

(** The check that every file fits in the flash *)
Fixpoint check_fit (flash_end : Z) (files : list (Z * argfile)) : M (session C) unit :=
  match files with
  | [] => ret tt
  | (address, argfile) :: rest =>
      if flash_end <? address + len (content argfile) then raise WillNotFit
      else check_fit flash_end rest
  end.

(** The report of the range that will be erased *)
Fixpoint report_erase (esp : ESPLoader) (files : list (Z * argfile)) : M (session C) unit :=
  match files with
  | [] => ret tt
  | (address, argfile) :: rest =>
      let write_end := address + len (content argfile) in
      if FLASH_SECTOR_SIZE esp =? 0 then raise ZeroDivisionError
      else
        let bytes_over := address mod FLASH_SECTOR_SIZE esp in
        (if negb (bytes_over =? 0)
         then print (WarnNotSectorAligned address (FLASH_SECTOR_SIZE esp) bytes_over)
         else ret tt) ;;;
        last <- lift (div_roundup write_end (FLASH_SECTOR_SIZE esp)) ;;
        print (WillBeErased (address - bytes_over) (last * FLASH_SECTOR_SIZE esp - 1)) ;;;
        report_erase esp rest
  end.

(** [write_flash(esp, args)] *)
Definition write_flash (q : collaborators C) (esp : ESPLoader) (args : Args)
  : M (session C) unit :=
  (if encrypt args || (match encrypt_files args with Some _ => true | None => false end)
   then encryption_checks q esp args else ret tt) ;;;
  (if negb (is_keep (flash_size args)) then
     flash_end <- lift (flash_size_bytes (flash_size args)) ;;
     check_fit flash_end (addr_filename args)
   else ret tt) ;;;
  (if erase_all args
   then print ErasingFlashChip ;;; erase_flash esp
   else report_erase esp (addr_filename args)) ;;;
  let all_files := all_files args in
  write_files esp args all_files ;;;
  print Leaving ;;;
  (if IS_STUB esp then
     flash_begin esp 0 0 false ;;;
     match last (map (fun f => Some (snd f)) all_files) None with
     | None => raise IndexError
     | Some last_file_encrypted =>
         if args_compress args && negb last_file_encrypted
         then flash_defl_finish esp false
         else flash_finish esp false
     end
   else ret tt) ;;;
  if verify args then
    print VerifyingJustWritten ;;;
    (if encrypt args || (match encrypt_files args with Some _ => true | None => false end)
     then print WarnCannotVerifyEncrypted else ret tt) ;;;
    if negb (encrypt args) then verify_flash q else ret tt
  else ret tt.

End FlashWriter.

(* ------------------------------------------------------------------ *)
(** ** Inputs and observations used in the statements *)

(** An ESP8266 image file of [n] empty segments: header, [n] segment
    headers, padding and checksum byte. *)
Definition empty_segments_image (n : Z) : bytes :=
  [ESP_IMAGE_MAGIC; n; 0; 0; 0; 0; 0; 0]
  ++ concat (repeat [0; 0; 0; 0; 0; 0; 0; 0] (Z.to_nat n))
  ++ repeat 0 16.

(** The body of a frame: the two [replace] calls of [ESPLoader.write]. *)
Definition escape (packet : bytes) : bytes :=
  Slip.replace1 0xc0 [0xdb; 0xdc] (Slip.replace1 0xdb [0xdb; 0xdd] packet).

(** Scenario A: delimiter, escape, delimiter. *)
Definition scenario_A : bytes := [0xc0; 0xdb; 0xc0].

(** The [val]s returned by [n] successive [self.command()] calls, and
    the channel they leave; [None] if one of the calls raises. *)
Fixpoint drain_replies (n : nat) (c : Serial.channel)
  : option (list Z * Serial.channel) :=
  match n with
  | O => Some ([], c)
  | S k =>
      match Serial.command_val_data None [] 0 c with
      | (inr (val, _), c') =>
          match drain_replies k c' with
          | Some (vals, c'') => Some (val :: vals, c'')
          | None => None
          end
      | (inl _, _) => None
      end
  end.

(** Scenario B: a response packet (direction byte 1) that echoes the
    sync opcode, carries [value = 0] and a body of [status_len] zero
    status bytes; and a loader on a port where [n] of these arrive, one
    frame per burst. *)
Definition sync_response (status_len : nat) : bytes :=
  [0x01; ESP_SYNC; Z.of_nat status_len; 0; 0; 0; 0; 0] ++ repeat 0 status_len.

Definition scenario_B (status_len n : nat) : Serial.ESPLoader :=
  Serial.mkLoader
    (Serial.mkChannel
       (Slip.mkPort [] (repeat (Slip.write (sync_response status_len)) n))
       [] (Some Slip.slip_reader))
    false.

(** A channel between two packets: nothing buffered, the reader
    awaiting a start, [later] still to arrive. *)
Definition idle_channel (later : list bytes) (w : list bytes) (s : bool)
  : Serial.channel :=
  Serial.mkChannel (Slip.mkPort [] later) w
    (Some (Slip.mkReader (Slip.mkLocals None false s) [])).

(** A target that acknowledges every command with [val = 0] and two
    zero status bytes, and answers a [read] with the stub's greeting. *)
Definition ack_device : device :=
  mkDevice (fun _ _ _ _ => inr (0, [0; 0])) (fun _ => inr OHAI) [].

(** Does the request carry opcode [op]? *)
Definition is_command (op : Z) (r : request) : bool :=
  match r with
  | Command (Some o) _ _ => o =? op
  | _ => false
  end.

(** The payloads of the logged commands with opcode [op], in order. *)
Fixpoint payloads (op : Z) (l : list request) : list bytes :=
  match l with
  | [] => []
  | Command (Some o) d _ :: rest =>
      if o =? op then d :: payloads op rest else payloads op rest
  | _ :: rest => payloads op rest
  end.

(** An ESP8266 ROM loader with a small stub: four bytes of text in
    instruction RAM and two bytes of data in data RAM. *)
Definition small_stub : stub_code :=
  mkStub (Some [0x01; 0x02; 0x03; 0x04]) 0x4010E000
         (Some [0x05; 0x06]) 0x3FFFABA4 0x4010E004.

Definition esp8266_rom : ESPLoader :=
  mkESP ESP8266 false 0x1800 0x400 0x1000 2 0 0 None
        [("1MB", 0x20); ("4MB", 0x40)]%string
        [("40m", 0x0); ("80m", 0xf)]%string
        small_stub false false.

(** The same chip once its stub runs. *)
Definition esp8266_stub : ESPLoader :=
  mkESP ESP8266 true 0x1800 0x4000 0x1000 2 0 0 None
        [("1MB", 0x20); ("4MB", 0x40)]%string
        [("40m", 0x0); ("80m", 0xf)]%string
        small_stub false false.

(** Arguments of a plain [write_flash] call: one list of files, every
    flash setting kept, no compression, no encryption. *)
Definition plain_args (files : list (Z * argfile)) : Args :=
  mkArgs (Some false) false false false None files
         "keep" "keep" "keep" false false false.

(** The same with [--flash_mode dio]. *)
Definition dio_args (files : list (Z * argfile)) : Args :=
  mkArgs (Some false) false false false None files
         "dio" "keep" "keep" false false false.

(** No library is needed where nothing is hashed or compressed. *)
Definition no_libraries : libraries :=
  mkLibraries (fun _ => []) (fun _ => []) (fun b => b).

(** A scripted target that accepts every command, whatever came before:
    its reply is long enough for the loader's status bytes, the first
    status byte is zero, and so is the first byte of a READ_REG reply. *)
Definition acknowledging (esp : ESPLoader) (d : device) : Prop :=
  forall l op data chk,
  exists val body,
    on_command d l op data chk = inr (val, body)
    /\ (STATUS_BYTES_LENGTH esp <= length body)%nat
    /\ nth_error (last_n (STATUS_BYTES_LENGTH esp) body) 0 = Some 0
    /\ (op = Some ESP_READ_REG -> nth_error body 0 = Some 0).

(** The session after one more request has gone to the target. *)
Definition sent (s : session device) (rs : list request) : session device :=
  mkSession (mkDevice (on_command (transport s)) (on_read (transport s))
                      (log (transport s) ++ rs))
            (stdout s).

(** The block-write requests for [blocks], numbered from [seq]. *)
Fixpoint block_requests (op : Z) (seq : Z) (blocks : list bytes) : list request :=
  match blocks with
  | [] => []
  | b :: rest =>
      Command (Some op)
        (le_bytes 4 (len b) ++ le_bytes 4 seq ++ le_bytes 4 0 ++ le_bytes 4 0 ++ b)
        (checksum b ESP_CHECKSUM_MAGIC)
      :: block_requests op (seq + 1) rest
  end.

(** Does [write_file] ask the target for an MD5 of an unencrypted file? *)
Definition md5_checked (esp : ESPLoader) : bool :=
  negb (secure_download_mode esp) && (IS_STUB esp || isinstance_ESP32ROM (CHIP esp)).

(** The reply [body] to the MD5 command carries, before its status
    bytes, the digest [calcmd5]: as 32 bytes that decode to it or as 16
    raw bytes. *)
Definition md5_reply_matches (esp : ESPLoader) (body calcmd5 : bytes) : Prop :=
  let res := but_last_n (STATUS_BYTES_LENGTH esp) body in
  (length res = 32%nat /\ utf8_decode res = Some calcmd5)
  \/ (length res = 16%nat /\ hexify_lower res = calcmd5).

(** A computation that only prints: it leaves the transport alone. *)
Definition quiet {C A} (m : M (session C) A) : Prop :=
  forall s, transport (snd (m s)) = transport s.

(** An ESP32 ROM loader. *)
Definition esp32_rom : ESPLoader :=
  mkESP ESP32 false 0x1800 0x400 0x1000 4 0x1000 0 (Some 32)
        [("1MB", 0x00); ("2MB", 0x10); ("4MB", 0x20)]%string
        [("40m", 0x0); ("80m", 0xf)]%string
        small_stub false false.

(** A target of an ESP32 ROM loader that accepts every command and
    answers the MD5 command with [digest]. *)
Definition md5_device (digest : bytes) : device :=
  mkDevice
    (fun _ op _ _ =>
       match op with
       | Some o => if o =? ESP_SPI_FLASH_MD5
                   then inr (0, digest ++ [0; 0; 0; 0])
                   else inr (0, [0; 0; 0; 0])
       | None => inr (0, [0; 0; 0; 0])
       end)
    (fun _ => inr OHAI) [].

(** Scenario C: a file of 10,000 bytes, to be written at 0x10000 with
    the 1024-byte blocks of the ROM loader. The digest function stands
    for MD5; the target computes the same one. *)
Definition scenario_C_file : argfile := mkFile "app.bin" (repeat 0xAA (Z.to_nat 10000)).

Definition toy_digest (b : bytes) : bytes :=
  hexify_lower (le_bytes 16 (checksum b ESP_CHECKSUM_MAGIC + 256 * len b)).

Definition scenario_C_libraries : libraries :=
  mkLibraries toy_digest (fun _ => []) (fun b => b).

Definition scenario_C_session : session device :=
  mkSession (md5_device (toy_digest (content scenario_C_file))) [].

(** What a computation adds to the log of a scripted target, whatever
    the target answers: requests that all satisfy [P]. *)
Definition emits {A} (P : request -> Prop) (m : M (session device) A) : Prop :=
  forall s,
  exists added,
    log (transport (snd (m s))) = log (transport s) ++ added
    /\ Forall P added.

(** [P] holds of every command with opcode [op]. *)
Definition covers (P : request -> Prop) (op : Z) : Prop :=
  forall data chk, P (Command (Some op) data chk).

(** [args] with compression switched off. *)
Definition without_compression (args : Args) : Args :=
  mkArgs (Some false) (no_compress args) (no_stub args) (encrypt args)
         (encrypt_files args) (addr_filename args) (flash_mode args)
         (flash_freq args) (flash_size args) (erase_all args) (verify args)
         (ignore_flash_encryption_efuse_setting args).

(** The requests of the compressed path, and those of the plain and
    encrypted paths. *)
Definition is_deflate (r : request) : bool :=
  is_command ESP_FLASH_DEFL_BEGIN r || is_command ESP_FLASH_DEFL_DATA r
  || is_command ESP_FLASH_DEFL_END r.

Definition is_plain (r : request) : bool :=
  is_command ESP_FLASH_BEGIN r || is_command ESP_FLASH_DATA r
  || is_command ESP_FLASH_ENCRYPT_DATA r.

(** The opcodes of the logged commands, in order. *)
Fixpoint opcodes (l : list request) : list Z :=
  match l with
  | [] => []
  | Command (Some o) _ _ :: rest => o :: opcodes rest
  | _ :: rest => opcodes rest
  end.

(** A batch of two files with [--compress]: one to be encrypted, one not. *)
Definition encrypted_file : argfile := mkFile "enc.bin" (repeat 0x11 64).
Definition plain_file : argfile := mkFile "app.bin" (repeat 0x22 64).

Definition mixed_batch_args : Args :=
  mkArgs (Some true) false false false (Some [(0x20000, encrypted_file)])
         [(0x30000, plain_file)] "keep" "keep" "keep" false false false.

(** The files that [write_flash] checks before an encrypted write. *)
Definition files_to_encrypt (args : Args) : list (Z * argfile) :=
  if encrypt args then addr_filename args
  else match encrypt_files args with Some l => l | None => [] end.

(** Collaborators for a batch that is neither encrypted nor verified
    again: none of them is called. *)
Definition unused_collaborators : collaborators device :=
  mkCollaborators device (raise AttributeError) (raise AttributeError)
                  (raise AttributeError) (raise AttributeError).

(** A computation whose result is the same in every session: it reads
    neither the console nor the transport. *)
Definition steady {C A} (m : M (session C) A) : Prop :=
  forall s s', fst (m s) = fst (m s').

(** The FLASH_BEGIN request that [flash_begin] sends. *)
Definition begin_request (esp : ESPLoader) (erase_size num_blocks offset : Z)
    (begin_rom_encrypted : bool) : request :=
  Command (Some ESP_FLASH_BEGIN)
    ((le_bytes 4 erase_size ++ le_bytes 4 num_blocks
      ++ le_bytes 4 (FLASH_WRITE_SIZE esp) ++ le_bytes 4 offset)
     ++ (if isinstance_S2_or_later (CHIP esp) && negb (IS_STUB esp)
         then le_bytes 4 (if begin_rom_encrypted then 1 else 0)
         else []))
    0.


(** The opcode under which the blocks of an uncompressed file travel:
    FLASH_ENCRYPT_DATA for a file to be encrypted, unless the loader is
    the ROM of an ESP32-S2 or later chip, and FLASH_DATA otherwise. *)
Definition block_op (esp : ESPLoader) (encrypted : bool) : Z :=
  if encrypted && negb (isinstance_S2_or_later (CHIP esp) && negb (IS_STUB esp))
  then ESP_FLASH_ENCRYPT_DATA
  else ESP_FLASH_DATA.

(** The register read with which a stub loader ends a file. *)
Definition magic_requests (esp : ESPLoader) : list request :=
  if IS_STUB esp
  then [Command (Some ESP_READ_REG) (le_bytes 4 CHIP_DETECT_MAGIC_REG_ADDR) 0]
  else [].

(** The payload of the MD5 command for [size] bytes at [address]. *)
Definition md5_payload (address size : Z) : bytes :=
  le_bytes 4 address ++ le_bytes 4 size ++ le_bytes 4 0 ++ le_bytes 4 0.

(** The MD5 request made for an unencrypted file, where the loader has
    the command. *)
Definition md5_requests (esp : ESPLoader) (address size : Z) : list request :=
  if md5_checked esp
  then [Command (Some ESP_SPI_FLASH_MD5) (md5_payload address size) 0]
  else [].

(** What a stub loader sends after the last file, once the files are
    written without error: an empty FLASH_BEGIN and the end command
    [end_op], without reboot. *)
Definition finish_requests (esp : ESPLoader) (end_op : Z) (r : result unit)
  : list request :=
  match IS_STUB esp, r with
  | true, inr _ => [begin_request esp 0 0 0 false;
                    Command (Some end_op) (le_bytes 4 1) 0]
  | _, _ => []
  end.

(** A file of five bytes: its length is no multiple of 4. *)
Definition five_byte_file : argfile := mkFile "five.bin" [1; 2; 3; 4; 5].


(* ------------------------------------------------------------------ *)
(** ** Register access: [_mask_to_shift], [write_reg], [update_reg] *)

Definition ESP_WRITE_REG : Z := 0x09.

(** [UART_DATE_REG_ADDR] of the loader class of a chip. *)
Definition UART_DATE_REG_ADDR (c : chip) : Z :=
  match c with
  | ESP32S3 => 0x60000080
  | ESP32C3 | ESP32C6 | ESP32H2 | ESP32C2 => 0x60000000 + 0x7C
  | _ => 0x60000078
  end.

(** The [while mask & 0x1 == 0] loop of [_mask_to_shift], entered with
    [mask] and [shift], with at most [bound] runs of its body. *)
Fixpoint mask_to_shift_loop (bound : nat) (mask shift : Z) : result Z :=
  if Z.land mask 0x1 =? 0 then
    match bound with
    | O => inl LoopBound
    | S k => mask_to_shift_loop k (Z.shiftr mask 1) (shift + 1)
    end
  else inr shift.

(** [_mask_to_shift(mask)]. The body runs once for every zero bit below
    the lowest set bit, which is no more than [log2 |mask|] times. *)
Definition _mask_to_shift (mask : Z) : result Z :=
  mask_to_shift_loop (Z.to_nat (Z.log2 (Z.abs mask))) mask 0.

Section Registers.

Context {C : Type} `{Transport C}.

(** [ESPLoader.write_reg] *)
Definition write_reg (esp : ESPLoader) (addr value mask delay_us delay_after_us : Z)
  : M (session C) reply :=
  command <- lift (pack [I addr; I value; I mask; I delay_us]) ;;
  command <-
    (if 0 <? delay_after_us
     then
       dummy <- lift (pack [I (UART_DATE_REG_ADDR (CHIP esp)); I 0; I 0; I delay_after_us]) ;;
       ret (command ++ dummy)
     else ret command) ;;
  check_command esp (Some ESP_WRITE_REG) command 0.

(** [ESPLoader.update_reg] *)
Definition update_reg (esp : ESPLoader) (addr mask new_val : Z) : M (session C) Z :=
  shift <- lift (_mask_to_shift mask) ;;
  val <- read_reg addr ;;
  let val := Z.land val (Z.lnot mask) in
  let val := Z.lor val (Z.land (Z.shiftl new_val shift) mask) in
  write_reg esp addr val 0xFFFFFFFF 0 0 ;;;
  ret val.

End Registers.

(* ------------------------------------------------------------------ *)
(** ** Further inputs and observations *)

(** [n] successive calls of [ESPLoader.read]: the packets they return. *)
Fixpoint read_packets (n : nat) : M Serial.channel (list bytes) :=
  match n with
  | O => ret []
  | S k =>
      p <- Serial.read ;;
      ps <- read_packets k ;;
      ret (p :: ps)
  end.

(** The bytes that a reader on a port has still to see: what is left of
    the buffer it was iterating over, what the driver has buffered, and
    the bursts to come. *)
Definition stream (r : Slip.reader) (p : Slip.port) : bytes :=
  Slip.pending r ++ Slip.in_waiting p ++ concat (Slip.arrivals p).

(** Does the response loop of [command(op)] pass over the packet [p]?
    It does when [p] is shorter than a header, when it is not a response,
    and when it answers another command with a body that does not start
    with a non-zero byte followed by [ROM_INVALID_RECV_MSG]. *)
Definition passed_over (op : Z) (p : bytes) : bool :=
  (len p <? 8)
  || negb (le_value (slice p 0 1) =? 1)
  || (negb (le_value (slice p 1 2) =? op)
      && match skipn 8 p with
         | [] => false
         | b0 :: rest =>
             (b0 =? 0)
             || match rest with
                | [] => false
                | b1 :: _ => negb (b1 =? ROM_INVALID_RECV_MSG)
                end
         end).

(** A scripted target that answers every [read()] with the greeting of
    the stub. *)
Definition greeting (d : device) : Prop :=
  forall l, on_read d l = inr OHAI.

(** The outcome of a block write: the one of its last [check_command]. *)
Definition block_outcome (r : result reply) : result unit :=
  match r with
  | inr _ => inr tt
  | inl e => inl e
  end.

(** Did the command fail with a [FatalError]? *)
Definition failed_fatally {A} (r : result A) : bool :=
  match r with
  | inr _ => false
  | inl e => is_FatalError e
  end.

(** A request that does not make the target leave the bootloader: any
    but FLASH_END and FLASH_DEFL_END. *)
Definition stays_in_bootloader (r : request) : Prop :=
  is_command ESP_FLASH_END r = false /\ is_command ESP_FLASH_DEFL_END r = false.

(* ------------------------------------------------------------------ *)
(** ** Saving and rearranging firmware images *)

Module ImageSave.

(** The exceptions of the functions of this part: those met before, the
    [FatalError]s they raise with a message of their own, and a failed
    [assert]. *)
Inductive save_exn :=
| Raised (e : exn)
| SeveralIromSegments (n : nat)    (* "Found %d segments that could be irom0." *)
| DigestOnSegmentBoundary (elf_sha256_offset file_pos segment_size : Z)
                                   (* "Cannot place SHA256 digest on segment boundary" *)
| DigestPlaceNotZero (elf_sha256_offset : Z)
                                   (* "Contents of segment at SHA256 digest offset ... are not all zero." *)
| AssertionError.

(** A file opened with ['wb']: its content and the position of the next
    write. A write behind the end of the content, after a [seek], fills
    the gap with zero bytes. *)
Record out_file := mkOut {
  out_buf : bytes;
  out_pos : nat
}.

Definition W (A : Type) : Type := out_file -> (save_exn + A) * out_file.

Definition retW {A} (a : A) : W A := fun f => (inr a, f).
Definition raiseW {A} (e : save_exn) : W A := fun f => (inl e, f).
Definition bindW {A B} (m : W A) (k : A -> W B) : W B :=
  fun f => match m f with
           | (inr a, f') => k a f'
           | (inl e, f') => (inl e, f')
           end.
Definition liftW {A} (r : result A) : W A :=
  match r with inr a => retW a | inl e => raiseW (Raised e) end.

(** [f.write(b)] *)
Definition write (b : bytes) : W unit := fun f =>
  let filled := out_buf f ++ repeat 0 (out_pos f - length (out_buf f)) in
  (inr tt,
   mkOut (firstn (out_pos f) filled ++ b ++ skipn (out_pos f + length b) filled)
         (out_pos f + length b)).

(** [f.tell()] and [f.seek(offset, 1)] for [offset >= 0] *)
Definition tell : W Z := fun f => (inr (Z.of_nat (out_pos f)), f).
Definition seek_cur (offset : Z) : W unit := fun f =>
  (inr tt, mkOut (out_buf f) (out_pos f + Z.to_nat offset)).

(** [align_file_position(f, size)] on a file that is written *)
Definition align_file_position (size : Z) : W unit :=
  bindW tell (fun t =>
  if size =? 0 then raiseW (Raised ZeroDivisionError)
  else seek_cur ((size - 1) - (t mod size))).

(** A firmware image about to be saved: the attributes of the image and
    the SHA-256 of the ELF file with the place where it is to go. *)
Record saved_image := mkSaved {
  image : Image.FirmwareImage;
  elf_sha256 : option bytes;
  elf_sha256_offset : Z
}.

Definition SEG_HEADER_LEN : Z := 8.
Definition SHA256_DIGEST_LEN : Z := 32.

(** [BaseFirmwareImage.maybe_patch_segment_data] *)
Definition maybe_patch_segment_data (self : saved_image) (segment_data : bytes)
  : W bytes :=
  let segment_len := len segment_data in
  bindW tell (fun file_pos =>
  if (file_pos <=? elf_sha256_offset self)
     && (elf_sha256_offset self <? file_pos + segment_len)
  then
    let patch_offset := elf_sha256_offset self - file_pos in
    if (patch_offset <? SEG_HEADER_LEN)
       || (segment_len <? patch_offset + SHA256_DIGEST_LEN)
    then raiseW (DigestOnSegmentBoundary (elf_sha256_offset self) file_pos segment_len)
    else
      let patch_offset := patch_offset - SEG_HEADER_LEN in
      if negb (bytes_eqb (slice segment_data (Z.to_nat patch_offset)
                                (Z.to_nat (patch_offset + SHA256_DIGEST_LEN)))
                         (repeat 0x00 (Z.to_nat SHA256_DIGEST_LEN)))
      then raiseW (DigestPlaceNotZero (elf_sha256_offset self))
      else
        match elf_sha256 self with
        | None => raiseW (Raised TypeError)
        | Some digest =>
            if negb (len digest =? SHA256_DIGEST_LEN) then raiseW AssertionError
            else retW (slice segment_data 0 (Z.to_nat patch_offset) ++ digest
                       ++ skipn (Z.to_nat (patch_offset + SHA256_DIGEST_LEN))
                                segment_data)
        end
  else retW segment_data).

(** [BaseFirmwareImage.save_segment] with a checksum to carry on *)
Definition save_segment (self : saved_image) (segment : Image.ImageSegment)
    (checksum_ : Z) : W Z :=
  bindW (maybe_patch_segment_data self (Image.data segment)) (fun segment_data =>
  bindW (liftW (pack [I (Image.addr segment); I (len segment_data)])) (fun header =>
  bindW (write header) (fun _ =>
  bindW (write segment_data) (fun _ =>
  retW (checksum segment_data checksum_))))).

(** [for segment in normal_segments: checksum = self.save_segment(...)] *)
Fixpoint save_segments (self : saved_image) (segments : list Image.ImageSegment)
    (checksum_ : Z) : W Z :=
  match segments with
  | [] => retW checksum_
  | segment :: rest =>
      bindW (save_segment self segment checksum_) (fun checksum_ =>
      save_segments self rest checksum_)
  end.

(** [BaseFirmwareImage.append_checksum] *)
Definition append_checksum (checksum_ : Z) : W unit :=
  bindW (align_file_position 16) (fun _ =>
  bindW (liftW (pack [B checksum_])) (fun b =>
  write b)).

(** [BaseFirmwareImage.write_common_header] *)
Definition write_common_header (self : saved_image)
    (segments : list Image.ImageSegment) : W unit :=
  bindW (liftW (pack [B ESP_IMAGE_MAGIC; B (Z.of_nat (length segments));
                      B (Image.flash_mode (image self));
                      B (Image.flash_size_freq (image self));
                      I (Image.entrypoint (image self))]))
        write.

(** [ESP8266ROM.IROM_MAP_START] and [IROM_MAP_END], inherited from
    [ESPLoader]. *)
Definition IROM_MAP_START : Z := 0x40200000.
Definition IROM_MAP_END : Z := 0x40300000.

(** [BaseFirmwareImage.is_irom_addr] *)
Definition is_irom_addr (addr : Z) : bool :=
  (IROM_MAP_START <=? addr) && (addr <? IROM_MAP_END).

(** [BaseFirmwareImage.get_irom_segment] *)
Definition get_irom_segment (self : saved_image)
  : save_exn + option Image.ImageSegment :=
  let irom_segments :=
    filter (fun s => is_irom_addr (Image.addr s)) (Image.segments (image self)) in
  match irom_segments with
  | [] => inr None
  | [s] => inr (Some s)
  | _ => inl (SeveralIromSegments (length irom_segments))
  end.

(** [BaseFirmwareImage.get_non_irom_segments]. [s != irom_segment]
    compares objects: it is false for the one segment that
    [get_irom_segment] returned, which is the one segment with an
    address in the IROM range. *)
Definition get_non_irom_segments (self : saved_image)
  : save_exn + list Image.ImageSegment :=
  match get_irom_segment self with
  | inl e => inl e
  | inr None => inr (Image.segments (image self))
  | inr (Some _) =>
      inr (filter (fun s => negb (is_irom_addr (Image.addr s)))
                  (Image.segments (image self)))
  end.

(** [ESP8266ROMFirmwareImage.save(basename)]: the files it writes, the
    one for the IROM segment, if there is one, with the offset that its
    name carries, and ["<basename>0x00000.bin"]. What an exception
    leaves on the disk is not kept. *)
Definition save (self : saved_image) : save_exn + (option (Z * bytes) * bytes) :=
  match get_irom_segment self with
  | inl e => inl e
  | inr irom_segment =>
      let irom_file :=
        match irom_segment with
        | Some s => Some (Image.addr s - IROM_MAP_START, Image.data s)
        | None => None
        end in
      match get_non_irom_segments self with
      | inl e => inl e
      | inr normal_segments =>
          match
            bindW (write_common_header self normal_segments) (fun _ =>
            bindW (save_segments self normal_segments ESP_CHECKSUM_MAGIC)
                  append_checksum) (mkOut [] 0)
          with
          | (inl e, _) => inl e
          | (inr _, f) => inr (irom_file, out_buf f)
          end
      end
  end.

(** [BaseFirmwareImage.calculate_checksum] *)
Fixpoint checksum_segments (segments : list Image.ImageSegment) (checksum_ : Z) : Z :=
  match segments with
  | [] => checksum_
  | seg :: rest =>
      checksum_segments rest
        (if Image.include_in_checksum seg
         then checksum (Image.data seg) checksum_
         else checksum_)
  end.

Definition calculate_checksum (image : Image.FirmwareImage) : Z :=
  checksum_segments (Image.segments image) ESP_CHECKSUM_MAGIC.

(** [ImageSegment.split_image(split_len)] for [split_len >= 0]: the new
    segment it returns, and the segment itself as it is left. *)
Definition split_image (self : Image.ImageSegment) (split_len : Z)
  : Image.ImageSegment * Image.ImageSegment :=
  (Image.mkSegment (Image.addr self)
     (firstn (Z.to_nat split_len) (Image.data self))
     None (Image.include_in_checksum self),
   Image.mkSegment (Image.addr self + split_len)
     (skipn (Z.to_nat split_len) (Image.data self))
     None (Image.include_in_checksum self)).

(** [ImageSegment.get_memory_type(image)], with the [MEMORY_MAP] of
    [image.ROM_LOADER] *)
Definition get_memory_type (MEMORY_MAP : list (Z * Z * string))
    (self : Image.ImageSegment) : list string :=
  map (fun map_range => snd map_range)
      (filter (fun map_range =>
                 (fst (fst map_range) <=? Image.addr self)
                 && (Image.addr self <? snd (fst map_range)))
              MEMORY_MAP).

Definition names_eqb (a b : list string) : bool :=
  if list_eq_dec string_dec a b then true else false.

(** The test of [merge_adjacent_segments]: may [next_elem] be merged
    into [elem]? *)
Definition mergeable (MEMORY_MAP : list (Z * Z * string))
    (elem next_elem : Image.ImageSegment) : bool :=
  names_eqb (get_memory_type MEMORY_MAP elem) (get_memory_type MEMORY_MAP next_elem)
  && Bool.eqb (Image.include_in_checksum elem) (Image.include_in_checksum next_elem)
  && (Image.addr next_elem =? Image.addr elem + len (Image.data elem)).

(** The loop of [merge_adjacent_segments], which goes through the list
    backward: for the segment [elem] followed by [later], the rounds for
    the segments of [later] have run when the round that looks at [elem]
    and its successor starts. The result is [elem] as that round leaves
    it and the list [segments] built so far. *)
Fixpoint merge_backward (MEMORY_MAP : list (Z * Z * string))
    (elem : Image.ImageSegment) (later : list Image.ImageSegment)
  : Image.ImageSegment * list Image.ImageSegment :=
  match later with
  | [] => (elem, [])
  | next :: later' =>
      let '(next_elem, segments) := merge_backward MEMORY_MAP next later' in
      if mergeable MEMORY_MAP elem next_elem
      then (Image.mkSegment (Image.addr elem)
              (Image.data elem ++ Image.data next_elem)
              (Image.file_offs elem) (Image.include_in_checksum elem),
            segments)
      else (elem, next_elem :: segments)
  end.

(** [BaseFirmwareImage.merge_adjacent_segments]: the new [self.segments] *)
Definition merge_adjacent_segments (MEMORY_MAP : list (Z * Z * string))
    (segments : list Image.ImageSegment) : list Image.ImageSegment :=
  match segments with
  | [] => []
  | first :: later =>
      let '(first, segments) := merge_backward MEMORY_MAP first later in
      first :: segments
  end.

(** [ESP8266ROM.MEMORY_MAP] *)
Definition ESP8266_MEMORY_MAP : list (Z * Z * string) :=
  [(0x3FF00000, 0x3FF00010, "DPORT"); (0x3FFE8000, 0x40000000, "DRAM");
   (0x40100000, 0x40108000, "IRAM"); (0x40201010, 0x402E1010, "IROM")]%string.

(** The bytes of a segment with the addresses they are loaded at. *)
Fixpoint placed_from (addr : Z) (data : bytes) : list (Z * Z) :=
  match data with
  | [] => []
  | b :: rest => (addr, b) :: placed_from (addr + 1) rest
  end.

Definition placed (s : Image.ImageSegment) : list (Z * Z) :=
  placed_from (Image.addr s) (Image.data s).

(** A segment as [ImageSegment.__init__] leaves it: a multiple of 4 bytes
    long unless its address is 0. *)
Definition padded_segment (s : Image.ImageSegment) : Prop :=
  Image.addr s <> 0 -> len (Image.data s) mod 4 = 0.

End ImageSave.

(* ------------------------------------------------------------------ *)
(** ** Command-line arguments *)

(** [argparse.ArgumentError] of [AddrFilenamePairAction], by message. *)
Inductive ArgumentError :=
| DetectedOverlap (address : Z) (name : string).
                   (* "Detected overlap at address: 0x%x for file: %s" *)

(** [ESPLoader.FLASH_SECTOR_SIZE] *)
Definition ESPLoader_FLASH_SECTOR_SIZE : Z := 0x1000.

(** The second loop of [AddrFilenamePairAction.__call__], over the pairs
    sorted by address, entered with [end_]; the size of a file is the
    position that [seek(0, 2)] reaches. *)
Fixpoint check_overlap (end_ : Z) (sorted_pairs : list (Z * argfile))
  : option ArgumentError :=
  match sorted_pairs with
  | [] => None
  | (address, argfile) :: rest =>
      let size := len (content argfile) in
      let sector_start :=
        Z.land address (Z.lnot (ESPLoader_FLASH_SECTOR_SIZE - 1)) in
      let sector_end :=
        Z.land (address + size + ESPLoader_FLASH_SECTOR_SIZE - 1)
               (Z.lnot (ESPLoader_FLASH_SECTOR_SIZE - 1)) - 1 in
      if sector_start <? end_
      then Some (DetectedOverlap address (name argfile))
      else check_overlap sector_end rest
  end.

(** [AddrFilenamePairAction.__call__] once the pairs are read: the value
    it stores in the namespace, or the error it raises. *)
Definition AddrFilenamePairAction (pairs : list (Z * argfile))
  : ArgumentError + list (Z * argfile) :=
  match check_overlap 0 (sorted_by_address pairs) with
  | Some e => inl e
  | None => inr pairs
  end.

(** The first and the last flash sector that a file touches, the last
    one counted exclusively. *)
Definition first_sector (pair : Z * argfile) : Z :=
  fst pair / ESPLoader_FLASH_SECTOR_SIZE.

Definition sectors_end (pair : Z * argfile) : Z :=
  (fst pair + len (content (snd pair)) + ESPLoader_FLASH_SECTOR_SIZE - 1)
  / ESPLoader_FLASH_SECTOR_SIZE.

(* ------------------------------------------------------------------ *)
(** ** The efuse queries of [ESP32ROM] *)

Definition EFUSE_RD_REG_BASE : Z := 0x3ff5a000.
Definition EFUSE_DIS_DOWNLOAD_MANUAL_ENCRYPT_REG : Z := EFUSE_RD_REG_BASE + 0x18.
Definition EFUSE_DIS_DOWNLOAD_MANUAL_ENCRYPT : Z := Z.shiftl 1 7.

Section Esp32Efuse.

Context {C : Type} `{Transport C}.

(** [ESP32ROM.read_efuse] *)
Definition read_efuse (n : Z) : M (session C) Z :=
  read_reg (EFUSE_RD_REG_BASE + (4 * n)).

(** The loop [for i in range(len(key_word))] of
    [is_flash_encryption_key_valid], from [i] for [n] rounds *)
Fixpoint key_word_loop (n : nat) (i : Z) : M (session C) bool :=
  match n with
  | O => ret false
  | S k =>
      key_word <- read_efuse (14 + i) ;;
      if negb (key_word =? 0) then ret true
      else key_word_loop k (i + 1)
  end.

(** [ESP32ROM.is_flash_encryption_key_valid] *)
Definition ESP32ROM_is_flash_encryption_key_valid : M (session C) bool :=
  word0 <- read_efuse 0 ;;
  let rd_disable := Z.land (Z.shiftr word0 16) 0x1 in
  if negb (rd_disable =? 0) then ret true
  else key_word_loop 7 0.

(** [ESP32ROM.get_flash_crypt_config] *)
Definition ESP32ROM_get_flash_crypt_config : M (session C) (option Z) :=
  word0 <- read_efuse 0 ;;
  let rd_disable := Z.land (Z.shiftr word0 19) 0x1 in
  if rd_disable =? 0 then
    word5 <- read_efuse 5 ;;
    let word5 := Z.land (Z.shiftr word5 28) 0xF in
    ret (Some word5)
  else ret (Some 0xF).

(** [ESP32ROM.get_encrypted_download_disabled] *)
Definition ESP32ROM_get_encrypted_download_disabled : M (session C) bool :=
  v <- read_reg EFUSE_DIS_DOWNLOAD_MANUAL_ENCRYPT_REG ;;
  if negb (Z.land v EFUSE_DIS_DOWNLOAD_MANUAL_ENCRYPT =? 0) then ret true
  else ret false.

(** The methods that [write_flash] calls on an [ESP32ROM], with
    [verify_flash] given. *)
Definition ESP32ROM_collaborators (verify_flash : M (session C) unit)
  : collaborators C :=
  mkCollaborators C ESP32ROM_get_encrypted_download_disabled
                  ESP32ROM_get_flash_crypt_config
                  ESP32ROM_is_flash_encryption_key_valid verify_flash.

End Esp32Efuse.

(** A scripted target with a register file: it answers READ_REG for the
    address [a] with the value [regs a] and accepts every command. *)
Definition answers_from (regs : Z -> Z) (d : device) : Prop :=
  forall l op data chk,
    on_command d l op data chk
    = inr (match op with
           | Some o => if o =? ESP_READ_REG then regs (le_value data) else 0
           | None => 0
           end, [0; 0; 0; 0]).

Definition register_device (regs : Z -> Z) : device :=
  mkDevice (fun _ op data _ =>
              inr (match op with
                   | Some o => if o =? ESP_READ_REG then regs (le_value data) else 0
                   | None => 0
                   end, [0; 0; 0; 0]))
           (fun _ => inr []) [].

(** Is the request a READ_REG? *)
Definition is_read_reg (r : request) : Prop := is_command ESP_READ_REG r = true.

(* ------------------------------------------------------------------ *)
(** ** Placing the flash segments of an ESP32 image *)

(** [ESP32FirmwareImage.IROM_ALIGN] *)
Definition IROM_ALIGN : Z := 65536.

(** [get_alignment_data_needed(segment)] of [ESP32FirmwareImage.save],
    with [tell] the position [f.tell()] of the file being written and
    [addr] the address of the segment. *)
Definition get_alignment_data_needed (tell addr : Z) : Z :=
  let align_past := (addr mod IROM_ALIGN) - ImageSave.SEG_HEADER_LEN in
  let pad_len := (IROM_ALIGN - (tell mod IROM_ALIGN)) + align_past in
  if (pad_len =? 0) || (pad_len =? IROM_ALIGN) then 0
  else
    let pad_len := pad_len - ImageSave.SEG_HEADER_LEN in
    if pad_len <? 0 then pad_len + IROM_ALIGN else pad_len.

(** The condition that [save] asserts before it writes a flash segment
    at position [tell]. *)
Definition flash_segment_aligned (tell addr : Z) : bool :=
  (tell + 8) mod IROM_ALIGN =? addr mod IROM_ALIGN.

(* ------------------------------------------------------------------ *)
(** ** Chip id and MAC address of the ESP8266 *)

Definition MAX_UINT24 : Z := 0xffffff.

(** OTP ROM addresses of [ESP8266ROM] *)
Definition ESP_OTP_MAC0 : Z := 0x3ff00050.
Definition ESP_OTP_MAC1 : Z := 0x3ff00054.
Definition ESP_OTP_MAC3 : Z := 0x3ff0005c.

(** The [FatalError] that [ESP8266ROM.read_mac] raises itself; the
    exceptions of [read_reg] pass through [M]. *)
Inductive read_mac_error :=
| UnknownOUI.                           (* "Unknown OUI" *)

Section Esp8266Otp.

Context {C : Type} `{Transport C}.

(** [ESP8266ROM.chip_id] *)
Definition ESP8266ROM_chip_id : M (session C) Z :=
  id0 <- read_reg ESP_OTP_MAC0 ;;
  id1 <- read_reg ESP_OTP_MAC1 ;;
  ret (Z.lor (Z.shiftr id0 24) (Z.shiftl (Z.land id1 MAX_UINT24) 8)).

(** [ESP8266ROM.read_mac]: the tuple of six bytes, or the error raised. *)
Definition ESP8266ROM_read_mac : M (session C) (read_mac_error + list Z) :=
  mac0 <- read_reg ESP_OTP_MAC0 ;;
  mac1 <- read_reg ESP_OTP_MAC1 ;;
  mac3 <- read_reg ESP_OTP_MAC3 ;;
  let tail := [Z.land (Z.shiftr mac1 8) 0xff; Z.land mac1 0xff;
               Z.land (Z.shiftr mac0 24) 0xff] in
  if negb (mac3 =? 0)
  then ret (inr ([Z.land (Z.shiftr mac3 16) 0xff; Z.land (Z.shiftr mac3 8) 0xff;
                  Z.land mac3 0xff] ++ tail))
  else if Z.land (Z.shiftr mac1 16) 0xff =? 0
  then ret (inr ([0x18; 0xfe; 0x34] ++ tail))
  else if Z.land (Z.shiftr mac1 16) 0xff =? 1
  then ret (inr ([0xac; 0xd0; 0x74] ++ tail))
  else ret (inl UnknownOUI).

End Esp8266Otp.

(* ------------------------------------------------------------------ *)
(** ** Merging binaries into one file *)

(** The [FatalError]s that [merge_bin] raises itself, by message. *)
Inductive merge_bin_error :=
| InvalidChipChoice                     (* "Please specify the chip argument" / "Invalid chip choice" *)
| NoInputFiles                          (* "No input files specified" *)
| BeforeTargetOffset (target_offset first_addr : Z)
                                        (* "Output file target offset is 0x%x. Input file offset 0x%x is before this." *)
| UnsupportedFormat.                    (* "This version of esptool only supports the 'raw' output format" *)

(** "Wrote 0x%x bytes to file %s, ready to flash to offset 0x%x" *)
Inductive merge_bin_line :=
| WroteBytes (count target_offset : Z).

(** [pad_to(flash_offs)] of [merge_bin]: [of_] is the output file written
    so far, which is only ever appended to; a byte string times a
    negative number is empty. *)
Definition merge_pad_to (target_offset : Z) (of_ : bytes) (flash_offs : Z) : bytes :=
  of_ ++ repeat 0xFF (Z.to_nat (flash_offs - target_offset - len of_)).

Section MergeBin.

Context {C : Type} `{Transport C}.
Variable lib : libraries.

(** [for addr, argfile in input_files] of [merge_bin] *)
Fixpoint merge_files (chip_class : ESPLoader) (args : Args) (target_offset : Z)
    (input_files : list (Z * argfile)) (of_ : bytes) : M (session C) bytes :=
  match input_files with
  | [] => ret of_
  | (addr, argfile) :: rest =>
      let of_ := merge_pad_to target_offset of_ addr in
      image <- _update_image_flash_params lib chip_class addr args (content argfile) ;;
      merge_files chip_class args target_offset rest (of_ ++ image)
  end.

(** [merge_bin]: [chip_class] is what [_chip_to_rom_loader(args.chip)]
    finds, [None] for its [KeyError]; [target_offset], [format] and
    [fill_flash_size] are the attributes of [args] of these names. The
    result is the content of the output file with the line printed at
    the end, or the error raised. *)
Definition merge_bin (chip_class : option ESPLoader) (args : Args)
    (target_offset : Z) (format : string) (fill_flash_size : option string)
  : M (session C) (merge_bin_error + bytes * merge_bin_line) :=
  match chip_class with
  | None => ret (inl InvalidChipChoice)
  | Some chip_class =>
      let input_files := sorted_by_address (addr_filename args) in
      match input_files with
      | [] => ret (inl NoInputFiles)
      | (first_addr, _) :: _ =>
          if first_addr <? target_offset
          then ret (inl (BeforeTargetOffset target_offset first_addr))
          else if negb (String.eqb format "raw")
          then ret (inl UnsupportedFormat)
          else
            of_ <- merge_files chip_class args target_offset input_files [] ;;
            of_ <- match fill_flash_size with
                   | Some size =>
                       if String.eqb size "" then ret of_
                       else
                         flash_end <- lift (flash_size_bytes size) ;;
                         ret (merge_pad_to target_offset of_ flash_end)
                   | None => ret of_
                   end ;;
            ret (inr (of_, WroteBytes (len of_) target_offset))
      end
  end.

End MergeBin.

(** The files follow each other from [pos] on without overlap. *)
Fixpoint ascending (pos : Z) (files : list (Z * argfile)) : Prop :=
  match files with
  | [] => True
  | (addr, f) :: rest => pos <= addr /\ ascending (addr + len (content f)) rest
  end.

(* ------------------------------------------------------------------ *)
(** ** Verifying the flash *)

Module Verify.

(** The lines [verify_flash] prints. *)
Inductive verify_line :=
| Verifying (image_size address : Z) (name : string)
         (* "Verifying 0x%x (%d) bytes @ 0x%08x in flash against %s..." *)
| VerifyOK                              (* "-- verify OK (digest matched)" *)
| VerifyFailedDigest                    (* "-- verify FAILED (digest mismatch)" *)
| VerifyFailedDiff (count first : Z)    (* "-- verify FAILED: %d differences, first @ 0x%08x" *)
| DiffByte (address flash_byte image_byte : Z).   (* "   %08x %02x %02x" *)

(** What [verify_flash] raises itself; the exceptions of the loader
    pass through [M]. *)
Inductive verify_flash_error :=
| FlashEqualsImage                      (* AssertionError of [assert flash != image] *)
| VerifyFailed.                         (* FatalError("Verify failed.") *)

(** The target and everything printed, the lines of the loader and the
    lines of [verify_flash] in the order they were printed. *)
Record console (C : Type) := mkConsole {
  target : C;
  shown : list (message + verify_line)
}.
Arguments mkConsole {C}.
Arguments target {C}.
Arguments shown {C}.

(** A computation of the loader run from [verify_flash]: what it prints
    goes behind the lines shown so far. *)
Definition inner {C A} (m : M (session C) A) : M (console C) A := fun st =>
  match m (mkSession (target st) []) with
  | (r, s') => (r, mkConsole (transport s') (shown st ++ map inl (stdout s')))
  end.

Definition of_result {C A} (r : result A) : M (console C) A :=
  match r with inr a => ret a | inl e => raise e end.

Definition say {C} (l : verify_line) : M (console C) unit :=
  modify (fun st => mkConsole (target st) (shown st ++ [inr l])).

(** [[i for i in range(image_size) if flash[i] != image[i]]], from
    index [i] on; [image_size] is the length of [image]. *)
Fixpoint differing (flash image : bytes) (i : Z) : result (list Z) :=
  match image with
  | [] => inr []
  | image_byte :: image' =>
      match flash with
      | [] => inl IndexError
      | flash_byte :: flash' =>
          match differing flash' image' (i + 1) with
          | inl e => inl e
          | inr rest =>
              inr (if negb (flash_byte =? image_byte) then i :: rest else rest)
          end
      end
  end.

Section VerifyFlash.

Context {C : Type} `{Transport C}.
Variable lib : libraries.

(** [esp.read_flash(address, image_size)], taken as given. *)
Variable read_flash : Z -> Z -> M (session C) bytes.

(** [for d in diff] *)
Fixpoint print_diff (address : Z) (flash image : bytes) (diff : list Z)
  : M (console C) unit :=
  match diff with
  | [] => ret tt
  | d :: rest =>
      say (DiffByte (address + d) (nth (Z.to_nat d) flash 0)
                    (nth (Z.to_nat d) image 0)) ;;;
      print_diff address flash image rest
  end.

(** [for address, argfile in args.addr_filename] of [verify_flash]:
    [diff] is [getattr(args, 'diff', 'no')]. The result is the value of
    [differences] behind the loop, or the assertion that failed. *)
Fixpoint verify_files (esp : ESPLoader) (args : Args) (diff : string)
    (files : list (Z * argfile)) (differences : bool)
  : M (console C) (verify_flash_error + bool) :=
  match files with
  | [] => ret (inr differences)
  | (address, argfile) :: rest =>
      image <- of_result (pad_to (content argfile) 4 0xFF) ;;
      image <- inner (_update_image_flash_params lib esp address args image) ;;
      let image_size := len image in
      say (Verifying image_size address (name argfile)) ;;;
      digest <- inner (flash_md5sum esp address image_size) ;;
      let expected_digest := md5_hexdigest lib image in
      if bytes_eqb digest expected_digest
      then
        say VerifyOK ;;;
        verify_files esp args diff rest differences
      else if negb (String.eqb diff "yes")
      then
        say VerifyFailedDigest ;;;
        verify_files esp args diff rest true
      else
        flash <- inner (read_flash address image_size) ;;
        if bytes_eqb flash image then ret (inl FlashEqualsImage)
        else
          diffs <- of_result (differing flash image 0) ;;
          match diffs with
          | [] => raise IndexError
          | first :: _ =>
              say (VerifyFailedDiff (len diffs) (address + first)) ;;;
              print_diff address flash image diffs ;;;
              verify_files esp args diff rest true
          end
  end.

(** [verify_flash] *)
Definition verify_flash (esp : ESPLoader) (args : Args) (diff : string)
  : M (console C) (verify_flash_error + unit) :=
  r <- verify_files esp args diff (addr_filename args) false ;;
  match r with
  | inl e => ret (inl e)
  | inr differences =>
      if differences : bool then ret (inl VerifyFailed) else ret (inr tt)
  end.

End VerifyFlash.

(** The image that [verify_flash] compares for a file, when the flash
    parameters are kept. *)
Definition padded_image (f : argfile) : bytes :=
  match pad_to (content f) 4 0xFF with inr d => d | inl _ => content f end.

(** The request for the MD5 digest of [size] bytes at [address]. *)
Definition md5_request (address size : Z) : request :=
  Command (Some ESP_SPI_FLASH_MD5)
          (le_bytes 4 address ++ le_bytes 4 size ++ le_bytes 4 0 ++ le_bytes 4 0) 0.

(** A target that answers every MD5 request with the digest
    [digest_at address size], 32 characters of ASCII as the hexadecimal
    digits are, and a zero status. *)
Definition flash_digests (esp : ESPLoader) (digest_at : Z -> Z -> bytes)
    (d : device) : Prop :=
  forall l address size,
    0 <= address < 2 ^ 32 ->
    0 <= size < 2 ^ 32 ->
    length (digest_at address size) = 32%nat
    /\ Forall (fun c => 0 <= c < 128) (digest_at address size)
    /\ on_command d l (Some ESP_SPI_FLASH_MD5)
         (le_bytes 4 address ++ le_bytes 4 size ++ le_bytes 4 0 ++ le_bytes 4 0) 0
       = inr (0, digest_at address size ++ repeat 0 (STATUS_BYTES_LENGTH esp)).

End Verify.

(* ------------------------------------------------------------------ *)
(** ** Reading the flash *)

Definition ESP_READ_FLASH_SLOW : Z := 0x0e.
Definition ESP_READ_FLASH : Z := 0xD2.

(** The [FatalError]s that [read_flash] and [read_flash_slow] raise
    themselves, by message; the exceptions of the loader pass through
    [M]. *)
Inductive read_flash_error :=
| ShortBlock (block_len got : Z)
                     (* "Expected %d byte block, got %d bytes. Serial errors?" *)
| CorruptData (expected got : Z)
                     (* "Corrupt data, expected 0x%x bytes but received 0x%x bytes" *)
| ReadMoreThanExpected                  (* "Read more than expected" *)
| ExpectedDigest (digest_frame : bytes) (* "Expected digest, got: %s" *)
| DigestMismatch (expected_digest digest : bytes).
                     (* "Digest mismatch: expected %s, got %s" *)

(** One upper-case hexadecimal digit, as a character code *)
Definition hex_digit_upper (d : Z) : Z := if d <? 10 then 48 + d else 55 + d.

(** [hexify(s)] *)
Definition hexify (s : bytes) : bytes :=
  flat_map (fun c => [hex_digit_upper (c / 16); hex_digit_upper (c mod 16)]) s.

(** [s.upper()] for a string of ASCII characters, as hexadecimal digests are *)
Definition upper (s : bytes) : bytes :=
  map (fun c => if (97 <=? c) && (c <=? 122) then c - 32 else c) s.

Section ReadFlash.

Context {C : Type} `{Transport C}.

(** [progress_fn]; [None] is the default. *)
Variable progress_fn : option (Z -> Z -> M (session C) unit).

(** [if progress_fn and (len(data) % 1024 == 0 or len(data) == length):
    progress_fn(len(data), length)] *)
Definition report_progress (received length : Z) : M (session C) unit :=
  match progress_fn with
  | Some fn =>
      if (received mod 1024 =? 0) || (received =? length)
      then fn received length else ret tt
  | None => ret tt
  end.

(** The [while len(data) < length] loop of [ESP32ROM.read_flash_slow],
    at most [bound] iterations. Each iteration adds
    [min(BLOCK_LEN, length - len(data))] bytes, so [length] iterations
    are enough. *)
Fixpoint read_flash_slow_loop (esp : ESPLoader) (offset length : Z) (bound : nat)
    (data : bytes) : M (session C) (read_flash_error + bytes) :=
  if len data <? length then
    match bound with
    | O => raise LoopBound
    | S k =>
        let BLOCK_LEN := 64 in
        let block_len := Z.min BLOCK_LEN (length - len data) in
        payload <- lift (pack [I (offset + len data); I block_len]) ;;
        r <- check_command esp (Some ESP_READ_FLASH_SLOW) payload 0 ;;
        match r with
        | RVal _ => raise TypeError
        | RData r =>
            if len r <? block_len
            then ret (inl (ShortBlock block_len (len r)))
            else
              let data := data ++ firstn (Z.to_nat block_len) r in
              report_progress (len data) length ;;;
              read_flash_slow_loop esp offset length k data
        end
    end
  else ret (inr data).

(** [read_flash_slow]: [ESP32ROM] and the classes derived from it have the
    loop, the others raise [NotImplementedInROMError]. *)
Definition read_flash_slow (esp : ESPLoader) (offset length : Z)
  : M (session C) (read_flash_error + bytes) :=
  if isinstance_ESP32ROM (CHIP esp)
  then read_flash_slow_loop esp offset length (Z.to_nat length) []
  else raise NotImplementedInROMError.

End ReadFlash.

Section ReadFlashStub.

Variable lib : libraries.
Variable progress_fn : option (Z -> Z -> M (session Serial.channel) unit).

(** The [while len(data) < length] loop of [ESPLoader.read_flash], at
    most [bound] iterations. A packet that leaves the data short is a
    whole sector, so [length] iterations are enough with a sector size
    of one byte or more. *)
Fixpoint read_flash_loop (esp : ESPLoader) (length : Z) (bound : nat)
    (data : bytes) : M (session Serial.channel) (read_flash_error + bytes) :=
  if len data <? length then
    match bound with
    | O => raise LoopBound
    | S k =>
        p <- on_transport Serial.read ;;
        let data := data ++ p in
        if (len data <? length) && (len p <? FLASH_SECTOR_SIZE esp)
        then ret (inl (CorruptData (FLASH_SECTOR_SIZE esp) (len p)))
        else
          ack <- lift (pack [I (len data)]) ;;
          on_transport (Serial.write ack) ;;;
          report_progress progress_fn (len data) length ;;;
          read_flash_loop esp length k data
    end
  else ret (inr data).

(** [ESPLoader.read_flash] on a serial port *)
Definition read_flash (esp : ESPLoader) (offset length : Z)
  : M (session Serial.channel) (read_flash_error + bytes) :=
  if negb (IS_STUB esp) then read_flash_slow progress_fn esp offset length
  else
    payload <- lift (pack [I offset; I length; I (FLASH_SECTOR_SIZE esp); I 64]) ;;
    check_command esp (Some ESP_READ_FLASH) payload 0 ;;;
    r <- read_flash_loop esp length (Z.to_nat length) [] ;;
    match r with
    | inl e => ret (inl e)
    | inr data =>
        match progress_fn with
        | Some fn => fn (len data) length
        | None => ret tt
        end ;;;
        if length <? len data then ret (inl ReadMoreThanExpected)
        else
          digest_frame <- on_transport Serial.read ;;
          if negb (len digest_frame =? 16)
          then ret (inl (ExpectedDigest digest_frame))
          else
            let expected_digest := upper (hexify digest_frame) in
            let digest := upper (md5_hexdigest lib data) in
            if negb (bytes_eqb digest expected_digest)
            then ret (inl (DigestMismatch expected_digest digest))
            else ret (inr data)
    end.

End ReadFlashStub.

(** The frames that [read_flash] writes for the packets [ps] when
    [received] bytes have come before: the length of the data so far
    after each packet. *)
Fixpoint read_flash_acks (received : Z) (ps : list bytes) : list bytes :=
  match ps with
  | [] => []
  | p :: rest =>
      Slip.write (le_bytes 4 (received + len p))
      :: read_flash_acks (received + len p) rest
  end.

(** The [n] bytes of a flash memory from [addr] on; [flash] gives the
    byte at an address. *)
Definition flash_bytes (flash : Z -> Z) (addr : Z) (n : nat) : bytes :=
  map (fun i => flash (addr + Z.of_nat i)) (seq 0 n).

(** The request for [block_len] bytes at [addr]. *)
Definition read_flash_slow_request (addr block_len : Z) : request :=
  Command (Some ESP_READ_FLASH_SLOW) (le_bytes 4 addr ++ le_bytes 4 block_len) 0.

(** A ROM loader that answers every READ_FLASH_SLOW request with a
    buffer of 64 bytes of the flash and a zero status. *)
Definition flash_reader (esp : ESPLoader) (flash : Z -> Z) (d : device) : Prop :=
  forall l addr block_len,
    0 <= addr < 2 ^ 32 ->
    0 <= block_len < 2 ^ 32 ->
    on_command d l (Some ESP_READ_FLASH_SLOW)
      (le_bytes 4 addr ++ le_bytes 4 block_len) 0
    = inr (0, flash_bytes flash addr 64 ++ repeat 0 (STATUS_BYTES_LENGTH esp)).

(* ------------------------------------------------------------------ *)
(** ** The extended header of an ESP32 image *)

(** [join_byte(ln, hn)] of [save_extended_header] *)
Definition join_byte (ln hn : Z) : Z :=
  Z.land ln 0x0F + Z.shiftl (Z.land hn 0x0F) 4.

(** [ESP32FirmwareImage.save_extended_header]; the drive strengths
    [drv] are clk, q, d, cs, hd and wp. *)
Definition save_extended_header (IMAGE_CHIP_ID : Z) (h : Image.ExtendedHeader)
  : ImageSave.W unit :=
  let append_digest := if Image.append_digest h then 1 else 0 in
  let drv := fun i => nth i (Image.drv h) 0 in
  let fields := [B (Image.wp_pin h);
                 B (join_byte (drv 0%nat) (drv 1%nat));
                 B (join_byte (drv 2%nat) (drv 3%nat));
                 B (join_byte (drv 4%nat) (drv 5%nat));
                 H IMAGE_CHIP_ID;
                 B (Image.min_rev h);
                 H (Image.min_rev_full h);
                 H (Image.max_rev_full h)] in
  let fields := fields ++ repeat (B 0) 4 in
  let fields := fields ++ [B append_digest] in
  ImageSave.bindW (ImageSave.liftW (pack fields)) ImageSave.write.

(* ------------------------------------------------------------------ *)
(** ** Observations used in the properties *)

(** A segment as [save_segment] writes it: address, length, data. *)
Definition seg_bytes (s : Image.ImageSegment) : bytes :=
  le_bytes 4 (Image.addr s) ++ le_bytes 4 (len (Image.data s)) ++ Image.data s.

(** The next write goes to the end of the file. *)
Definition at_end (f : ImageSave.out_file) : Prop :=
  ImageSave.out_pos f = length (ImageSave.out_buf f).

(** From [s] to [s'] only registers were read and lines printed. *)
Definition reads_only (s s' : session device) : Prop :=
  on_command (transport s') = on_command (transport s)
  /\ (exists added,
        log (transport s') = log (transport s) ++ added
        /\ Forall is_read_reg added)
  /\ (forall m, In m (stdout s) -> In m (stdout s')).

(** The bytes of a file at [addr] that the flash parameters leave as
    they are: all but bytes 2 and 3 of a file at the bootloader offset. *)
Definition untouched (chip_class : ESPLoader) (addr : Z) (i : nat) : Prop :=
  addr = BOOTLOADER_FLASH_OFFSET chip_class -> i <> 2%nat /\ i <> 3%nat.

(** What a list of files leaves in the output of [merge_bin] behind the
    bytes [of_]. *)
Definition laid_out (chip_class : ESPLoader) (target_offset : Z)
    (files : list (Z * argfile)) (of_ file : bytes) : Prop :=
  firstn (length of_) file = of_
  /\ (length of_ <= length file)%nat
  /\ (forall addr f, In (addr, f) files ->
        target_offset + len of_ <= addr
        /\ addr + len (content f) <= target_offset + len file
        /\ forall i b,
             nth_error (content f) i = Some b ->
             untouched chip_class addr i ->
             nth_error file (Z.to_nat (addr - target_offset) + i) = Some b)
  /\ (forall k b,
        (length of_ <= k)%nat ->
        nth_error file k = Some b ->
        b = 0xFF
        \/ exists addr f i,
             In (addr, f) files
             /\ k = (Z.to_nat (addr - target_offset) + i)%nat
             /\ (i < length (content f))%nat).

(** Does the digest of the flash match the digest of the file? *)
Definition digest_matches (lib : libraries) (digest_at : Z -> Z -> bytes)
    (p : Z * argfile) : bool :=
  bytes_eqb (digest_at (fst p) (len (Verify.padded_image (snd p))))
            (md5_hexdigest lib (Verify.padded_image (snd p))).

(** The lines [verify_flash] prints for a file, and the request it sends. *)
Definition verify_lines (lib : libraries) (digest_at : Z -> Z -> bytes)
    (p : Z * argfile) : list (message + Verify.verify_line) :=
  [inr (Verify.Verifying (len (Verify.padded_image (snd p))) (fst p) (name (snd p)));
   inr (if digest_matches lib digest_at p
        then Verify.VerifyOK else Verify.VerifyFailedDigest)].

Definition verify_request (p : Z * argfile) : request :=
  Verify.md5_request (fst p) (len (Verify.padded_image (snd p))).

(** The request of round [j] of [read_flash_slow]. *)
Definition round_request (offset length : Z) (j : nat) : request :=
  read_flash_slow_request (offset + 64 * Z.of_nat j)
                          (Z.min 64 (length - 64 * Z.of_nat j)).

(* ================================================================== *)
(** * Properties *)

(* ------------------------------------------------------------------ *)
(** ** Checksum *)

Lemma checksum_fold_left (data : bytes) (state : Z) :
  checksum data state = fold_left Z.lxor data state.
Proof.
  revert state. induction data as [|b rest IH]; intros state; simpl; auto.
Qed.

(** The seed can be folded in last. *)
Lemma checksum_seed (data : bytes) (state : Z) :
  checksum data state = Z.lxor state (checksum data 0).
Proof.
  revert state. induction data as [|b rest IH]; intros state; simpl.
  - now rewrite Z.lxor_0_r.
  - change (Z.lxor 0 b) with b. rewrite IH, (IH b). now rewrite Z.lxor_assoc.
Qed.

(** C3. The checksum is the XOR-fold of the data bytes into the seed, so
    it depends on nothing but the data and the seed, and folding the same
    data into the result once more gives the seed back. *)
Theorem checksum_involution (data : bytes) (seed : Z) :
  checksum data seed = fold_left Z.lxor data seed
  /\ checksum data (checksum data seed) = seed.
Proof.
  split.
  - apply checksum_fold_left.
  - rewrite (checksum_seed data (checksum data seed)), (checksum_seed data seed).
    rewrite Z.lxor_assoc, Z.lxor_nilpotent. apply Z.lxor_0_r.
Qed.

Example checksum_involution_example :
  checksum [0x12; 0xab; 0xff] ESP_CHECKSUM_MAGIC = 0xa9
  /\ checksum [0x12; 0xab; 0xff] 0xa9 = ESP_CHECKSUM_MAGIC.
Proof. split; reflexivity. Qed.

(* ------------------------------------------------------------------ *)
(** ** Segment count *)

Example load_17_segments_rejected :
  fst (Image.ESP8266ROMFirmwareImage (Image.BytesIO (empty_segments_image 17)))
  = inl (InvalidSegmentCount 17).
Proof. vm_compute. reflexivity. Qed.

Example load_16_segments_accepted :
  exists image,
    fst (Image.ESP8266ROMFirmwareImage (Image.BytesIO (empty_segments_image 16)))
    = inr image
    /\ length (Image.segments image) = 16%nat.
Proof. eexists. split; vm_compute; reflexivity. Qed.

(** C8. [verify] raises exactly when the image holds more than 16
    segments: 17 segments are rejected, 16 or fewer pass. *)
Theorem verify_segment_count_bound (image : Image.FirmwareImage) :
  (Image.verify image = inr tt <-> (length (Image.segments image) <= 16)%nat)
  /\ (Image.verify image
      = inl (InvalidSegmentCount (length (Image.segments image)))
      <-> (16 < length (Image.segments image))%nat).
Proof.
  unfold Image.verify.
  destruct (Nat.ltb_spec 16 (length (Image.segments image))) as [Hgt|Hle].
  - split; split; intros Hx; try discriminate; try reflexivity; lia.
  - split; split; intros Hx; try discriminate; try reflexivity; lia.
Qed.

(* ------------------------------------------------------------------ *)
(** ** SLIP framing *)

Module SlipFacts.
Import Slip.

(** The loop over a buffer can be cut anywhere. *)
Lemma feed_app (xs ys : bytes) (l : locals) :
  feed l (xs ++ ys)
  = match feed l xs with
    | NeedMore l' => feed l' ys
    | FYield pkt l' rest => FYield pkt l' (rest ++ ys)
    | FRaise e => FRaise e
    end.
Proof.
  revert l. induction xs as [|b xs IH]; intros l; simpl; [reflexivity|].
  destruct (partial_packet l) as [pp|].
  - destruct (in_escape l).
    + destruct (b =? 0xdc); [apply IH|].
      destruct (b =? 0xdd); [apply IH|reflexivity].
    + destruct (b =? 0xdb); [apply IH|].
      destruct (b =? 0xc0); [reflexivity|apply IH].
  - destruct (b =? 0xc0); [apply IH|reflexivity].
Qed.

(** The two [replace] calls of [write] act byte by byte. *)
Lemma escape_cons (b : Z) (packet : bytes) :
  escape (b :: packet)
  = (if b =? 0xdb then [0xdb; 0xdd]
     else if b =? 0xc0 then [0xdb; 0xdc] else [b]) ++ escape packet.
Proof.
  unfold escape. simpl replace1 at 2.
  destruct (b =? 0xdb) eqn:Hdb.
  - reflexivity.
  - simpl. destruct (b =? 0xc0); reflexivity.
Qed.

Lemma write_escape (packet : bytes) :
  write packet = [0xc0] ++ escape packet ++ [0xc0].
Proof. reflexivity. Qed.

(** Inside a packet the escaped body decodes to the body. *)
Lemma feed_escape (packet rest pp : bytes) (s : bool) :
  feed (mkLocals (Some pp) false s) (escape packet ++ rest)
  = feed (mkLocals (Some (pp ++ packet)) false s) rest.
Proof.
  revert pp. induction packet as [|b packet IH]; intros pp.
  - now rewrite app_nil_r.
  - rewrite escape_cons.
    replace (pp ++ b :: packet) with ((pp ++ [b]) ++ packet)
      by now rewrite <- app_assoc.
    destruct (b =? 0xdb) eqn:Hdb.
    + apply Z.eqb_eq in Hdb. subst b. simpl. apply IH.
    + destruct (b =? 0xc0) eqn:Hc0.
      * apply Z.eqb_eq in Hc0. subst b. simpl. apply IH.
      * simpl. rewrite Hdb, Hc0. apply IH.
Qed.

(** A whole frame, met while awaiting a start, is one [yield]. *)
Lemma feed_write (packet rest : bytes) (s : bool) :
  feed (mkLocals None false s) (write packet ++ rest)
  = FYield packet (mkLocals None false true) rest.
Proof.
  rewrite write_escape. simpl.
  rewrite <- app_assoc, feed_escape. reflexivity.
Qed.

Lemma concat_nonempty_nil (arr : list bytes) :
  Forall (fun c => c <> []) arr -> concat arr = [] -> arr = [].
Proof.
  destruct arr as [|c arr]; [reflexivity|].
  intros Hne Hc. inversion Hne; subst. simpl in Hc.
  apply app_eq_nil in Hc. destruct Hc as [Hc _]. contradiction.
Qed.

(** If the bursts to come, read as one buffer, end in a [yield] with
    nothing left over, the reader yields that packet and leaves the port
    empty, however the bytes are split into bursts. *)
Lemma read_arrivals_yield (arr : list bytes) :
  forall l pkt l',
    Forall (fun c => c <> []) arr ->
    feed l (concat arr) = FYield pkt l' [] ->
    read_arrivals l arr = Yield pkt (mkReader l' []) (mkPort [] []).
Proof.
  induction arr as [|c later IH]; intros l pkt l' Hne Hfeed.
  - discriminate.
  - inversion Hne as [|? ? Hc Hlater]; subst.
    destruct c as [|b more]; [contradiction|].
    change (concat ((b :: more) :: later)) with ([b] ++ (more ++ concat later)) in Hfeed.
    rewrite feed_app in Hfeed.
    cbn [read_arrivals].
    destruct (feed l [b]) as [l1|pkt1 l1 rest1|e1].
    + destruct more as [|m more].
      * apply IH; assumption.
      * rewrite feed_app in Hfeed.
        destruct (feed l1 (m :: more)) as [l2|pkt2 l2 rest2|e2].
        -- apply IH; assumption.
        -- injection Hfeed as -> -> Hrest.
           apply app_eq_nil in Hrest. destruct Hrest as [-> Hc0].
           apply concat_nonempty_nil in Hc0; [|assumption]. now subst.
        -- discriminate.
    + injection Hfeed as -> -> Hrest.
      apply app_eq_nil in Hrest. destruct Hrest as [-> Hrest].
      apply app_eq_nil in Hrest. destruct Hrest as [-> Hc0].
      apply concat_nonempty_nil in Hc0; [|assumption]. now subst.
    + discriminate.
Qed.

Lemma read_loop_yield (p : port) (l : locals) (pkt : bytes) (l' : locals) :
  Forall (fun c => c <> []) (arrivals p) ->
  feed l (in_waiting p ++ concat (arrivals p)) = FYield pkt l' [] ->
  read_loop l p = Yield pkt (mkReader l' []) (mkPort [] []).
Proof.
  intros Hne Hfeed. unfold read_loop.
  destruct (in_waiting p) as [|b more] eqn:Hw.
  - apply read_arrivals_yield; assumption.
  - rewrite feed_app in Hfeed.
    destruct (feed l (b :: more)) as [l1|pkt1 l1 rest1|e1].
    + apply read_arrivals_yield; assumption.
    + injection Hfeed as -> -> Hrest.
      apply app_eq_nil in Hrest. destruct Hrest as [-> Hc0].
      apply concat_nonempty_nil in Hc0; [|assumption]. now rewrite Hc0.
    + discriminate.
Qed.

(** [read_loop] is the [while True] loop of the generator: one
    [port.read], the [for] loop over what was read, and the loop again
    when the buffer is used up. *)
Lemma read_loop_unfold (l : locals) (p : port) :
  read_loop l p
  = let '(read_bytes, p') := port_read p in
    match read_bytes with
    | [] => Raise (stop_error l) p'
    | _ :: _ =>
        match feed l read_bytes with
        | FRaise e => Raise e (mkPort [] (arrivals p'))
        | FYield pkt l' rest => Yield pkt (mkReader l' rest) p'
        | NeedMore l1 => read_loop l1 p'
        end
    end.
Proof.
  destruct p as [waiting arr]. unfold read_loop, port_read.
  cbn [in_waiting arrivals].
  destruct waiting as [|w ws].
  - destruct arr as [|[|b more] later]; reflexivity.
  - destruct (feed l (w :: ws)) as [l1|pkt l1 rest|e]; reflexivity.
Qed.

(** A burst whose first byte opens a packet and whose other bytes
    close it is taken in two reads. *)
Lemma read_arrivals_burst (l l1 l' : locals) (b : Z) (more pkt : bytes)
    (later : list bytes) :
  feed l [b] = NeedMore l1 ->
  more <> [] ->
  feed l1 more = FYield pkt l' [] ->
  read_arrivals l ((b :: more) :: later)
  = Yield pkt (mkReader l' []) (mkPort [] later).
Proof.
  intros Hb Hmore Hrest. cbn [read_arrivals]. rewrite Hb.
  destruct more as [|m more]; [contradiction|].
  now rewrite Hrest.
Qed.

(** One frame per burst: a read takes the first burst and leaves the rest. *)
Lemma next_burst (packet : bytes) (later : list bytes) (s : bool) :
  next (mkReader (mkLocals None false s) []) (mkPort [] (write packet :: later))
  = Yield packet (mkReader (mkLocals None false true) []) (mkPort [] later).
Proof.
  unfold next, read_loop. cbn [vars pending feed in_waiting arrivals].
  rewrite write_escape. cbn [app].
  apply read_arrivals_burst with (l1 := mkLocals (Some []) false s).
  - reflexivity.
  - intros Hnil. apply app_eq_nil in Hnil. destruct Hnil; discriminate.
  - etransitivity; [apply (feed_escape packet [0xc0] [] s)|reflexivity].
Qed.

End SlipFacts.

(** C1. Framing round trip: whatever the bytes of [b] and however the
    encoded frame reaches the port (already buffered or in any number of
    bursts), the first [read] of a new reader yields exactly [b]; the
    frame is then used up, so a second read finds the stream stopped and
    yields no other payload. *)
Theorem slip_round_trip (b : bytes) (p : Slip.port) :
  Forall (fun c => c <> []) (Slip.arrivals p) ->
  Slip.in_waiting p ++ concat (Slip.arrivals p) = Slip.write b ->
  exists r',
    Slip.next Slip.slip_reader p = Slip.Yield b r' (Slip.mkPort [] [])
    /\ Slip.next r' (Slip.mkPort [] [])
       = Slip.Raise Slip.StreamStopped (Slip.mkPort [] []).
Proof.
  intros Hne Hstream.
  exists (Slip.mkReader (Slip.mkLocals None false true) []).
  split; [|reflexivity].
  unfold Slip.next, Slip.slip_reader. cbn [Slip.vars Slip.pending Slip.feed].
  apply SlipFacts.read_loop_yield; [assumption|].
  rewrite Hstream.
  rewrite <- (app_nil_r (Slip.write b)).
  apply SlipFacts.feed_write.
Qed.

Lemma slip_round_trip_witness :
  exists r',
    Slip.next Slip.slip_reader (Slip.mkPort [0xc0; 0x01] [[0xdb]; [0xdc; 0xdb; 0xdd; 0xc0]])
    = Slip.Yield [0x01; 0xc0; 0xdb] r' (Slip.mkPort [] [])
    /\ Slip.next r' (Slip.mkPort [] [])
       = Slip.Raise Slip.StreamStopped (Slip.mkPort [] []).
Proof.
  apply (slip_round_trip [0x01; 0xc0; 0xdb]
           (Slip.mkPort [0xc0; 0x01] [[0xdb]; [0xdc; 0xdb; 0xdd; 0xc0]])).
  - repeat constructor; discriminate.
  - reflexivity.
Defined.

(** C6, as claimed: decoding the encoding of [scenario_A] would raise.
    It does not: the encoder escapes all three bytes and the decoder
    yields them back. *)
Lemma scenario_A_not_rejected :
  ~ (exists e p',
       Slip.next Slip.slip_reader (Slip.mkPort [] [Slip.write scenario_A])
       = Slip.Raise e p').
Proof.
  intros [e [p' Hraise]]. vm_compute in Hraise. discriminate.
Qed.

(** C6, amended. Encoding [scenario_A] gives
    [c0 db dc db dd db dc c0], which the decoder accepts and decodes to
    the three bytes again; the same three bytes sent unencoded are
    rejected, the escape byte being followed by a delimiter. *)
Theorem scenario_A_round_trip_and_raw_rejection :
  Slip.write scenario_A = [0xc0; 0xdb; 0xdc; 0xdb; 0xdd; 0xdb; 0xdc; 0xc0]
  /\ Slip.next Slip.slip_reader (Slip.mkPort [] [Slip.write scenario_A])
     = Slip.Yield scenario_A
         (Slip.mkReader (Slip.mkLocals None false true) []) (Slip.mkPort [] [])
  /\ Slip.next Slip.slip_reader (Slip.mkPort [] [scenario_A])
     = Slip.Raise (Slip.InvalidEscape 0xc0) (Slip.mkPort [] []).
Proof. repeat split. Qed.

(* ------------------------------------------------------------------ *)
(** ** Sync and the resident stub *)

Module SyncFacts.
Import Serial.

Lemma sync_drain_S (k : nat) (e : ESPLoader) :
  sync_drain (S k) e
  = match command_val_data None [] 0 (chan e) with
    | (inl ex, c') => (inl ex, mkLoader c' (sync_stub_detected e))
    | (inr (val, _), c') =>
        sync_drain k (mkLoader c' (sync_stub_detected e && (val =? 0)))
    end.
Proof.
  cbn [sync_drain]. unfold bind, on_chan.
  destruct (command_val_data None [] 0 (chan e)) as [[ex|[val d]] c']; reflexivity.
Qed.

Lemma sync_drain_replies (n : nat) :
  forall e e',
    sync_drain n e = (inr tt, e') ->
    exists vals,
      drain_replies n (chan e) = Some (vals, chan e')
      /\ length vals = n
      /\ sync_stub_detected e'
         = sync_stub_detected e && forallb (fun v => v =? 0) vals.
Proof.
  induction n as [|k IH]; intros e e' Hrun.
  - injection Hrun as <-. exists []. simpl. now rewrite andb_true_r.
  - rewrite sync_drain_S in Hrun. cbn [drain_replies].
    destruct (command_val_data None [] 0 (chan e)) as [[ex|[val d]] c'];
      [discriminate|].
    apply IH in Hrun.
    destruct Hrun as [vals [Hdrain [Hlen Hflag]]].
    exists (val :: vals).
    change (chan {| chan := c'; sync_stub_detected := sync_stub_detected e && (val =? 0) |}) with c' in Hdrain.
    rewrite Hdrain. repeat split.
    + simpl. now rewrite Hlen.
    + rewrite Hflag. simpl. symmetry. apply andb_assoc.
Qed.

Lemma read_idle (packet : bytes) (later w : list bytes) (s : bool) :
  read (idle_channel (Slip.write packet :: later) w s)
  = (inr packet, idle_channel later w true).
Proof.
  unfold read, idle_channel. cbn [_slip_reader _port written].
  now rewrite SlipFacts.next_burst.
Qed.

Lemma len_sync_response (status_len : nat) :
  (len (sync_response status_len) <? 8) = false.
Proof.
  apply Z.ltb_ge. unfold len, sync_response.
  rewrite length_app. simpl length. lia.
Qed.

(** A response of scenario B answers a request for any opcode and the
    sync request alike, with [val = 0]. *)
Lemma wait_sync_response (k : nat) (op : option Z) (status_len : nat)
    (later w : list bytes) (s : bool) :
  op = None \/ op = Some ESP_SYNC ->
  wait_response_loop (S k) op
    (idle_channel (Slip.write (sync_response status_len) :: later) w s)
  = (inr (0, repeat 0 status_len), idle_channel later w true).
Proof.
  intros Hop. cbn [wait_response_loop]. unfold bind at 1.
  rewrite read_idle, len_sync_response.
  destruct Hop as [-> | ->]; reflexivity.
Qed.

(** [command] with a request to send: the frame is written, then the
    response is awaited. *)
Lemma command_val_data_send (o : Z) (data hdr : bytes) (chk : Z) (c : channel) :
  pack [B 0x00; B o; H (len data); I chk] = inr hdr ->
  command_val_data (Some o) data chk c
  = wait_response_loop 100 (Some o)
      (mkChannel (_port c) (written c ++ [Slip.write (hdr ++ data)]) (_slip_reader c)).
Proof.
  intros Hpack. unfold command_val_data, command. rewrite Hpack.
  unfold bind, write, modify, ret, unpack_reply.
  destruct (wait_response_loop 100 (Some o) _) as [[ex|r] c']; reflexivity.
Qed.

(** [command()] sends nothing and awaits any response. *)
Lemma command_val_data_drain (c : channel) :
  command_val_data None [] 0 c = wait_response_loop 100 None c.
Proof.
  unfold command_val_data, command.
  unfold bind, ret, unpack_reply.
  destruct (wait_response_loop 100 None c) as [[ex|r] c']; reflexivity.
Qed.

Lemma drain_sync_response (status_len : nat) (later w : list bytes) (s : bool) :
  command_val_data None [] 0
    (idle_channel (Slip.write (sync_response status_len) :: later) w s)
  = (inr (0, repeat 0 status_len), idle_channel later w true).
Proof.
  rewrite command_val_data_drain. apply wait_sync_response. now left.
Qed.

Lemma sync_sync_response (status_len : nat) (later w : list bytes) (s : bool) :
  command_val_data (Some ESP_SYNC) sync_payload 0
    (idle_channel (Slip.write (sync_response status_len) :: later) w s)
  = (inr (0, repeat 0 status_len),
     idle_channel later
       (w ++ [Slip.write ([0; 8; 36; 0; 0; 0; 0; 0] ++ sync_payload)]) true).
Proof.
  rewrite (command_val_data_send ESP_SYNC sync_payload [0; 8; 36; 0; 0; 0; 0; 0])
    by reflexivity.
  apply (wait_sync_response 99 (Some ESP_SYNC) status_len later
           (w ++ [Slip.write ([0; 8; 36; 0; 0; 0; 0; 0] ++ sync_payload)]) s).
  now right.
Qed.

Lemma sync_unfold (e : ESPLoader) :
  sync e
  = match command_val_data (Some ESP_SYNC) sync_payload 0 (chan e) with
    | (inl ex, c') => (inl ex, mkLoader c' (sync_stub_detected e))
    | (inr (val, _), c') => sync_drain 7 (mkLoader c' (val =? 0))
    end.
Proof.
  unfold sync, bind, on_chan.
  destruct (command_val_data (Some ESP_SYNC) sync_payload 0 (chan e))
    as [[ex|[val d]] c']; reflexivity.
Qed.

(** Draining [n] responses of scenario B leaves the flag as it is. *)
Lemma sync_drain_responses (status_len n : nat) :
  forall (later w : list bytes) (s flag : bool),
  exists s',
    sync_drain n
      (mkLoader
         (idle_channel (repeat (Slip.write (sync_response status_len)) n ++ later) w s)
         flag)
    = (inr tt, mkLoader (idle_channel later w s') flag).
Proof.
  induction n as [|k IH]; intros later w s flag.
  - exists s. reflexivity.
  - destruct (IH later w true flag) as [s' Hrest].
    exists s'. rewrite sync_drain_S.
    cbn [chan sync_stub_detected repeat app].
    rewrite drain_sync_response.
    change (0 =? 0) with true. rewrite andb_true_r. exact Hrest.
Qed.

Lemma scenario_B_sync (status_len extra : nat) :
  exists e',
    sync (scenario_B status_len (8 + extra)) = (inr tt, e')
    /\ sync_stub_detected e' = true.
Proof.
  destruct (sync_drain_responses status_len 7
              (repeat (Slip.write (sync_response status_len)) extra)
              ([] ++ [Slip.write ([0; 8; 36; 0; 0; 0; 0; 0] ++ sync_payload)])
              true true) as [s' Hdrain].
  eexists. split.
  - assert (Hshape :
      scenario_B status_len (8 + extra)
      = mkLoader
          (idle_channel
             (Slip.write (sync_response status_len)
              :: repeat (Slip.write (sync_response status_len)) 7
                 ++ repeat (Slip.write (sync_response status_len)) extra) [] false)
          false).
    { unfold scenario_B, idle_channel, Slip.slip_reader, Slip.fresh.
      change (8 + extra)%nat with (1 + (7 + extra))%nat.
      now rewrite !repeat_app. }
    rewrite Hshape, sync_unfold.
    change (chan (mkLoader ?c ?f)) with c.
    rewrite sync_sync_response. change (0 =? 0) with true. exact Hdrain.
  - reflexivity.
Qed.

End SyncFacts.

(** C4. When [sync] completes, [sync_stub_detected] is true exactly
    when the [val] of the reply to the sync command and the [val]s of
    the seven drain reads that follow are all zero. On a port where every
    read is answered by an accepted response that echoes opcode 0x08 with
    value 0 and zero status bytes, [sync] completes with the flag set. *)
Theorem sync_stub_detected_iff :
  (forall e e',
     Serial.sync e = (inr tt, e') ->
     exists val data c0 vals,
       Serial.command_val_data (Some ESP_SYNC) Serial.sync_payload 0 (Serial.chan e)
       = (inr (val, data), c0)
       /\ drain_replies 7 c0 = Some (vals, Serial.chan e')
       /\ length vals = 7%nat
       /\ (Serial.sync_stub_detected e' = true
           <-> val = 0 /\ Forall (fun v => v = 0) vals))
  /\ (forall status_len extra,
        exists e',
          Serial.sync (scenario_B status_len (8 + extra)) = (inr tt, e')
          /\ Serial.sync_stub_detected e' = true).
Proof.
  split.
  - intros e e' Hrun. rewrite SyncFacts.sync_unfold in Hrun.
    destruct (Serial.command_val_data (Some ESP_SYNC) Serial.sync_payload 0
                (Serial.chan e)) as [[ex|[val data]] c0]; [discriminate|].
    apply SyncFacts.sync_drain_replies in Hrun.
    destruct Hrun as [vals [Hdrain [Hlen Hflag]]].
    change (Serial.chan (Serial.mkLoader c0 (val =? 0))) with c0 in Hdrain.
    change (Serial.sync_stub_detected (Serial.mkLoader c0 (val =? 0)))
      with (val =? 0) in Hflag.
    exists val, data, c0, vals.
    split; [reflexivity|]. split; [assumption|]. split; [assumption|].
    rewrite Hflag, andb_true_iff, Z.eqb_eq, forallb_forall, Forall_forall.
    split; intros [Hval Hall]; (split; [assumption|]);
      intros v Hin; apply Z.eqb_eq; now apply Hall.
  - intros status_len extra.
    pose proof (SyncFacts.scenario_B_sync status_len extra) as [e' [Hrun Hflag]].
    now exists e'.
Qed.

(* ------------------------------------------------------------------ *)
(** ** The result monad *)

(** Run the first statement of a sequence once it is a value. *)
Ltac run_bind := cbn [lift]; unfold bind at 1; cbn [ret].

Lemma bind_inr {S A B} (m : M S A) (k : A -> M S B) (s s' : S) (b : B) :
  bind m k s = (inr b, s') ->
  exists a s1, m s = (inr a, s1) /\ k a s1 = (inr b, s').
Proof.
  unfold bind. destruct (m s) as [[e|a] s1]; intros Hk.
  - discriminate.
  - now exists a, s1.
Qed.

Lemma bind_seq {S A B D} (m : M S A) (n : A -> M S B) (k : B -> M S D)
    (s s' : S) (b : B) :
  bind m n s = (inr b, s') -> bind m (fun a => bind (n a) k) s = k b s'.
Proof.
  unfold bind. destruct (m s) as [[e|a] s1]; [discriminate|].
  now intros ->.
Qed.

Lemma bind_raise {S A B} (m : M S A) (k : A -> M S B) (s s1 : S) (e : exn) :
  m s = (inl e, s1) -> bind m k s = (inl e, s1).
Proof. intros Hm. unfold bind. now rewrite Hm. Qed.

(* ------------------------------------------------------------------ *)
(** ** RAM download and the resident stub *)

Section MemBegin.

Context {C : Type} `{Transport C}.

(** On a ROM loader [mem_begin] is the MEM_BEGIN command and nothing else. *)
Lemma mem_begin_rom (esp : ESPLoader) (size blocks blocksize offset : Z) :
  IS_STUB esp = false ->
  mem_begin esp size blocks blocksize offset
  = bind (lift (pack [I size; I blocks; I blocksize; I offset]))
         (fun params => check_command (C := C) esp (Some ESP_MEM_BEGIN) params 0).
Proof.
  intros Hrom. unfold mem_begin. rewrite Hrom. reflexivity.
Qed.

Lemma first_overlap_some (load_start load_end : Z) (ranges : list (Z * Z)) :
  Exists (fun r => load_start < snd r /\ fst r < load_end) ranges ->
  exists start end_,
    first_overlap load_start load_end ranges = Some (start, end_)
    /\ In (start, end_) ranges
    /\ load_start < end_ /\ start < load_end.
Proof.
  induction ranges as [|[start end_] rest IH]; intros Hex.
  - inversion Hex.
  - cbn [first_overlap].
    destruct ((load_start <? end_) && (start <? load_end)) eqn:Hhere.
    + apply andb_true_iff in Hhere. destruct Hhere as [H1 H2].
      apply Z.ltb_lt in H1, H2.
      exists start, end_. repeat split; try assumption. now left.
    + inversion Hex as [? ? [H1 H2]|? ? Hrest]; subst.
      * cbn [fst snd] in H1, H2.
        apply Z.ltb_lt in H1, H2. rewrite H1, H2 in Hhere. discriminate.
      * destruct (IH Hrest) as [s0 [e0 [Hf [Hin Hov]]]].
        exists s0, e0. repeat split; try tauto. now right.
Qed.

End MemBegin.

(** C5, as claimed: a stub upload whose RAM download range overlaps the
    stub's own text or data range would fail before any block is sent.
    It does not: the ROM loader that uploads the stub has
    [IS_STUB = False], so [mem_begin] makes no check. Here the text
    segment is loaded at the stub's own text range, the overlap is there,
    and the upload runs to the end with both MEM_DATA blocks sent. *)
Lemma stub_upload_overlap_unchecked :
  let run := run_stub StubLoader esp8266_rom None (mkSession ack_device []) in
  stub_ranges (STUB_CODE esp8266_rom)
  = inr [(0x3FFFABA4, 0x3FFFABA6); (0x4010E000, 0x4010E004)]
  /\ first_overlap 0x4010E000 (0x4010E000 + 4)
       [(0x3FFFABA4, 0x3FFFABA6); (0x4010E000, 0x4010E004)]
     = Some (0x4010E000, 0x4010E004)
  /\ fst run = inr esp8266_stub
  /\ payloads ESP_MEM_BEGIN (log (transport (snd run)))
     = [le_bytes 4 4 ++ le_bytes 4 1 ++ le_bytes 4 0x1800 ++ le_bytes 4 0x4010E000;
        le_bytes 4 2 ++ le_bytes 4 1 ++ le_bytes 4 0x1800 ++ le_bytes 4 0x3FFFABA4]
  /\ payloads ESP_MEM_DATA (log (transport (snd run)))
     = [le_bytes 4 4 ++ le_bytes 4 0 ++ le_bytes 4 0 ++ le_bytes 4 0 ++ [1; 2; 3; 4];
        le_bytes 4 2 ++ le_bytes 4 0 ++ le_bytes 4 0 ++ le_bytes 4 0 ++ [5; 6]].
Proof. vm_compute. repeat split. Qed.

(** C5, amended. [mem_begin] checks the load range against the resident
    stub only on a stub loader ([IS_STUB]). There, a range that overlaps
    the stub's data or text range raises a [FatalError] before the
    MEM_BEGIN command is sent: the session is left as it was, and
    whatever the caller would do next in that download (the MEM_DATA
    blocks, a retry) is not run. On a ROM loader, the one that uploads
    the stub, [mem_begin] is the MEM_BEGIN command alone. *)
Theorem mem_begin_overlap_fatal_on_stub :
  (forall (C : Type) (T : Transport C) (esp : ESPLoader)
          (size blocks blocksize offset : Z) (s : session C) (d t : bytes),
     IS_STUB esp = true ->
     data (STUB_CODE esp) = Some d ->
     text (STUB_CODE esp) = Some t ->
     (offset < data_start (STUB_CODE esp) + len d
      /\ data_start (STUB_CODE esp) < offset + size)
     \/ (offset < text_start (STUB_CODE esp) + len t
         /\ text_start (STUB_CODE esp) < offset + size) ->
     exists start end_,
       mem_begin esp size blocks blocksize offset s
       = (inl (StubOverlap start end_ offset (offset + size)), s)
       /\ is_FatalError (StubOverlap start end_ offset (offset + size)) = true
       /\ forall (A : Type) (next : reply -> M (session C) A),
            bind (mem_begin esp size blocks blocksize offset) next s
            = (inl (StubOverlap start end_ offset (offset + size)), s))
  /\ (forall (C : Type) (T : Transport C) (esp : ESPLoader)
             (size blocks blocksize offset : Z),
        IS_STUB esp = false ->
        mem_begin esp size blocks blocksize offset
        = bind (lift (pack [I size; I blocks; I blocksize; I offset]))
               (fun params => check_command esp (Some ESP_MEM_BEGIN) params 0)).
Proof.
  split.
  - intros C T esp size blocks blocksize offset s d t Hstub Hd Ht Hover.
    destruct (first_overlap_some offset (offset + size)
                [(data_start (STUB_CODE esp), data_start (STUB_CODE esp) + len d);
                 (text_start (STUB_CODE esp), text_start (STUB_CODE esp) + len t)])
      as [start [end_ [Hfirst _]]].
    { destruct Hover as [Hdata|Htext].
      - now apply Exists_cons_hd.
      - now apply Exists_cons_tl, Exists_cons_hd. }
    assert (Hraise :
      mem_begin esp size blocks blocksize offset s
      = (inl (StubOverlap start end_ offset (offset + size)), s)).
    { unfold mem_begin, stub_ranges. rewrite Hstub, Hd, Ht.
      cbn [lift]. unfold bind at 1 2. cbn [ret]. rewrite Hfirst. reflexivity. }
    exists start, end_. split; [exact Hraise|]. split; [reflexivity|].
    intros A next. now apply bind_raise.
  - intros C T esp size blocks blocksize offset Hrom.
    now apply mem_begin_rom.
Qed.

Lemma mem_begin_overlap_fatal_on_stub_witness :
  exists start end_,
    mem_begin esp8266_stub 4 1 0x1800 0x4010E002 (mkSession ack_device [])
    = (inl (StubOverlap start end_ 0x4010E002 (0x4010E002 + 4)),
       mkSession ack_device [])
    /\ is_FatalError (StubOverlap start end_ 0x4010E002 (0x4010E002 + 4)) = true
    /\ forall (A : Type) (next : reply -> M (session device) A),
         bind (mem_begin esp8266_stub 4 1 0x1800 0x4010E002) next
              (mkSession ack_device [])
         = (inl (StubOverlap start end_ 0x4010E002 (0x4010E002 + 4)),
            mkSession ack_device []).
Proof.
  apply (proj1 mem_begin_overlap_fatal_on_stub device scripted_transport
           esp8266_stub 4 1 0x1800 0x4010E002 (mkSession ack_device [])
           [0x05; 0x06] [0x01; 0x02; 0x03; 0x04]).
  - reflexivity.
  - reflexivity.
  - reflexivity.
  - right. vm_compute. split; reflexivity.
Defined.

(* ------------------------------------------------------------------ *)
(** ** The flash-parameter patch *)

Lemma lift_inr {C A} (r : result A) (s s' : session C) (a : A) :
  lift r s = (inr a, s') -> r = inr a /\ s' = s.
Proof.
  destruct r as [e|a0]; cbn [lift]; unfold raise, ret; intros Heq.
  - discriminate.
  - injection Heq as -> ->. now split.
Qed.

Lemma pack_BB_length (a b : Z) (fp : bytes) :
  pack [B a; B b] = inr fp -> length fp = 2%nat.
Proof.
  cbn [pack B].
  destruct ((0 <=? a) && (a <? 256 ^ Z.of_nat 1)); [|discriminate].
  destruct ((0 <=? b) && (b <? 256 ^ Z.of_nat 1)); [|discriminate].
  intros Heq. injection Heq as <-. reflexivity.
Qed.

(** Replacing bytes 2 and 3 of a buffer of 8 bytes or more keeps its
    length and every other byte. *)
Lemma patch_frame (image fp : bytes) :
  (8 <= length image)%nat ->
  length fp = 2%nat ->
  length (slice image 0 2 ++ fp ++ skipn 4 image) = length image
  /\ forall i, i <> 2%nat -> i <> 3%nat ->
       nth_error (slice image 0 2 ++ fp ++ skipn 4 image) i = nth_error image i.
Proof.
  intros Hlen Hfp.
  destruct image as [|a [|b [|c [|d rest]]]]; try (simpl in Hlen; lia).
  destruct fp as [|x [|y [|z fp]]]; try discriminate.
  split; [reflexivity|].
  intros i H2 H3.
  destruct i as [|[|[|[|i]]]]; try reflexivity; contradiction.
Qed.

(** C7. Whatever the buffer, [_update_image_flash_params] returns it
    unchanged unless the address is the chip's bootloader offset, the
    first byte is the image magic and the buffer loads and verifies as
    an image of the chip; and the buffer it returns has the length of the
    input and the same byte everywhere but at offsets 2 and 3. *)
Theorem update_image_flash_params_frame (C : Type) (lib : libraries)
    (esp : ESPLoader) (address : Z) (args : Args) (image image' : bytes)
    (s s' : session C) :
  _update_image_flash_params lib esp address args image s = (inr image', s') ->
  (image' <> image ->
     address = BOOTLOADER_FLASH_OFFSET esp
     /\ nth_error image 0 = Some ESP_IMAGE_MAGIC
     /\ fst (load_and_verify lib esp image) = inr tt)
  /\ length image' = length image
  /\ (forall i, i <> 2%nat -> i <> 3%nat ->
        nth_error image' i = nth_error image i).
Proof.
  assert (Hsame : image' = image ->
    (image' <> image ->
       address = BOOTLOADER_FLASH_OFFSET esp
       /\ nth_error image 0 = Some ESP_IMAGE_MAGIC
       /\ fst (load_and_verify lib esp image) = inr tt)
    /\ length image' = length image
    /\ (forall i, i <> 2%nat -> i <> 3%nat ->
          nth_error image' i = nth_error image i)).
  { intros ->. split; [intros Hne; now contradiction Hne|]. now split. }
  intros Hrun. unfold _update_image_flash_params in Hrun.
  destruct (len image <? 8) eqn:Hlen.
  { injection Hrun as <- _. now apply Hsame. }
  destruct (negb (address =? BOOTLOADER_FLASH_OFFSET esp)) eqn:Haddr.
  { injection Hrun as <- _. now apply Hsame. }
  destruct (is_keep (flash_mode args) && is_keep (flash_freq args)
            && is_keep (flash_size args)).
  { injection Hrun as <- _. now apply Hsame. }
  destruct (negb (nth 0 image 0 =? ESP_IMAGE_MAGIC)) eqn:Hmagic.
  { apply bind_inr in Hrun. destruct Hrun as [u [s1 [_ Hret]]].
    injection Hret as <- _. now apply Hsame. }
  destruct (load_and_verify lib esp image) as [r printed] eqn:Hload.
  apply bind_inr in Hrun. destruct Hrun as [u [s1 [_ Hrun]]].
  destruct r as [e|ok].
  { apply bind_inr in Hrun. destruct Hrun as [u' [s2 [_ Hret]]].
    injection Hret as <- _. now apply Hsame. }
  apply bind_inr in Hrun. destruct Hrun as [fm [s2 [_ Hrun]]].
  apply bind_inr in Hrun. destruct Hrun as [ff [s3 [_ Hrun]]].
  apply bind_inr in Hrun. destruct Hrun as [fs [s4 [_ Hrun]]].
  apply bind_inr in Hrun. destruct Hrun as [fp [s5 [Hpack Hrun]]].
  apply lift_inr in Hpack. destruct Hpack as [Hpack _].
  apply pack_BB_length in Hpack.
  destruct (negb (bytes_eqb fp (slice image 2 4))).
  2:{ injection Hrun as <- _. now apply Hsame. }
  apply bind_inr in Hrun. destruct Hrun as [u' [s6 [_ Hret]]].
  injection Hret as <- _.
  apply Z.ltb_ge in Hlen. unfold len in Hlen.
  destruct (patch_frame image fp) as [Hlength Hbytes]; [lia|assumption|].
  split; [|now split].
  intros _. apply negb_false_iff in Haddr, Hmagic.
  apply Z.eqb_eq in Haddr, Hmagic.
  split; [assumption|]. split.
  - destruct image as [|b0 rest]; [simpl in Hlen; lia|].
    simpl in Hmagic. now subst b0.
  - destruct ok. reflexivity.
Qed.

Lemma update_image_flash_params_frame_witness :
  let image := empty_segments_image 1 in
  let image' := [ESP_IMAGE_MAGIC; 1; 2; 0] ++ skipn 4 image in
  (image' <> image ->
     0 = BOOTLOADER_FLASH_OFFSET esp8266_rom
     /\ nth_error image 0 = Some ESP_IMAGE_MAGIC
     /\ fst (load_and_verify no_libraries esp8266_rom image) = inr tt)
  /\ length image' = length image
  /\ (forall i, i <> 2%nat -> i <> 3%nat ->
        nth_error image' i = nth_error image i).
Proof.
  apply (update_image_flash_params_frame device no_libraries esp8266_rom 0
           (dio_args []) (empty_segments_image 1)
           ([ESP_IMAGE_MAGIC; 1; 2; 0] ++ skipn 4 (empty_segments_image 1))
           (mkSession ack_device [])
           (mkSession ack_device
              [WarnSuspiciousSegment 0 0; FlashParamsSetTo [2; 0]])).
  vm_compute. reflexivity.
Defined.

(* ------------------------------------------------------------------ *)
(** ** Commands on an acknowledging target *)

Section Acknowledging.

Variable esp : ESPLoader.

Lemma sent_sent (s : session device) (a b : list request) :
  sent (sent s a) b = sent s (a ++ b).
Proof. unfold sent. cbn. now rewrite app_assoc. Qed.

Lemma sent_nil (s : session device) : sent s [] = s.
Proof.
  unfold sent. rewrite app_nil_r. now destruct s as [[oc ord l] out].
Qed.

(** Every command is accepted and leaves one request in the log. *)
Lemma check_command_ack (op : option Z) (data : bytes) (chk : Z) (s : session device) :
  acknowledging esp (transport s) ->
  exists r,
    check_command esp op data chk s
    = (inr r, sent s [Command op data chk]).
Proof.
  intros Hack.
  destruct (Hack (log (transport s)) op data chk)
    as [val [body [Hreply [Hlen [Hstatus _]]]]].
  unfold check_command, bind, on_transport.
  cbn [command scripted_transport]. rewrite Hreply.
  fold (sent s [Command op data chk]).
  destruct (Nat.ltb_spec (length body) (STATUS_BYTES_LENGTH esp)) as [Hlt|_];
    [lia|].
  unfold byte. rewrite Hstatus. cbn [lift ret].
  change (0 =? 0) with true. cbn [negb].
  destruct (STATUS_BYTES_LENGTH esp <? length body)%nat; eexists; reflexivity.
Qed.

(** What an accepted command returns: the body without its status
    bytes when there is one, the [val] of the header otherwise. *)
Lemma check_command_reply (op : option Z) (data : bytes) (chk : Z) (s : session device) :
  acknowledging esp (transport s) ->
  exists val body,
    on_command (transport s) (log (transport s)) op data chk = inr (val, body)
    /\ check_command esp op data chk s
       = (inr (if (STATUS_BYTES_LENGTH esp <? length body)%nat
               then RData (but_last_n (STATUS_BYTES_LENGTH esp) body)
               else RVal val),
          sent s [Command op data chk]).
Proof.
  intros Hack.
  destruct (Hack (log (transport s)) op data chk)
    as [val [body [Hreply [Hlen [Hstatus _]]]]].
  exists val, body. split; [exact Hreply|].
  unfold check_command, bind, on_transport.
  cbn [command scripted_transport]. rewrite Hreply.
  fold (sent s [Command op data chk]).
  destruct (Nat.ltb_spec (length body) (STATUS_BYTES_LENGTH esp)) as [Hlt|_];
    [lia|].
  unfold byte. rewrite Hstatus. cbn [lift ret].
  change (0 =? 0) with true. cbn [negb].
  destruct (STATUS_BYTES_LENGTH esp <? length body)%nat; reflexivity.
Qed.

Lemma read_reg_ack (addr : Z) (s : session device) :
  acknowledging esp (transport s) ->
  0 <= addr < 2 ^ 32 ->
  exists val,
    read_reg addr s
    = (inr val, sent s [Command (Some ESP_READ_REG) (le_bytes 4 addr) 0]).
Proof.
  intros Hack Haddr.
  destruct (Hack (log (transport s)) (Some ESP_READ_REG) (le_bytes 4 addr) 0)
    as [val [body [Hreply [_ [_ Hfirst]]]]].
  specialize (Hfirst eq_refl).
  unfold read_reg. cbn [pack I].
  replace ((0 <=? addr) && (addr <? 256 ^ Z.of_nat 4)) with true
    by (symmetry; apply andb_true_iff; split;
        [apply Z.leb_le|apply Z.ltb_lt]; cbn; lia).
  rewrite app_nil_r. cbn [lift]. unfold bind at 1. cbn [ret].
  unfold bind, on_transport. cbn [command scripted_transport]. rewrite Hreply.
  fold (sent s [Command (Some ESP_READ_REG) (le_bytes 4 addr) 0]).
  unfold byte. rewrite Hfirst. cbn [lift ret].
  change (0 =? 0) with true. cbn [negb]. now exists val.
Qed.

Lemma pack_I_ok (v : Z) (rest : list (nat * Z)) :
  0 <= v < 2 ^ 32 ->
  pack (I v :: rest)
  = match pack rest with
    | inr b => inr (le_bytes 4 v ++ b)
    | inl e => inl e
    end.
Proof.
  intros Hv. cbn [pack I].
  replace ((0 <=? v) && (v <? 256 ^ Z.of_nat 4)) with true; [reflexivity|].
  symmetry. apply andb_true_iff. split; [apply Z.leb_le|apply Z.ltb_lt]; cbn; lia.
Qed.

Lemma pack_IIII (a b c d : Z) :
  0 <= a < 2 ^ 32 -> 0 <= b < 2 ^ 32 -> 0 <= c < 2 ^ 32 -> 0 <= d < 2 ^ 32 ->
  pack [I a; I b; I c; I d]
  = inr (le_bytes 4 a ++ le_bytes 4 b ++ le_bytes 4 c ++ le_bytes 4 d).
Proof.
  intros Ha Hb Hc Hd.
  rewrite !pack_I_ok by assumption. cbn [pack]. now rewrite app_nil_r.
Qed.

(** A block write succeeds at the first attempt. *)
Lemma write_block_attempts_ack (op : Z) (data : bytes) (seq : Z) (n : nat)
    (s : session device) :
  acknowledging esp (transport s) ->
  0 <= len data < 2 ^ 32 ->
  0 <= seq < 2 ^ 32 ->
  write_block_attempts esp op data seq n s
  = (inr tt, sent s (block_requests op seq [data])).
Proof.
  intros Hack Hlen Hseq.
  destruct n as [|k]; cbn [write_block_attempts]; unfold try_FatalError;
    rewrite pack_IIII by (assumption || lia); cbn [lift];
    unfold bind at 1; cbn [ret];
    destruct (check_command_ack (Some op)
                (le_bytes 4 (len data) ++ le_bytes 4 seq ++ le_bytes 4 0
                 ++ le_bytes 4 0 ++ data)
                (checksum data ESP_CHECKSUM_MAGIC) s Hack) as [r Hcmd];
    rewrite <- !app_assoc;
    unfold bind; rewrite Hcmd; reflexivity.
Qed.

Lemma div_roundup_bounds (size : Z) :
  0 < FLASH_WRITE_SIZE esp ->
  0 <= size < 2 ^ 32 ->
  0 <= (size + FLASH_WRITE_SIZE esp - 1) / FLASH_WRITE_SIZE esp < 2 ^ 32.
Proof.
  intros Hpos Hsize. split.
  - apply Z.div_pos; lia.
  - apply Z.div_lt_upper_bound; [lia|]. nia.
Qed.

(** [flash_begin] sends one FLASH_BEGIN request with the erase size,
    the block count, the block size and the offset. *)
Lemma flash_begin_ack (size offset es : Z) (begin_rom_encrypted : bool)
    (s : session device) :
  acknowledging esp (transport s) ->
  0 < FLASH_WRITE_SIZE esp < 2 ^ 32 ->
  0 <= size < 2 ^ 32 ->
  0 <= offset < 2 ^ 32 ->
  get_erase_size esp offset size = inr es ->
  0 <= es < 2 ^ 32 ->
  flash_begin esp size offset begin_rom_encrypted s
  = (inr ((size + FLASH_WRITE_SIZE esp - 1) / FLASH_WRITE_SIZE esp),
     sent s
       [Command (Some ESP_FLASH_BEGIN)
          ((le_bytes 4 es
            ++ le_bytes 4 ((size + FLASH_WRITE_SIZE esp - 1) / FLASH_WRITE_SIZE esp)
            ++ le_bytes 4 (FLASH_WRITE_SIZE esp) ++ le_bytes 4 offset)
           ++ (if isinstance_S2_or_later (CHIP esp) && negb (IS_STUB esp)
               then le_bytes 4 (if begin_rom_encrypted then 1 else 0)
               else []))
          0]).
Proof.
  intros Hack Hfws Hsize Hoffset Hes Hes_range.
  pose proof (div_roundup_bounds size (proj1 Hfws) Hsize) as Hblocks.
  unfold flash_begin, div_roundup.
  replace (FLASH_WRITE_SIZE esp =? 0) with false by (symmetry; apply Z.eqb_neq; lia).
  run_bind. rewrite Hes. run_bind.
  rewrite pack_IIII by (assumption || lia). run_bind.
  destruct (isinstance_S2_or_later (CHIP esp) && negb (IS_STUB esp)).
  - rewrite pack_I_ok by (destruct begin_rom_encrypted; lia).
    cbn [pack]. rewrite app_nil_r. run_bind.
    match goal with
    | |- context [check_command esp ?op ?d ?c] =>
        destruct (check_command_ack op d c s Hack) as [r Hcmd]
    end.
    unfold bind. now rewrite Hcmd.
  - unfold bind at 1. cbn [ret].
    match goal with
    | |- context [check_command esp ?op ?d ?c] =>
        destruct (check_command_ack op d c s Hack) as [r Hcmd]
    end.
    unfold bind. now rewrite Hcmd.
Qed.

Lemma concat_blocks_length (n : Z) (blocks : list bytes) :
  Forall (fun b => len b = n) blocks ->
  len (concat blocks) = Z.of_nat (length blocks) * n.
Proof.
  induction 1 as [|b rest Hb _ IH]; [reflexivity|].
  cbn [concat length]. unfold len in *. rewrite length_app. lia.
Qed.

(** Blocks of one size that hold the image and less than a block of
    padding are [ceil(size / block_size)] in number. *)
Lemma block_count (image : bytes) (blocks : list bytes) (pad : nat) :
  0 < FLASH_WRITE_SIZE esp ->
  Forall (fun b => len b = FLASH_WRITE_SIZE esp) blocks ->
  concat blocks = image ++ repeat 0xff pad ->
  Z.of_nat pad < FLASH_WRITE_SIZE esp ->
  Z.of_nat (length blocks)
  = (len image + FLASH_WRITE_SIZE esp - 1) / FLASH_WRITE_SIZE esp
  /\ Z.of_nat pad = Z.of_nat (length blocks) * FLASH_WRITE_SIZE esp - len image.
Proof.
  intros Hpos Hall Hconcat Hpad.
  pose proof (concat_blocks_length _ _ Hall) as Hlen.
  rewrite Hconcat in Hlen. unfold len in Hlen.
  rewrite length_app, repeat_length in Hlen.
  split; [|unfold len; lia].
  apply Z.div_unique with (r := FLASH_WRITE_SIZE esp - 1 - Z.of_nat pad).
  - left. lia.
  - unfold len. lia.
Qed.

Lemma bytes_eqb_neq (a b : bytes) : bytes_eqb a b = false -> a <> b.
Proof. unfold bytes_eqb. destruct (list_eq_dec Z.eq_dec a b); [discriminate|auto]. Qed.

Lemma bytes_eqb_eq (a b : bytes) : bytes_eqb a b = true -> a = b.
Proof. unfold bytes_eqb. destruct (list_eq_dec Z.eq_dec a b); [auto|discriminate]. Qed.

Lemma but_last_n_short (n : nat) (b : bytes) :
  (length b <= n)%nat -> but_last_n n b = [].
Proof.
  intros Hle. unfold but_last_n. destruct n as [|k]; [reflexivity|].
  replace (length b - S k)%nat with 0%nat by lia. reflexivity.
Qed.

(** The verification step: where the loader has the MD5 command, one
    request for the digest of [uncsize] bytes at [address], compared with
    [calcmd5], and no error exactly when the target's digest is
    [calcmd5]; elsewhere nothing. *)
Lemma md5_check_ack (address uncsize : Z) (calcmd5 : bytes) (s : session device) :
  acknowledging esp (transport s) ->
  0 <= address < 2 ^ 32 ->
  0 <= uncsize < 2 ^ 32 ->
  let request :=
    le_bytes 4 address ++ le_bytes 4 uncsize ++ le_bytes 4 0 ++ le_bytes 4 0 in
  exists r s',
    ignore_NotImplementedInROM
      (res <- flash_md5sum esp address uncsize ;;
       if negb (bytes_eqb res calcmd5) then
         print (FileMd5 calcmd5) ;;;
         print (FlashMd5 res) ;;;
         raise (Md5Mismatch calcmd5 res)
       else print HashVerified) s
    = (r, s')
    /\ transport s'
       = transport
           (sent s
              (if IS_STUB esp || isinstance_ESP32ROM (CHIP esp)
               then [Command (Some ESP_SPI_FLASH_MD5) request 0]
               else []))
    /\ (r = inr tt
        \/ (exists res, res <> calcmd5 /\ r = inl (Md5Mismatch calcmd5 res))
        \/ (exists res, r = inl (Md5Unexpected res))
        \/ r = inl TypeError
        \/ r = inl UnicodeDecodeError)
    /\ (IS_STUB esp || isinstance_ESP32ROM (CHIP esp) = false -> r = inr tt)
    /\ (IS_STUB esp || isinstance_ESP32ROM (CHIP esp) = true ->
        exists val body,
          on_command (transport s) (log (transport s))
            (Some ESP_SPI_FLASH_MD5) request 0 = inr (val, body)
          /\ (r = inr tt <-> md5_reply_matches esp body calcmd5)).
Proof.
  intros Hack Haddr Hsize request.
  unfold ignore_NotImplementedInROM, flash_md5sum, stub_and_esp32_function_only.
  destruct (IS_STUB esp || isinstance_ESP32ROM (CHIP esp)) eqn:Hsupport.
  - rewrite pack_IIII by (assumption || lia). run_bind. run_bind.
    fold request.
    destruct (check_command_reply (Some ESP_SPI_FLASH_MD5) request 0 s Hack)
      as [val [body [Hreply Hcmd]]].
    unfold bind at 1. rewrite Hcmd.
    unfold md5_reply_matches. cbv zeta.
    destruct (Nat.ltb_spec (STATUS_BYTES_LENGTH esp) (length body)) as [Hlong|Hshort].
    + set (res := but_last_n (STATUS_BYTES_LENGTH esp) body).
      destruct (length res =? 32)%nat eqn:H32.
      * apply Nat.eqb_eq in H32.
        destruct (utf8_decode res) as [str|] eqn:Hdecode.
        -- cbn [ret]. destruct (bytes_eqb str calcmd5) eqn:Heq; cbn [negb].
           ++ apply bytes_eqb_eq in Heq. subst str.
              do 2 eexists. split; [reflexivity|]. split; [reflexivity|].
              split; [now left|]. split; [discriminate|].
              intros _. exists val, body. split; [exact Hreply|].
              split; [intros _; left; now split|reflexivity].
           ++ apply bytes_eqb_neq in Heq.
              do 2 eexists. split; [reflexivity|]. split; [reflexivity|].
              split; [right; left; now exists str|]. split; [discriminate|].
              intros _. exists val, body. split; [exact Hreply|].
              split; [discriminate|].
              fold res. intros [[_ Hm]|[Hm _]]; [congruence|lia].
        -- do 2 eexists. split; [reflexivity|]. split; [reflexivity|].
           split; [now right; right; right; right|]. split; [discriminate|].
           intros _. exists val, body. split; [exact Hreply|].
           split; [discriminate|].
           fold res. intros [[_ Hm]|[Hm _]]; [congruence|lia].
      * apply Nat.eqb_neq in H32.
        destruct (length res =? 16)%nat eqn:H16.
        -- apply Nat.eqb_eq in H16. cbn [ret].
           destruct (bytes_eqb (hexify_lower res) calcmd5) eqn:Heq; cbn [negb].
           ++ apply bytes_eqb_eq in Heq.
              do 2 eexists. split; [reflexivity|]. split; [reflexivity|].
              split; [now left|]. split; [discriminate|].
              intros _. exists val, body. split; [exact Hreply|].
              split; [intros _; right; now split|reflexivity].
           ++ apply bytes_eqb_neq in Heq.
              do 2 eexists. split; [reflexivity|]. split; [reflexivity|].
              split; [right; left; now exists (hexify_lower res)|].
              split; [discriminate|].
              intros _. exists val, body. split; [exact Hreply|].
              split; [discriminate|].
              fold res. intros [[Hm _]|[_ Hm]]; [lia|congruence].
        -- apply Nat.eqb_neq in H16.
           do 2 eexists. split; [reflexivity|]. split; [reflexivity|].
           split; [right; right; left; now exists res|]. split; [discriminate|].
           intros _. exists val, body. split; [exact Hreply|].
           split; [discriminate|].
           fold res. intros [[Hm _]|[Hm _]]; lia.
    + do 2 eexists. split; [reflexivity|]. split; [reflexivity|].
      split; [now right; right; right; left|]. split; [discriminate|].
      intros _. exists val, body. split; [exact Hreply|].
      split; [discriminate|].
      rewrite (but_last_n_short _ _ Hshort). cbn [length].
      intros [[Hm _]|[Hm _]]; discriminate.
  - do 2 eexists. split; [reflexivity|]. rewrite sent_nil.
    split; [reflexivity|]. split; [now left|]. split; [reflexivity|discriminate].
Qed.

End Acknowledging.

(* ------------------------------------------------------------------ *)
(** ** Computations that only print *)

Section Quiet.

Context {C : Type}.

Lemma quiet_ret {A} (a : A) : quiet (C := C) (ret a).
Proof. intros s. reflexivity. Qed.

Lemma quiet_raise {A} (e : exn) : quiet (C := C) (A := A) (raise e).
Proof. intros s. reflexivity. Qed.

Lemma quiet_print (m : message) : quiet (C := C) (print m).
Proof. intros s. reflexivity. Qed.

Lemma quiet_lift {A} (r : result A) : quiet (C := C) (lift r).
Proof. destruct r; intros s; reflexivity. Qed.

Lemma quiet_bind {A B} (m : M (session C) A) (k : A -> M (session C) B) :
  quiet m -> (forall a, quiet (k a)) -> quiet (bind m k).
Proof.
  intros Hm Hk s. unfold bind. specialize (Hm s).
  destruct (m s) as [[e|a] s1]; cbn [snd] in *.
  - assumption.
  - rewrite <- Hm. apply Hk.
Qed.

Lemma quiet_print_all (ms : list message) : quiet (C := C) (print_all ms).
Proof.
  induction ms as [|m rest IH]; cbn [print_all].
  - apply quiet_ret.
  - apply quiet_bind; [apply quiet_print|intros _; exact IH].
Qed.

(** The flash-parameter patch talks to nobody. *)
Lemma update_image_flash_params_quiet (lib : libraries) (esp : ESPLoader)
    (address : Z) (args : Args) (image : bytes) :
  quiet (C := C) (_update_image_flash_params lib esp address args image).
Proof.
  unfold _update_image_flash_params.
  repeat first
    [ apply quiet_ret
    | apply quiet_raise
    | apply quiet_print
    | apply quiet_lift
    | apply quiet_print_all
    | apply quiet_bind; [|intros ?]
    | match goal with
      | |- quiet (if ?c then _ else _) => destruct c
      | |- quiet (match ?x with _ => _ end) => destruct x
      | |- quiet (let '(_, _) := ?x in _) => destruct x
      end ].
Qed.

End Quiet.

(* ------------------------------------------------------------------ *)
(** ** Computations whose result ignores the session *)

Section Steady.

Context {C : Type}.

Lemma steady_ret {A} (a : A) : steady (C := C) (ret a).
Proof. intros s s'. reflexivity. Qed.

Lemma steady_raise {A} (e : exn) : steady (C := C) (A := A) (raise e).
Proof. intros s s'. reflexivity. Qed.

Lemma steady_print (m : message) : steady (C := C) (print m).
Proof. intros s s'. reflexivity. Qed.

Lemma steady_lift {A} (r : result A) : steady (C := C) (lift r).
Proof. destruct r; intros s s'; reflexivity. Qed.

Lemma steady_bind {A B} (m : M (session C) A) (k : A -> M (session C) B) :
  steady m -> (forall a, steady (k a)) -> steady (bind m k).
Proof.
  intros Hm Hk s s'. unfold bind. specialize (Hm s s').
  destruct (m s) as [[e|a] s1]; destruct (m s') as [[e'|a'] s1'];
    cbn [fst] in *; try discriminate.
  - now injection Hm as ->.
  - injection Hm as ->. apply Hk.
Qed.

Lemma steady_print_all (ms : list message) : steady (C := C) (print_all ms).
Proof.
  induction ms as [|m rest IH]; cbn [print_all].
  - apply steady_ret.
  - apply steady_bind; [apply steady_print|intros _; exact IH].
Qed.

(** The flash-parameter patch returns the same image whatever has been
    printed before. *)
Lemma update_image_flash_params_steady (lib : libraries) (esp : ESPLoader)
    (address : Z) (args : Args) (image : bytes) :
  steady (C := C) (_update_image_flash_params lib esp address args image).
Proof.
  unfold _update_image_flash_params.
  repeat first
    [ apply steady_ret
    | apply steady_raise
    | apply steady_print
    | apply steady_lift
    | apply steady_print_all
    | apply steady_bind; [|intros ?]
    | match goal with
      | |- steady (if ?c then _ else _) => destruct c
      | |- steady (match ?x with _ => _ end) => destruct x
      | |- steady (let '(_, _) := ?x in _) => destruct x
      end ].
Qed.

(** The image it returns has the length of the buffer and the same
    byte everywhere but at offsets 2 and 3. *)
Lemma update_image_flash_params_keeps (lib : libraries) (esp : ESPLoader)
    (address : Z) (args : Args) (image image' : bytes) (s : session C) :
  fst (_update_image_flash_params lib esp address args image s) = inr image' ->
  length image' = length image
  /\ (forall i, i <> 2%nat -> i <> 3%nat ->
        nth_error image' i = nth_error image i).
Proof.
  destruct (_update_image_flash_params lib esp address args image s)
    as [r s'] eqn:Hrun.
  cbn [fst]. intros ->.
  assert (Hsame : image' = image ->
    length image' = length image
    /\ (forall i, i <> 2%nat -> i <> 3%nat ->
          nth_error image' i = nth_error image i)).
  { intros ->. now split. }
  unfold _update_image_flash_params in Hrun.
  destruct (len image <? 8) eqn:Hlen.
  { injection Hrun as <- _. now apply Hsame. }
  destruct (negb (address =? BOOTLOADER_FLASH_OFFSET esp)) eqn:Haddr.
  { injection Hrun as <- _. now apply Hsame. }
  destruct (is_keep (flash_mode args) && is_keep (flash_freq args)
            && is_keep (flash_size args)).
  { injection Hrun as <- _. now apply Hsame. }
  destruct (negb (nth 0 image 0 =? ESP_IMAGE_MAGIC)) eqn:Hmagic.
  { apply bind_inr in Hrun. destruct Hrun as [u [s1 [_ Hret]]].
    injection Hret as <- _. now apply Hsame. }
  destruct (load_and_verify lib esp image) as [r printed] eqn:Hload.
  apply bind_inr in Hrun. destruct Hrun as [u [s1 [_ Hrun]]].
  destruct r as [e|ok].
  { apply bind_inr in Hrun. destruct Hrun as [u' [s2 [_ Hret]]].
    injection Hret as <- _. now apply Hsame. }
  apply bind_inr in Hrun. destruct Hrun as [fm [s2 [_ Hrun]]].
  apply bind_inr in Hrun. destruct Hrun as [ff [s3 [_ Hrun]]].
  apply bind_inr in Hrun. destruct Hrun as [fs [s4 [_ Hrun]]].
  apply bind_inr in Hrun. destruct Hrun as [fp [s5 [Hpack Hrun]]].
  apply lift_inr in Hpack. destruct Hpack as [Hpack _].
  apply pack_BB_length in Hpack.
  destruct (negb (bytes_eqb fp (slice image 2 4))).
  2:{ injection Hrun as <- _. now apply Hsame. }
  apply bind_inr in Hrun. destruct Hrun as [u' [s6 [_ Hret]]].
  injection Hret as <- _.
  apply Z.ltb_ge in Hlen. unfold len in Hlen.
  apply patch_frame; [lia|assumption].
Qed.

End Steady.

(* ------------------------------------------------------------------ *)
(** ** The flash-write pipeline *)

Lemma pad_to_nonempty (d padded : bytes) (alignment pad_character : Z) :
  pad_to d alignment pad_character = inr padded -> d <> [] -> padded <> [].
Proof.
  unfold pad_to. destruct (alignment =? 0); [discriminate|].
  destruct (negb (len d mod alignment =? 0)); intros Heq Hne; injection Heq as <-.
  - destruct d; [contradiction|discriminate].
  - assumption.
Qed.

(** [pad_to(data, 4)] appends the fewest 0xFF bytes that make the length
    a multiple of 4. *)
Lemma pad_to_four (d : bytes) :
  pad_to d 4 0xFF = inr (d ++ repeat 0xFF (Z.to_nat ((- len d) mod 4))).
Proof.
  unfold pad_to. change (4 =? 0) with false. cbv iota.
  destruct (len d mod 4 =? 0) eqn:Hmod; cbn [negb].
  - apply Z.eqb_eq in Hmod.
    replace ((- len d) mod 4) with 0
      by (symmetry; apply Z.mod_opp_l_z; [lia|assumption]).
    now rewrite app_nil_r.
  - apply Z.eqb_neq in Hmod.
    rewrite Z.mod_opp_l_nz by (lia || assumption). reflexivity.
Qed.

Lemma transport_sent (s1 s2 : session device) (rs : list request) :
  transport s1 = transport s2 -> transport (sent s1 rs) = transport (sent s2 rs).
Proof. intros Heq. unfold sent. now rewrite Heq. Qed.

Lemma log_sent (s : session device) (rs : list request) :
  log (transport (sent s rs)) = log (transport s) ++ rs.
Proof. reflexivity. Qed.


Section Pipeline.

Variable lib : libraries.
Variable esp : ESPLoader.
Hypothesis Hfws : 0 < FLASH_WRITE_SIZE esp < 2 ^ 32.

(** The block loop of an uncompressed file: one accepted request per
    block under the opcode of its path, every block of the block size,
    the blocks together being the image followed by padding shorter than
    a block. *)
Lemma write_blocks_uncompressed_ack (encrypted : bool) (bound : nat) :
  forall (image : bytes) (seq : Z) (s : session device),
    acknowledging esp (transport s) ->
    (length image <= bound)%nat ->
    0 <= seq ->
    seq + len image < 2 ^ 32 ->
    exists blocks pad,
      write_blocks esp false encrypted bound image seq s
      = (inr tt, sent s (block_requests (block_op esp encrypted) seq blocks))
      /\ Forall (fun b => len b = FLASH_WRITE_SIZE esp) blocks
      /\ concat blocks = image ++ repeat 0xff pad
      /\ Z.of_nat pad < FLASH_WRITE_SIZE esp
      /\ (image = [] -> blocks = [] /\ pad = 0%nat).
Proof.
  induction bound as [|k IH]; intros image seq s Hack Hbound Hseq Hmax.
  - destruct image as [|x xs]; [|simpl in Hbound; lia].
    exists [], 0%nat. cbn [write_blocks block_requests].
    rewrite sent_nil. repeat split; try reflexivity; try constructor; lia.
  - destruct image as [|x xs].
    + exists [], 0%nat. cbn [write_blocks block_requests].
      rewrite sent_nil. repeat split; try reflexivity; try constructor; lia.
    + set (image := x :: xs) in *.
      set (n := Z.to_nat (FLASH_WRITE_SIZE esp)).
      assert (Hn : (1 <= n)%nat) by (unfold n; lia).
      assert (Hlen_image : len image = Z.of_nat (length image)) by reflexivity.
      set (block := firstn n image
                    ++ repeat 0xff (Z.to_nat (FLASH_WRITE_SIZE esp - len (firstn n image)))).
      assert (Hblock : len block = FLASH_WRITE_SIZE esp).
      { unfold block, len. rewrite length_app, repeat_length.
        unfold len. rewrite !length_firstn. unfold n. lia. }
      assert (Hsend :
        (if encrypted then flash_encrypt_block esp block seq
         else flash_block esp block seq) s
        = (inr tt, sent s (block_requests (block_op esp encrypted) seq [block]))).
      { unfold block_op, flash_encrypt_block, flash_block.
        destruct encrypted; cbn [andb];
          [destruct (isinstance_S2_or_later (CHIP esp) && negb (IS_STUB esp));
           cbn [negb]|];
          apply write_block_attempts_ack; assumption || lia. }
      assert (Hrun :
        write_blocks esp false encrypted (S k) image seq s
        = write_blocks esp false encrypted k (skipn n image) (seq + 1)
            (sent s (block_requests (block_op esp encrypted) seq [block]))).
      { unfold image at 1. cbn [write_blocks]. fold image. fold n.
        unfold slice. rewrite Nat.sub_0_r. cbn [skipn]. fold block.
        unfold bind at 1. rewrite Hsend. reflexivity. }
      destruct (IH (skipn n image) (seq + 1)
                  (sent s (block_requests (block_op esp encrypted) seq [block])))
        as [blocks [pad [Hrest [Hall [Hconcat [Hpad Hnil]]]]]].
      * assumption.
      * rewrite length_skipn. unfold image in *. simpl length in *. lia.
      * lia.
      * unfold len. rewrite length_skipn. unfold len in Hmax.
        unfold image in *. simpl length in *. lia.
      * rewrite Hrun, Hrest, sent_sent.
        destruct (Nat.le_gt_cases (length image) n) as [Hshort|Hlong].
        -- assert (Hskip : skipn n image = []) by now apply skipn_all2.
           destruct (Hnil Hskip) as [-> ->].
           exists [block], (n - length image)%nat.
           repeat split.
           ++ constructor; [assumption|constructor].
           ++ cbn [concat]. rewrite app_nil_r. unfold block.
              rewrite firstn_all2 by assumption.
              f_equal. f_equal. unfold len, n. lia.
           ++ unfold n, image. simpl length. lia.
           ++ discriminate.
           ++ discriminate.
        -- exists (block :: blocks), pad.
           repeat split.
           ++ now constructor.
           ++ cbn [concat]. rewrite Hconcat. unfold block.
              replace (Z.to_nat (FLASH_WRITE_SIZE esp - len (firstn n image)))
                with 0%nat
                by (unfold len; rewrite length_firstn; unfold n; lia).
              cbn [repeat]. rewrite app_nil_r, app_assoc.
              now rewrite firstn_skipn.
           ++ assumption.
           ++ discriminate.
           ++ discriminate.
Qed.



(** The register read after the blocks. *)
Lemma magic_ack (s : session device) :
  acknowledging esp (transport s) ->
  (if IS_STUB esp
   then bind (read_reg CHIP_DETECT_MAGIC_REG_ADDR) (fun _ => ret tt)
   else ret tt) s
  = (inr tt, sent s (magic_requests esp)).
Proof.
  intros Hack. unfold magic_requests. destruct (IS_STUB esp).
  - destruct (read_reg_ack esp CHIP_DETECT_MAGIC_REG_ADDR s) as [val Hread];
      [exact Hack|unfold CHIP_DETECT_MAGIC_REG_ADDR; lia|].
    unfold bind. now rewrite Hread.
  - now rewrite sent_nil.
Qed.

(** What [write_file] prints before it reads the file, and the
    compression setting it goes on with. *)
Lemma write_file_head {A} (args : Args) (encrypted compress : bool) (name : string)
    (k : bool -> M (session device) A) (s : session device) :
  bind (if compress && encrypted
        then bind (print WarnMutuallyExclusive)
                  (fun _ => bind (print (WillFlashUncompressed name))
                                 (fun _ => ret false))
        else ret compress)
       (fun c => bind (if no_stub args then print ErasingFlash else ret tt)
                      (fun _ => k c)) s
  = k (compress && negb encrypted)
      (mkSession (transport s)
         (stdout s
          ++ (if compress && encrypted
              then [WarnMutuallyExclusive; WillFlashUncompressed name] else [])
          ++ (if no_stub args then [ErasingFlash] else []))).
Proof.
  destruct s as [c out].
  destruct compress, encrypted, (no_stub args); cbn [andb negb];
    unfold bind, print, modify, ret; cbn [transport stdout];
    rewrite <- ?app_assoc, ?app_nil_r; reflexivity.
Qed.

(** An uncompressed file, encrypted or not, written to a target that
    accepts every command: FLASH_BEGIN, the blocks under the opcode of
    the path, the stub's register read, and for an unencrypted file the
    MD5 request, which alone decides the outcome. *)
Lemma write_file_uncompressed_ack (args : Args) (address : Z) (f : argfile)
    (encrypted : bool) (alignment : Z) (s s0 : session device)
    (padded image : bytes) (es : Z) :
  args_compress args && negb encrypted = false ->
  acknowledging esp (transport s) ->
  0 <= address < 2 ^ 32 ->
  content f <> [] ->
  (if encrypted then FLASH_ENCRYPTED_WRITE_ALIGN esp = Some alignment
   else alignment = 4) ->
  pad_to (content f) alignment 0xFF = inr padded ->
  fst (_update_image_flash_params lib esp address args padded s0) = inr image ->
  len image < 2 ^ 32 ->
  get_erase_size esp address (len image) = inr es ->
  0 <= es < 2 ^ 32 ->
  exists r s' blocks,
    let count := Z.of_nat (length blocks) in
    let written :=
      [begin_request esp es count address encrypted]
      ++ block_requests (block_op esp encrypted) 0 blocks
      ++ magic_requests esp in
    write_file lib esp args (address, f, encrypted) s = (r, s')
    /\ transport s'
       = transport
           (sent s (written
                    ++ (if encrypted then []
                        else md5_requests esp address (len image))))
    /\ count = (len image + FLASH_WRITE_SIZE esp - 1) / FLASH_WRITE_SIZE esp
    /\ Forall (fun b => len b = FLASH_WRITE_SIZE esp) blocks
    /\ concat blocks
       = image ++ repeat 0xff (Z.to_nat (count * FLASH_WRITE_SIZE esp - len image))
    /\ (r = inr tt
        \/ (exists res, res <> md5_hexdigest lib image
                        /\ r = inl (Md5Mismatch (md5_hexdigest lib image) res))
        \/ (exists res, r = inl (Md5Unexpected res))
        \/ r = inl TypeError
        \/ r = inl UnicodeDecodeError)
    /\ (encrypted = true \/ md5_checked esp = false -> r = inr tt)
    /\ (encrypted = false -> md5_checked esp = true ->
        exists val body,
          on_command (transport s) (log (transport s) ++ written)
            (Some ESP_SPI_FLASH_MD5) (md5_payload address (len image)) 0
          = inr (val, body)
          /\ (r = inr tt <-> md5_reply_matches esp body (md5_hexdigest lib image))).
Proof.
  intros Hcompress Hack Haddr Hne Halign Hpad Hupd Hlen Hes Hes_range.
  pose proof (pad_to_nonempty _ _ _ _ Hpad Hne) as Hpadded.
  assert (Hlen0 : 0 <= len image < 2 ^ 32) by (unfold len in *; lia).
  unfold write_file. rewrite write_file_head. rewrite Hcompress.
  set (sh := mkSession (transport s) _).
  assert (Hsh : transport sh = transport s) by reflexivity.
  (* alignment and padding *)
  assert (Hal :
    (if encrypted
     then match FLASH_ENCRYPTED_WRITE_ALIGN esp with
          | Some a => ret a
          | None => raise AttributeError
          end
     else ret 4) sh = (inr alignment, sh)).
  { destruct encrypted; [rewrite Halign|subst alignment]; reflexivity. }
  unfold bind at 1. rewrite Hal. rewrite Hpad. run_bind.
  replace (len padded =? 0) with false
    by (symmetry; apply Z.eqb_neq; unfold len;
        destruct padded; [contradiction|simpl; lia]).
  (* the patch *)
  destruct (_update_image_flash_params lib esp address args padded sh)
    as [ri s1] eqn:Hrun_upd.
  assert (Hri : ri = inr image).
  { pose proof (update_image_flash_params_steady lib esp address args padded sh s0)
      as Hsteady.
    rewrite Hrun_upd in Hsteady. cbn [fst] in Hsteady. congruence. }
  subst ri.
  pose proof (update_image_flash_params_quiet lib esp address args padded sh)
    as Hquiet.
  rewrite Hrun_upd in Hquiet. cbn [snd] in Hquiet.
  assert (Htransport : transport s1 = transport s) by congruence.
  assert (Hack1 : acknowledging esp (transport s1)) by now rewrite Htransport.
  unfold bind at 1. rewrite Hrun_upd.
  (* the commands *)
  pose proof (flash_begin_ack esp (len image) address es encrypted s1
                Hack1 Hfws Hlen0 Haddr Hes Hes_range) as Hbegin.
  fold (begin_request esp es
          ((len image + FLASH_WRITE_SIZE esp - 1) / FLASH_WRITE_SIZE esp)
          address encrypted) in Hbegin.
  set (begin := begin_request _ _ _ _ _) in Hbegin.
  destruct (write_blocks_uncompressed_ack encrypted (length image) image 0
              (sent s1 [begin]))
    as [blocks [pad [Hblocks [Hall [Hconcat [Hpadlt _]]]]]];
    [exact Hack1|lia|lia|lia|].
  destruct (block_count esp image blocks pad (proj1 Hfws) Hall Hconcat Hpadlt)
    as [Hcount Hpadval].
  set (data := block_requests (block_op esp encrypted) 0 blocks) in *.
  pose proof (magic_ack (sent (sent s1 [begin]) data) Hack1) as Hmagic.
  set (s2 := sent (sent (sent s1 [begin]) data) (magic_requests esp)) in *.
  assert (Hack2 : acknowledging esp (transport s2)) by exact Hack1.
  unfold bind at 1. unfold bind at 1. rewrite Hbegin. cbn [ret].
  unfold bind at 1. rewrite Hblocks.
  unfold bind at 1. rewrite Hmagic.
  assert (Hs2 : transport s2
                = transport (sent s ([begin] ++ data ++ magic_requests esp))).
  { unfold s2. rewrite !sent_sent. now apply transport_sent. }
  assert (Hbegin_eq :
    begin = begin_request esp es (Z.of_nat (length blocks)) address encrypted).
  { unfold begin. now rewrite Hcount. }
  assert (Hconcat' :
    concat blocks
    = image ++ repeat 0xff
                 (Z.to_nat (Z.of_nat (length blocks) * FLASH_WRITE_SIZE esp
                            - len image))).
  { rewrite Hconcat. f_equal. f_equal. lia. }
  destruct encrypted; cbn [negb andb].
  - exists (inr tt), s2, blocks. cbv zeta. rewrite <- Hbegin_eq. fold data.
    split; [reflexivity|]. rewrite app_nil_r.
    split; [exact Hs2|]. split; [exact Hcount|]. split; [exact Hall|].
    split; [exact Hconcat'|]. split; [now left|].
    split; [reflexivity|discriminate].
  - destruct (secure_download_mode esp) eqn:Hsec; cbn [negb].
    + exists (inr tt), s2, blocks. cbv zeta. rewrite <- Hbegin_eq. fold data.
      split; [reflexivity|].
      unfold md5_requests, md5_checked. rewrite Hsec. cbn [negb andb].
      rewrite app_nil_r.
      split; [exact Hs2|]. split; [exact Hcount|]. split; [exact Hall|].
      split; [exact Hconcat'|]. split; [now left|].
      split; [reflexivity|discriminate].
    + destruct (md5_check_ack esp address (len image) (md5_hexdigest lib image) s2
                  Hack2 Haddr Hlen0)
        as [r3 [s3 [Hmd5 [Hs3 [Hr3 [Hunsupported Hreply]]]]]].
      rewrite Hmd5. exists r3, s3, blocks. cbv zeta. rewrite <- Hbegin_eq. fold data.
      split; [reflexivity|].
      unfold md5_requests, md5_checked. rewrite Hsec. cbn [negb andb].
      split.
      { rewrite Hs3. fold (md5_payload address (len image)).
        rewrite <- (sent_sent s). now apply transport_sent. }
      split; [exact Hcount|]. split; [exact Hall|].
      split; [exact Hconcat'|]. split; [exact Hr3|].
      split.
      { intros [Habs|Hno]; [discriminate|now apply Hunsupported]. }
      intros _ Hsupport. destruct (Hreply Hsupport) as [val [body [Hcmd Hiff]]].
      exists val, body. split; [|exact Hiff].
      rewrite <- Hcmd. rewrite Hs2. reflexivity.
Qed.


(** After the last file a stub loader sends an empty FLASH_BEGIN and the
    end command of the last file's path, without reboot; a ROM loader
    sends nothing. *)
Lemma write_flash_tail_ack (compressed : bool) (s : session device) :
  acknowledging esp (transport s) ->
  (if IS_STUB esp then
     bind (flash_begin esp 0 0 false)
          (fun _ => if compressed then flash_defl_finish esp false
                    else flash_finish esp false)
   else ret tt) s
  = (inr tt,
     sent s (finish_requests esp
               (if compressed then ESP_FLASH_DEFL_END else ESP_FLASH_END)
               (inr tt))).
Proof.
  intros Hack. unfold finish_requests.
  destruct (IS_STUB esp) eqn:Hstub; [|now rewrite sent_nil].
  assert (Hes : get_erase_size esp 0 0 = inr 0).
  { unfold get_erase_size. rewrite Hstub. now destruct (CHIP esp). }
  pose proof (flash_begin_ack esp 0 0 0 false s Hack Hfws ltac:(lia) ltac:(lia)
                Hes ltac:(lia)) as Hbegin.
  replace ((0 + FLASH_WRITE_SIZE esp - 1) / FLASH_WRITE_SIZE esp) with 0 in Hbegin
    by (symmetry; apply Z.div_small; lia).
  fold (begin_request esp 0 0 0 false) in Hbegin.
  unfold bind at 1. rewrite Hbegin.
  assert (Hack1 : acknowledging esp
                    (transport (sent s [begin_request esp 0 0 0 false])))
    by exact Hack.
  destruct compressed.
  - unfold flash_defl_finish, stub_and_esp32_function_only.
    rewrite Hstub. cbn [orb negb andb]. cbn [pack I].
    change ((0 <=? 1) && (1 <? 256 ^ Z.of_nat 4)) with true. cbv iota.
    rewrite app_nil_r. run_bind.
    destruct (check_command_ack esp (Some ESP_FLASH_DEFL_END) (le_bytes 4 1) 0
                _ Hack1) as [r Hcmd].
    unfold bind. rewrite Hcmd. now rewrite sent_sent.
  - unfold flash_finish. cbn [negb]. cbn [pack I].
    change ((0 <=? 1) && (1 <? 256 ^ Z.of_nat 4)) with true. cbv iota.
    rewrite app_nil_r. run_bind.
    destruct (check_command_ack esp (Some ESP_FLASH_END) (le_bytes 4 1) 0
                _ Hack1) as [r Hcmd].
    unfold bind. rewrite Hcmd. now rewrite sent_sent.
Qed.

End Pipeline.

(** The files that fit are let through. *)
Lemma check_fit_ok {C : Type} `{Transport C} (flash_end : Z)
    (files : list (Z * argfile)) (s : session C) :
  Forall (fun af => fst af + len (content (snd af)) <= flash_end) files ->
  check_fit flash_end files s = (inr tt, s).
Proof.
  induction 1 as [|[address f] rest Hfit _ IH]; [reflexivity|].
  cbn [check_fit]. cbn [fst snd] in Hfit.
  replace (flash_end <? address + len (content f)) with false
    by (symmetry; apply Z.ltb_ge; lia).
  exact IH.
Qed.

(** The report of the range to erase only prints. *)
Lemma report_erase_ok {C : Type} `{Transport C} (esp : ESPLoader)
    (files : list (Z * argfile)) :
  FLASH_SECTOR_SIZE esp <> 0 ->
  forall s : session C,
  exists s', report_erase esp files s = (inr tt, s') /\ transport s' = transport s.
Proof.
  intros Hsector.
  induction files as [|[address f] rest IH]; intros s.
  - exists s. now split.
  - cbn [report_erase]. unfold div_roundup.
    replace (FLASH_SECTOR_SIZE esp =? 0) with false
      by (symmetry; now apply Z.eqb_neq).
    cbn [lift].
    destruct (negb (address mod FLASH_SECTOR_SIZE esp =? 0));
      unfold bind, print, modify, ret; fold (@bind (session C));
      match goal with
      | |- exists s', report_erase esp rest ?s1 = _ /\ _ =>
          destruct (IH s1) as [s' [Hrun Htransport]]
      end;
      exists s'; (split; [exact Hrun|exact Htransport]).
Qed.

(** The block count of the source buffer is that of the image when the
    block size is a multiple of 4. *)
Lemma block_count_of_source (size block_size : Z) :
  0 < block_size ->
  block_size mod 4 = 0 ->
  0 <= size ->
  (size + (- size) mod 4 + block_size - 1) / block_size
  = (size + block_size - 1) / block_size.
Proof.
  intros Hpos Hmult Hsize.
  pose proof (Z.mod_pos_bound (- size) 4 ltac:(lia)) as Hpad.
  pose proof (Z.div_mod (- size) 4 ltac:(lia)) as Hdm.
  pose proof (Z.div_mod block_size 4 ltac:(lia)) as Hbs.
  pose proof (Z.div_mod (size + block_size - 1) block_size ltac:(lia)) as Hc.
  pose proof (Z.mod_pos_bound (size + block_size - 1) block_size Hpos) as Hr.
  set (c := (size + block_size - 1) / block_size) in *.
  symmetry.
  apply Z.div_unique
    with (r := size + (- size) mod 4 + block_size - 1 - block_size * c).
  - left. split; [lia|].
    (* the padded size is a multiple of 4 and so is [c * block_size] *)
    assert (Hfour : exists j, size + (- size) mod 4 = 4 * j).
    { exists (- ((- size) / 4)). lia. }
    destruct Hfour as [j Hj].
    assert (Hk : block_size * c = 4 * (block_size / 4 * c)) by nia.
    lia.
  - lia.
Qed.

(** C2, as claimed: the final MD5 comparison would be computed over the
    unpadded source buffer of [size] bytes. It is not: [write_flash] pads
    the file to a multiple of 4 bytes before it computes the digest and
    asks the target for the digest of the padded length. For a file of
    five bytes the request is for eight bytes; a target that answers the
    digest of the five bytes of the file is turned down, one that answers
    the digest of the five bytes and three bytes of 0xFF is accepted. *)
Lemma md5_covers_padded_image :
  let source := content five_byte_file in
  let image := source ++ [0xff; 0xff; 0xff] in
  let run digest :=
    write_flash scenario_C_libraries unused_collaborators esp32_rom
      (plain_args [(0x10000, five_byte_file)])
      (mkSession (md5_device digest) []) in
  len source = 5
  /\ payloads ESP_SPI_FLASH_MD5 (log (transport (snd (run (toy_digest source)))))
     = [md5_payload 0x10000 8]
  /\ fst (run (toy_digest source))
     = inl (Md5Mismatch (toy_digest image) (toy_digest source))
  /\ fst (run (toy_digest image)) = inr tt
  /\ payloads ESP_FLASH_DATA (log (transport (snd (run (toy_digest image)))))
     = [le_bytes 4 1024 ++ le_bytes 4 0 ++ le_bytes 4 0 ++ le_bytes 4 0
        ++ image ++ repeat 0xff 1016].
Proof. vm_compute. repeat split. Qed.

(** C2, amended. One non-empty file, neither compressed nor encrypted, given to
    [write_flash] with a target that accepts every command. The image
    that is written is the file's content padded with 0xFF to a multiple
    of 4 bytes, its bytes 2 and 3 possibly patched with the flash
    parameters. After FLASH_BEGIN, [write_flash] sends exactly
    [ceil(len image / block_size)] FLASH_DATA commands, numbered from 0,
    every block of exactly [block_size] bytes, so the blocks hold
    [count * block_size] bytes: the image followed by 0xFF bytes up to
    the block boundary. With a block size that is a multiple of 4 the
    count is [ceil(size / block_size)] for the [size] bytes of the file.
    Where the loader has the MD5 command, the digest is requested for
    the [len image] bytes at [address] and compared with the MD5 of the
    image: the call ends without error exactly when the target answers
    that digest. A stub loader then sends an empty FLASH_BEGIN and
    FLASH_END. Nothing else is sent. *)
Theorem write_flash_block_count (lib : libraries) (q : collaborators device)
    (esp : ESPLoader) (args : Args) (address : Z) (f : argfile)
    (s : session device) (padded image : bytes) (es : Z) :
  addr_filename args = [(address, f)] ->
  encrypt args = false ->
  encrypt_files args = None ->
  args_compress args = false ->
  erase_all args = false ->
  verify args = false ->
  (is_keep (flash_size args) = false ->
   exists flash_end,
     flash_size_bytes (flash_size args) = inr flash_end
     /\ address + len (content f) <= flash_end) ->
  FLASH_SECTOR_SIZE esp <> 0 ->
  acknowledging esp (transport s) ->
  0 < FLASH_WRITE_SIZE esp < 2 ^ 32 ->
  0 <= address < 2 ^ 32 ->
  content f <> [] ->
  pad_to (content f) 4 0xFF = inr padded ->
  fst (_update_image_flash_params lib esp address args padded s) = inr image ->
  len image < 2 ^ 32 ->
  get_erase_size esp address (len image) = inr es ->
  0 <= es < 2 ^ 32 ->
  exists r s' blocks,
    let block_size := FLASH_WRITE_SIZE esp in
    let count := Z.of_nat (length blocks) in
    let written :=
      [begin_request esp es count address false]
      ++ block_requests ESP_FLASH_DATA 0 blocks
      ++ magic_requests esp in
    write_flash lib q esp args s = (r, s')
    /\ log (transport s')
       = log (transport s) ++ written
         ++ md5_requests esp address (len image)
         ++ finish_requests esp ESP_FLASH_END r
    /\ padded = content f ++ repeat 0xFF (Z.to_nat ((- len (content f)) mod 4))
    /\ length image = length padded
    /\ (forall i, i <> 2%nat -> i <> 3%nat -> nth_error image i = nth_error padded i)
    /\ count = (len image + block_size - 1) / block_size
    /\ (block_size mod 4 = 0 ->
        count = (len (content f) + block_size - 1) / block_size)
    /\ Forall (fun b => len b = block_size) blocks
    /\ len (concat blocks) = count * block_size
    /\ concat blocks
       = image ++ repeat 0xff (Z.to_nat (count * block_size - len image))
    /\ (r = inr tt
        \/ (exists res, res <> md5_hexdigest lib image
                        /\ r = inl (Md5Mismatch (md5_hexdigest lib image) res))
        \/ (exists res, r = inl (Md5Unexpected res))
        \/ r = inl TypeError
        \/ r = inl UnicodeDecodeError)
    /\ (md5_checked esp = false -> r = inr tt)
    /\ (md5_checked esp = true ->
        exists val body,
          on_command (transport s) (log (transport s) ++ written)
            (Some ESP_SPI_FLASH_MD5) (md5_payload address (len image)) 0
          = inr (val, body)
          /\ (r = inr tt <-> md5_reply_matches esp body (md5_hexdigest lib image))).
Proof.
  intros Hfiles Henc Hencf Hcompress Herase Hverify Hfit Hsector Hack Hfws
         Haddr Hne Hpad Hupd Hlen Hes Hes_range.
  (* the checks and the report *)
  assert (Hcheck : exists s0,
    bind (if negb (is_keep (flash_size args))
          then bind (lift (flash_size_bytes (flash_size args)))
                    (fun flash_end => check_fit flash_end (addr_filename args))
          else ret tt)
         (fun _ => report_erase esp (addr_filename args)) s
    = (inr tt, s0) /\ transport s0 = transport s).
  { destruct (report_erase_ok esp (addr_filename args) Hsector s)
      as [s0 [Hreport Htransport]].
    exists s0. split; [|exact Htransport].
    destruct (is_keep (flash_size args)); cbn [negb].
    - exact Hreport.
    - destruct (Hfit eq_refl) as [flash_end [Hsize Hle]].
      rewrite Hsize. cbn [lift]. unfold bind, ret.
      rewrite check_fit_ok; [exact Hreport|].
      rewrite Hfiles. constructor; [exact Hle|constructor]. }
  destruct Hcheck as [s0 [Hcheck Hs0]].
  assert (Hack0 : acknowledging esp (transport s0)) by now rewrite Hs0.
  (* the file *)
  destruct (write_file_uncompressed_ack lib esp Hfws args address f false 4
              s0 s padded image es)
    as [r1 [s1 [blocks [Hfile [Hs1 [Hcount [Hall [Hconcat [Hr1 [Hskip Hreply]]]]]]]]]];
    try assumption; try reflexivity.
  { now rewrite Hcompress. }
  cbv zeta in Hfile, Hs1, Hcount, Hconcat, Hreply.
  change (block_op esp false) with ESP_FLASH_DATA in *.
  set (written := [begin_request esp es (Z.of_nat (length blocks)) address false]
                  ++ block_requests ESP_FLASH_DATA 0 blocks
                  ++ magic_requests esp) in *.
  assert (Hall_files : all_files args = [(address, f, false)]).
  { unfold all_files. now rewrite Hencf, Hfiles, Henc. }
  (* the whole call *)
  assert (Hrun : exists r s',
    write_flash lib q esp args s = (r, s')
    /\ (r = r1 \/ (r1 = inr tt /\ r = inr tt))
    /\ transport s'
       = transport (sent s1 (finish_requests esp ESP_FLASH_END r))).
  { unfold write_flash. rewrite Henc, Hencf, Herase, Hverify, Hall_files.
    cbn [orb]. unfold bind at 1. unfold ret at 1.
    rewrite (bind_seq _ _ _ _ _ _ Hcheck).
    unfold bind at 1. cbn [write_files]. unfold bind at 1. rewrite Hfile.
    destruct r1 as [e|[]].
    - exists (inl e), s1. split; [reflexivity|]. split; [now left|].
      unfold finish_requests. destruct (IS_STUB esp); now rewrite sent_nil.
    - unfold ret at 1. unfold bind at 1. unfold print at 1, modify.
      set (s2 := mkSession (transport s1) (stdout s1 ++ [Leaving])).
      assert (Hack2 : acknowledging esp (transport s2)).
      { unfold s2. cbn [transport]. rewrite Hs1. exact Hack0. }
      pose proof (write_flash_tail_ack esp Hfws false s2 Hack2) as Htail.
      cbn [map snd last]. rewrite Hcompress. cbn [andb].
      unfold bind at 1. rewrite Htail.
      do 2 eexists. split; [reflexivity|]. split; [now left|].
      now apply transport_sent. }
  destruct Hrun as [r [s' [Hrun [Hr Hs']]]].
  assert (Hrr : r = r1) by (destruct Hr as [Hr|[-> ->]]; [exact Hr|reflexivity]).
  subst r1.
  destruct (update_image_flash_params_keeps lib esp address args padded image s Hupd)
    as [Hlength Hbytes].
  assert (Hpadded : padded
                    = content f ++ repeat 0xFF (Z.to_nat ((- len (content f)) mod 4))).
  { rewrite pad_to_four in Hpad. now injection Hpad as <-. }
  exists r, s', blocks. cbv zeta. fold written.
  split; [exact Hrun|].
  split.
  { rewrite Hs'. rewrite log_sent. rewrite Hs1. rewrite log_sent.
    rewrite Hs0. now rewrite <- !app_assoc. }
  split; [exact Hpadded|]. split; [exact Hlength|]. split; [exact Hbytes|].
  split; [exact Hcount|].
  split.
  { intros Hmult. rewrite Hcount. unfold len at 1. rewrite Hlength, Hpadded.
    rewrite length_app, repeat_length.
    pose proof (Z.mod_pos_bound (- len (content f)) 4 ltac:(lia)) as Hmod.
    rewrite Nat2Z.inj_add, Z2Nat.id by lia.
    fold (len (content f)).
    apply block_count_of_source; [lia|exact Hmult|unfold len; lia]. }
  split; [exact Hall|].
  split; [now apply concat_blocks_length|].
  split; [exact Hconcat|].
  split; [exact Hr1|].
  split; [intros Hno; apply Hskip; now right|].
  intros Hmd5. destruct (Hreply eq_refl Hmd5) as [val [body [Hcmd Hiff]]].
  exists val, body. split; [|exact Hiff].
  rewrite <- Hcmd. now rewrite Hs0.
Qed.


Lemma md5_device_acknowledging (digest : bytes) :
  acknowledging esp32_rom (md5_device digest).
Proof.
  intros l op data chk. cbn [on_command md5_device].
  destruct op as [o|].
  - destruct (o =? ESP_SPI_FLASH_MD5) eqn:Hop.
    + exists 0, (digest ++ [0; 0; 0; 0]). split; [reflexivity|].
      cbn [STATUS_BYTES_LENGTH esp32_rom]. rewrite length_app. cbn [length].
      split; [lia|]. split.
      * unfold last_n. rewrite length_app. cbn [length].
        replace (length digest + 4 - 4)%nat with (length digest) by lia.
        now rewrite skipn_app, skipn_all, Nat.sub_diag.
      * intros Hread. injection Hread as ->. vm_compute in Hop. discriminate.
    + exists 0, [0; 0; 0; 0]. now repeat split.
  - exists 0, [0; 0; 0; 0]. split; [reflexivity|]. split; [cbn; lia|].
    split; [reflexivity|discriminate].
Qed.

(** Scenario C, computed: ten FLASH_DATA commands of 16 header bytes and
    1024 block bytes each, the last block holding the 784 bytes that are
    left and 240 bytes of 0xFF; then the MD5 of the 10,000 bytes at
    0x10000 is asked for and matches. *)
Example scenario_C :
  let run := write_file scenario_C_libraries esp32_rom
               (plain_args [(0x10000, scenario_C_file)])
               (0x10000, scenario_C_file, false) scenario_C_session in
  let sent_blocks := payloads ESP_FLASH_DATA (log (transport (snd run))) in
  fst run = inr tt
  /\ length sent_blocks = 10%nat
  /\ map (@length Z) sent_blocks = repeat (16 + 1024)%nat 10
  /\ skipn 16 (last sent_blocks [])
     = repeat 0xAA 784 ++ repeat 0xff 240
  /\ payloads ESP_SPI_FLASH_MD5 (log (transport (snd run)))
     = [le_bytes 4 0x10000 ++ le_bytes 4 10000 ++ le_bytes 4 0 ++ le_bytes 4 0]
  /\ stdout (snd run) = [HashVerified].
Proof. vm_compute. repeat split. Qed.

(** The file of five bytes on an ESP32 ROM loader: the image is the
    file and three bytes of 0xFF, sent as one block of 1024 bytes. *)
Lemma write_flash_block_count_witness :
  let lib := scenario_C_libraries in
  let q := unused_collaborators in
  let esp := esp32_rom in
  let args := plain_args [(0x10000, five_byte_file)] in
  let address := 0x10000 in
  let f := five_byte_file in
  let padded := [1; 2; 3; 4; 5; 0xff; 0xff; 0xff] in
  let image := padded in
  let es := 8 in
  let s := mkSession (md5_device (toy_digest image)) [] in
  exists r s' blocks,
    let block_size := FLASH_WRITE_SIZE esp in
    let count := Z.of_nat (length blocks) in
    let written :=
      [begin_request esp es count address false]
      ++ block_requests ESP_FLASH_DATA 0 blocks
      ++ magic_requests esp in
    write_flash lib q esp args s = (r, s')
    /\ log (transport s')
       = log (transport s) ++ written
         ++ md5_requests esp address (len image)
         ++ finish_requests esp ESP_FLASH_END r
    /\ padded = content f ++ repeat 0xFF (Z.to_nat ((- len (content f)) mod 4))
    /\ length image = length padded
    /\ (forall i, i <> 2%nat -> i <> 3%nat -> nth_error image i = nth_error padded i)
    /\ count = (len image + block_size - 1) / block_size
    /\ (block_size mod 4 = 0 ->
        count = (len (content f) + block_size - 1) / block_size)
    /\ Forall (fun b => len b = block_size) blocks
    /\ len (concat blocks) = count * block_size
    /\ concat blocks
       = image ++ repeat 0xff (Z.to_nat (count * block_size - len image))
    /\ (r = inr tt
        \/ (exists res, res <> md5_hexdigest lib image
                        /\ r = inl (Md5Mismatch (md5_hexdigest lib image) res))
        \/ (exists res, r = inl (Md5Unexpected res))
        \/ r = inl TypeError
        \/ r = inl UnicodeDecodeError)
    /\ (md5_checked esp = false -> r = inr tt)
    /\ (md5_checked esp = true ->
        exists val body,
          on_command (transport s) (log (transport s) ++ written)
            (Some ESP_SPI_FLASH_MD5) (md5_payload address (len image)) 0
          = inr (val, body)
          /\ (r = inr tt <-> md5_reply_matches esp body (md5_hexdigest lib image))).
Proof.
  intros lib q esp args address f padded image es s.
  apply (write_flash_block_count lib q esp args address f s padded image es).
  - reflexivity.
  - reflexivity.
  - reflexivity.
  - reflexivity.
  - reflexivity.
  - reflexivity.
  - intros Hkeep. vm_compute in Hkeep. discriminate.
  - vm_compute. discriminate.
  - apply md5_device_acknowledging.
  - vm_compute. split; reflexivity.
  - vm_compute. split; [discriminate|reflexivity].
  - vm_compute. discriminate.
  - vm_compute. reflexivity.
  - vm_compute. reflexivity.
  - vm_compute. reflexivity.
  - vm_compute. reflexivity.
  - vm_compute. split; [discriminate|reflexivity].
Defined.

(** A reply of 32 bytes that are no UTF-8 text: [flash_md5sum] cannot
    decode it, and the call ends with [UnicodeDecodeError] once the blocks
    are written. *)
Example write_flash_undecodable_digest :
  let run := write_flash scenario_C_libraries unused_collaborators esp32_rom
               (plain_args [(0x10000, five_byte_file)])
               (mkSession (md5_device (repeat 0xff 32)) []) in
  fst run = inl UnicodeDecodeError
  /\ opcodes (log (transport (snd run)))
     = [ESP_FLASH_BEGIN; ESP_FLASH_DATA; ESP_SPI_FLASH_MD5].
Proof. vm_compute. split; reflexivity. Qed.


(* ------------------------------------------------------------------ *)
(** ** What a computation sends, whatever the target answers *)

Section Footprint.

Variable P : request -> Prop.

Lemma emits_nothing {A} (m : M (session device) A) : quiet m -> emits P m.
Proof.
  intros Hq s. exists []. rewrite Hq, app_nil_r. split; [reflexivity|constructor].
Qed.

Lemma emits_ret {A} (a : A) : emits P (ret a).
Proof. apply emits_nothing, quiet_ret. Qed.

Lemma emits_raise {A} (e : exn) : emits P (A := A) (raise e).
Proof. apply emits_nothing, quiet_raise. Qed.

Lemma emits_print (m : message) : emits P (print m).
Proof. apply emits_nothing, quiet_print. Qed.

Lemma emits_lift {A} (r : result A) : emits P (lift r).
Proof. apply emits_nothing, quiet_lift. Qed.

Lemma emits_bind {A B} (m : M (session device) A) (k : A -> M (session device) B) :
  emits P m -> (forall a, emits P (k a)) -> emits P (bind m k).
Proof.
  intros Hm Hk s. unfold bind. destruct (Hm s) as [a1 [Hlog1 Hall1]].
  destruct (m s) as [[e|a] s1]; cbn [snd] in *.
  - now exists a1.
  - destruct (Hk a s1) as [a2 [Hlog2 Hall2]].
    exists (a1 ++ a2). rewrite Hlog2, Hlog1, app_assoc.
    split; [reflexivity|]. now apply Forall_app.
Qed.

Lemma emits_try_FatalError {A} (m : M (session device) A)
    (h : exn -> M (session device) A) :
  emits P m -> (forall e, emits P (h e)) -> emits P (try_FatalError m h).
Proof.
  intros Hm Hh s. unfold try_FatalError. destruct (Hm s) as [a1 [Hlog1 Hall1]].
  destruct (m s) as [[e|a] s1]; cbn [snd] in *.
  - destruct (is_FatalError e).
    + destruct (Hh e s1) as [a2 [Hlog2 Hall2]].
      exists (a1 ++ a2). rewrite Hlog2, Hlog1, app_assoc.
      split; [reflexivity|]. now apply Forall_app.
    + now exists a1.
  - now exists a1.
Qed.

Lemma emits_ignore_NotImplementedInROM (m : M (session device) unit) :
  emits P m -> emits P (ignore_NotImplementedInROM m).
Proof.
  intros Hm s. unfold ignore_NotImplementedInROM.
  destruct (Hm s) as [a1 [Hlog1 Hall1]].
  destruct (m s) as [[e|a] s1]; cbn [snd] in *.
  - destruct e; now exists a1.
  - now exists a1.
Qed.

(** A command is logged once, accepted or not. *)
Lemma emits_check_command (esp : ESPLoader) (op : Z) (data : bytes) (chk : Z) :
  covers P op -> emits P (check_command esp (Some op) data chk).
Proof.
  intros Hop s. exists [Command (Some op) data chk].
  split; [|constructor; [apply Hop|constructor]].
  unfold check_command, bind, on_transport. cbn [command scripted_transport].
  destruct (on_command (transport s) (log (transport s)) (Some op) data chk)
    as [e|[val body]]; [reflexivity|].
  destruct (length body <? STATUS_BYTES_LENGTH esp)%nat; [reflexivity|].
  destruct (byte (last_n (STATUS_BYTES_LENGTH esp) body) 0) as [e|b0];
    [reflexivity|]. cbn [lift ret].
  destruct (negb (b0 =? 0));
    [unfold raise_WithResult; destruct (_ <? 2)%nat; reflexivity|].
  destruct (STATUS_BYTES_LENGTH esp <? length body)%nat; reflexivity.
Qed.

Lemma emits_read_reg (addr : Z) :
  covers P ESP_READ_REG -> emits P (read_reg addr).
Proof.
  intros Hop s. unfold read_reg.
  destruct (pack [I addr]) as [e|payload].
  - exists []. rewrite app_nil_r. split; [reflexivity|constructor].
  - exists [Command (Some ESP_READ_REG) payload 0].
    split; [|constructor; [apply Hop|constructor]].
    cbn [lift]. unfold bind at 1. cbn [ret].
    unfold bind, on_transport. cbn [command scripted_transport].
    destruct (on_command (transport s) (log (transport s)) (Some ESP_READ_REG) payload 0)
      as [e|[val body]]; [reflexivity|].
    destruct (byte body 0) as [e|b0]; [reflexivity|]. cbn [lift ret].
    destruct (negb (b0 =? 0));
      [unfold raise_WithResult; destruct (_ <? 2)%nat; reflexivity|reflexivity].
Qed.

Lemma emits_write_block_attempts (esp : ESPLoader) (op : Z) (data : bytes)
    (seq : Z) (n : nat) :
  covers P op -> emits P (write_block_attempts esp op data seq n).
Proof.
  intros Hop. induction n as [|k IH]; cbn [write_block_attempts];
    (apply emits_try_FatalError;
     [ apply emits_bind; [apply emits_lift|intros hdr];
       apply emits_bind; [now apply emits_check_command|intros _; apply emits_ret]
     | intros e ]).
  - apply emits_raise.
  - exact IH.
Qed.

Lemma emits_stub_and_esp32_function_only {A} (esp : ESPLoader)
    (m : M (session device) A) :
  emits P m -> emits P (stub_and_esp32_function_only esp m).
Proof.
  intros Hm. unfold stub_and_esp32_function_only.
  destruct (IS_STUB esp || isinstance_ESP32ROM (CHIP esp));
    [assumption|apply emits_raise].
Qed.

Lemma emits_bind_ret {A B} (a : A) (k : A -> M (session device) B) :
  emits P (k a) -> emits P (bind (ret a) k).
Proof. intros Hk s. exact (Hk s). Qed.

(** Break a sequence of statements into its commands. *)
Ltac emits_step :=
  first
    [ match goal with
      | |- emits _ (bind (ret _) _) => apply emits_bind_ret
      end
    | apply emits_ret
    | apply emits_raise
    | apply emits_print
    | apply emits_lift
    | apply emits_nothing, update_image_flash_params_quiet
    | apply emits_stub_and_esp32_function_only
    | apply emits_ignore_NotImplementedInROM
    | apply emits_check_command; assumption
    | apply emits_read_reg; assumption
    | apply emits_write_block_attempts; assumption
    | apply emits_bind; [|intros ?]
    | match goal with
      | |- emits _ (if ?c then _ else _) => destruct c
      | |- emits _ (match ?x with _ => _ end) => destruct x
      end ].

Lemma emits_flash_begin (esp : ESPLoader) (size offset : Z) (enc : bool) :
  covers P ESP_FLASH_BEGIN -> emits P (flash_begin esp size offset enc).
Proof. intros Hop. unfold flash_begin. repeat emits_step. Qed.

Lemma emits_flash_defl_begin (esp : ESPLoader) (size compsize offset : Z) :
  covers P ESP_FLASH_DEFL_BEGIN -> emits P (flash_defl_begin esp size compsize offset).
Proof. intros Hop. unfold flash_defl_begin. repeat emits_step. Qed.

Lemma emits_flash_md5sum (esp : ESPLoader) (addr size : Z) :
  covers P ESP_SPI_FLASH_MD5 -> emits P (flash_md5sum esp addr size).
Proof. intros Hop. unfold flash_md5sum. repeat emits_step. Qed.

Lemma emits_flash_encrypt_block (esp : ESPLoader) (data : bytes) (seq : Z) :
  covers P ESP_FLASH_DATA -> covers P ESP_FLASH_ENCRYPT_DATA ->
  emits P (flash_encrypt_block esp data seq).
Proof.
  intros Hplain Henc. unfold flash_encrypt_block, flash_block. repeat emits_step.
Qed.

(** The block loop sends the block command of its path and no other. *)
Lemma emits_write_blocks (esp : ESPLoader) (compress encrypted : bool) (bound : nat) :
  (compress = true -> covers P ESP_FLASH_DEFL_DATA) ->
  (compress = false -> covers P ESP_FLASH_DATA) ->
  (compress = false -> encrypted = true -> covers P ESP_FLASH_ENCRYPT_DATA) ->
  forall image seq, emits P (write_blocks esp compress encrypted bound image seq).
Proof.
  intros Hdefl Hplain Henc.
  induction bound as [|k IH]; intros image seq;
    destruct image as [|x xs]; cbn [write_blocks]; try apply emits_ret.
  - apply emits_raise.
  - apply emits_bind; [|intros _; apply IH].
    destruct compress.
    + specialize (Hdefl eq_refl). unfold flash_defl_block. repeat emits_step.
    + specialize (Hplain eq_refl). destruct encrypted.
      * specialize (Henc eq_refl eq_refl). now apply emits_flash_encrypt_block.
      * unfold flash_block. repeat emits_step.
Qed.

Ltac emits_flash :=
  first
    [ apply emits_flash_begin; assumption
    | apply emits_flash_defl_begin; assumption
    | apply emits_flash_md5sum; assumption
    | apply emits_write_blocks; intros; (assumption || discriminate)
    | emits_step ].

(** An uncompressed file goes through FLASH_BEGIN, the plain or the
    encrypted block command, the stub's READ_REG and the MD5 command. *)
Lemma emits_write_file_uncompressed (lib : libraries) (esp : ESPLoader)
    (args : Args) (address : Z) (f : argfile) (encrypted : bool) :
  args_compress args = false ->
  covers P ESP_FLASH_BEGIN -> covers P ESP_FLASH_DATA ->
  covers P ESP_FLASH_ENCRYPT_DATA -> covers P ESP_READ_REG ->
  covers P ESP_SPI_FLASH_MD5 ->
  emits P (write_file lib esp args (address, f, encrypted)).
Proof.
  intros Hcompress Hbegin Hdata Henc Hreg Hmd5.
  unfold write_file. rewrite Hcompress. cbn [andb].
  repeat emits_flash.
Qed.

(** A compressed file goes through FLASH_DEFL_BEGIN, FLASH_DEFL_DATA,
    the stub's READ_REG and the MD5 command. *)
Lemma emits_write_file_compressed (lib : libraries) (esp : ESPLoader)
    (args : Args) (address : Z) (f : argfile) :
  args_compress args = true ->
  covers P ESP_FLASH_DEFL_BEGIN -> covers P ESP_FLASH_DEFL_DATA ->
  covers P ESP_READ_REG -> covers P ESP_SPI_FLASH_MD5 ->
  emits P (write_file lib esp args (address, f, false)).
Proof.
  intros Hcompress Hbegin Hdata Hreg Hmd5.
  unfold write_file. rewrite Hcompress. cbn [andb].
  repeat emits_flash.
Qed.

End Footprint.

(* ------------------------------------------------------------------ *)
(** ** Compression and encryption; empty files *)

Lemma write_file_drops_compression {C : Type} `{Transport C} (lib : libraries)
    (esp : ESPLoader) (args : Args) (address : Z) (f : argfile) (s : session C) :
  args_compress args = true ->
  write_file lib esp args (address, f, true) s
  = write_file lib esp (without_compression args) (address, f, true)
      (mkSession (transport s)
         (stdout s ++ [WarnMutuallyExclusive; WillFlashUncompressed (name f)])).
Proof.
  intros Hcompress. unfold write_file. rewrite Hcompress.
  change (args_compress (without_compression args)) with false.
  cbn [andb]. unfold bind at 1. unfold bind at 1. unfold bind at 1.
  unfold print at 1 2, modify. cbn [ret transport stdout].
  rewrite <- app_assoc. reflexivity.
Qed.

(** Whatever the target answers: no FLASH_DEFL_BEGIN, FLASH_DEFL_DATA or
    FLASH_DEFL_END command is sent for a file that is to be encrypted,
    and with compression on no FLASH_BEGIN, FLASH_DATA or
    FLASH_ENCRYPT_DATA command is sent for a file that is not. *)
Lemma write_file_compression_footprint (lib : libraries) (esp : ESPLoader)
    (args : Args) (address : Z) (f : argfile) (s : session device) :
  args_compress args = true ->
  (exists added,
     log (transport (snd (write_file lib esp args (address, f, true) s)))
     = log (transport s) ++ added
     /\ Forall (fun r => is_deflate r = false) added)
  /\ (exists added,
        log (transport (snd (write_file lib esp args (address, f, false) s)))
        = log (transport s) ++ added
        /\ Forall (fun r => is_plain r = false) added).
Proof.
  intros Hcompress. split.
  - rewrite (write_file_drops_compression lib esp args address f s Hcompress).
    assert (Hemits :
      emits (fun r => is_deflate r = false)
        (write_file lib esp (without_compression args) (address, f, true))).
    { apply emits_write_file_uncompressed;
        solve [reflexivity | intros d c; reflexivity]. }
    destruct (Hemits (mkSession (transport s)
                (stdout s ++ [WarnMutuallyExclusive;
                              WillFlashUncompressed (name f)])))
      as [added [Hlog Hall]].
    now exists added.
  - assert (Hemits :
      emits (fun r => is_plain r = false)
        (write_file lib esp args (address, f, false))).
    { apply emits_write_file_compressed;
        solve [assumption | intros d c; reflexivity]. }
    destruct (Hemits s) as [added [Hlog Hall]].
    now exists added.
Qed.



(** The two kinds of file in one batch on an ESP32 ROM loader: the
    encrypted file is warned about and written with FLASH_BEGIN and
    FLASH_ENCRYPT_DATA, the other one with FLASH_DEFL_BEGIN and
    FLASH_DEFL_DATA and then verified. *)
Example mixed_batch :
  let run := write_files scenario_C_libraries esp32_rom mixed_batch_args
               (all_files mixed_batch_args)
               (mkSession (md5_device (toy_digest (content plain_file))) []) in
  all_files mixed_batch_args
  = [(0x20000, encrypted_file, true); (0x30000, plain_file, false)]
  /\ fst run = inr tt
  /\ opcodes (log (transport (snd run)))
     = [ESP_FLASH_BEGIN; ESP_FLASH_ENCRYPT_DATA;
        ESP_FLASH_DEFL_BEGIN; ESP_FLASH_DEFL_DATA; ESP_SPI_FLASH_MD5]
  /\ stdout (snd run)
     = [WarnMutuallyExclusive; WillFlashUncompressed "enc.bin"; HashVerified].
Proof. vm_compute. repeat split. Qed.





(** Scenario B with two status bytes and exactly eight responses. *)
Lemma sync_stub_detected_iff_witness :
  let e := scenario_B 2 8 in
  let e' := snd (Serial.sync e) in
  exists val data c0 vals,
    Serial.command_val_data (Some ESP_SYNC) Serial.sync_payload 0 (Serial.chan e)
    = (inr (val, data), c0)
    /\ drain_replies 7 c0 = Some (vals, Serial.chan e')
    /\ length vals = 7%nat
    /\ (Serial.sync_stub_detected e' = true
        <-> val = 0 /\ Forall (fun v => v = 0) vals).
Proof.
  apply (proj1 sync_stub_detected_iff (scenario_B 2 8)
           (snd (Serial.sync (scenario_B 2 8)))).
  vm_compute. reflexivity.
Defined.

(** The alignment that C10 asks for is there whenever the checks made
    before an encrypted write have passed. *)
Lemma encryption_checks_alignment {C : Type} `{Transport C} (q : collaborators C)
    (esp : ESPLoader) (args : Args) (s s' : session C) :
  encryption_checks q esp args s = (inr tt, s') ->
  files_to_encrypt args <> [] ->
  exists a, FLASH_ENCRYPTED_WRITE_ALIGN esp = Some a /\ a <> 0.
Proof.
  intros Hrun Hfiles. unfold encryption_checks in Hrun.
  apply bind_inr in Hrun. destruct Hrun as [do_write [s1 [_ Hrun]]].
  fold (files_to_encrypt args) in Hrun.
  destruct (files_to_encrypt args) as [|[address f] rest]; [contradiction|].
  destruct (FLASH_ENCRYPTED_WRITE_ALIGN esp) as [a|]; [|discriminate].
  exists a. split; [reflexivity|].
  apply bind_inr in Hrun. destruct Hrun as [ok [s2 [Hcheck _]]].
  cbn [check_alignment] in Hcheck.
  destruct (a =? 0) eqn:Hzero; [discriminate|]. now apply Z.eqb_neq.
Qed.

(** Scenario C through [write_flash] itself: the range to be erased is
    reported, the ten blocks are written, the digest is verified. *)
Example scenario_C_write_flash :
  let run := write_flash scenario_C_libraries unused_collaborators esp32_rom
               (plain_args [(0x10000, scenario_C_file)]) scenario_C_session in
  fst run = inr tt
  /\ opcodes (log (transport (snd run)))
     = [ESP_FLASH_BEGIN] ++ repeat ESP_FLASH_DATA 10 ++ [ESP_SPI_FLASH_MD5]
  /\ stdout (snd run) = [WillBeErased 0x10000 0x12fff; HashVerified; Leaving].
Proof. vm_compute. repeat split. Qed.

(* ================================================================== *)
(** * Further properties *)

(* ------------------------------------------------------------------ *)
(** ** Padding and alignment *)

(** X1. [pad_to] appends the fewest copies of the pad byte that bring the
    length to a multiple of the alignment: fewer than [alignment] of
    them, and none when the length is a multiple already. The data stays
    in front, unchanged. *)
Theorem pad_to_fewest_bytes (data : bytes) (alignment pad_character : Z) :
  0 < alignment ->
  exists n : nat,
    pad_to data alignment pad_character = inr (data ++ repeat pad_character n)
    /\ Z.of_nat n < alignment
    /\ (len data + Z.of_nat n) mod alignment = 0
    /\ (len data mod alignment = 0 -> n = 0%nat).
Proof.
  intros Hpos. unfold pad_to.
  replace (alignment =? 0) with false by (symmetry; apply Z.eqb_neq; lia).
  pose proof (Z.mod_pos_bound (len data) alignment Hpos) as Hmod.
  destruct (len data mod alignment =? 0) eqn:Hzero; cbn [negb].
  - apply Z.eqb_eq in Hzero. exists 0%nat. cbn [repeat].
    rewrite app_nil_r, Z.add_0_r. repeat split; auto; lia.
  - apply Z.eqb_neq in Hzero.
    exists (Z.to_nat (alignment - len data mod alignment)).
    rewrite Z2Nat.id by lia. repeat split; try lia.
    pose proof (Z.div_mod (len data) alignment ltac:(lia)) as Hdm.
    replace (len data + (alignment - len data mod alignment))
      with ((len data / alignment + 1) * alignment) by lia.
    apply Z.mod_mul. lia.
Qed.

Lemma pad_to_fewest_bytes_witness :
  exists n : nat,
    pad_to [1; 2; 3; 4; 5] 4 0xFF = inr ([1; 2; 3; 4; 5] ++ repeat 0xFF n)
    /\ Z.of_nat n < 4
    /\ (len [1; 2; 3; 4; 5] + Z.of_nat n) mod 4 = 0
    /\ (len [1; 2; 3; 4; 5] mod 4 = 0 -> n = 0%nat).
Proof. apply (pad_to_fewest_bytes [1; 2; 3; 4; 5] 4 0xFF). lia. Defined.

Lemma skipn_cons_nth_error {A} (n : nat) (l : list A) (x : A) (r : list A) :
  skipn n l = x :: r -> nth_error l n = Some x.
Proof.
  revert l. induction n as [|n IH]; intros [|y l] Hs; simpl in *;
    try discriminate.
  - now injection Hs as -> _.
  - now apply IH.
Qed.

(** X2. [read_checksum] skips to the last byte of the 16-byte block the
    file position is in and reads it: the byte it returns is the one at
    offset [pos + 15 - pos mod 16], and it leaves the position on the
    next multiple of 16, between 1 and 16 bytes further. *)
Theorem read_checksum_block_end (f f' : Image.load_file) (c : Z) :
  Image.read_checksum f = (inr c, f') ->
  let last := (Image.pos f + (15 - Image.pos f mod 16))%nat in
  nth_error (Image.buf f) last = Some c
  /\ Image.pos f' = S last
  /\ (Image.pos f' mod 16 = 0)%nat
  /\ (Image.pos f < Image.pos f' <= Image.pos f + 16)%nat.
Proof.
  unfold Image.read_checksum, Image.align_file_position, Image.tell,
    Image.seek_cur, Image.read, bind, modify, ret.
  cbn [Image.buf Image.pos Image.printed].
  assert (Hmod : Z.of_nat (Image.pos f) mod 16 = Z.of_nat (Image.pos f mod 16))
    by (change 16 with (Z.of_nat 16); now rewrite Nat2Z.inj_mod).
  pose proof (Nat.mod_upper_bound (Image.pos f) 16 ltac:(lia)) as Hlt.
  replace (Z.to_nat (16 - 1 - Z.of_nat (Image.pos f) mod 16))
    with (15 - Image.pos f mod 16)%nat by (rewrite Hmod; lia).
  set (last := (Image.pos f + (15 - Image.pos f mod 16))%nat).
  destruct (skipn last (Image.buf f)) as [|x rest] eqn:Hskip.
  - cbn. discriminate.
  - replace (Z.to_nat (Z.min 1 (len (x :: rest)))) with 1%nat
      by (unfold len; cbn [length]; lia).
    cbn [firstn length]. intros Hrun. injection Hrun as <- <-.
    cbn [Image.pos]. cbn zeta.
    split; [now apply skipn_cons_nth_error with (r := rest)|].
    split; [lia|].
    assert (Hnext : (last + 1 = (Image.pos f / 16 + 1) * 16)%nat).
    { unfold last.
      pose proof (Nat.div_mod_eq (Image.pos f) 16). lia. }
    split.
    + rewrite Hnext. apply Nat.Div0.mod_mul.
    + unfold last. lia.
Qed.

Lemma read_checksum_block_end_witness :
  let f := Image.mkFile (repeat 0 15 ++ [0x5a]) 3 [] in
  let f' := Image.mkFile (repeat 0 15 ++ [0x5a]) 16 [] in
  let last := (Image.pos f + (15 - Image.pos f mod 16))%nat in
  nth_error (Image.buf f) last = Some 0x5a
  /\ Image.pos f' = S last
  /\ (Image.pos f' mod 16 = 0)%nat
  /\ (Image.pos f < Image.pos f' <= Image.pos f + 16)%nat.
Proof.
  apply (read_checksum_block_end
           (Image.mkFile (repeat 0 15 ++ [0x5a]) 3 [])
           (Image.mkFile (repeat 0 15 ++ [0x5a]) 16 []) 0x5a).
  reflexivity.
Defined.

(* ------------------------------------------------------------------ *)
(** ** Erase size *)

(** X3. The erase size sent with FLASH_BEGIN. The ESP8266 ROM loader asks
    for a whole number of sectors, no more than the sectors that the
    data covers and no less than half of them (rounded up); its stub and
    every ESP32 loader ask for the size as it is. *)
Theorem get_erase_size_bounds (esp : ESPLoader) (offset size : Z) :
  0 < FLASH_SECTOR_SIZE esp ->
  0 <= offset ->
  0 <= size ->
  exists erase_size,
    get_erase_size esp offset size = inr erase_size
    /\ (CHIP esp = ESP8266 -> IS_STUB esp = false ->
        let sector_size := FLASH_SECTOR_SIZE esp in
        let num_sectors := (size + sector_size - 1) / sector_size in
        exists k,
          erase_size = k * sector_size
          /\ (num_sectors + 1) / 2 <= k <= num_sectors)
    /\ (CHIP esp <> ESP8266 \/ IS_STUB esp = true -> erase_size = size).
Proof.
  intros Hsector Hoffset Hsize. unfold get_erase_size.
  destruct (CHIP esp) eqn:Hchip;
    try (exists size; split; [reflexivity|];
         split; [discriminate|reflexivity]).
  destruct (IS_STUB esp) eqn:Hstub.
  - exists size. split; [reflexivity|]. split; [discriminate|reflexivity].
  - replace (FLASH_SECTOR_SIZE esp =? 0) with false
      by (symmetry; apply Z.eqb_neq; lia).
    set (sector_size := FLASH_SECTOR_SIZE esp) in *.
    set (num_sectors := (size + sector_size - 1) / sector_size).
    assert (Hnum : 0 <= num_sectors)
      by (apply Z.div_pos; lia).
    pose proof (Z.mod_pos_bound (offset / sector_size) 16 ltac:(lia)) as Hstart.
    set (head := 16 - (offset / sector_size) mod 16) in *.
    assert (Hhalf : 0 <= (num_sectors + 1) / 2 <= num_sectors
                    /\ 2 * ((num_sectors + 1) / 2) <= num_sectors + 1
                    /\ num_sectors < 2 * ((num_sectors + 1) / 2) + 1).
    { pose proof (Z.div_mod (num_sectors + 1) 2 ltac:(lia)).
      pose proof (Z.mod_pos_bound (num_sectors + 1) 2 ltac:(lia)). lia. }
    destruct (num_sectors <? head) eqn:Hsmall.
    + apply Z.ltb_lt in Hsmall.
      replace (num_sectors <? 2 * num_sectors) with (0 <? num_sectors)
        by (destruct (Z.ltb_spec 0 num_sectors), (Z.ltb_spec num_sectors (2 * num_sectors));
            lia).
      destruct (0 <? num_sectors) eqn:Hzero.
      * eexists. split; [reflexivity|]. split.
        -- intros _ _. exists ((num_sectors + 1) / 2). split; [reflexivity|lia].
        -- intros [Hx|Hx]; [congruence|discriminate].
      * apply Z.ltb_ge in Hzero. assert (num_sectors = 0) as Hz by lia.
        eexists. split; [reflexivity|]. split.
        -- intros _ _. exists 0. rewrite Hz. split; [reflexivity|].
           change ((0 + 1) / 2) with 0. lia.
        -- intros [Hx|Hx]; [congruence|discriminate].
    + apply Z.ltb_ge in Hsmall.
      destruct (num_sectors <? 2 * head) eqn:Htwice.
      * eexists. split; [reflexivity|]. split.
        -- intros _ _. exists ((num_sectors + 1) / 2). split; [reflexivity|lia].
        -- intros [Hx|Hx]; [congruence|discriminate].
      * apply Z.ltb_ge in Htwice.
        eexists. split; [reflexivity|]. split.
        -- intros _ _. exists (num_sectors - head). split; [reflexivity|].
           unfold head in *. lia.
        -- intros [Hx|Hx]; [congruence|discriminate].
Qed.

Lemma get_erase_size_bounds_witness :
  exists erase_size,
    get_erase_size esp8266_rom 0x1000 0x21000 = inr erase_size
    /\ (CHIP esp8266_rom = ESP8266 -> IS_STUB esp8266_rom = false ->
        let sector_size := FLASH_SECTOR_SIZE esp8266_rom in
        let num_sectors := (0x21000 + sector_size - 1) / sector_size in
        exists k,
          erase_size = k * sector_size
          /\ (num_sectors + 1) / 2 <= k <= num_sectors)
    /\ (CHIP esp8266_rom <> ESP8266 \/ IS_STUB esp8266_rom = true ->
        erase_size = 0x21000).
Proof.
  apply (get_erase_size_bounds esp8266_rom 0x1000 0x21000).
  - reflexivity.
  - discriminate.
  - discriminate.
Defined.

(* ------------------------------------------------------------------ *)
(** ** Registers *)

Lemma land_1_even (m : Z) : Z.land m 1 = 0 <-> exists q, m = 2 * q.
Proof.
  change 1 with (Z.ones 1). rewrite Z.land_ones by lia.
  change (2 ^ 1) with 2. split.
  - intros Hm. exists (m / 2). pose proof (Z.div_mod m 2 ltac:(lia)). lia.
  - intros [q ->]. rewrite Z.mul_comm. apply Z.mod_mul. lia.
Qed.

Lemma log2_abs_double (q : Z) :
  q <> 0 -> Z.log2 (Z.abs (2 * q)) = Z.log2 (Z.abs q) + 1.
Proof.
  intros Hq. rewrite Z.abs_mul. change (Z.abs 2) with 2.
  rewrite Z.log2_double by lia. lia.
Qed.

(** The loop peels the factors of two off the mask. *)
Lemma mask_to_shift_loop_factor (bound : nat) :
  forall mask shift,
    mask <> 0 ->
    (Z.log2 (Z.abs mask) <= Z.of_nat bound) ->
    exists k q,
      mask_to_shift_loop bound mask shift = inr (shift + k)
      /\ 0 <= k
      /\ mask = 2 ^ k * (2 * q + 1).
Proof.
  induction bound as [|bound IH]; intros mask shift Hne Hlog.
  - assert (Hzero : Z.log2 (Z.abs mask) = 0)
      by (pose proof (Z.log2_nonneg (Z.abs mask)); lia).
    assert (Hone : Z.abs mask = 1).
    { destruct (Z.log2_null (Z.abs mask)) as [Hn _].
      specialize (Hn Hzero). lia. }
    cbn [mask_to_shift_loop].
    destruct (Z.land mask 1 =? 0) eqn:Heven.
    + apply Z.eqb_eq, land_1_even in Heven. destruct Heven as [q ->]. lia.
    + exists 0, ((mask - 1) / 2). rewrite Z.add_0_r. split; [reflexivity|].
      split; [lia|]. change (2 ^ 0) with 1.
      destruct (Z.abs_spec mask) as [[_ Ha]|[_ Ha]]; rewrite Hone in Ha.
      * subst mask. reflexivity.
      * assert (mask = -1) as -> by lia. reflexivity.
  - cbn [mask_to_shift_loop].
    destruct (Z.land mask 1 =? 0) eqn:Heven.
    + apply Z.eqb_eq, land_1_even in Heven. destruct Heven as [q ->].
      assert (Hq : q <> 0) by lia.
      rewrite Z.shiftr_div_pow2 by lia. change (2 ^ 1) with 2.
      rewrite (Z.mul_comm 2 q), Z.div_mul by lia.
      rewrite log2_abs_double in Hlog by exact Hq.
      destruct (IH q (shift + 1) Hq ltac:(lia)) as [k [r [Hrun [Hk Hfactor]]]].
      exists (k + 1), r. split; [rewrite Hrun; f_equal; lia|].
      split; [lia|]. rewrite Z.pow_add_r by lia. change (2 ^ 1) with 2.
      rewrite Hfactor at 1. lia.
    + exists 0, ((mask - 1) / 2). rewrite Z.add_0_r. split; [reflexivity|].
      split; [lia|]. change (2 ^ 0) with 1.
      apply Z.eqb_neq in Heven.
      change 1 with (Z.ones 1) in Heven. rewrite Z.land_ones in Heven by lia.
      change (2 ^ 1) with 2 in Heven.
      pose proof (Z.mod_pos_bound mask 2 ltac:(lia)).
      pose proof (Z.div_mod (mask - 1) 2 ltac:(lia)).
      pose proof (Z.div_mod mask 2 ltac:(lia)).
      assert (Hm : (mask - 1) mod 2 = 0).
      { replace (mask - 1) with (mask mod 2 - 1 + (mask / 2) * 2) by lia.
        rewrite Z.mod_add by lia.
        replace (mask mod 2) with 1 by lia. reflexivity. }
      lia.
Qed.

(** X4. [_mask_to_shift] returns the index of the least significant set
    bit of a mask that is not zero: that bit is set and no lower one is.
    On the mask 0 its loop never ends. *)
Theorem mask_to_shift_least_set_bit :
  (forall mask,
     mask <> 0 ->
     exists shift,
       _mask_to_shift mask = inr shift
       /\ 0 <= shift
       /\ Z.testbit mask shift = true
       /\ forall i, 0 <= i < shift -> Z.testbit mask i = false)
  /\ (forall bound shift, mask_to_shift_loop bound 0 shift = inl LoopBound).
Proof.
  split.
  - intros mask Hne. unfold _mask_to_shift.
    destruct (mask_to_shift_loop_factor
                (Z.to_nat (Z.log2 (Z.abs mask))) mask 0 Hne)
      as [k [q [Hrun [Hk Hfactor]]]].
    { pose proof (Z.log2_nonneg (Z.abs mask)). lia. }
    exists k. split; [exact Hrun|]. split; [exact Hk|].
    rewrite Hfactor, (Z.mul_comm (2 ^ k)). split.
    + replace k with (k + 0) at 2 by lia.
      rewrite Z.mul_pow2_bits_add by lia. apply Z.testbit_odd_0.
    + intros i Hi. apply Z.mul_pow2_bits_low. lia.
  - induction bound as [|bound IH]; intros shift; cbn.
    + reflexivity.
    + apply IH.
Qed.

Lemma mask_to_shift_least_set_bit_witness :
  exists shift,
    _mask_to_shift 0x0FF0 = inr shift
    /\ 0 <= shift
    /\ Z.testbit 0x0FF0 shift = true
    /\ forall i, 0 <= i < shift -> Z.testbit 0x0FF0 i = false.
Proof.
  apply (proj1 mask_to_shift_least_set_bit 0x0FF0). discriminate.
Defined.

Lemma mask_to_shift_total (mask : Z) :
  mask <> 0 -> exists shift, _mask_to_shift mask = inr shift /\ 0 <= shift.
Proof.
  intros Hne. unfold _mask_to_shift.
  destruct (mask_to_shift_loop_factor
              (Z.to_nat (Z.log2 (Z.abs mask))) mask 0 Hne)
    as [k [q [Hrun [Hk _]]]].
  { pose proof (Z.log2_nonneg (Z.abs mask)). lia. }
  exists k. split; [exact Hrun|exact Hk].
Qed.

Lemma testbit_above (v : Z) (n i : Z) :
  0 <= v < 2 ^ n -> 0 <= n <= i -> Z.testbit v i = false.
Proof.
  intros Hv Hi. rewrite <- (Z.mod_small v (2 ^ n)) by exact Hv.
  apply Z.mod_pow2_bits_high. lia.
Qed.

Lemma below_pow2 (v n : Z) :
  0 <= n -> 0 <= v ->
  (forall i, n <= i -> Z.testbit v i = false) ->
  v < 2 ^ n.
Proof.
  intros Hn Hv Hbits.
  assert (Hmod : v mod 2 ^ n = v).
  { apply Z.bits_inj'. intros i Hi.
    destruct (Z.lt_ge_cases i n) as [Hlt|Hge].
    - now apply Z.mod_pow2_bits_low.
    - rewrite Z.mod_pow2_bits_high by lia. symmetry. now apply Hbits. }
  rewrite <- Hmod. apply Z.mod_pos_bound. lia.
Qed.

(** X5. [update_reg] reads the register, replaces the bits selected by
    the mask with [new_val] shifted to the lowest bit of the mask, and
    writes the result back with a full write mask: one READ_REG, then one
    WRITE_REG. In the value written and returned, a bit under the mask
    is the bit of [new_val] that the shift brings there, and a bit
    outside the mask is the bit that was read. *)
Theorem update_reg_replaces_masked_bits (esp : ESPLoader) (addr mask new_val : Z)
    (old : Z) (body : bytes) (s : session device) :
  acknowledging esp (transport s) ->
  on_command (transport s) (log (transport s))
    (Some ESP_READ_REG) (le_bytes 4 addr) 0 = inr (old, body) ->
  0 <= addr < 2 ^ 32 ->
  0 < mask < 2 ^ 32 ->
  0 <= old < 2 ^ 32 ->
  exists shift val,
    _mask_to_shift mask = inr shift
    /\ update_reg esp addr mask new_val s
       = (inr val,
          sent s [Command (Some ESP_READ_REG) (le_bytes 4 addr) 0;
                  Command (Some ESP_WRITE_REG)
                    (le_bytes 4 addr ++ le_bytes 4 val
                     ++ le_bytes 4 0xFFFFFFFF ++ le_bytes 4 0) 0])
    /\ forall i, 0 <= i ->
         Z.testbit val i
         = if Z.testbit mask i then Z.testbit new_val (i - shift)
           else Z.testbit old i.
Proof.
  intros Hack Hread Haddr Hmask Hold.
  destruct (mask_to_shift_total mask ltac:(lia)) as [shift [Hshift Hpos]].
  set (val := Z.lor (Z.land old (Z.lnot mask))
                    (Z.land (Z.shiftl new_val shift) mask)).
  assert (Hbits : forall i, 0 <= i ->
            Z.testbit val i
            = if Z.testbit mask i then Z.testbit new_val (i - shift)
              else Z.testbit old i).
  { intros i Hi. unfold val.
    rewrite Z.lor_spec, !Z.land_spec, Z.lnot_spec, Z.shiftl_spec by lia.
    destruct (Z.testbit mask i); cbn [negb].
    - now rewrite andb_false_r, andb_true_r.
    - now rewrite andb_true_r, andb_false_r, orb_false_r. }
  assert (Hval : 0 <= val < 2 ^ 32).
  { assert (Hnonneg : 0 <= val).
    { unfold val. apply Z.lor_nonneg. split; apply Z.land_nonneg; lia. }
    split; [exact Hnonneg|].
    apply below_pow2; [lia|exact Hnonneg|].
    intros i Hi. rewrite Hbits by lia.
    rewrite (testbit_above mask 32 i) by lia.
    apply (testbit_above old 32 i); lia. }
  exists shift, val. split; [exact Hshift|]. split; [|exact Hbits].
  unfold update_reg. rewrite Hshift. run_bind.
  (* the read *)
  destruct (Hack (log (transport s)) (Some ESP_READ_REG) (le_bytes 4 addr) 0)
    as [val0 [body0 [Hreply [_ [_ Hfirst]]]]].
  specialize (Hfirst eq_refl).
  rewrite Hread in Hreply. injection Hreply as <- <-.
  assert (Hreg : read_reg addr s
                 = (inr old, sent s [Command (Some ESP_READ_REG) (le_bytes 4 addr) 0])).
  { unfold read_reg. rewrite pack_I_ok by exact Haddr. cbn [pack].
    rewrite app_nil_r. run_bind.
    unfold bind, on_transport. cbn [command scripted_transport]. rewrite Hread.
    fold (sent s [Command (Some ESP_READ_REG) (le_bytes 4 addr) 0]).
    unfold byte. rewrite Hfirst. cbn [lift ret].
    change (0 =? 0) with true. reflexivity. }
  unfold bind at 1. rewrite Hreg. fold val.
  (* the write *)
  unfold write_reg.
  rewrite pack_IIII by (assumption || lia). cbn [lift].
  change (0 <? 0) with false.
  destruct (check_command_ack esp (Some ESP_WRITE_REG)
              (le_bytes 4 addr ++ le_bytes 4 val
               ++ le_bytes 4 0xFFFFFFFF ++ le_bytes 4 0) 0
              (sent s [Command (Some ESP_READ_REG) (le_bytes 4 addr) 0]) Hack)
    as [r Hcmd].
  unfold bind. cbn [ret]. rewrite Hcmd. rewrite sent_sent. reflexivity.
Qed.

Lemma update_reg_replaces_masked_bits_witness :
  let s := mkSession (mkDevice (fun _ _ _ _ => inr (0xA5A5, [0; 0])) (fun _ => inr []) []) [] in
  exists shift val,
    _mask_to_shift 0x0FF0 = inr shift
    /\ update_reg esp8266_rom 0x60000014 0x0FF0 0x3C s
       = (inr val,
          sent s [Command (Some ESP_READ_REG) (le_bytes 4 0x60000014) 0;
                  Command (Some ESP_WRITE_REG)
                    (le_bytes 4 0x60000014 ++ le_bytes 4 val
                     ++ le_bytes 4 0xFFFFFFFF ++ le_bytes 4 0) 0])
    /\ forall i, 0 <= i ->
         Z.testbit val i
         = if Z.testbit 0x0FF0 i then Z.testbit 0x3C (i - shift)
           else Z.testbit 0xA5A5 i.
Proof.
  apply (update_reg_replaces_masked_bits esp8266_rom 0x60000014 0x0FF0 0x3C
           0xA5A5 [0; 0]).
  - intros l op data chk. exists 0xA5A5, [0; 0]. cbn. repeat split; lia.
  - reflexivity.
  - lia.
  - lia.
  - lia.
Defined.

(* ------------------------------------------------------------------ *)
(** ** SLIP streams *)

Module SlipStream.
Import Slip SlipFacts.

Lemma escape_no_delimiter (packet : bytes) : ~ In 0xc0 (escape packet).
Proof.
  induction packet as [|b packet IH]; [intros []|].
  rewrite escape_cons. intros Hin. apply in_app_or in Hin.
  destruct Hin as [Hin|Hin]; [|now apply IH].
  destruct (b =? 0xdb) eqn:Hdb.
  - cbn in Hin. intuition discriminate.
  - destruct (b =? 0xc0) eqn:Hc0.
    + cbn in Hin. intuition discriminate.
    + apply Z.eqb_neq in Hc0. cbn in Hin. intuition congruence.
Qed.

Lemma escape_length (packet : bytes) :
  len packet <= len (escape packet) <= 2 * len packet.
Proof.
  unfold len. induction packet as [|b packet IH]; [cbn; lia|].
  rewrite escape_cons, length_app. cbn [length].
  destruct (b =? 0xdb); [cbn [length]; lia|].
  destruct (b =? 0xc0); cbn [length]; lia.
Qed.

Lemma feed_one_yield (l l' : locals) (b : Z) (pkt rest : bytes) :
  feed l [b] = FYield pkt l' rest -> rest = [].
Proof.
  cbn. destruct (partial_packet l) as [pp|].
  - destruct (in_escape l).
    + destruct (b =? 0xdc); [discriminate|].
      destruct (b =? 0xdd); discriminate.
    + destruct (b =? 0xdb); [discriminate|].
      destruct (b =? 0xc0); [|discriminate].
      now intros [= _ _ <-].
  - destruct (b =? 0xc0); discriminate.
Qed.

(** What the reader makes of the bursts to come is what the loop over a
    buffer makes of their bytes, however they are cut into bursts. *)
Lemma read_arrivals_stream (arr : list bytes) :
  forall l,
    Forall (fun c => c <> []) arr ->
    match feed l (concat arr) with
    | NeedMore l' => read_arrivals l arr = Raise (stop_error l') (mkPort [] [])
    | FYield pkt l' rest =>
        exists r' p',
          read_arrivals l arr = Yield pkt r' p'
          /\ vars r' = l'
          /\ stream r' p' = rest
          /\ Forall (fun c => c <> []) (arrivals p')
    | FRaise e => exists p', read_arrivals l arr = Raise e p'
    end.
Proof.
  induction arr as [|c later IH]; intros l Hne.
  - reflexivity.
  - inversion Hne as [|? ? Hc Hlater]; subst.
    destruct c as [|b more]; [contradiction|].
    change (concat ((b :: more) :: later)) with ([b] ++ (more ++ concat later)).
    rewrite feed_app. cbn [read_arrivals].
    destruct (feed l [b]) as [l1|pkt1 l1 rest1|e1] eqn:Hb.
    + destruct more as [|m more].
      * apply IH; assumption.
      * rewrite feed_app.
        destruct (feed l1 (m :: more)) as [l2|pkt2 l2 rest2|e2].
        -- apply IH; assumption.
        -- eexists _, _. split; [reflexivity|]. split; [reflexivity|].
           split; [reflexivity|exact Hlater].
        -- eexists. reflexivity.
    + apply feed_one_yield in Hb. subst rest1.
      eexists _, _. split; [reflexivity|]. split; [reflexivity|].
      split; [reflexivity|exact Hlater].
    + eexists. reflexivity.
Qed.

Lemma read_loop_stream (l : locals) (p : port) :
  Forall (fun c => c <> []) (arrivals p) ->
  match feed l (in_waiting p ++ concat (arrivals p)) with
  | NeedMore l' => read_loop l p = Raise (stop_error l') (mkPort [] [])
  | FYield pkt l' rest =>
      exists r' p',
        read_loop l p = Yield pkt r' p'
        /\ vars r' = l'
        /\ stream r' p' = rest
        /\ Forall (fun c => c <> []) (arrivals p')
  | FRaise e => exists p', read_loop l p = Raise e p'
  end.
Proof.
  intros Hne. unfold read_loop.
  destruct (in_waiting p) as [|b w] eqn:Hw.
  - apply read_arrivals_stream. exact Hne.
  - rewrite feed_app.
    destruct (feed l (b :: w)) as [l1|pkt1 l1 rest1|e1].
    + apply read_arrivals_stream. exact Hne.
    + eexists _, _. split; [reflexivity|]. split; [reflexivity|].
      split; [reflexivity|exact Hne].
    + eexists. reflexivity.
Qed.

Lemma next_stream (r : reader) (p : port) :
  Forall (fun c => c <> []) (arrivals p) ->
  match feed (vars r) (stream r p) with
  | NeedMore l' => next r p = Raise (stop_error l') (mkPort [] [])
  | FYield pkt l' rest =>
      exists r' p',
        next r p = Yield pkt r' p'
        /\ vars r' = l'
        /\ stream r' p' = rest
        /\ Forall (fun c => c <> []) (arrivals p')
  | FRaise e => exists p', next r p = Raise e p'
  end.
Proof.
  intros Hne. unfold next, stream. rewrite feed_app.
  destruct (feed (vars r) (pending r)) as [l1|pkt1 l1 rest1|e1].
  - apply read_loop_stream. exact Hne.
  - eexists _, _. split; [reflexivity|]. split; [reflexivity|].
    split; [reflexivity|exact Hne].
  - eexists. reflexivity.
Qed.

Lemma stream_nil (r : reader) (p : port) :
  Forall (fun c => c <> []) (arrivals p) ->
  stream r p = [] ->
  pending r = [] /\ in_waiting p = [] /\ arrivals p = [].
Proof.
  unfold stream. intros Hne Hs.
  apply app_eq_nil in Hs. destruct Hs as [Hp Hs].
  apply app_eq_nil in Hs. destruct Hs as [Hw Hs].
  repeat split; try assumption. now apply concat_nonempty_nil.
Qed.

End SlipStream.

(** X6. A frame written by [ESPLoader.write] is delimited by 0xC0 at both
    ends and holds no 0xC0 in between; escaping makes the body at most
    twice as long as the packet. *)
Theorem write_frame_delimiters (packet : bytes) :
  exists body,
    Slip.write packet = [0xc0] ++ body ++ [0xc0]
    /\ ~ In 0xc0 body
    /\ len packet <= len body <= 2 * len packet.
Proof.
  exists (escape packet). split; [reflexivity|].
  split; [apply SlipStream.escape_no_delimiter|apply SlipStream.escape_length].
Qed.

Lemma read_packets_stream (ps : list bytes) :
  forall (c : Serial.channel) (r : Slip.reader) (s : bool) (rest : bytes),
    Serial._slip_reader c = Some r ->
    Slip.vars r = Slip.mkLocals None false s ->
    Forall (fun b => b <> []) (Slip.arrivals (Serial._port c)) ->
    stream r (Serial._port c) = concat (map Slip.write ps) ++ rest ->
    exists c' r',
      read_packets (length ps) c = (inr ps, c')
      /\ Serial.written c' = Serial.written c
      /\ Serial._slip_reader c' = Some r'
      /\ Slip.vars r' = Slip.mkLocals None false (s || negb (length ps =? 0)%nat)
      /\ Forall (fun b => b <> []) (Slip.arrivals (Serial._port c'))
      /\ stream r' (Serial._port c') = rest.
Proof.
  induction ps as [|p ps IH]; intros c r s rest Hr Hvars Hne Hstream.
  - exists c, r. cbn [read_packets length Nat.eqb negb].
    rewrite orb_false_r. repeat split; assumption.
  - cbn [map concat] in Hstream. rewrite <- app_assoc in Hstream.
    pose proof (SlipStream.next_stream r (Serial._port c) Hne) as Hnext.
    rewrite Hvars, Hstream, SlipFacts.feed_write in Hnext.
    destruct Hnext as [r1 [p1 [Hnext [Hvars1 [Hstream1 Hne1]]]]].
    set (c1 := Serial.mkChannel p1 (Serial.written c) (Some r1)).
    destruct (IH c1 r1 true rest eq_refl Hvars1 Hne1 Hstream1)
      as [c' [r' [Hrun [Hw [Hr' [Hvars' [Hne' Hstream']]]]]]].
    exists c', r'. split.
    + cbn [read_packets length]. unfold bind at 1.
      unfold Serial.read at 1. rewrite Hr, Hnext. fold c1.
      unfold bind at 1. rewrite Hrun. reflexivity.
    + cbn [length Nat.eqb negb]. rewrite orb_true_r.
      repeat split; assumption.
Qed.

(** X7. Frames that follow one another on the line come out of
    [ESPLoader.read] one packet per call, in order and unchanged,
    however the bytes are cut into reads of the port; once they are
    used up and nothing more arrives, the next call raises "Serial data
    stream stopped". *)
Theorem slip_reader_stream_in_order (ps : list bytes) (c : Serial.channel) :
  Serial._slip_reader c = Some Slip.slip_reader ->
  Forall (fun b => b <> []) (Slip.arrivals (Serial._port c)) ->
  Slip.in_waiting (Serial._port c) ++ concat (Slip.arrivals (Serial._port c))
  = concat (map Slip.write ps) ->
  ps <> [] ->
  exists c',
    read_packets (length ps) c = (inr ps, c')
    /\ Serial.written c' = Serial.written c
    /\ fst (Serial.read c') = inl (FatalSlip Slip.StreamStopped).
Proof.
  intros Hr Hne Hstream Hps.
  destruct (read_packets_stream ps c Slip.slip_reader false [] Hr eq_refl Hne)
    as [c' [r' [Hrun [Hw [Hr' [Hvars' [Hne' Hstream']]]]]]].
  { unfold stream. cbn [Slip.pending Slip.slip_reader app].
    now rewrite app_nil_r. }
  exists c'. split; [exact Hrun|]. split; [exact Hw|].
  pose proof (SlipStream.next_stream r' (Serial._port c') Hne') as Hnext.
  rewrite Hstream' in Hnext. cbn [Slip.feed] in Hnext.
  unfold Serial.read. rewrite Hr', Hnext, Hvars'.
  destruct ps as [|p ps]; [contradiction|]. reflexivity.
Qed.

Lemma slip_reader_stream_in_order_witness :
  let c := Serial.mkChannel
             (Slip.mkPort [0xc0; 0x01] [[0xc0; 0xc0]; [0xdb; 0xdc; 0xc0]])
             [] (Some Slip.slip_reader) in
  exists c',
    read_packets 2 c = (inr [[0x01]; [0xc0]], c')
    /\ Serial.written c' = Serial.written c
    /\ fst (Serial.read c') = inl (FatalSlip Slip.StreamStopped).
Proof.
  apply (slip_reader_stream_in_order [[0x01]; [0xc0]]
           (Serial.mkChannel
              (Slip.mkPort [0xc0; 0x01] [[0xc0; 0xc0]; [0xdb; 0xdc; 0xc0]])
              [] (Some Slip.slip_reader))).
  - reflexivity.
  - repeat constructor; discriminate.
  - reflexivity.
  - discriminate.
Defined.

(** X8. A frame that stops before its closing delimiter: when no more
    bytes arrive, the reader raises "Packet content transfer stopped"
    with the number of packet bytes decoded so far; when nothing arrives
    at all, it raises "No serial data received". *)
Theorem slip_reader_truncated_frame :
  (forall (q : bytes) (p : Slip.port),
     Forall (fun b => b <> []) (Slip.arrivals p) ->
     Slip.in_waiting p ++ concat (Slip.arrivals p) = [0xc0] ++ escape q ->
     Slip.next Slip.slip_reader p
     = Slip.Raise (Slip.TransferStopped (length q)) (Slip.mkPort [] []))
  /\ (forall later,
        Slip.next Slip.slip_reader (Slip.mkPort [] ([] :: later))
        = Slip.Raise Slip.NoSerialData (Slip.mkPort [] later))
  /\ Slip.next Slip.slip_reader (Slip.mkPort [] [])
     = Slip.Raise Slip.NoSerialData (Slip.mkPort [] []).
Proof.
  split; [|split; [intros later|]; reflexivity].
  intros q p Hne Hstream.
  pose proof (SlipStream.next_stream Slip.slip_reader p Hne) as Hnext.
  unfold stream in Hnext. cbn [Slip.pending Slip.slip_reader app] in Hnext.
  rewrite Hstream in Hnext.
  cbn [app Slip.feed Slip.vars Slip.slip_reader Slip.fresh Slip.partial_packet
       Slip.in_escape Slip.successful_slip] in Hnext.
  change (192 =? 192) with true in Hnext. cbn iota in Hnext.
  rewrite <- (app_nil_r (escape q)), SlipFacts.feed_escape in Hnext.
  cbn [Slip.feed app] in Hnext. exact Hnext.
Qed.

Lemma slip_reader_truncated_frame_witness :
  Slip.next Slip.slip_reader (Slip.mkPort [0xc0; 0x01] [[0xdb]; [0xdc; 0x02]])
  = Slip.Raise (Slip.TransferStopped 3) (Slip.mkPort [] []).
Proof.
  apply (proj1 slip_reader_truncated_frame [0x01; 0xc0; 0x02]
           (Slip.mkPort [0xc0; 0x01] [[0xdb]; [0xdc; 0x02]])).
  - repeat constructor; discriminate.
  - reflexivity.
Defined.

(** X9. A byte other than 0xC0 where a frame should start makes [read]
    raise "Invalid head of packet" for that byte. The generator is then
    finished: every later [read] raises [StopIteration], until
    [flush_input] empties the driver's buffer and starts a new reader. *)
Theorem invalid_head_ends_reader (b : Z) (rest : bytes) (c : Serial.channel) :
  Serial._slip_reader c = Some Slip.slip_reader ->
  Forall (fun x => x <> []) (Slip.arrivals (Serial._port c)) ->
  Slip.in_waiting (Serial._port c) ++ concat (Slip.arrivals (Serial._port c))
  = b :: rest ->
  b <> 0xc0 ->
  exists c1,
    Serial.read c = (inl (FatalSlip (Slip.InvalidHead b)), c1)
    /\ Serial.read c1 = (inl StopIteration, c1)
    /\ Serial._slip_reader (snd (Serial.flush_input c1)) = Some Slip.slip_reader
    /\ Slip.in_waiting (Serial._port (snd (Serial.flush_input c1))) = []
    /\ Serial.written c1 = Serial.written c.
Proof.
  intros Hr Hne Hstream Hb.
  pose proof (SlipStream.next_stream Slip.slip_reader (Serial._port c) Hne) as Hnext.
  unfold stream in Hnext. cbn [Slip.pending Slip.slip_reader app] in Hnext.
  rewrite Hstream in Hnext.
  cbn [Slip.feed Slip.vars Slip.slip_reader Slip.fresh Slip.partial_packet] in Hnext.
  replace (b =? 192) with false in Hnext by (symmetry; now apply Z.eqb_neq).
  destruct Hnext as [p' Hnext].
  exists (Serial.mkChannel p' (Serial.written c) None).
  unfold Serial.read. rewrite Hr, Hnext. cbn. repeat split; reflexivity.
Qed.

Lemma invalid_head_ends_reader_witness :
  let c := Serial.mkChannel (Slip.mkPort [] [[0x41; 0xc0]]) [] (Some Slip.slip_reader) in
  exists c1,
    Serial.read c = (inl (FatalSlip (Slip.InvalidHead 0x41)), c1)
    /\ Serial.read c1 = (inl StopIteration, c1)
    /\ Serial._slip_reader (snd (Serial.flush_input c1)) = Some Slip.slip_reader
    /\ Slip.in_waiting (Serial._port (snd (Serial.flush_input c1))) = []
    /\ Serial.written c1 = Serial.written c.
Proof.
  apply (invalid_head_ends_reader 0x41 [0xc0]
           (Serial.mkChannel (Slip.mkPort [] [[0x41; 0xc0]]) []
              (Some Slip.slip_reader))).
  - reflexivity.
  - repeat constructor; discriminate.
  - reflexivity.
  - discriminate.
Defined.

(* ------------------------------------------------------------------ *)
(** ** The response loop of [command] *)

Module CommandFacts.
Import Serial.

(** The request header of [command] for values in range. *)
Lemma pack_header (o : Z) (data : bytes) (chk : Z) :
  0 <= o < 256 ->
  len data < 65536 ->
  0 <= chk < 2 ^ 32 ->
  pack [B 0x00; B o; H (len data); I chk]
  = inr ([0x00; o] ++ le_bytes 2 (len data) ++ le_bytes 4 chk).
Proof.
  intros Ho Hlen Hchk. unfold pack, B, H, I.
  assert (Hlen0 : 0 <= len data) by (unfold len; lia).
  replace ((0 <=? 0) && (0 <? 256 ^ Z.of_nat 1)) with true by reflexivity.
  replace ((0 <=? o) && (o <? 256 ^ Z.of_nat 1)) with true
    by (symmetry; apply andb_true_iff; split;
        [apply Z.leb_le|apply Z.ltb_lt]; cbn; lia).
  replace ((0 <=? len data) && (len data <? 256 ^ Z.of_nat 2)) with true
    by (symmetry; apply andb_true_iff; split;
        [apply Z.leb_le|apply Z.ltb_lt]; cbn; lia).
  replace ((0 <=? chk) && (chk <? 256 ^ Z.of_nat 4)) with true
    by (symmetry; apply andb_true_iff; split;
        [apply Z.leb_le|apply Z.ltb_lt]; cbn; lia).
  rewrite app_nil_r. cbn [le_bytes app].
  rewrite (Z.mod_small o 256) by lia. reflexivity.
Qed.

(** [command] with a request to send and a response to wait for. *)
Lemma command_send (o : Z) (data hdr : bytes) (chk : Z) (c : channel) :
  pack [B 0x00; B o; H (len data); I chk] = inr hdr ->
  command (Some o) data chk true c
  = match wait_response_loop 100 (Some o)
            (mkChannel (_port c) (written c ++ [Slip.write (hdr ++ data)])
                       (_slip_reader c)) with
    | (inr r, c') => (inr (Some r), c')
    | (inl e, c') => (inl e, c')
    end.
Proof.
  intros Hpack. unfold command. rewrite Hpack.
  unfold bind, write, modify, ret.
  destruct (wait_response_loop 100 (Some o) _) as [[ex|r] c']; reflexivity.
Qed.

(** One round of the loop on a packet that is passed over. *)
Lemma wait_passed_over (o : Z) (p : bytes) (k : nat) (later w : list bytes)
    (s : bool) :
  passed_over o p = true ->
  wait_response_loop (S k) (Some o) (idle_channel (Slip.write p :: later) w s)
  = wait_response_loop k (Some o) (idle_channel later w true).
Proof.
  intros Hp. cbn [wait_response_loop]. unfold bind at 1.
  rewrite SyncFacts.read_idle. unfold passed_over in Hp.
  destruct (len p <? 8); [reflexivity|].
  destruct (le_value (slice p 0 1) =? 1); cbn [negb]; [|reflexivity].
  cbn [orb negb] in Hp.
  destruct (le_value (slice p 1 2) =? o); [discriminate Hp|].
  cbn [negb andb] in Hp.
  destruct (skipn 8 p) as [|b0 rest]; [discriminate Hp|].
  unfold byte. cbn [nth_error].
  destruct (b0 =? 0); cbn [negb orb] in *; [reflexivity|].
  destruct rest as [|b1 rest]; [discriminate Hp|].
  destruct (b1 =? ROM_INVALID_RECV_MSG); [discriminate Hp|reflexivity].
Qed.

Lemma wait_strays (o : Z) (strays : list bytes) :
  forall (k : nat) (later w : list bytes) (s : bool),
    Forall (fun p => passed_over o p = true) strays ->
    wait_response_loop (length strays + k) (Some o)
      (idle_channel (map Slip.write strays ++ later) w s)
    = wait_response_loop k (Some o)
        (idle_channel later w (s || negb (length strays =? 0)%nat)).
Proof.
  induction strays as [|p strays IH]; intros k later w s Hall.
  - cbn. now rewrite orb_false_r.
  - inversion Hall as [|? ? Hp Hrest]; subst.
    cbn [length map app Nat.add]. rewrite wait_passed_over by exact Hp.
    rewrite IH by exact Hrest. cbn [Nat.eqb negb]. now rewrite orb_true_r.
Qed.

Lemma le_value_slice_byte (p : bytes) (i : nat) (x : Z) :
  nth_error p i = Some x -> le_value (slice p i (S i)) = x.
Proof.
  intros Hx. unfold slice. replace (S i - i)%nat with 1%nat by lia.
  revert p Hx. induction i as [|i IH]; intros [|y p] Hx; try discriminate.
  - injection Hx as ->. cbn. lia.
  - cbn [skipn]. now apply IH.
Qed.

(** One round of the loop on a response to the request. *)
Lemma wait_response (o : Z) (response : bytes) (k : nat) (later w : list bytes)
    (s : bool) :
  8 <= len response ->
  nth_error response 0 = Some 1 ->
  nth_error response 1 = Some o ->
  wait_response_loop (S k) (Some o)
    (idle_channel (Slip.write response :: later) w s)
  = (inr (le_value (slice response 4 8), skipn 8 response),
     idle_channel later w true).
Proof.
  intros Hlen H0 H1. cbn [wait_response_loop]. unfold bind at 1.
  rewrite SyncFacts.read_idle.
  replace (len response <? 8) with false by (symmetry; apply Z.ltb_ge; lia).
  rewrite (le_value_slice_byte response 0 1 H0).
  rewrite (le_value_slice_byte response 1 o H1).
  change (1 =? 1) with true. cbn [negb]. now rewrite Z.eqb_refl.
Qed.

(** One round of the loop on a response to another command. *)
Lemma wait_foreign (o o' : Z) (response : bytes) (k : nat) (later w : list bytes)
    (s : bool) :
  8 <= len response ->
  nth_error response 0 = Some 1 ->
  nth_error response 1 = Some o' ->
  o' <> o ->
  wait_response_loop (S k) (Some o)
    (idle_channel (Slip.write response :: later) w s)
  = match skipn 8 response with
    | [] => (inl IndexError, idle_channel later w true)
    | b0 :: rest =>
        if negb (b0 =? 0) then
          match rest with
          | [] => (inl IndexError, idle_channel later w true)
          | b1 :: _ =>
              if b1 =? ROM_INVALID_RECV_MSG
              then (inl (UnsupportedCommandError o),
                    mkChannel (Slip.mkPort [] later) w (Some Slip.slip_reader))
              else wait_response_loop k (Some o) (idle_channel later w true)
          end
        else wait_response_loop k (Some o) (idle_channel later w true)
    end.
Proof.
  intros Hlen8 H0 H1 Hop. cbn [wait_response_loop].
  unfold bind at 1. rewrite SyncFacts.read_idle.
  replace (len response <? 8) with false by (symmetry; apply Z.ltb_ge; lia).
  rewrite (le_value_slice_byte response 0 1 H0).
  rewrite (le_value_slice_byte response 1 o' H1).
  change (1 =? 1) with true. cbn [negb].
  replace (o' =? o) with false by (symmetry; apply Z.eqb_neq; lia).
  destruct (skipn 8 response) as [|b0 rest]; [reflexivity|].
  unfold byte. cbn [nth_error].
  destruct (negb (b0 =? 0)); [|reflexivity].
  destruct rest as [|b1 rest]; [reflexivity|].
  destruct (b1 =? ROM_INVALID_RECV_MSG); reflexivity.
Qed.

End CommandFacts.

(** X10. [command] writes its request once and then reads packets until
    one answers it. Packets that are too short, that are no responses,
    or that answer another command with a harmless body are passed over:
    behind fewer than 100 of them the response to the request is
    returned, its value taken from bytes 4 to 7 and its data from byte 8
    on; after 100 of them [command] gives up with "Response doesn't
    match request". *)
Theorem command_reads_at_most_100_packets (o : Z) (data : bytes) (chk : Z)
    (strays later w : list bytes) (s : bool) :
  0 <= o < 256 ->
  len data < 65536 ->
  0 <= chk < 2 ^ 32 ->
  Forall (fun p => passed_over o p = true) strays ->
  let request := [0x00; o] ++ le_bytes 2 (len data) ++ le_bytes 4 chk ++ data in
  (forall response,
     (length strays < 100)%nat ->
     8 <= len response ->
     nth_error response 0 = Some 1 ->
     nth_error response 1 = Some o ->
     Serial.command (Some o) data chk true
       (idle_channel (map Slip.write (strays ++ [response]) ++ later) w s)
     = (inr (Some (le_value (slice response 4 8), skipn 8 response)),
        idle_channel later (w ++ [Slip.write request]) true))
  /\ (length strays = 100%nat ->
      Serial.command (Some o) data chk true
        (idle_channel (map Slip.write strays ++ later) w s)
      = (inl ResponseMismatch,
         idle_channel later (w ++ [Slip.write request]) true)).
Proof.
  intros Ho Hlen Hchk Hall request.
  pose proof (CommandFacts.pack_header o data chk Ho Hlen Hchk) as Hpack.
  assert (Hreq : ([0; o] ++ le_bytes 2 (len data) ++ le_bytes 4 chk) ++ data
                 = request)
    by (unfold request; now rewrite <- !app_assoc).
  split.
  - intros response Hfew Hlen8 H0 H1.
    rewrite (CommandFacts.command_send o data _ chk _ Hpack), Hreq.
    change (Serial.mkChannel _ _ _)
      with (idle_channel (map Slip.write (strays ++ [response]) ++ later)
              (w ++ [Slip.write request]) s).
    rewrite map_app, <- app_assoc. cbn [map app].
    replace 100%nat with (length strays + S (99 - length strays))%nat by lia.
    rewrite CommandFacts.wait_strays by exact Hall.
    now rewrite CommandFacts.wait_response.
  - intros Hmany.
    rewrite (CommandFacts.command_send o data _ chk _ Hpack), Hreq.
    change (Serial.mkChannel _ _ _)
      with (idle_channel (map Slip.write strays ++ later)
              (w ++ [Slip.write request]) s).
    replace 100%nat with (length strays + 0)%nat by lia.
    rewrite CommandFacts.wait_strays by exact Hall.
    rewrite Hmany. cbn [Serial.wait_response_loop raise].
    now rewrite orb_true_r.
Qed.

Lemma command_reads_at_most_100_packets_witness :
  let request := [0x00; 0x0a] ++ le_bytes 2 4 ++ le_bytes 4 0 ++ [0; 0x10; 0; 0x40] in
  let response := [1; 0x0a; 2; 0; 0x83; 0x1d; 0xf0; 0x00; 0; 0] in
  Serial.command (Some ESP_READ_REG) [0; 0x10; 0; 0x40] 0 true
    (idle_channel
       (map Slip.write ([[1; 0x08; 2; 0; 0; 0; 0; 0; 0; 0]; [0x4f; 0x48]] ++ [response])
        ++ []) [] false)
  = (inr (Some (le_value (slice response 4 8), skipn 8 response)),
     idle_channel [] ([] ++ [Slip.write request]) true).
Proof.
  apply (proj1 (command_reads_at_most_100_packets ESP_READ_REG [0; 0x10; 0; 0x40] 0
                  [[1; 0x08; 2; 0; 0; 0; 0; 0; 0; 0]; [0x4f; 0x48]] [] [] false
                  ltac:(unfold ESP_READ_REG; lia) ltac:(cbn; lia) ltac:(lia)
                  ltac:(repeat constructor))
           [1; 0x0a; 2; 0; 0x83; 0x1d; 0xf0; 0x00; 0; 0]).
  - cbn. lia.
  - cbn. lia.
  - reflexivity.
  - reflexivity.
Defined.

(** X11. A response that answers another command stops the loop in two
    cases. If its body starts with a non-zero byte followed by 0x05, the
    ROM's "invalid message", [command] flushes the input and raises
    [UnsupportedCommandError]. If its body is empty, or is one non-zero
    byte, indexing the body raises [IndexError]. *)
Theorem command_foreign_response (o o' : Z) (data : bytes) (chk : Z)
    (response : bytes) (later w : list bytes) (s : bool) :
  0 <= o < 256 ->
  len data < 65536 ->
  0 <= chk < 2 ^ 32 ->
  8 <= len response ->
  nth_error response 0 = Some 1 ->
  nth_error response 1 = Some o' ->
  o' <> o ->
  let request := [0x00; o] ++ le_bytes 2 (len data) ++ le_bytes 4 chk ++ data in
  let run := Serial.command (Some o) data chk true
               (idle_channel (Slip.write response :: later) w s) in
  (forall b0 rest,
     skipn 8 response = b0 :: ROM_INVALID_RECV_MSG :: rest ->
     b0 <> 0 ->
     run = (inl (UnsupportedCommandError o),
            Serial.mkChannel (Slip.mkPort [] later) (w ++ [Slip.write request])
                             (Some Slip.slip_reader)))
  /\ (skipn 8 response = [] \/ (exists b0, skipn 8 response = [b0] /\ b0 <> 0) ->
      run = (inl IndexError, idle_channel later (w ++ [Slip.write request]) true)).
Proof.
  intros Ho Hlen Hchk Hlen8 H0 H1 Hop request run.
  pose proof (CommandFacts.pack_header o data chk Ho Hlen Hchk) as Hpack.
  assert (Hreq : ([0; o] ++ le_bytes 2 (len data) ++ le_bytes 4 chk) ++ data
                 = request)
    by (unfold request; now rewrite <- !app_assoc).
  assert (Hrun : run
    = match Serial.wait_response_loop 100 (Some o)
              (idle_channel (Slip.write response :: later)
                 (w ++ [Slip.write request]) s) with
      | (inr r, c') => (inr (Some r), c')
      | (inl e, c') => (inl e, c')
      end).
  { unfold run. rewrite (CommandFacts.command_send o data _ chk _ Hpack), Hreq.
    reflexivity. }
  pose proof (CommandFacts.wait_foreign o o' response 99 later
                (w ++ [Slip.write request]) s Hlen8 H0 H1 Hop) as Hloop.
  rewrite Hrun, Hloop. split.
  - intros b0 rest Hbody Hb0. rewrite Hbody.
    replace (b0 =? 0) with false by (symmetry; now apply Z.eqb_neq).
    reflexivity.
  - intros [Hbody|[b0 [Hbody Hb0]]]; rewrite Hbody; [reflexivity|].
    replace (b0 =? 0) with false by (symmetry; now apply Z.eqb_neq).
    reflexivity.
Qed.

Lemma command_foreign_response_witness :
  let request := [0x00; 0x0a] ++ le_bytes 2 4 ++ le_bytes 4 0 ++ [0; 0x10; 0; 0x40] in
  let run := Serial.command (Some ESP_READ_REG) [0; 0x10; 0; 0x40] 0 true
               (idle_channel (Slip.write [1; 0x08; 0; 0; 0; 0; 0; 0] :: []) [] false) in
  run = (inl IndexError, idle_channel [] ([] ++ [Slip.write request]) true).
Proof.
  apply (proj2 (command_foreign_response ESP_READ_REG 0x08 [0; 0x10; 0; 0x40] 0
                  [1; 0x08; 0; 0; 0; 0; 0; 0] [] [] false
                  ltac:(unfold ESP_READ_REG; lia) ltac:(cbn; lia) ltac:(lia)
                  ltac:(cbn; lia) eq_refl eq_refl ltac:(discriminate))).
  left. reflexivity.
Defined.

(* ------------------------------------------------------------------ *)
(** ** Block writes are retried *)

(** Whatever the target answers, [check_command] leaves one request in
    its log and prints nothing. *)
Lemma check_command_logs (esp : ESPLoader) (op : option Z) (data : bytes)
    (chk : Z) (s : session device) :
  snd (check_command esp op data chk s) = sent s [Command op data chk].
Proof.
  unfold check_command, bind, on_transport.
  cbn [command scripted_transport].
  fold (sent s [Command op data chk]).
  destruct (on_command (transport s) (log (transport s)) op data chk)
    as [e|[val body]]; [reflexivity|].
  destruct (length body <? STATUS_BYTES_LENGTH esp)%nat; [reflexivity|].
  destruct (byte (last_n (STATUS_BYTES_LENGTH esp) body) 0) as [e|b0];
    [reflexivity|].
  cbn [lift ret].
  destruct (negb (b0 =? 0));
    [unfold raise_WithResult; destruct (_ <? 2)%nat; reflexivity|].
  destruct (STATUS_BYTES_LENGTH esp <? length body)%nat; reflexivity.
Qed.

Lemma repeat_cons_app {A} (x : A) (n : nat) : x :: repeat x n = repeat x n ++ [x].
Proof.
  induction n as [|n IH]; [reflexivity|].
  cbn [repeat app]. now rewrite <- IH.
Qed.

(** The retry loop, entered with [n] attempts left after the next one. *)
Lemma write_block_attempts_trace (esp : ESPLoader) (op : Z) (data : bytes)
    (seq : Z) (n : nat) :
  0 <= len data < 2 ^ 32 ->
  0 <= seq < 2 ^ 32 ->
  let request :=
    Command (Some op)
      (le_bytes 4 (len data) ++ le_bytes 4 seq ++ le_bytes 4 0 ++ le_bytes 4 0
       ++ data)
      (checksum data ESP_CHECKSUM_MAGIC) in
  forall s : session device,
    let attempt (j : nat) :=
      fst (check_command esp (Some op)
             (le_bytes 4 (len data) ++ le_bytes 4 seq ++ le_bytes 4 0
              ++ le_bytes 4 0 ++ data)
             (checksum data ESP_CHECKSUM_MAGIC) (sent s (repeat request j))) in
    exists k : nat,
      (k <= n)%nat
      /\ write_block_attempts esp op data seq n s
         = (block_outcome (attempt k), sent s (repeat request (S k)))
      /\ (forall j, (j < k)%nat -> failed_fatally (attempt j) = true)
      /\ ((k < n)%nat -> failed_fatally (attempt k) = false).
Proof.
  intros Hlen Hseq request.
  induction n as [|n IH]; intros s attempt.
  - exists 0%nat. split; [lia|]. split; [|split; intros; lia].
    cbn [write_block_attempts]. unfold try_FatalError.
    rewrite pack_IIII by (assumption || lia). cbn [lift].
    unfold bind at 1. cbn [ret]. rewrite <- !app_assoc. unfold bind.
    pose proof (check_command_logs esp (Some op)
                  (le_bytes 4 (len data) ++ le_bytes 4 seq ++ le_bytes 4 0
                   ++ le_bytes 4 0 ++ data)
                  (checksum data ESP_CHECKSUM_MAGIC) s) as Hlog.
    unfold attempt. cbn [repeat]. rewrite sent_nil.
    destruct (check_command _ _ _ _ s) as [[e|r] s1]; cbn [snd fst] in *;
      subst s1; cbn [block_outcome ret].
    + destruct (is_FatalError e); reflexivity.
    + reflexivity.
  - cbn [write_block_attempts]. unfold try_FatalError.
    rewrite pack_IIII by (assumption || lia). cbn [lift].
    unfold bind at 1. cbn [ret]. rewrite <- !app_assoc. unfold bind at 1.
    pose proof (check_command_logs esp (Some op)
                  (le_bytes 4 (len data) ++ le_bytes 4 seq ++ le_bytes 4 0
                   ++ le_bytes 4 0 ++ data)
                  (checksum data ESP_CHECKSUM_MAGIC) s) as Hlog.
    assert (Hfirst : attempt 0%nat
                     = fst (check_command esp (Some op)
                              (le_bytes 4 (len data) ++ le_bytes 4 seq
                               ++ le_bytes 4 0 ++ le_bytes 4 0 ++ data)
                              (checksum data ESP_CHECKSUM_MAGIC) s))
      by (unfold attempt; cbn [repeat]; now rewrite sent_nil).
    destruct (check_command _ _ _ _ s) as [[e|r] s1] eqn:Hcmd;
      cbn [snd fst] in *; subst s1.
    + destruct (is_FatalError e) eqn:Hfatal.
      * destruct (IH (sent s [request])) as [k [Hk [Hrun [Hbefore Hlast]]]].
        exists (S k). split; [lia|]. split; [|split].
        -- fold request. rewrite Hrun. rewrite !sent_sent.
           unfold attempt. cbn [repeat app]. reflexivity.
        -- intros [|j] Hj.
           ++ rewrite Hfirst. exact Hfatal.
           ++ specialize (Hbefore j ltac:(lia)).
              rewrite sent_sent in Hbefore. exact Hbefore.
        -- intros Hlt. specialize (Hlast ltac:(lia)).
           rewrite sent_sent in Hlast. exact Hlast.
      * exists 0%nat. split; [lia|]. split; [|split].
        -- rewrite Hfirst. reflexivity.
        -- intros j Hj. lia.
        -- intros _. rewrite Hfirst. exact Hfatal.
    + exists 0%nat. split; [lia|]. split; [|split].
      * rewrite Hfirst. reflexivity.
      * intros j Hj. lia.
      * intros _. rewrite Hfirst. reflexivity.
Qed.

(** X12. [flash_block] sends its block up to three times. It stops at the
    first attempt that does not fail with a [FatalError] and returns the
    outcome of the last attempt it made: every attempt is the same
    FLASH_DATA request, the attempts before the last one all failed with
    a [FatalError], and a [FatalError] is passed on only from the third. *)
Theorem flash_block_retries (esp : ESPLoader) (data : bytes) (seq : Z)
    (s : session device) :
  0 <= len data < 2 ^ 32 ->
  0 <= seq < 2 ^ 32 ->
  let payload :=
    le_bytes 4 (len data) ++ le_bytes 4 seq ++ le_bytes 4 0 ++ le_bytes 4 0
    ++ data in
  let request := Command (Some ESP_FLASH_DATA) payload (checksum data ESP_CHECKSUM_MAGIC) in
  let attempt (j : nat) :=
    fst (check_command esp (Some ESP_FLASH_DATA) payload
           (checksum data ESP_CHECKSUM_MAGIC) (sent s (repeat request j))) in
  exists attempts : nat,
    (1 <= attempts <= 3)%nat
    /\ flash_block esp data seq s
       = (block_outcome (attempt (attempts - 1)%nat),
          sent s (repeat request attempts))
    /\ (forall j, (j < attempts - 1)%nat -> failed_fatally (attempt j) = true)
    /\ ((attempts < 3)%nat -> failed_fatally (attempt (attempts - 1)%nat) = false).
Proof.
  intros Hlen Hseq payload request attempt.
  destruct (write_block_attempts_trace esp ESP_FLASH_DATA data seq 2 Hlen Hseq s)
    as [k [Hk [Hrun [Hbefore Hlast]]]].
  exists (S k). replace (S k - 1)%nat with k by lia.
  split; [lia|]. split; [exact Hrun|]. split.
  - exact Hbefore.
  - intros Hlt. apply Hlast. lia.
Qed.

Lemma flash_block_retries_witness :
  let s := mkSession
             (mkDevice (fun l _ _ _ =>
                          if (length l <? 1)%nat then inr (0, [1; 7]) else inr (0, [0; 0]))
                       (fun _ => inr []) []) [] in
  let payload :=
    le_bytes 4 (len [0xAA; 0xBB]) ++ le_bytes 4 0 ++ le_bytes 4 0 ++ le_bytes 4 0
    ++ [0xAA; 0xBB] in
  let request := Command (Some ESP_FLASH_DATA) payload
                   (checksum [0xAA; 0xBB] ESP_CHECKSUM_MAGIC) in
  let attempt (j : nat) :=
    fst (check_command esp8266_rom (Some ESP_FLASH_DATA) payload
           (checksum [0xAA; 0xBB] ESP_CHECKSUM_MAGIC) (sent s (repeat request j))) in
  exists attempts : nat,
    (1 <= attempts <= 3)%nat
    /\ flash_block esp8266_rom [0xAA; 0xBB] 0 s
       = (block_outcome (attempt (attempts - 1)%nat),
          sent s (repeat request attempts))
    /\ (forall j, (j < attempts - 1)%nat -> failed_fatally (attempt j) = true)
    /\ ((attempts < 3)%nat -> failed_fatally (attempt (attempts - 1)%nat) = false).
Proof.
  apply (flash_block_retries esp8266_rom [0xAA; 0xBB] 0).
  - cbn. lia.
  - lia.
Defined.

(* ------------------------------------------------------------------ *)
(** ** Uploading the stub *)

Lemma firstn_plus {A} (m n : nat) (l : list A) :
  firstn (m + n) l = firstn m l ++ firstn n (skipn m l).
Proof.
  revert l. induction m as [|m IH]; intros l; [reflexivity|].
  destruct l as [|x l]; cbn [Nat.add firstn skipn app].
  - now rewrite firstn_nil.
  - now rewrite IH.
Qed.

Lemma skipn_plus {A} (m n : nat) (l : list A) :
  skipn (m + n) l = skipn n (skipn m l).
Proof.
  revert l. induction m as [|m IH]; intros l; [reflexivity|].
  destruct l as [|x l]; cbn [Nat.add skipn].
  - now rewrite skipn_nil.
  - apply IH.
Qed.

Section Upload.

Variable esp : ESPLoader.
Hypothesis Hblock : 0 < ESP_RAM_BLOCK esp < 2 ^ 32.

(** The block loop of [run_stub]: one accepted MEM_DATA request per
    block, the blocks being consecutive slices of the field. *)
Lemma upload_blocks_ack (field : bytes) (n : nat) :
  forall (seq : Z) (s : session device),
    acknowledging esp (transport s) ->
    0 <= seq ->
    seq + Z.of_nat n < 2 ^ 32 ->
    exists blocks,
      upload_blocks esp field n seq s
      = (inr tt, sent s (block_requests ESP_MEM_DATA seq blocks))
      /\ length blocks = n
      /\ concat blocks
         = firstn (n * Z.to_nat (ESP_RAM_BLOCK esp))
             (skipn (Z.to_nat (seq * ESP_RAM_BLOCK esp)) field)
      /\ Forall (fun b => len b <= ESP_RAM_BLOCK esp) blocks.
Proof.
  induction n as [|n IH]; intros seq s Hack Hseq Hmax.
  - exists []. cbn [upload_blocks block_requests]. rewrite sent_nil.
    repeat split. constructor.
  - set (a := Z.to_nat (seq * ESP_RAM_BLOCK esp)).
    set (block := slice field a
                    (Z.to_nat (seq * ESP_RAM_BLOCK esp + ESP_RAM_BLOCK esp))).
    assert (Hslice : block = firstn (Z.to_nat (ESP_RAM_BLOCK esp)) (skipn a field)).
    { unfold block, slice. f_equal. unfold a. nia. }
    assert (Hlen : 0 <= len block <= ESP_RAM_BLOCK esp).
    { unfold len. rewrite Hslice, length_firstn. lia. }
    destruct (IH (seq + 1) (sent s (block_requests ESP_MEM_DATA seq [block]))
                Hack ltac:(lia) ltac:(lia))
      as [blocks [Hrun [Hcount [Hconcat Hall]]]].
    exists (block :: blocks). split; [|split; [|split]].
    + cbn [upload_blocks]. fold a. fold block.
      unfold mem_block. rewrite pack_IIII by lia. cbn [lift].
      unfold bind at 2. cbn [ret].
      destruct (check_command_ack esp (Some ESP_MEM_DATA)
                  ((le_bytes 4 (len block) ++ le_bytes 4 seq ++ le_bytes 4 0
                    ++ le_bytes 4 0) ++ block)
                  (checksum block ESP_CHECKSUM_MAGIC) s Hack) as [r Hcmd].
      unfold bind at 1. rewrite Hcmd. rewrite <- !app_assoc.
      change (sent s [Command (Some ESP_MEM_DATA) _ _])
        with (sent s (block_requests ESP_MEM_DATA seq [block])).
      rewrite Hrun, sent_sent. reflexivity.
    + cbn [length]. now rewrite Hcount.
    + cbn [concat]. rewrite Hconcat, Hslice.
      replace (Z.to_nat ((seq + 1) * ESP_RAM_BLOCK esp))
        with (a + Z.to_nat (ESP_RAM_BLOCK esp))%nat by (unfold a; nia).
      rewrite skipn_plus.
      change (S n * Z.to_nat (ESP_RAM_BLOCK esp))%nat
        with (Z.to_nat (ESP_RAM_BLOCK esp) + n * Z.to_nat (ESP_RAM_BLOCK esp))%nat.
      now rewrite firstn_plus.
    + constructor; [lia|exact Hall].
Qed.

(** One field of the stub on a ROM loader: MEM_BEGIN, then the blocks. *)
Lemma upload_field_ack (field : bytes) (offs : Z) (s : session device) :
  IS_STUB esp = false ->
  acknowledging esp (transport s) ->
  len field < 2 ^ 32 ->
  0 <= offs < 2 ^ 32 ->
  exists blocks,
    upload_field esp (Some field) offs s
    = (inr tt,
       sent s
         ([Command (Some ESP_MEM_BEGIN)
             (le_bytes 4 (len field) ++ le_bytes 4 (Z.of_nat (length blocks))
              ++ le_bytes 4 (ESP_RAM_BLOCK esp) ++ le_bytes 4 offs) 0]
          ++ block_requests ESP_MEM_DATA 0 blocks))
    /\ concat blocks = field
    /\ Forall (fun b => len b <= ESP_RAM_BLOCK esp) blocks
    /\ Z.of_nat (length blocks)
       = (len field + ESP_RAM_BLOCK esp - 1) / ESP_RAM_BLOCK esp.
Proof.
  intros Hrom Hack Hlen Hoffs.
  assert (Hlen0 : 0 <= len field) by (unfold len; lia).
  set (count := (len field + ESP_RAM_BLOCK esp - 1) / ESP_RAM_BLOCK esp).
  assert (Hcount : 0 <= count <= len field
                   /\ len field <= count * ESP_RAM_BLOCK esp).
  { unfold count.
    pose proof (Z.div_mod (len field + ESP_RAM_BLOCK esp - 1) (ESP_RAM_BLOCK esp)
                  ltac:(lia)) as Hdm.
    pose proof (Z.mod_pos_bound (len field + ESP_RAM_BLOCK esp - 1)
                  (ESP_RAM_BLOCK esp) ltac:(lia)) as Hmod.
    assert (0 <= (len field + ESP_RAM_BLOCK esp - 1) / ESP_RAM_BLOCK esp)
      by (apply Z.div_pos; lia).
    nia. }
  set (begin := Command (Some ESP_MEM_BEGIN)
                  (le_bytes 4 (len field) ++ le_bytes 4 count
                   ++ le_bytes 4 (ESP_RAM_BLOCK esp) ++ le_bytes 4 offs) 0).
  destruct (upload_blocks_ack field (Z.to_nat count) 0 (sent s [begin])
              Hack ltac:(lia) ltac:(lia))
    as [blocks [Hrun [Hn [Hconcat Hall]]]].
  exists blocks.
  assert (Hblocks : Z.of_nat (length blocks) = count) by lia.
  rewrite Hblocks. fold begin. split; [|split; [|split]].
  - unfold upload_field, div_roundup.
    replace (ESP_RAM_BLOCK esp =? 0) with false
      by (symmetry; apply Z.eqb_neq; lia).
    cbn [lift]. unfold bind at 1. cbn [ret]. fold count.
    rewrite mem_begin_rom by exact Hrom.
    rewrite pack_IIII by lia. cbn [lift].
    unfold bind at 2. cbn [ret].
    destruct (check_command_ack esp (Some ESP_MEM_BEGIN)
                (le_bytes 4 (len field) ++ le_bytes 4 count
                 ++ le_bytes 4 (ESP_RAM_BLOCK esp) ++ le_bytes 4 offs) 0 s Hack)
      as [r Hcmd].
    unfold bind at 1. rewrite Hcmd. fold begin.
    rewrite Hrun, sent_sent. reflexivity.
  - rewrite Hconcat. change (Z.to_nat (0 * ESP_RAM_BLOCK esp)) with 0%nat.
    cbn [skipn]. apply firstn_all2. unfold len in *. nia.
  - exact Hall.
  - reflexivity.
Qed.

End Upload.

(** X13. [run_stub] on a ROM loader whose target accepts every command
    and then greets with "OHAI": the text of the stub is sent first, then
    its data, each after a MEM_BEGIN that gives its length, its number of
    blocks, the block size and its load address; the blocks are
    consecutive pieces of the field, none longer than [ESP_RAM_BLOCK],
    [ceil(length / ESP_RAM_BLOCK)] of them, and nothing is added as
    padding. MEM_END with the entry point follows, the greeting is read,
    and the loader returned is a stub loader. *)
Theorem run_stub_uploads_text_and_data (esp : ESPLoader) (t d : bytes)
    (s : session device) :
  IS_STUB esp = false ->
  sync_stub_detected esp = false ->
  text (STUB_CODE esp) = Some t ->
  data (STUB_CODE esp) = Some d ->
  acknowledging esp (transport s) ->
  greeting (transport s) ->
  0 < ESP_RAM_BLOCK esp < 2 ^ 32 ->
  len t < 2 ^ 32 ->
  len d < 2 ^ 32 ->
  0 <= text_start (STUB_CODE esp) < 2 ^ 32 ->
  0 <= data_start (STUB_CODE esp) < 2 ^ 32 ->
  0 <= entry (STUB_CODE esp) < 2 ^ 32 ->
  exists stub_loader s' text_blocks data_blocks,
    let block_size := ESP_RAM_BLOCK esp in
    let stub := STUB_CODE esp in
    run_stub StubLoader esp None s = (inr stub_loader, s')
    /\ IS_STUB stub_loader = true
    /\ log (transport s')
       = log (transport s)
         ++ [Command (Some ESP_MEM_BEGIN)
               (le_bytes 4 (len t) ++ le_bytes 4 (Z.of_nat (length text_blocks))
                ++ le_bytes 4 block_size ++ le_bytes 4 (text_start stub)) 0]
         ++ block_requests ESP_MEM_DATA 0 text_blocks
         ++ [Command (Some ESP_MEM_BEGIN)
               (le_bytes 4 (len d) ++ le_bytes 4 (Z.of_nat (length data_blocks))
                ++ le_bytes 4 block_size ++ le_bytes 4 (data_start stub)) 0]
         ++ block_requests ESP_MEM_DATA 0 data_blocks
         ++ [Command (Some ESP_MEM_END)
               (le_bytes 4 (if entry stub =? 0 then 1 else 0)
                ++ le_bytes 4 (entry stub)) 0;
             Read; FlushInput]
    /\ concat text_blocks = t
    /\ concat data_blocks = d
    /\ Forall (fun b => len b <= block_size) (text_blocks ++ data_blocks)
    /\ Z.of_nat (length text_blocks) = (len t + block_size - 1) / block_size
    /\ Z.of_nat (length data_blocks) = (len d + block_size - 1) / block_size
    /\ stdout s' = stdout s ++ [UploadingStub; RunningStub; StubRunning].
Proof.
  intros Hrom Hsync Htext Hdata Hack Hgreet Hblock Hlt Hld Hts Hds Hentry.
  set (s0 := mkSession (transport s) (stdout s ++ [UploadingStub])).
  destruct (upload_field_ack esp Hblock t (text_start (STUB_CODE esp)) s0
              Hrom Hack Hlt Hts)
    as [text_blocks [Hrun_t [Hconcat_t [Hall_t Hcount_t]]]].
  set (sent_t := [Command (Some ESP_MEM_BEGIN)
                    (le_bytes 4 (len t) ++ le_bytes 4 (Z.of_nat (length text_blocks))
                     ++ le_bytes 4 (ESP_RAM_BLOCK esp)
                     ++ le_bytes 4 (text_start (STUB_CODE esp))) 0]
                 ++ block_requests ESP_MEM_DATA 0 text_blocks) in *.
  destruct (upload_field_ack esp Hblock d (data_start (STUB_CODE esp))
              (sent s0 sent_t) Hrom Hack Hld Hds)
    as [data_blocks [Hrun_d [Hconcat_d [Hall_d Hcount_d]]]].
  set (sent_d := [Command (Some ESP_MEM_BEGIN)
                    (le_bytes 4 (len d) ++ le_bytes 4 (Z.of_nat (length data_blocks))
                     ++ le_bytes 4 (ESP_RAM_BLOCK esp)
                     ++ le_bytes 4 (data_start (STUB_CODE esp))) 0]
                 ++ block_requests ESP_MEM_DATA 0 data_blocks) in *.
  set (s2 := sent (sent s0 sent_t) sent_d) in *.
  set (s3 := mkSession (transport s2) (stdout s2 ++ [RunningStub])).
  set (finish := Command (Some ESP_MEM_END)
                   (le_bytes 4 (if entry (STUB_CODE esp) =? 0 then 1 else 0)
                    ++ le_bytes 4 (entry (STUB_CODE esp))) 0).
  assert (Hfinish : exists r,
            mem_finish esp (entry (STUB_CODE esp)) s3
            = (inr r, sent s3 [finish])).
  { unfold mem_finish.
    rewrite pack_I_ok by (destruct (entry (STUB_CODE esp) =? 0); lia).
    rewrite pack_I_ok by exact Hentry. cbn [pack]. rewrite app_nil_r.
    cbn [lift]. unfold bind at 1. cbn [ret]. unfold try_FatalError.
    destruct (check_command_ack esp (Some ESP_MEM_END)
                (le_bytes 4 (if entry (STUB_CODE esp) =? 0 then 1 else 0)
                 ++ le_bytes 4 (entry (STUB_CODE esp))) 0 s3 Hack) as [r Hcmd].
    unfold bind. rewrite Hcmd. cbn [ret]. now exists (Some r). }
  destruct Hfinish as [r Hfinish].
  set (s4 := sent s3 [finish]) in *.
  eexists _, _, text_blocks, data_blocks. cbn zeta.
  split; [|split; [|split; [|split; [|split; [|split; [|split; [|split]]]]]]].
  - unfold run_stub. rewrite Hsync, Htext, Hdata.
    unfold bind at 1. unfold print at 1, modify at 1. fold s0.
    unfold bind at 1. rewrite Hrun_t.
    unfold bind at 1. rewrite Hrun_d. fold s2.
    unfold bind at 1. unfold print at 1, modify at 1. fold s3.
    unfold bind at 1. rewrite Hfinish.
    unfold bind at 1. unfold on_transport at 1.
    cbn [read scripted_transport].
    rewrite (Hgreet : forall l, on_read (transport s4) l = inr OHAI).
    change (negb (bytes_eqb OHAI OHAI)) with false. cbn iota.
    unfold bind at 1. unfold print at 1, modify at 1.
    unfold StubLoader, bind, on_transport, ret. cbn [flush_input scripted_transport modify].
    reflexivity.
  - reflexivity.
  - cbn [transport log record_request s4 s3 s2 s0 sent].
    unfold sent_t, sent_d, finish. rewrite <- !app_assoc. reflexivity.
  - exact Hconcat_t.
  - exact Hconcat_d.
  - apply Forall_app. split; assumption.
  - exact Hcount_t.
  - exact Hcount_d.
  - cbn [stdout s4 s3 s2 s0 sent]. rewrite <- !app_assoc. reflexivity.
Qed.

Lemma ack_device_acknowledging : acknowledging esp8266_rom ack_device.
Proof.
  intros l op payload chk. exists 0, [0; 0]. cbn. repeat split. lia.
Qed.

Lemma run_stub_uploads_text_and_data_witness :
  exists stub_loader s' text_blocks data_blocks,
    let esp := esp8266_rom in
    let s := mkSession ack_device [] in
    let t := [0x01; 0x02; 0x03; 0x04] in
    let d := [0x05; 0x06] in
    let block_size := ESP_RAM_BLOCK esp in
    let stub := STUB_CODE esp in
    run_stub StubLoader esp None s = (inr stub_loader, s')
    /\ IS_STUB stub_loader = true
    /\ log (transport s')
       = log (transport s)
         ++ [Command (Some ESP_MEM_BEGIN)
               (le_bytes 4 (len t) ++ le_bytes 4 (Z.of_nat (length text_blocks))
                ++ le_bytes 4 block_size ++ le_bytes 4 (text_start stub)) 0]
         ++ block_requests ESP_MEM_DATA 0 text_blocks
         ++ [Command (Some ESP_MEM_BEGIN)
               (le_bytes 4 (len d) ++ le_bytes 4 (Z.of_nat (length data_blocks))
                ++ le_bytes 4 block_size ++ le_bytes 4 (data_start stub)) 0]
         ++ block_requests ESP_MEM_DATA 0 data_blocks
         ++ [Command (Some ESP_MEM_END)
               (le_bytes 4 (if entry stub =? 0 then 1 else 0)
                ++ le_bytes 4 (entry stub)) 0;
             Read; FlushInput]
    /\ concat text_blocks = t
    /\ concat data_blocks = d
    /\ Forall (fun b => len b <= block_size) (text_blocks ++ data_blocks)
    /\ Z.of_nat (length text_blocks) = (len t + block_size - 1) / block_size
    /\ Z.of_nat (length data_blocks) = (len d + block_size - 1) / block_size
    /\ stdout s' = stdout s ++ [UploadingStub; RunningStub; StubRunning].
Proof.
  apply (run_stub_uploads_text_and_data esp8266_rom
           [0x01; 0x02; 0x03; 0x04] [0x05; 0x06] (mkSession ack_device [])).
  - reflexivity.
  - reflexivity.
  - reflexivity.
  - reflexivity.
  - exact ack_device_acknowledging.
  - intros l. reflexivity.
  - cbn. lia.
  - cbn. lia.
  - cbn. lia.
  - cbn. lia.
  - cbn. lia.
  - cbn. lia.
Defined.

(* ------------------------------------------------------------------ *)
(** ** [write_flash]: the checks before the first command *)

Lemma check_fit_fails {C : Type} `{Transport C} (flash_end : Z)
    (files : list (Z * argfile)) (s : session C) :
  Exists (fun af => flash_end < fst af + len (content (snd af))) files ->
  check_fit flash_end files s = (inl WillNotFit, s).
Proof.
  induction files as [|[address f] files IH]; intros Hex.
  - inversion Hex.
  - cbn [check_fit].
    destruct (Z.ltb_spec flash_end (address + len (content f))) as [Hlt|Hge];
      [reflexivity|].
    apply IH. inversion Hex as [? ? Hhead|? ? Htail]; subst;
      [cbn [fst snd] in Hhead; lia|exact Htail].
Qed.

(** X14. With a flash size given and no encryption asked for,
    [write_flash] first checks every file against the size: if one file
    ends beyond the flash, it raises "will not fit" before anything is
    sent to the target or printed, whatever the other arguments are. *)
Theorem write_flash_rejects_file_beyond_flash (C : Type) (T : Transport C)
    (lib : libraries) (q : collaborators C) (esp : ESPLoader) (args : Args)
    (flash_end : Z) (s : session C) :
  encrypt args = false ->
  encrypt_files args = None ->
  is_keep (flash_size args) = false ->
  flash_size_bytes (flash_size args) = inr flash_end ->
  Exists (fun af => flash_end < fst af + len (content (snd af)))
         (addr_filename args) ->
  write_flash lib q esp args s = (inl WillNotFit, s).
Proof.
  intros Hencrypt Hfiles Hkeep Hsize Hex.
  unfold write_flash. rewrite Hencrypt, Hfiles, Hkeep, Hsize.
  cbn [orb negb lift]. unfold bind at 1. cbn [ret].
  unfold bind at 1. unfold bind at 1. cbn [ret].
  now rewrite (check_fit_fails flash_end (addr_filename args) s Hex).
Qed.

Lemma write_flash_rejects_file_beyond_flash_witness :
  let args := mkArgs (Some false) false false false None
                [(0x0, mkFile "boot.bin" [0xe9; 0; 0; 0]);
                 (0xFFFFE, mkFile "app.bin" [1; 2; 3; 4])]
                "keep" "keep" "1MB" false false false in
  let s := mkSession ack_device [] in
  write_flash no_libraries unused_collaborators esp8266_rom args s
  = (inl WillNotFit, s).
Proof.
  apply (write_flash_rejects_file_beyond_flash device scripted_transport
           no_libraries unused_collaborators esp8266_rom
           (mkArgs (Some false) false false false None
              [(0x0, mkFile "boot.bin" [0xe9; 0; 0; 0]);
               (0xFFFFE, mkFile "app.bin" [1; 2; 3; 4])]
              "keep" "keep" "1MB" false false false)
           (1024 * 1024) (mkSession ack_device [])).
  - reflexivity.
  - reflexivity.
  - reflexivity.
  - reflexivity.
  - apply Exists_cons_tl, Exists_cons_hd. cbn. lia.
Defined.

(* ------------------------------------------------------------------ *)
(** ** [write_flash] on a ROM loader never ends the flash mode *)

Section FootprintOfWriteFlash.

Variable P : request -> Prop.

Ltac footprint :=
  first
    [ match goal with
      | |- emits _ (bind (ret _) _) => apply emits_bind_ret
      end
    | apply emits_ret
    | apply emits_raise
    | apply emits_print
    | apply emits_lift
    | assumption
    | apply emits_check_command; assumption
    | apply emits_bind; [|intros ?]
    | match goal with
      | |- emits _ (if ?c then _ else _) => destruct c
      | |- emits _ (match ?x with _ => _ end) => destruct x
      end ].

Lemma emits_check_fit (flash_end : Z) (files : list (Z * argfile)) :
  emits P (check_fit flash_end files).
Proof.
  induction files as [|[address f] files IH]; cbn [check_fit];
    repeat footprint.
Qed.

Lemma emits_report_erase (esp : ESPLoader) (files : list (Z * argfile)) :
  emits P (report_erase esp files).
Proof.
  induction files as [|[address f] files IH]; cbn [report_erase];
    repeat footprint.
Qed.

Lemma emits_check_alignment (align : Z) (files : list (Z * argfile)) :
  forall do_write, emits P (check_alignment align files do_write).
Proof.
  induction files as [|[address f] files IH]; intros do_write;
    cbn [check_alignment]; repeat footprint; apply IH.
Qed.

Lemma emits_erase_flash (esp : ESPLoader) :
  covers P ESP_ERASE_FLASH -> emits P (erase_flash esp).
Proof.
  intros Hcover. unfold erase_flash, stub_function_only. repeat footprint.
Qed.

Lemma emits_encryption_checks (q : collaborators device) (esp : ESPLoader)
    (args : Args) :
  emits P (get_encrypted_download_disabled q) ->
  emits P (get_flash_crypt_config q) ->
  emits P (is_flash_encryption_key_valid q) ->
  emits P (encryption_checks q esp args).
Proof.
  intros Hdisabled Hconfig Hkey. unfold encryption_checks.
  apply emits_bind.
  - repeat footprint.
  - intros do_write.
    destruct (if encrypt args then addr_filename args
              else match encrypt_files args with Some l => l | None => [] end)
      as [|file files];
      destruct (FLASH_ENCRYPTED_WRITE_ALIGN esp) as [a|];
      try (apply emits_bind; [apply emits_check_alignment|intros ?]);
      repeat footprint.
Qed.

Lemma emits_write_file (lib : libraries) (esp : ESPLoader) (args : Args)
    (file : Z * argfile * bool) :
  covers P ESP_FLASH_BEGIN -> covers P ESP_FLASH_DATA ->
  covers P ESP_FLASH_ENCRYPT_DATA -> covers P ESP_READ_REG ->
  covers P ESP_SPI_FLASH_MD5 ->
  covers P ESP_FLASH_DEFL_BEGIN -> covers P ESP_FLASH_DEFL_DATA ->
  emits P (write_file lib esp args file).
Proof.
  intros Hbegin Hdata Hencrypt Hreg Hmd5 Hdbegin Hddata.
  destruct file as [[address f] encrypted].
  destruct (args_compress args) eqn:Hcompress.
  - destruct encrypted.
    + intros s.
      rewrite (write_file_drops_compression lib esp args address f s Hcompress).
      assert (Hemits :
        emits P (write_file lib esp (without_compression args) (address, f, true)))
        by (apply emits_write_file_uncompressed; solve [reflexivity|assumption]).
      destruct (Hemits (mkSession (transport s)
                  (stdout s ++ [WarnMutuallyExclusive;
                                WillFlashUncompressed (name f)])))
        as [added [Hlog Hall]].
      now exists added.
    + apply emits_write_file_compressed; assumption.
  - apply emits_write_file_uncompressed; assumption.
Qed.

Lemma emits_write_files (lib : libraries) (esp : ESPLoader) (args : Args)
    (files : list (Z * argfile * bool)) :
  covers P ESP_FLASH_BEGIN -> covers P ESP_FLASH_DATA ->
  covers P ESP_FLASH_ENCRYPT_DATA -> covers P ESP_READ_REG ->
  covers P ESP_SPI_FLASH_MD5 ->
  covers P ESP_FLASH_DEFL_BEGIN -> covers P ESP_FLASH_DEFL_DATA ->
  emits P (write_files lib esp args files).
Proof.
  intros Hbegin Hdata Hencrypt Hreg Hmd5 Hdbegin Hddata.
  induction files as [|file files IH]; cbn [write_files].
  - apply emits_ret.
  - apply emits_bind; [now apply emits_write_file|intros _; exact IH].
Qed.

Lemma emits_write_flash_rom (lib : libraries) (q : collaborators device)
    (esp : ESPLoader) (args : Args) :
  IS_STUB esp = false ->
  covers P ESP_FLASH_BEGIN -> covers P ESP_FLASH_DATA ->
  covers P ESP_FLASH_ENCRYPT_DATA -> covers P ESP_READ_REG ->
  covers P ESP_SPI_FLASH_MD5 ->
  covers P ESP_FLASH_DEFL_BEGIN -> covers P ESP_FLASH_DEFL_DATA ->
  covers P ESP_ERASE_FLASH ->
  emits P (get_encrypted_download_disabled q) ->
  emits P (get_flash_crypt_config q) ->
  emits P (is_flash_encryption_key_valid q) ->
  emits P (verify_flash q) ->
  emits P (write_flash lib q esp args).
Proof.
  intros Hrom Hbegin Hdata Hencrypt Hreg Hmd5 Hdbegin Hddata Herase
    Hdisabled Hconfig Hkey Hverify.
  unfold write_flash. rewrite Hrom.
  apply emits_bind; [|intros _].
  { destruct (encrypt args || _); [now apply emits_encryption_checks|apply emits_ret]. }
  apply emits_bind; [|intros _].
  { destruct (negb (is_keep (flash_size args))); [|apply emits_ret].
    apply emits_bind; [apply emits_lift|intros flash_end; apply emits_check_fit]. }
  apply emits_bind; [|intros _].
  { destruct (erase_all args).
    - apply emits_bind; [apply emits_print|intros _; now apply emits_erase_flash].
    - apply emits_report_erase. }
  apply emits_bind; [now apply emits_write_files|intros _].
  repeat footprint.
Qed.

End FootprintOfWriteFlash.

(** X15. On a ROM loader [write_flash] never sends FLASH_END or
    FLASH_DEFL_END, the commands that make the ROM leave the bootloader
    and run the user code: whatever the arguments, the files and the
    answers of the target, every request it adds to the log is another
    one, as long as the efuse queries and the verification it calls send
    neither. *)
Theorem write_flash_rom_stays_in_bootloader (lib : libraries)
    (q : collaborators device) (esp : ESPLoader) (args : Args)
    (s : session device) :
  IS_STUB esp = false ->
  emits stays_in_bootloader (get_encrypted_download_disabled q) ->
  emits stays_in_bootloader (get_flash_crypt_config q) ->
  emits stays_in_bootloader (is_flash_encryption_key_valid q) ->
  emits stays_in_bootloader (verify_flash q) ->
  exists added,
    log (transport (snd (write_flash lib q esp args s)))
    = log (transport s) ++ added
    /\ Forall stays_in_bootloader added.
Proof.
  intros Hrom Hdisabled Hconfig Hkey Hverify.
  assert (Hemits : emits stays_in_bootloader (write_flash lib q esp args)).
  { apply emits_write_flash_rom; try assumption;
      intros payload chk; split; reflexivity. }
  exact (Hemits s).
Qed.

Lemma write_flash_rom_stays_in_bootloader_witness :
  exists added,
    log (transport
           (snd (write_flash scenario_C_libraries unused_collaborators esp32_rom
                   (plain_args [(0x10000, scenario_C_file)]) scenario_C_session)))
    = log (transport scenario_C_session) ++ added
    /\ Forall stays_in_bootloader added.
Proof.
  apply (write_flash_rom_stays_in_bootloader scenario_C_libraries
           unused_collaborators esp32_rom
           (plain_args [(0x10000, scenario_C_file)]) scenario_C_session).
  - reflexivity.
  - apply emits_raise.
  - apply emits_raise.
  - apply emits_raise.
  - apply emits_raise.
Defined.

(* ------------------------------------------------------------------ *)
(** ** Segments: merging and splitting *)

Module SegmentFacts.
Import ImageSave.

Lemma placed_from_app (x y : bytes) :
  forall a, placed_from a (x ++ y) = placed_from a x ++ placed_from (a + len x) y.
Proof.
  induction x as [|b x IH]; intros a.
  - cbn. f_equal. unfold len. cbn. lia.
  - cbn [app placed_from]. rewrite IH. do 3 f_equal.
    unfold len. cbn [length]. lia.
Qed.

Lemma checksum_app (x y : bytes) (state : Z) :
  checksum (x ++ y) state = checksum y (checksum x state).
Proof.
  revert state. induction x as [|b x IH]; intros state; [reflexivity|].
  cbn [app checksum]. apply IH.
Qed.

Lemma names_eqb_eq (a b : list string) : names_eqb a b = true <-> a = b.
Proof.
  unfold names_eqb. destruct (list_eq_dec string_dec a b); split;
    intros; auto; discriminate || contradiction.
Qed.

Lemma mergeable_spec (MEMORY_MAP : list (Z * Z * string))
    (elem next_elem : Image.ImageSegment) :
  mergeable MEMORY_MAP elem next_elem = true
  <-> get_memory_type MEMORY_MAP elem = get_memory_type MEMORY_MAP next_elem
      /\ Image.include_in_checksum elem = Image.include_in_checksum next_elem
      /\ Image.addr next_elem = Image.addr elem + len (Image.data elem).
Proof.
  unfold mergeable. rewrite !andb_true_iff, names_eqb_eq, Z.eqb_eq.
  rewrite Bool.eqb_true_iff. tauto.
Qed.

(** What a run of the loop keeps. *)
Lemma merge_backward_keeps (MEMORY_MAP : list (Z * Z * string))
    (later : list Image.ImageSegment) :
  forall elem elem' segments,
    merge_backward MEMORY_MAP elem later = (elem', segments) ->
    Image.addr elem' = Image.addr elem
    /\ Image.include_in_checksum elem' = Image.include_in_checksum elem
    /\ Image.file_offs elem' = Image.file_offs elem
    /\ (length segments <= length later)%nat
    /\ placed elem' ++ flat_map placed segments
       = placed elem ++ flat_map placed later
    /\ (forall seed,
          checksum_segments (elem' :: segments) seed
          = checksum_segments (elem :: later) seed).
Proof.
  induction later as [|next later IH]; intros elem elem' segments Hrun.
  - cbn in Hrun. injection Hrun as <- <-. repeat split. cbn. lia.
  - cbn [merge_backward] in Hrun.
    destruct (merge_backward MEMORY_MAP next later) as [next_elem out] eqn:Hnext.
    destruct (IH next next_elem out Hnext)
      as [Haddr [Hincl [Hoffs [Hlen [Hplaced Hsum]]]]].
    destruct (mergeable MEMORY_MAP elem next_elem) eqn:Hmerge.
    + injection Hrun as <- <-.
      apply mergeable_spec in Hmerge. destruct Hmerge as [_ [Hsame Hnext_addr]].
      cbn [Image.addr Image.include_in_checksum Image.file_offs Image.data].
      split; [reflexivity|]. split; [reflexivity|]. split; [reflexivity|].
      split; [cbn [length]; lia|]. split.
      * unfold placed at 1. cbn [Image.addr Image.data].
        rewrite placed_from_app, <- Hnext_addr, <- app_assoc.
        cbn [flat_map]. rewrite <- Hplaced. reflexivity.
      * intros seed. specialize (Hsum
          (if Image.include_in_checksum elem
           then checksum (Image.data elem) seed else seed)).
        cbn [checksum_segments] in *.
        cbn [Image.include_in_checksum Image.data].
        rewrite <- Hsum, <- Hsame.
        destruct (Image.include_in_checksum elem); [|reflexivity].
        now rewrite checksum_app.
    + injection Hrun as <- <-.
      split; [reflexivity|]. split; [reflexivity|]. split; [reflexivity|].
      split; [cbn [length]; lia|]. split.
      * cbn [flat_map]. now rewrite Hplaced.
      * intros seed. cbn [checksum_segments] in *. apply Hsum.
Qed.

Lemma memory_type_by_addr (MEMORY_MAP : list (Z * Z * string))
    (a b : Image.ImageSegment) :
  Image.addr a = Image.addr b ->
  get_memory_type MEMORY_MAP a = get_memory_type MEMORY_MAP b.
Proof. unfold get_memory_type. now intros ->. Qed.

(** Nothing is left to merge in what the loop returns. *)
Lemma merge_backward_settled (MEMORY_MAP : list (Z * Z * string))
    (later : list Image.ImageSegment) :
  forall elem elem' segments,
    merge_backward MEMORY_MAP elem later = (elem', segments) ->
    merge_backward MEMORY_MAP elem' segments = (elem', segments).
Proof.
  induction later as [|next later IH]; intros elem elem' segments Hrun.
  - cbn in Hrun. injection Hrun as <- <-. reflexivity.
  - cbn [merge_backward] in Hrun.
    destruct (merge_backward MEMORY_MAP next later) as [next_elem out] eqn:Hnext.
    pose proof (IH next next_elem out Hnext) as Hsettled.
    destruct (mergeable MEMORY_MAP elem next_elem) eqn:Hmerge.
    + injection Hrun as <- <-.
      destruct out as [|m out]; [reflexivity|].
      cbn [merge_backward] in *.
      destruct (merge_backward MEMORY_MAP m out) as [m' o] eqn:Hm.
      destruct (merge_backward_keeps MEMORY_MAP out m m' o Hm)
        as [_ [_ [_ [Hlen _]]]].
      destruct (mergeable MEMORY_MAP next_elem m') eqn:Hnm.
      * injection Hsettled as _ Ho. subst o. cbn [length] in Hlen. lia.
      * injection Hsettled as Hm' Ho. subst m' o.
        apply mergeable_spec in Hmerge.
        destruct Hmerge as [Htype [Hincl Haddr]].
        replace (mergeable MEMORY_MAP
                   (Image.mkSegment (Image.addr elem)
                      (Image.data elem ++ Image.data next_elem)
                      (Image.file_offs elem) (Image.include_in_checksum elem)) m)
          with (mergeable MEMORY_MAP next_elem m); [now rewrite Hnm|].
        unfold mergeable. cbn [Image.addr Image.data Image.include_in_checksum].
        rewrite <- Hincl.
        rewrite (memory_type_by_addr MEMORY_MAP
                   (Image.mkSegment (Image.addr elem)
                      (Image.data elem ++ Image.data next_elem)
                      (Image.file_offs elem) (Image.include_in_checksum elem))
                   elem eq_refl), Htype.
        do 2 f_equal. unfold len. rewrite length_app. unfold len in Haddr. lia.
    + injection Hrun as <- <-.
      cbn [merge_backward]. rewrite Hsettled, Hmerge. reflexivity.
Qed.

End SegmentFacts.

(** X16. [merge_adjacent_segments] changes nothing in what the segments
    load: the bytes and the addresses they go to are the same, in the
    same order, and so is the checksum of the image. It never adds a
    segment, and merging once more changes nothing. *)
Theorem merge_adjacent_segments_keeps_memory (MEMORY_MAP : list (Z * Z * string))
    (segments : list Image.ImageSegment) :
  let merged := ImageSave.merge_adjacent_segments MEMORY_MAP segments in
  flat_map ImageSave.placed merged = flat_map ImageSave.placed segments
  /\ (forall seed,
        ImageSave.checksum_segments merged seed
        = ImageSave.checksum_segments segments seed)
  /\ (length merged <= length segments)%nat
  /\ ImageSave.merge_adjacent_segments MEMORY_MAP merged = merged.
Proof.
  destruct segments as [|first later]; cbn zeta.
  - repeat split. cbn. lia.
  - destruct (ImageSave.merge_backward MEMORY_MAP first later)
      as [first' out] eqn:Hrun.
    assert (Hmerged : ImageSave.merge_adjacent_segments MEMORY_MAP (first :: later)
                      = first' :: out)
      by (unfold ImageSave.merge_adjacent_segments; now rewrite Hrun).
    rewrite Hmerged.
    destruct (SegmentFacts.merge_backward_keeps MEMORY_MAP later first first' out Hrun)
      as [_ [_ [_ [Hlen [Hplaced Hsum]]]]].
    split; [exact Hplaced|]. split; [exact Hsum|].
    split; [cbn [length]; lia|].
    unfold ImageSave.merge_adjacent_segments.
    now rewrite (SegmentFacts.merge_backward_settled MEMORY_MAP later first first' out Hrun).
Qed.

Example merge_adjacent_segments_example :
  ImageSave.merge_adjacent_segments ImageSave.ESP8266_MEMORY_MAP
    [Image.new_ImageSegment 0x40100000 [1; 2; 3; 4] None;
     Image.new_ImageSegment 0x40100004 [5; 6; 7; 8] None;
     Image.new_ImageSegment 0x3FFE8000 [9; 9; 9; 9] None;
     Image.new_ImageSegment 0x3FFE8008 [7; 7; 7; 7] None]
  = [Image.new_ImageSegment 0x40100000 [1; 2; 3; 4; 5; 6; 7; 8] None;
     Image.new_ImageSegment 0x3FFE8000 [9; 9; 9; 9] None;
     Image.new_ImageSegment 0x3FFE8008 [7; 7; 7; 7] None].
Proof. reflexivity. Qed.

(** X17. [split_image] cuts a segment in two without moving a byte: the
    new segment holds the first [split_len] bytes at the old address,
    the segment itself keeps the rest at the address [split_len] further
    on, and both lose their file offset. When the two parts lie in the
    same kind of memory, [merge_adjacent_segments] joins them again. *)
Theorem split_image_keeps_memory (self : Image.ImageSegment) (split_len : Z) :
  0 <= split_len <= len (Image.data self) ->
  let result := fst (ImageSave.split_image self split_len) in
  let rest := snd (ImageSave.split_image self split_len) in
  ImageSave.placed result ++ ImageSave.placed rest = ImageSave.placed self
  /\ Image.addr result = Image.addr self
  /\ len (Image.data result) = split_len
  /\ Image.addr rest = Image.addr self + split_len
  /\ Image.file_offs result = None
  /\ Image.file_offs rest = None
  /\ forall MEMORY_MAP,
       ImageSave.get_memory_type MEMORY_MAP result
       = ImageSave.get_memory_type MEMORY_MAP rest ->
       ImageSave.merge_adjacent_segments MEMORY_MAP [result; rest]
       = [Image.mkSegment (Image.addr self) (Image.data self) None
            (Image.include_in_checksum self)].
Proof.
  intros Hlen. cbn zeta. unfold ImageSave.split_image. cbn [fst snd].
  assert (Hfirst : len (firstn (Z.to_nat split_len) (Image.data self)) = split_len).
  { unfold len in *. rewrite length_firstn. lia. }
  split; [|split; [|split; [|split; [|split; [|split]]]]]; try reflexivity.
  - unfold ImageSave.placed. cbn [Image.addr Image.data].
    rewrite <- (firstn_skipn (Z.to_nat split_len) (Image.data self)) at 3.
    now rewrite SegmentFacts.placed_from_app, Hfirst.
  - exact Hfirst.
  - intros MEMORY_MAP Htype.
    unfold ImageSave.merge_adjacent_segments. cbn [ImageSave.merge_backward].
    replace (ImageSave.mergeable MEMORY_MAP _ _) with true.
    + cbn [Image.addr Image.data Image.file_offs Image.include_in_checksum].
      now rewrite firstn_skipn.
    + symmetry. apply SegmentFacts.mergeable_spec.
      cbn [Image.addr Image.data Image.include_in_checksum].
      split; [exact Htype|]. split; [reflexivity|]. now rewrite Hfirst.
Qed.

Lemma split_image_keeps_memory_witness :
  let self := Image.new_ImageSegment 0x40100000 [1; 2; 3; 4; 5; 6; 7; 8] (Some 8) in
  let result := fst (ImageSave.split_image self 4) in
  let rest := snd (ImageSave.split_image self 4) in
  ImageSave.placed result ++ ImageSave.placed rest = ImageSave.placed self
  /\ Image.addr result = Image.addr self
  /\ len (Image.data result) = 4
  /\ Image.addr rest = Image.addr self + 4
  /\ Image.file_offs result = None
  /\ Image.file_offs rest = None
  /\ forall MEMORY_MAP,
       ImageSave.get_memory_type MEMORY_MAP result
       = ImageSave.get_memory_type MEMORY_MAP rest ->
       ImageSave.merge_adjacent_segments MEMORY_MAP [result; rest]
       = [Image.mkSegment (Image.addr self) (Image.data self) None
            (Image.include_in_checksum self)].
Proof.
  apply (split_image_keeps_memory
           (Image.new_ImageSegment 0x40100000 [1; 2; 3; 4; 5; 6; 7; 8] (Some 8)) 4).
  cbn. lia.
Defined.

(* ------------------------------------------------------------------ *)
(** ** Saving an ESP8266 image and loading it again *)

Module RoundTrip.
Import ImageSave.

(** The bytes of a segment in an image file. *)

Lemma write_at_end (b : bytes) (f : out_file) :
  at_end f ->
  write b f = (inr tt, mkOut (out_buf f ++ b) (length (out_buf f ++ b))).
Proof.
  unfold at_end, write. intros ->.
  rewrite Nat.sub_diag. cbn [repeat]. rewrite app_nil_r.
  rewrite firstn_all, skipn_all2 by lia.
  now rewrite app_nil_r, length_app.
Qed.

Lemma write_behind_end (b buf : bytes) (pos : nat) :
  (length buf <= pos)%nat ->
  write b (mkOut buf pos)
  = (inr tt,
     mkOut (buf ++ repeat 0 (pos - length buf) ++ b)
           (length (buf ++ repeat 0 (pos - length buf) ++ b))).
Proof.
  intros Hpos. unfold write. cbn [out_buf out_pos].
  assert (Hfilled : length (buf ++ repeat 0 (pos - length buf)) = pos)
    by (rewrite length_app, repeat_length; lia).
  rewrite <- Hfilled at 1. rewrite firstn_all.
  rewrite skipn_all2 by lia.
  rewrite app_nil_r, <- app_assoc. f_equal. f_equal.
  rewrite !length_app, repeat_length. lia.
Qed.

Lemma checksum_byte (data : bytes) (state : Z) :
  Forall (fun b => 0 <= b < 256) data ->
  0 <= state < 256 ->
  0 <= checksum data state < 256.
Proof.
  revert state. induction data as [|b data IH]; intros state Hall Hstate;
    [exact Hstate|].
  inversion Hall as [|? ? Hb Hrest]; subst. cbn [checksum]. apply IH; [exact Hrest|].
  assert (Hnonneg : 0 <= Z.lxor state b) by (apply Z.lxor_nonneg; lia).
  split; [exact Hnonneg|].
  change 256 with (2 ^ 8). apply below_pow2; [lia|exact Hnonneg|].
  intros i Hi. rewrite Z.lxor_spec.
  rewrite (testbit_above state 8 i), (testbit_above b 8 i) by (cbn; lia).
  reflexivity.
Qed.

Section Saving.

Variable self : saved_image.
Hypothesis Hoffset : elf_sha256_offset self < 8.

Lemma save_segment_at_end (s : Image.ImageSegment) (chk : Z) (f : out_file) :
  at_end f ->
  (8 <= length (out_buf f))%nat ->
  0 <= Image.addr s < 2 ^ 32 ->
  len (Image.data s) < 2 ^ 32 ->
  save_segment self s chk f
  = (inr (checksum (Image.data s) chk),
     mkOut (out_buf f ++ seg_bytes s) (length (out_buf f ++ seg_bytes s))).
Proof.
  intros Hend Hlong Haddr Hlen.
  assert (Hlen0 : 0 <= len (Image.data s)) by (unfold len; lia).
  unfold save_segment, maybe_patch_segment_data.
  unfold bindW at 1. unfold bindW at 1. unfold tell at 1.
  replace ((Z.of_nat (out_pos f) <=? elf_sha256_offset self)
           && (elf_sha256_offset self
               <? Z.of_nat (out_pos f) + len (Image.data s)))
    with false.
  2:{ symmetry. apply andb_false_iff. left. apply Z.leb_gt.
      rewrite Hend. lia. }
  unfold retW at 1.
  rewrite pack_I_ok by exact Haddr. rewrite pack_I_ok by lia.
  cbn [pack]. rewrite app_nil_r. cbn [liftW].
  unfold bindW at 1. unfold retW at 1.
  unfold bindW at 1. rewrite (write_at_end _ f Hend).
  unfold bindW at 1. rewrite write_at_end by reflexivity.
  cbn [out_buf]. unfold retW, seg_bytes. now rewrite <- !app_assoc.
Qed.

Lemma save_segments_at_end (segments : list Image.ImageSegment) :
  forall (chk : Z) (f : out_file),
    at_end f ->
    (8 <= length (out_buf f))%nat ->
    Forall (fun s => 0 <= Image.addr s < 2 ^ 32 /\ len (Image.data s) < 2 ^ 32)
           segments ->
    save_segments self segments chk f
    = (inr (fold_left (fun c s => checksum (Image.data s) c) segments chk),
       mkOut (out_buf f ++ concat (map seg_bytes segments))
             (length (out_buf f ++ concat (map seg_bytes segments)))).
Proof.
  induction segments as [|s segments IH]; intros chk f Hend Hlong Hall.
  - cbn. rewrite app_nil_r. unfold retW. unfold at_end in Hend.
    rewrite <- Hend. now destruct f.
  - inversion Hall as [|? ? [Haddr Hlen] Hrest]; subst.
    cbn [save_segments]. unfold bindW.
    rewrite save_segment_at_end by assumption.
    rewrite IH; [| reflexivity | cbn [out_buf]; rewrite length_app; lia | exact Hrest].
    cbn [out_buf map concat fold_left]. now rewrite <- !app_assoc.
Qed.

End Saving.

Lemma le_bytes_length (n : nat) (v : Z) : length (le_bytes n v) = n.
Proof.
  revert v. induction n as [|n IH]; intros v; [reflexivity|].
  cbn [le_bytes length]. now rewrite IH.
Qed.

Lemma le_value_le_bytes (n : nat) :
  forall v, 0 <= v < 256 ^ Z.of_nat n -> le_value (le_bytes n v) = v.
Proof.
  induction n as [|n IH]; intros v Hv.
  - cbn in *. lia.
  - cbn [le_bytes le_value].
    rewrite Nat2Z.inj_succ, Z.pow_succ_r in Hv by lia.
    rewrite IH.
    + pose proof (Z.div_mod v 256 ltac:(lia)). lia.
    + split; [apply Z.div_pos; lia|apply Z.div_lt_upper_bound; lia].
Qed.

(** Reading the next bytes of a file. *)
Lemma read_exact (pre x post : bytes) (pr : list message) :
  Image.read (len x) (Image.mkFile (pre ++ x ++ post) (length pre) pr)
  = (inr x, Image.mkFile (pre ++ x ++ post) (length pre + length x) pr).
Proof.
  unfold Image.read. cbn [Image.buf Image.pos Image.printed].
  rewrite skipn_app, skipn_all, Nat.sub_diag. cbn [skipn app].
  assert (Hmin : Z.to_nat (Z.min (len x) (len (x ++ post))) = length x).
  { unfold len. rewrite length_app. lia. }
  rewrite Hmin, firstn_app, firstn_all, Nat.sub_diag. cbn [firstn].
  now rewrite app_nil_r.
Qed.

Lemma new_segment_padded (s : Image.ImageSegment) (offs : option Z) :
  padded_segment s ->
  Image.new_ImageSegment (Image.addr s) (Image.data s) offs
  = Image.mkSegment (Image.addr s) (Image.data s) offs true.
Proof.
  intros Hpad. unfold Image.new_ImageSegment. f_equal.
  destruct (Image.addr s =? 0) eqn:Hzero; cbn [negb]; [reflexivity|].
  apply Z.eqb_neq in Hzero. unfold pad_to.
  change (4 =? 0) with false. now rewrite (Hpad Hzero).
Qed.

Lemma split_fields_words (a b : bytes) :
  length a = 4%nat -> length b = 4%nat ->
  Image.split_fields [4; 4]%nat (a ++ b) = [le_value a; le_value b].
Proof.
  intros Ha Hb.
  destruct a as [|a0 [|a1 [|a2 [|a3 [|]]]]]; try discriminate.
  destruct b as [|b0 [|b1 [|b2 [|b3 [|]]]]]; try discriminate.
  reflexivity.
Qed.

(** Loading one segment from where it was saved. *)
Lemma load_segment_saved (s : Image.ImageSegment) (pre post : bytes)
    (pr : list message) :
  0 <= Image.addr s < 2 ^ 32 ->
  len (Image.data s) < 2 ^ 32 ->
  padded_segment s ->
  exists pr',
    Image.load_segment false
      (Image.mkFile (pre ++ seg_bytes s ++ post) (length pre) pr)
    = (inr (Image.mkSegment (Image.addr s) (Image.data s)
              (Some (Z.of_nat (length pre))) true),
       Image.mkFile (pre ++ seg_bytes s ++ post)
         (length pre + length (seg_bytes s)) pr').
Proof.
  intros Haddr Hlen Hpad.
  assert (Hlen0 : 0 <= len (Image.data s)) by (unfold len; lia).
  set (header := le_bytes 4 (Image.addr s) ++ le_bytes 4 (len (Image.data s))).
  assert (Hheader : length header = 8%nat)
    by (unfold header; now rewrite length_app, !le_bytes_length).
  assert (Hbuf : pre ++ seg_bytes s ++ post
                 = pre ++ header ++ (Image.data s ++ post))
    by (unfold seg_bytes, header; now rewrite <- !app_assoc).
  assert (Hbuf2 : pre ++ seg_bytes s ++ post
                  = (pre ++ header) ++ Image.data s ++ post)
    by (rewrite Hbuf; now rewrite <- !app_assoc).
  assert (Hfields : Image.split_fields [4; 4]%nat header
                    = [Image.addr s; len (Image.data s)]).
  { unfold header.
    rewrite split_fields_words by apply le_bytes_length.
    rewrite !le_value_le_bytes by (cbn; lia). reflexivity. }
  assert (Hwarn : exists pr',
            Image.warn_if_unusual_segment false (Image.addr s)
              (len (Image.data s)) false
              (Image.mkFile (pre ++ seg_bytes s ++ post) (length pre + 8) pr)
            = (inr tt, Image.mkFile (pre ++ seg_bytes s ++ post)
                         (length pre + 8) pr')).
  { unfold Image.warn_if_unusual_segment.
    destruct (negb false && _); eexists; reflexivity. }
  destruct Hwarn as [pr' Hwarn].
  exists pr'.
  unfold Image.load_segment.
  unfold bind at 1. unfold Image.tell at 1.
  unfold bind at 1. rewrite Hbuf at 1.
  change 8 with (Z.of_nat 8). rewrite <- Hheader at 1. fold (len header).
  rewrite read_exact. rewrite <- Hbuf.
  unfold bind at 1. unfold Image.unpack at 1.
  rewrite Hheader. cbn [fold_right Nat.add Nat.eqb]. unfold ret at 1.
  rewrite Hfields. unfold Image.field. cbn [nth].
  unfold bind at 1. rewrite Hwarn.
  unfold bind at 1. rewrite Hbuf2 at 1.
  replace (length pre + 8)%nat with (length (pre ++ header))
    by (rewrite length_app; lia).
  rewrite read_exact. rewrite <- Hbuf2.
  replace (len (Image.data s) <? len (Image.data s)) with false
    by (symmetry; apply Z.ltb_irrefl).
  unfold ret. cbn [Image.pos]. rewrite new_segment_padded by exact Hpad.
  f_equal. f_equal. unfold seg_bytes, header.
  rewrite !length_app, !le_bytes_length. lia.
Qed.

Lemma load_segments_saved (segments : list Image.ImageSegment) :
  forall (pre post : bytes) (pr : list message),
    Forall (fun s => 0 <= Image.addr s < 2 ^ 32
                     /\ len (Image.data s) < 2 ^ 32
                     /\ padded_segment s) segments ->
    exists loaded pr',
      Image.load_segments false (length segments)
        (Image.mkFile (pre ++ concat (map seg_bytes segments) ++ post)
                      (length pre) pr)
      = (inr loaded,
         Image.mkFile (pre ++ concat (map seg_bytes segments) ++ post)
           (length pre + length (concat (map seg_bytes segments))) pr')
      /\ map Image.addr loaded = map Image.addr segments
      /\ map Image.data loaded = map Image.data segments
      /\ Forall (fun s => Image.include_in_checksum s = true) loaded.
Proof.
  induction segments as [|s segments IH]; intros pre post pr Hall.
  - exists [], pr. cbn. rewrite Nat.add_0_r. repeat split. constructor.
  - inversion Hall as [|? ? [Haddr [Hlen Hpad]] Hrest]; subst.
    cbn [map concat length Image.load_segments].
    rewrite <- app_assoc.
    destruct (load_segment_saved s pre (concat (map seg_bytes segments) ++ post)
                pr Haddr Hlen Hpad) as [pr1 Hone].
    unfold bind at 1. rewrite Hone.
    replace (length pre + length (seg_bytes s))%nat
      with (length (pre ++ seg_bytes s)) by now rewrite length_app.
    replace (pre ++ seg_bytes s ++ concat (map seg_bytes segments) ++ post)
      with ((pre ++ seg_bytes s) ++ concat (map seg_bytes segments) ++ post)
      by now rewrite <- app_assoc.
    destruct (IH (pre ++ seg_bytes s) post pr1 Hrest)
      as [loaded [pr' [Hrun [Haddrs [Hdatas Hincl]]]]].
    eexists _, pr'. unfold bind at 1. rewrite Hrun. unfold ret.
    split; [|split; [|split]].
    + f_equal. f_equal. rewrite !length_app. lia.
    + cbn [map Image.addr]. now rewrite Haddrs.
    + cbn [map Image.data]. now rewrite Hdatas.
    + constructor; [reflexivity|exact Hincl].
Qed.

(** The checksum byte is found where [append_checksum] put it. *)
Lemma read_checksum_saved (pre : bytes) (chk : Z) (pr : list message) :
  let buf := pre ++ repeat 0 (15 - length pre mod 16) ++ [chk] in
  Image.read_checksum (Image.mkFile buf (length pre) pr)
  = (inr chk, Image.mkFile buf (length buf) pr).
Proof.
  cbn zeta.
  unfold Image.read_checksum, Image.align_file_position.
  unfold bind at 1. unfold bind at 1. unfold Image.tell at 1.
  unfold Image.seek_cur, modify. cbn [Image.buf Image.pos Image.printed].
  assert (Hmod : Z.of_nat (length pre) mod 16 = Z.of_nat (length pre mod 16))
    by (change 16 with (Z.of_nat 16); now rewrite Nat2Z.inj_mod).
  pose proof (Nat.mod_upper_bound (length pre) 16 ltac:(lia)) as Hlt.
  replace (Z.to_nat (16 - 1 - Z.of_nat (length pre) mod 16))
    with (15 - length pre mod 16)%nat by (rewrite Hmod; lia).
  replace (length pre + (15 - length pre mod 16))%nat
    with (length (pre ++ repeat 0 (15 - length pre mod 16)))
    by (rewrite length_app, repeat_length; lia).
  replace (pre ++ repeat 0 (15 - length pre mod 16) ++ [chk])
    with ((pre ++ repeat 0 (15 - length pre mod 16)) ++ [chk] ++ [])
    by now rewrite <- app_assoc.
  unfold bind at 1. change 1 with (len [chk]). rewrite read_exact.
  unfold ret. do 2 f_equal. rewrite !length_app. cbn [length]. lia.
Qed.

End RoundTrip.

Lemma checksum_segments_included (segments : list Image.ImageSegment) :
  forall seed,
    Forall (fun s => Image.include_in_checksum s = true) segments ->
    ImageSave.checksum_segments segments seed
    = fold_left (fun c d => checksum d c) (map Image.data segments) seed.
Proof.
  induction segments as [|s segments IH]; intros seed Hall; [reflexivity|].
  inversion Hall as [|? ? Hs Hrest]; subst.
  cbn [ImageSave.checksum_segments map fold_left]. rewrite Hs. now apply IH.
Qed.

Lemma fold_checksum_data (segments : list Image.ImageSegment) :
  forall seed,
    fold_left (fun c s => checksum (Image.data s) c) segments seed
    = fold_left (fun c d => checksum d c) (map Image.data segments) seed.
Proof.
  induction segments as [|s segments IH]; intros seed; [reflexivity|].
  cbn [map fold_left]. apply IH.
Qed.

Lemma fold_checksum_byte (datas : list bytes) :
  forall seed,
    Forall (Forall (fun b => 0 <= b < 256)) datas ->
    0 <= seed < 256 ->
    0 <= fold_left (fun c d => checksum d c) datas seed < 256.
Proof.
  induction datas as [|d datas IH]; intros seed Hall Hseed; [exact Hseed|].
  inversion Hall as [|? ? Hd Hrest]; subst. cbn [fold_left].
  apply IH; [exact Hrest|]. now apply RoundTrip.checksum_byte.
Qed.

Lemma split_fields_header (magic count mode freq : Z) (entry : bytes) :
  length entry = 4%nat ->
  Image.split_fields [1; 1; 1; 1; 4]%nat ([magic; count; mode; freq] ++ entry)
  = [magic; count; mode; freq; le_value entry].
Proof.
  intros Hentry.
  destruct entry as [|e0 [|e1 [|e2 [|e3 [|]]]]]; try discriminate.
  cbn. rewrite ?Z.mul_0_r, ?Z.add_0_r. reflexivity.
Qed.

(** X18. An ESP8266 image that [save] writes is the image that
    [ESP8266ROMFirmwareImage] loads from the file. For an image with at
    most one IROM segment, no more than 16 other segments, header values
    and segment addresses and sizes that fit their fields, segment data
    made of bytes and padded as the constructor of a segment pads it,
    and no ELF digest to patch in: [save] succeeds and writes a file of a
    multiple of 16 bytes; loading the file succeeds and gives the
    segments outside IROM with the same addresses and data in the same
    order, the same flash mode, flash size and frequency byte and entry
    point, and a stored checksum equal to the checksum calculated from
    the loaded segments. *)
Theorem esp8266_image_save_load_round_trip (self : ImageSave.saved_image)
    (irom_segment : option Image.ImageSegment)
    (normal_segments : list Image.ImageSegment) :
  let image := ImageSave.image self in
  ImageSave.get_irom_segment self = inr irom_segment ->
  ImageSave.get_non_irom_segments self = inr normal_segments ->
  (length normal_segments <= 16)%nat ->
  Forall (fun s => 0 <= Image.addr s < 2 ^ 32
                   /\ len (Image.data s) < 2 ^ 32
                   /\ ImageSave.padded_segment s
                   /\ Forall (fun b => 0 <= b < 256) (Image.data s))
         normal_segments ->
  0 <= Image.flash_mode image < 256 ->
  0 <= Image.flash_size_freq image < 256 ->
  0 <= Image.entrypoint image < 2 ^ 32 ->
  ImageSave.elf_sha256_offset self < 8 ->
  exists file loaded f',
    ImageSave.save self
    = inr (match irom_segment with
           | Some s => Some (Image.addr s - ImageSave.IROM_MAP_START, Image.data s)
           | None => None
           end, file)
    /\ len file mod 16 = 0
    /\ Image.ESP8266ROMFirmwareImage (Image.BytesIO file) = (inr loaded, f')
    /\ map Image.addr (Image.segments loaded) = map Image.addr normal_segments
    /\ map Image.data (Image.segments loaded) = map Image.data normal_segments
    /\ Image.flash_mode loaded = Image.flash_mode image
    /\ Image.flash_size_freq loaded = Image.flash_size_freq image
    /\ Image.entrypoint loaded = Image.entrypoint image
    /\ Image.image_checksum loaded = ImageSave.calculate_checksum loaded.
Proof.
  intros image Hirom Hnormal Hcount Hall Hmode Hfreq Hentry Hoffset.
  set (count := Z.of_nat (length normal_segments)).
  set (header := [ESP_IMAGE_MAGIC; count; Image.flash_mode image;
                  Image.flash_size_freq image]
                 ++ le_bytes 4 (Image.entrypoint image)).
  set (body := concat (map seg_bytes normal_segments)).
  set (chk := fold_left (fun c s => checksum (Image.data s) c) normal_segments
                ESP_CHECKSUM_MAGIC).
  set (gap := (15 - length (header ++ body) mod 16)%nat).
  set (file := header ++ body ++ repeat 0 gap ++ [chk]).
  assert (Hheader : length header = 8%nat)
    by (unfold header; rewrite length_app, RoundTrip.le_bytes_length; reflexivity).
  assert (Hranges : Forall (fun s => 0 <= Image.addr s < 2 ^ 32
                                     /\ len (Image.data s) < 2 ^ 32)
                           normal_segments)
    by (eapply Forall_impl; [|exact Hall]; cbn; tauto).
  assert (Hpadded : Forall (fun s => 0 <= Image.addr s < 2 ^ 32
                                     /\ len (Image.data s) < 2 ^ 32
                                     /\ ImageSave.padded_segment s)
                           normal_segments)
    by (eapply Forall_impl; [|exact Hall]; cbn; tauto).
  assert (Hchk : 0 <= chk < 256).
  { unfold chk. rewrite fold_checksum_data. apply fold_checksum_byte.
    - apply Forall_map. eapply Forall_impl; [|exact Hall]. cbn. tauto.
    - unfold ESP_CHECKSUM_MAGIC. lia. }
  (* the file that is written *)
  assert (Hpack : pack [B ESP_IMAGE_MAGIC; B count; B (Image.flash_mode image);
                        B (Image.flash_size_freq image);
                        I (Image.entrypoint image)]
                  = inr header).
  { unfold pack, B, I, header.
    replace ((0 <=? ESP_IMAGE_MAGIC) && (ESP_IMAGE_MAGIC <? 256 ^ Z.of_nat 1))
      with true by reflexivity.
    replace ((0 <=? count) && (count <? 256 ^ Z.of_nat 1)) with true
      by (symmetry; apply andb_true_iff; split;
          [apply Z.leb_le|apply Z.ltb_lt]; unfold count; cbn; lia).
    replace ((0 <=? Image.flash_mode image)
             && (Image.flash_mode image <? 256 ^ Z.of_nat 1)) with true
      by (symmetry; apply andb_true_iff; split;
          [apply Z.leb_le|apply Z.ltb_lt]; cbn; lia).
    replace ((0 <=? Image.flash_size_freq image)
             && (Image.flash_size_freq image <? 256 ^ Z.of_nat 1)) with true
      by (symmetry; apply andb_true_iff; split;
          [apply Z.leb_le|apply Z.ltb_lt]; cbn; lia).
    replace ((0 <=? Image.entrypoint image)
             && (Image.entrypoint image <? 256 ^ Z.of_nat 4)) with true
      by (symmetry; apply andb_true_iff; split;
          [apply Z.leb_le|apply Z.ltb_lt]; cbn; lia).
    rewrite app_nil_r. cbn [le_bytes app].
    rewrite (Z.mod_small count), (Z.mod_small (Image.flash_mode image)),
      (Z.mod_small (Image.flash_size_freq image)) by (unfold count; lia).
    reflexivity. }
  assert (Hwritten :
    ImageSave.bindW (ImageSave.write_common_header self normal_segments) (fun _ =>
    ImageSave.bindW (ImageSave.save_segments self normal_segments ESP_CHECKSUM_MAGIC)
                    ImageSave.append_checksum) (ImageSave.mkOut [] 0)
    = (inr tt, ImageSave.mkOut file (length file))).
  { unfold ImageSave.write_common_header. fold image. fold count.
    rewrite Hpack. cbn [ImageSave.liftW].
    unfold ImageSave.bindW at 1. unfold ImageSave.bindW at 1.
    unfold ImageSave.retW at 1.
    rewrite RoundTrip.write_at_end by reflexivity. cbn [ImageSave.out_buf app].
    unfold ImageSave.bindW at 1.
    rewrite (RoundTrip.save_segments_at_end self Hoffset)
      by (try reflexivity; try exact Hranges; cbn [ImageSave.out_buf]; lia).
    cbn [ImageSave.out_buf]. fold body. fold chk.
    unfold ImageSave.append_checksum, ImageSave.align_file_position.
    unfold ImageSave.bindW at 1. unfold ImageSave.bindW at 1.
    unfold ImageSave.tell at 1. cbn [ImageSave.out_pos].
    change (16 =? 0) with false. cbn iota.
    unfold ImageSave.seek_cur at 1. cbn [ImageSave.out_buf ImageSave.out_pos].
    assert (Hmod : Z.of_nat (length (header ++ body)) mod 16
                   = Z.of_nat (length (header ++ body) mod 16))
      by (change 16 with (Z.of_nat 16); now rewrite Nat2Z.inj_mod).
    pose proof (Nat.mod_upper_bound (length (header ++ body)) 16 ltac:(lia)) as Hlt.
    replace (Z.to_nat (16 - 1 - Z.of_nat (length (header ++ body)) mod 16))
      with gap by (unfold gap; rewrite Hmod; lia).
    unfold pack, B.
    replace ((0 <=? chk) && (chk <? 256 ^ Z.of_nat 1)) with true
      by (symmetry; apply andb_true_iff; split;
          [apply Z.leb_le|apply Z.ltb_lt]; cbn; lia).
    cbn [le_bytes app ImageSave.liftW]. rewrite (Z.mod_small chk) by lia.
    unfold ImageSave.bindW at 1. unfold ImageSave.retW at 1.
    rewrite RoundTrip.write_behind_end by lia.
    replace (length (header ++ body) + gap - length (header ++ body))%nat
      with gap by lia.
    unfold file. now rewrite <- !app_assoc. }
  assert (Hfile_len : len file mod 16 = 0).
  { pose proof (Nat.mod_upper_bound (length (header ++ body)) 16 ltac:(lia)) as Hlt.
    pose proof (Nat.div_mod_eq (length (header ++ body)) 16) as Hdm.
    assert (Hlength : length file = ((length (header ++ body) / 16 + 1) * 16)%nat).
    { unfold file.
      replace (header ++ body ++ repeat 0 gap ++ [chk])
        with ((header ++ body) ++ repeat 0 gap ++ [chk]) by now rewrite <- app_assoc.
      rewrite (length_app (header ++ body)), (length_app (repeat 0 gap)),
        repeat_length.
      cbn [length]. unfold gap. lia. }
    unfold len. rewrite Hlength, Nat2Z.inj_mul. apply Z.mod_mul. lia. }
  (* loading it *)
  destruct (RoundTrip.load_segments_saved normal_segments header
              (repeat 0 gap ++ [chk]) [] Hpadded)
    as [loaded [pr' [Hload [Haddrs [Hdatas Hincl]]]]].
  fold body in Hload. fold file in Hload.
  assert (Hloaded_count : length loaded = length normal_segments)
    by (rewrite <- (length_map Image.addr loaded), Haddrs; apply length_map).
  set (result := Image.mkImage loaded (Image.entrypoint image)
                   (Image.flash_mode image) (Image.flash_size_freq image) chk None).
  assert (Hrun : Image.ESP8266ROMFirmwareImage (Image.BytesIO file)
                 = (inr result, Image.mkFile file (length file) pr')).
  { unfold Image.ESP8266ROMFirmwareImage, Image.load_common_header, Image.BytesIO.
    unfold bind at 1. unfold bind at 1. unfold bind at 1.
    change 8 with (Z.of_nat 8). rewrite <- Hheader. fold (len header).
    change (Image.mkFile file 0 []) with (Image.mkFile file (length (@nil Z)) []).
    change file with ([] ++ header ++ (body ++ repeat 0 gap ++ [chk])) at 1.
    rewrite RoundTrip.read_exact.
    change ([] ++ header ++ (body ++ repeat 0 gap ++ [chk])) with file.
    unfold Image.unpack at 1. rewrite Hheader.
    cbn [fold_right Nat.add Nat.eqb]. unfold ret at 1.
    assert (Hfields : Image.split_fields [1; 1; 1; 1; 4]%nat header
                      = [ESP_IMAGE_MAGIC; count; Image.flash_mode image;
                         Image.flash_size_freq image; Image.entrypoint image]).
    { unfold header.
      rewrite split_fields_header by apply RoundTrip.le_bytes_length.
      now rewrite RoundTrip.le_value_le_bytes by (cbn; lia). }
    rewrite Hfields. unfold Image.field. cbn [nth].
    change (negb (ESP_IMAGE_MAGIC =? ESP_IMAGE_MAGIC)) with false. cbn iota.
    unfold ret at 1. cbn [length Nat.add].
    unfold bind at 1. unfold count. rewrite Nat2Z.id.
    rewrite <- Hheader at 1. rewrite Hload.
    unfold bind at 1.
    replace (length header + length body)%nat with (length (header ++ body))
      by now rewrite length_app.
    change file with (header ++ body ++ repeat 0 gap ++ [chk]).
    replace (header ++ body ++ repeat 0 gap ++ [chk])
      with ((header ++ body) ++ repeat 0 gap ++ [chk]) by now rewrite <- app_assoc.
    unfold gap. rewrite (RoundTrip.read_checksum_saved (header ++ body) chk pr').
    fold gap. fold result.
    unfold bind at 1. unfold Image.lift, Image.verify. cbn [Image.segments result].
    replace (16 <? length loaded)%nat with false
      by (symmetry; apply Nat.ltb_ge; lia).
    reflexivity. }
  exists file, result, (Image.mkFile file (length file) pr').
  split; [|split; [exact Hfile_len|split; [exact Hrun|]]].
  - unfold ImageSave.save. rewrite Hirom, Hnormal, Hwritten. reflexivity.
  - cbn [Image.segments Image.flash_mode Image.flash_size_freq Image.entrypoint
         Image.image_checksum result].
    split; [exact Haddrs|]. split; [exact Hdatas|].
    split; [reflexivity|]. split; [reflexivity|]. split; [reflexivity|].
    unfold ImageSave.calculate_checksum. cbn [Image.segments].
    rewrite checksum_segments_included by exact Hincl.
    change (Image.segments result) with loaded.
    rewrite Hdatas. unfold chk. apply fold_checksum_data.
Qed.

Lemma esp8266_image_save_load_round_trip_witness :
  let iram := Image.new_ImageSegment 0x40100000 [1; 2; 3; 4; 5; 6; 7; 8] None in
  let dram := Image.new_ImageSegment 0x3FFE8000 [9; 10; 11] None in
  let irom := Image.new_ImageSegment 0x40210000 [0xAA; 0xBB; 0xCC; 0xDD] None in
  let self := ImageSave.mkSaved
                (Image.mkImage [iram; irom; dram] 0x40100004 2 0x40 0 None) None 0 in
  exists file loaded f',
    ImageSave.save self
    = inr (Some (0x10000, [0xAA; 0xBB; 0xCC; 0xDD]), file)
    /\ len file mod 16 = 0
    /\ Image.ESP8266ROMFirmwareImage (Image.BytesIO file) = (inr loaded, f')
    /\ map Image.addr (Image.segments loaded) = [0x40100000; 0x3FFE8000]
    /\ map Image.data (Image.segments loaded)
       = [[1; 2; 3; 4; 5; 6; 7; 8]; [9; 10; 11; 0]]
    /\ Image.flash_mode loaded = 2
    /\ Image.flash_size_freq loaded = 0x40
    /\ Image.entrypoint loaded = 0x40100004
    /\ Image.image_checksum loaded = ImageSave.calculate_checksum loaded.
Proof.
  apply (esp8266_image_save_load_round_trip
           (ImageSave.mkSaved
              (Image.mkImage
                 [Image.new_ImageSegment 0x40100000 [1; 2; 3; 4; 5; 6; 7; 8] None;
                  Image.new_ImageSegment 0x40210000 [0xAA; 0xBB; 0xCC; 0xDD] None;
                  Image.new_ImageSegment 0x3FFE8000 [9; 10; 11] None]
                 0x40100004 2 0x40 0 None) None 0)
           (Some (Image.new_ImageSegment 0x40210000 [0xAA; 0xBB; 0xCC; 0xDD] None))
           [Image.new_ImageSegment 0x40100000 [1; 2; 3; 4; 5; 6; 7; 8] None;
            Image.new_ImageSegment 0x3FFE8000 [9; 10; 11] None]).
  - reflexivity.
  - reflexivity.
  - cbn. lia.
  - repeat constructor; cbn; try lia; intros _; reflexivity.
  - cbn. lia.
  - cbn. lia.
  - cbn. lia.
  - cbn. lia.
Defined.

(* ------------------------------------------------------------------ *)
(** ** Address and file pairs *)

Lemma land_lnot_sector (x : Z) :
  Z.land x (Z.lnot (ESPLoader_FLASH_SECTOR_SIZE - 1))
  = ESPLoader_FLASH_SECTOR_SIZE * (x / ESPLoader_FLASH_SECTOR_SIZE).
Proof.
  unfold ESPLoader_FLASH_SECTOR_SIZE.
  change (4096 - 1) with (Z.ones 12).
  rewrite <- Z.ldiff_land, Z.ldiff_ones_r by lia.
  rewrite Z.shiftl_mul_pow2, Z.shiftr_div_pow2 by lia.
  change (2 ^ 12) with 4096. lia.
Qed.

Lemma check_overlap_unfold (end_ : Z) (pair : Z * argfile)
    (rest : list (Z * argfile)) :
  check_overlap end_ (pair :: rest)
  = if ESPLoader_FLASH_SECTOR_SIZE * first_sector pair <? end_
    then Some (DetectedOverlap (fst pair) (name (snd pair)))
    else check_overlap (ESPLoader_FLASH_SECTOR_SIZE * sectors_end pair - 1) rest.
Proof.
  destruct pair as [address f]. cbn [check_overlap fst snd].
  rewrite !land_lnot_sector. reflexivity.
Qed.

Lemma sectors_end_first (pair : Z * argfile) :
  first_sector pair <= sectors_end pair.
Proof.
  unfold first_sector, sectors_end, ESPLoader_FLASH_SECTOR_SIZE.
  apply Z.div_le_mono; [lia|]. unfold len. lia.
Qed.

(** The loop entered at the end of a sector range. *)
Lemma check_overlap_accepts (pairs : list (Z * argfile)) :
  forall sector,
    check_overlap (ESPLoader_FLASH_SECTOR_SIZE * sector - 1) pairs = None
    <-> Forall (fun p => sector <= first_sector p) pairs
        /\ ForallOrdPairs (fun a b => sectors_end a <= first_sector b) pairs.
Proof.
  induction pairs as [|pair pairs IH]; intros sector.
  - cbn. split; [intros _; split; constructor|reflexivity].
  - rewrite check_overlap_unfold.
    pose proof (sectors_end_first pair) as Hpair.
    destruct (Z.ltb_spec (ESPLoader_FLASH_SECTOR_SIZE * first_sector pair)
                (ESPLoader_FLASH_SECTOR_SIZE * sector - 1)) as [Hlt|Hge].
    + split; [discriminate|].
      intros [Hall _]. inversion Hall as [|? ? Hfirst _]; subst.
      unfold ESPLoader_FLASH_SECTOR_SIZE in *. lia.
    + rewrite IH. unfold ESPLoader_FLASH_SECTOR_SIZE in Hge. split.
      * intros [Hall Hord]. split.
        -- constructor; [lia|].
           eapply Forall_impl; [|exact Hall]. cbn. intros p Hp. lia.
        -- constructor; assumption.
      * intros [Hall Hord].
        inversion Hord as [|? ? Hhead Htail]; subst. split; assumption.
Qed.

Lemma insert_by_address_In {A} (x y : Z * A) (l : list (Z * A)) :
  In y (insert_by_address x l) <-> y = x \/ In y l.
Proof.
  induction l as [|z l IH]; cbn [insert_by_address].
  - cbn. intuition congruence.
  - destruct (fst x <=? fst z); cbn [In]; [intuition congruence|].
    rewrite IH. intuition congruence.
Qed.

Lemma sorted_by_address_In {A} (y : Z * A) (l : list (Z * A)) :
  In y (sorted_by_address l) <-> In y l.
Proof.
  unfold sorted_by_address. induction l as [|x l IH]; [reflexivity|].
  cbn [fold_right In]. rewrite insert_by_address_In, IH. intuition congruence.
Qed.

Lemma insert_by_address_length {A} (x : Z * A) (l : list (Z * A)) :
  length (insert_by_address x l) = S (length l).
Proof.
  induction l as [|z l IH]; [reflexivity|].
  cbn [insert_by_address]. destruct (fst x <=? fst z); cbn [length]; congruence.
Qed.

Lemma sorted_by_address_length {A} (l : list (Z * A)) :
  length (sorted_by_address l) = length l.
Proof.
  unfold sorted_by_address. induction l as [|x l IH]; [reflexivity|].
  cbn [fold_right length]. now rewrite insert_by_address_length, IH.
Qed.

(** X19. [AddrFilenamePairAction] accepts a list of address and file
    pairs, none at a negative address, exactly when no two files touch
    the same flash sector: taken in ascending order of address, every
    file starts in a sector behind the last sector of each file before
    it. It then stores the pairs as they were given; otherwise it raises
    "Detected overlap". The sorted list holds the same pairs. *)
Theorem addr_filename_pairs_share_no_sector (pairs : list (Z * argfile)) :
  Forall (fun p => 0 <= fst p) pairs ->
  let sorted := sorted_by_address pairs in
  (AddrFilenamePairAction pairs = inr pairs
   <-> ForallOrdPairs (fun a b => sectors_end a <= first_sector b) sorted)
  /\ ((exists e, AddrFilenamePairAction pairs = inl e)
      <-> ~ ForallOrdPairs (fun a b => sectors_end a <= first_sector b) sorted)
  /\ (forall p, In p sorted <-> In p pairs)
  /\ length sorted = length pairs.
Proof.
  intros Hnonneg sorted.
  assert (Hfirst : Forall (fun p => 0 <= first_sector p) sorted).
  { apply Forall_forall. intros p Hp.
    apply (proj1 (sorted_by_address_In p pairs)) in Hp.
    rewrite Forall_forall in Hnonneg. specialize (Hnonneg p Hp).
    unfold first_sector, ESPLoader_FLASH_SECTOR_SIZE. apply Z.div_pos; lia. }
  assert (Hcheck : check_overlap 0 sorted = None
                   <-> ForallOrdPairs (fun a b => sectors_end a <= first_sector b)
                                      sorted).
  { destruct sorted as [|pair rest] eqn:Hsorted.
    - cbn. split; [intros _; constructor|reflexivity].
    - rewrite check_overlap_unfold.
      inversion Hfirst as [|? ? Hpair Hrest]; subst.
      replace (ESPLoader_FLASH_SECTOR_SIZE * first_sector pair <? 0) with false
        by (symmetry; apply Z.ltb_ge; unfold ESPLoader_FLASH_SECTOR_SIZE; lia).
      rewrite check_overlap_accepts. split.
      + intros [Hall Hord]. constructor; assumption.
      + intros Hord. inversion Hord as [|? ? Hhead Htail]; subst.
        split; assumption. }
  unfold AddrFilenamePairAction. fold sorted.
  split; [|split; [|split]].
  - rewrite <- Hcheck. destruct (check_overlap 0 sorted); split;
      intros; congruence.
  - rewrite <- Hcheck. destruct (check_overlap 0 sorted) as [e|]; split.
    + intros _. discriminate.
    + intros _. now exists e.
    + intros [e He]. discriminate.
    + intros Hne. now contradiction Hne.
  - intros p. apply sorted_by_address_In.
  - apply sorted_by_address_length.
Qed.

Lemma addr_filename_pairs_share_no_sector_witness :
  let pairs := [(0x8000, mkFile "partitions.bin" (repeat 0 3072));
                (0x1000, mkFile "bootloader.bin" (repeat 0 (Z.to_nat 0x4100)))] in
  let sorted := sorted_by_address pairs in
  (AddrFilenamePairAction pairs = inr pairs
   <-> ForallOrdPairs (fun a b => sectors_end a <= first_sector b) sorted)
  /\ ((exists e, AddrFilenamePairAction pairs = inl e)
      <-> ~ ForallOrdPairs (fun a b => sectors_end a <= first_sector b) sorted)
  /\ (forall p, In p sorted <-> In p pairs)
  /\ length sorted = length pairs.
Proof.
  apply (addr_filename_pairs_share_no_sector
           [(0x8000, mkFile "partitions.bin" (repeat 0 3072));
            (0x1000, mkFile "bootloader.bin" (repeat 0 (Z.to_nat 0x4100)))]).
  repeat constructor; cbn; lia.
Defined.

Example addr_filename_pairs_examples :
  AddrFilenamePairAction
    [(0x8000, mkFile "partitions.bin" (repeat 0 3072));
     (0x1000, mkFile "bootloader.bin" (repeat 0 (Z.to_nat 0x4100)))]
  = inr [(0x8000, mkFile "partitions.bin" (repeat 0 3072));
         (0x1000, mkFile "bootloader.bin" (repeat 0 (Z.to_nat 0x4100)))]
  /\ AddrFilenamePairAction
       [(0x1000, mkFile "bootloader.bin" [1; 2; 3; 4]);
        (0x1800, mkFile "partitions.bin" [5; 6; 7; 8])]
     = inl (DetectedOverlap 0x1800 "partitions.bin").
Proof. split; vm_compute; reflexivity. Qed.

(* ------------------------------------------------------------------ *)
(** ** Encrypted writes and the efuses of the ESP32 *)

Module EfuseFacts.

Lemma reads_only_refl (s : session device) : reads_only s s.
Proof.
  split; [reflexivity|]. split; [|auto].
  exists []. split; [now rewrite app_nil_r|constructor].
Qed.

Lemma reads_only_trans (s1 s2 s3 : session device) :
  reads_only s1 s2 -> reads_only s2 s3 -> reads_only s1 s3.
Proof.
  intros [Hc1 [[a1 [Hl1 Ha1]] Ho1]] [Hc2 [[a2 [Hl2 Ha2]] Ho2]].
  split; [congruence|]. split; [|auto].
  exists (a1 ++ a2). split; [rewrite Hl2, Hl1; now rewrite app_assoc|].
  apply Forall_app. split; assumption.
Qed.

Lemma reads_only_print (s : session device) (m : message) :
  reads_only s (mkSession (transport s) (stdout s ++ [m])).
Proof.
  split; [reflexivity|]. split.
  - exists []. split; [now rewrite app_nil_r|constructor].
  - intros m' Hin. cbn [stdout]. apply in_or_app. now left.
Qed.

Section Registers.

Variable regs : Z -> Z.

Lemma answering_reads_only (s s' : session device) :
  answers_from regs (transport s) -> reads_only s s' ->
  answers_from regs (transport s').
Proof.
  unfold answers_from. intros Hs [Hc _] l op data chk.
  rewrite Hc. apply Hs.
Qed.

Lemma read_reg_answers (addr : Z) (s : session device) :
  answers_from regs (transport s) ->
  0 <= addr < 2 ^ 32 ->
  exists s',
    read_reg addr s = (inr (regs addr), s') /\ reads_only s s'.
Proof.
  intros Hs Haddr.
  exists (sent s [Command (Some ESP_READ_REG) (le_bytes 4 addr) 0]). split.
  - unfold read_reg. rewrite pack_I_ok by exact Haddr. cbn [pack].
    rewrite app_nil_r. cbn [lift]. unfold bind at 1. cbn [ret].
    unfold bind, on_transport. cbn [command scripted_transport].
    rewrite (Hs (log (transport s)) (Some ESP_READ_REG) (le_bytes 4 addr) 0).
    rewrite Z.eqb_refl.
    rewrite RoundTrip.le_value_le_bytes by (cbn; lia).
    reflexivity.
  - split; [reflexivity|]. split; [|auto].
    eexists. split; [reflexivity|]. repeat constructor.
Qed.

Lemma key_word_loop_zero (n : nat) :
  forall (i : Z) (s : session device),
    answers_from regs (transport s) ->
    0 <= i ->
    i + Z.of_nat n <= 7 ->
    (forall j, 0 <= j < 7 -> regs (EFUSE_RD_REG_BASE + 4 * (14 + j)) = 0) ->
    exists s',
      key_word_loop n i s = (inr false, s') /\ reads_only s s'.
Proof.
  induction n as [|n IH]; intros i s Hs Hi Hmax Hzero.
  - exists s. split; [reflexivity|apply reads_only_refl].
  - cbn [key_word_loop]. unfold read_efuse.
    destruct (read_reg_answers (EFUSE_RD_REG_BASE + 4 * (14 + i)) s Hs)
      as [s1 [Hread H1]]; [unfold EFUSE_RD_REG_BASE; lia|].
    unfold bind at 1. rewrite Hread, Hzero by lia.
    change (negb (0 =? 0)) with false. cbn iota.
    destruct (IH (i + 1) s1 (answering_reads_only s s1 Hs H1)
                ltac:(lia) ltac:(lia) Hzero) as [s' [Hrun H2]].
    exists s'. split; [exact Hrun|]. now apply reads_only_trans with s1.
Qed.

Lemma key_not_valid (s : session device) :
  answers_from regs (transport s) ->
  Z.land (Z.shiftr (regs EFUSE_RD_REG_BASE) 16) 1 = 0 ->
  (forall j, 0 <= j < 7 -> regs (EFUSE_RD_REG_BASE + 4 * (14 + j)) = 0) ->
  exists s',
    ESP32ROM_is_flash_encryption_key_valid s = (inr false, s')
    /\ reads_only s s'.
Proof.
  intros Hs Hbit Hzero. unfold ESP32ROM_is_flash_encryption_key_valid, read_efuse.
  destruct (read_reg_answers (EFUSE_RD_REG_BASE + 4 * 0) s Hs)
    as [s1 [Hread H1]]; [unfold EFUSE_RD_REG_BASE; lia|].
  unfold bind at 1. rewrite Hread.
  change (EFUSE_RD_REG_BASE + 4 * 0) with EFUSE_RD_REG_BASE. rewrite Hbit.
  change (negb (0 =? 0)) with false. cbn iota.
  destruct (key_word_loop_zero 7 0 s1 (answering_reads_only s s1 Hs H1)
              ltac:(lia) ltac:(lia) Hzero) as [s' [Hrun H2]].
  exists s'. split; [exact Hrun|]. now apply reads_only_trans with s1.
Qed.

Lemma download_encryption_enabled (s : session device) :
  answers_from regs (transport s) ->
  Z.land (regs EFUSE_DIS_DOWNLOAD_MANUAL_ENCRYPT_REG)
         EFUSE_DIS_DOWNLOAD_MANUAL_ENCRYPT = 0 ->
  exists s',
    ESP32ROM_get_encrypted_download_disabled s = (inr false, s')
    /\ reads_only s s'.
Proof.
  intros Hs Hbit. unfold ESP32ROM_get_encrypted_download_disabled.
  destruct (read_reg_answers EFUSE_DIS_DOWNLOAD_MANUAL_ENCRYPT_REG s Hs)
    as [s1 [Hread H1]];
    [unfold EFUSE_DIS_DOWNLOAD_MANUAL_ENCRYPT_REG, EFUSE_RD_REG_BASE; lia|].
  unfold bind at 1. rewrite Hread, Hbit.
  change (negb (0 =? 0)) with false. cbn iota.
  exists s1. split; [reflexivity|exact H1].
Qed.

Lemma flash_crypt_config_read (s : session device) :
  answers_from regs (transport s) ->
  exists v s',
    ESP32ROM_get_flash_crypt_config s = (inr (Some v), s')
    /\ reads_only s s'.
Proof.
  intros Hs. unfold ESP32ROM_get_flash_crypt_config, read_efuse.
  destruct (read_reg_answers (EFUSE_RD_REG_BASE + 4 * 0) s Hs)
    as [s1 [Hread H1]]; [unfold EFUSE_RD_REG_BASE; lia|].
  unfold bind at 1. rewrite Hread.
  destruct (Z.land (Z.shiftr (regs (EFUSE_RD_REG_BASE + 4 * 0)) 19) 1 =? 0).
  - destruct (read_reg_answers (EFUSE_RD_REG_BASE + 4 * 5) s1
                (answering_reads_only s s1 Hs H1))
      as [s2 [Hread5 H2]]; [unfold EFUSE_RD_REG_BASE; lia|].
    unfold bind at 1. rewrite Hread5.
    eexists _, s2. split; [reflexivity|]. now apply reads_only_trans with s1.
  - eexists _, s1. split; [reflexivity|exact H1].
Qed.

End Registers.

Lemma check_alignment_refused (align : Z) (files : list (Z * argfile)) :
  forall s : session device,
    (files <> [] -> align <> 0) ->
    exists s',
      check_alignment align files false s = (inr false, s')
      /\ reads_only s s'.
Proof.
  induction files as [|[address f] files IH]; intros s Halign.
  - exists s. split; [reflexivity|apply reads_only_refl].
  - cbn [check_alignment].
    replace (align =? 0) with false
      by (symmetry; apply Z.eqb_neq; apply Halign; discriminate).
    assert (Hrest : files <> [] -> align <> 0)
      by (intros _; apply Halign; discriminate).
    destruct (negb (address mod align =? 0)).
    + unfold bind at 1. unfold print at 1, modify at 1.
      destruct (IH (mkSession (transport s)
                      (stdout s ++ [NotAlignedForEncryption (name f) address align]))
                  Hrest) as [s' [Hrun H1]].
      exists s'. split; [exact Hrun|].
      eapply reads_only_trans; [apply reads_only_print|exact H1].
    + now apply IH.
Qed.

End EfuseFacts.

(** X20. An encrypted [write_flash] on an ESP32 whose flash encryption
    key is not programmed (the key block is readable and its seven words
    read zero) is refused: unless told to ignore the efuse settings,
    [write_flash] prints "Flash encryption key is not programmed" and
    raises "Can't perform encrypted flash write", having sent nothing to
    the target but READ_REG commands. *)
Theorem esp32_encrypted_write_needs_key (lib : libraries)
    (verify_flash : M (session device) unit) (esp : ESPLoader) (args : Args)
    (regs : Z -> Z) (s : session device) :
  answers_from regs (transport s) ->
  secure_download_mode esp = false ->
  encrypt args = true ->
  ignore_flash_encryption_efuse_setting args = false ->
  (addr_filename args <> [] ->
   exists a, FLASH_ENCRYPTED_WRITE_ALIGN esp = Some a /\ a <> 0) ->
  Z.land (regs EFUSE_DIS_DOWNLOAD_MANUAL_ENCRYPT_REG)
         EFUSE_DIS_DOWNLOAD_MANUAL_ENCRYPT = 0 ->
  Z.land (Z.shiftr (regs EFUSE_RD_REG_BASE) 16) 1 = 0 ->
  (forall j, 0 <= j < 7 -> regs (EFUSE_RD_REG_BASE + 4 * (14 + j)) = 0) ->
  exists s' added,
    write_flash lib (ESP32ROM_collaborators verify_flash) esp args s
    = (inl EncryptedWriteRefused, s')
    /\ log (transport s') = log (transport s) ++ added
    /\ Forall is_read_reg added
    /\ In KeyNotProgrammed (stdout s').
Proof.
  intros Hs Hsecure Hencrypt Hignore Halign Hdownload Hreadable Hkey.
  assert (Hchecks : exists s',
            encryption_checks (ESP32ROM_collaborators verify_flash) esp args s
            = (inl EncryptedWriteRefused, s')
            /\ reads_only s s'
            /\ In KeyNotProgrammed (stdout s')).
  { unfold encryption_checks. rewrite Hsecure, Hencrypt, Hignore.
    cbn [negb get_encrypted_download_disabled get_flash_crypt_config
         is_flash_encryption_key_valid ESP32ROM_collaborators].
    destruct (EfuseFacts.download_encryption_enabled regs s Hs Hdownload)
      as [s1 [Hrun1 H1]].
    pose proof (EfuseFacts.answering_reads_only regs s s1 Hs H1) as Hs1.
    destruct (EfuseFacts.flash_crypt_config_read regs s1 Hs1)
      as [v [s2 [Hrun2 H2]]].
    pose proof (EfuseFacts.answering_reads_only regs s1 s2 Hs1 H2) as Hs2.
    set (s3 := if negb (v =? 0xF)
               then mkSession (transport s2) (stdout s2 ++ [UnexpectedCryptConfig v])
               else s2).
    assert (H3 : reads_only s2 s3)
      by (unfold s3; destruct (negb (v =? 0xF));
          [apply EfuseFacts.reads_only_print|apply EfuseFacts.reads_only_refl]).
    pose proof (EfuseFacts.answering_reads_only regs s2 s3 Hs2 H3) as Hs3.
    destruct (EfuseFacts.key_not_valid regs s3 Hs3 Hreadable Hkey)
      as [s4 [Hrun4 H4]].
    set (s5 := mkSession (transport s4) (stdout s4 ++ [KeyNotProgrammed])).
    assert (Hfiles : addr_filename args <> [] ->
                     match FLASH_ENCRYPTED_WRITE_ALIGN esp with
                     | Some a => a | None => 1 end <> 0).
    { intros Hne. destruct (Halign Hne) as [a [-> Ha]]. exact Ha. }
    destruct (EfuseFacts.check_alignment_refused
                (match FLASH_ENCRYPTED_WRITE_ALIGN esp with
                 | Some a => a | None => 1 end)
                (addr_filename args) s5 Hfiles) as [s6 [Hrun6 H6]].
    exists s6. split; [|split].
    - unfold bind at 1. unfold bind at 1. rewrite Hrun1. cbn iota.
      unfold bind at 1. rewrite Hrun2.
      unfold bind at 1.
      assert (Hconfig :
        (if negb (v =? 0xF)
         then bind (print (UnexpectedCryptConfig v)) (fun _ => ret false)
         else ret true) s2
        = (inr (negb (negb (v =? 0xF))), s3)).
      { unfold s3. destruct (negb (v =? 0xF)); reflexivity. }
      rewrite Hconfig.
      unfold bind at 1. rewrite Hrun4. cbn [negb].
      unfold bind at 1. unfold print at 1, modify at 1. fold s5. cbn [ret].
      destruct (addr_filename args) as [|file files] eqn:Hlist.
      + destruct (FLASH_ENCRYPTED_WRITE_ALIGN esp);
          unfold bind; rewrite Hrun6; reflexivity.
      + destruct (Halign ltac:(discriminate)) as [a [Ha _]].
        rewrite Ha in *. unfold bind. rewrite Hrun6. reflexivity.
    - eapply EfuseFacts.reads_only_trans; [exact H1|].
      eapply EfuseFacts.reads_only_trans; [exact H2|].
      eapply EfuseFacts.reads_only_trans; [exact H3|].
      eapply EfuseFacts.reads_only_trans; [exact H4|].
      eapply EfuseFacts.reads_only_trans; [apply EfuseFacts.reads_only_print|].
      exact H6.
    - destruct H6 as [_ [_ Hout]]. apply Hout. unfold s5. cbn [stdout].
      apply in_or_app. right. now left. }
  destruct Hchecks as [s' [Hrun [[_ [[added [Hlog Hadded]] _]] Hprinted]]].
  exists s', added. split; [|split; [|split]]; try assumption.
  unfold write_flash. rewrite Hencrypt. cbn [orb].
  unfold bind at 1. now rewrite Hrun.
Qed.

Lemma esp32_encrypted_write_needs_key_witness :
  let args := mkArgs (Some false) false false true None
                [(0x10000, mkFile "app.bin" (repeat 0x22 64))]
                "keep" "keep" "keep" false false false in
  let s := mkSession (register_device (fun _ => 0)) [] in
  exists s' added,
    write_flash no_libraries (ESP32ROM_collaborators (ret tt)) esp32_rom args s
    = (inl EncryptedWriteRefused, s')
    /\ log (transport s') = log (transport s) ++ added
    /\ Forall is_read_reg added
    /\ In KeyNotProgrammed (stdout s').
Proof.
  apply (esp32_encrypted_write_needs_key no_libraries (ret tt) esp32_rom
           (mkArgs (Some false) false false true None
              [(0x10000, mkFile "app.bin" (repeat 0x22 64))]
              "keep" "keep" "keep" false false false)
           (fun _ => 0) (mkSession (register_device (fun _ => 0)) [])).
  - intros l op data chk. reflexivity.
  - reflexivity.
  - reflexivity.
  - reflexivity.
  - intros _. exists 32. split; [reflexivity|discriminate].
  - reflexivity.
  - reflexivity.
  - intros j _. reflexivity.
Defined.

(* ------------------------------------------------------------------ *)
(** ** Alignment of the flash segments of an ESP32 image *)

Ltac case_ltb x y :=
  let H := fresh "Hcmp" in
  destruct (x <? y) eqn:H; [apply Z.ltb_lt in H|apply Z.ltb_ge in H].

Ltac case_eqb x y :=
  let H := fresh "Hcmp" in
  destruct (x =? y) eqn:H; [apply Z.eqb_eq in H|apply Z.eqb_neq in H].

Lemma mod_IROM_ALIGN (x r : Z) (q : Z) :
  0 <= r < IROM_ALIGN -> x = IROM_ALIGN * q + r -> x mod IROM_ALIGN = r.
Proof.
  intros Hr ->. symmetry. apply (Z.mod_unique_pos _ _ q r); [exact Hr|reflexivity].
Qed.

(** X21. [get_alignment_data_needed] of [ESP32FirmwareImage.save]: the
    padding it asks for is not negative and below 128 KiB. When it asks
    for padding, a padding segment of that many data bytes (behind its
    own header of 8 bytes) brings the file to a position where the
    condition asserted for the flash segment holds and no more padding
    is asked for. It asks for none when that condition holds already,
    and also when the position is one segment header (8 bytes) short of
    it within the last 16 bytes of a 64 KiB page: there the assertion
    fails. *)
Theorem get_alignment_data_needed_aligns (tell addr : Z) :
  let pad_len := get_alignment_data_needed tell addr in
  let padded := tell + ImageSave.SEG_HEADER_LEN + pad_len in
  0 <= pad_len < 2 * IROM_ALIGN
  /\ (0 < pad_len ->
      flash_segment_aligned padded addr = true
      /\ get_alignment_data_needed padded addr = 0)
  /\ (pad_len = 0 <->
      flash_segment_aligned tell addr = true
      \/ ((tell + 16) mod IROM_ALIGN = addr mod IROM_ALIGN
          /\ IROM_ALIGN - 16 <= tell mod IROM_ALIGN))
  /\ (flash_segment_aligned tell addr = true ->
      (tell + 16) mod IROM_ALIGN <> addr mod IROM_ALIGN).
Proof.
  cbv zeta.
  pose proof (Z.mod_pos_bound tell IROM_ALIGN ltac:(reflexivity)) as Ht.
  pose proof (Z.mod_pos_bound addr IROM_ALIGN ltac:(reflexivity)) as Ha.
  pose proof (Z.div_mod tell IROM_ALIGN ltac:(discriminate)) as Htell.
  set (t := tell mod IROM_ALIGN) in *. set (a := addr mod IROM_ALIGN) in *.
  set (q := tell / IROM_ALIGN) in *.
  assert (Hplus : forall k, 0 <= k <= 16 ->
            (tell + k) mod IROM_ALIGN
            = if t + k <? IROM_ALIGN then t + k else t + k - IROM_ALIGN).
  { intros k Hk. destruct (t + k <? IROM_ALIGN) eqn:Hlt.
    - apply Z.ltb_lt in Hlt. apply (mod_IROM_ALIGN _ _ q); lia.
    - apply Z.ltb_ge in Hlt. change IROM_ALIGN with 65536 in *.
      apply (mod_IROM_ALIGN _ _ (q + 1)); change IROM_ALIGN with 65536; lia. }
  assert (Haligned : forall x k,
            x = IROM_ALIGN * k + a - 8 ->
            flash_segment_aligned x addr = true
            /\ get_alignment_data_needed x addr = 0).
  { intros x k ->. unfold flash_segment_aligned, get_alignment_data_needed.
    fold a. unfold ImageSave.SEG_HEADER_LEN.
    rewrite (mod_IROM_ALIGN (IROM_ALIGN * k + a - 8 + 8) a k) by (lia || exact Ha).
    split; [apply Z.eqb_refl|].
    destruct (Z_lt_ge_dec a 8) as [Hlow|Hhigh].
    - rewrite (mod_IROM_ALIGN (IROM_ALIGN * k + a - 8) (a - 8 + IROM_ALIGN) (k - 1))
        by (change IROM_ALIGN with 65536 in *; lia).
      replace (IROM_ALIGN - (a - 8 + IROM_ALIGN) + (a - 8)) with 0 by lia.
      reflexivity.
    - rewrite (mod_IROM_ALIGN (IROM_ALIGN * k + a - 8) (a - 8) k)
        by (change IROM_ALIGN with 65536 in *; lia).
      replace (IROM_ALIGN - (a - 8) + (a - 8)) with IROM_ALIGN by lia.
      reflexivity. }
  unfold flash_segment_aligned.
  rewrite (Hplus 8), (Hplus 16) by lia. fold a.
  unfold get_alignment_data_needed. fold t a.
  unfold ImageSave.SEG_HEADER_LEN.
  change IROM_ALIGN with 65536 in Ht, Ha, Htell |- *.
  case_eqb (65536 - t + (a - 8)) 0; case_eqb (65536 - t + (a - 8)) 65536;
    cbn [orb]; try case_ltb (65536 - t + (a - 8) - 8) 0;
    (split; [lia|]);
    (split;
     [intros Hpos; try lia;
      first [ apply (Haligned _ (q + 1)); change IROM_ALIGN with 65536; lia
            | apply (Haligned _ (q + 2)); change IROM_ALIGN with 65536; lia ]
     |]);
    case_ltb (t + 8) 65536; case_ltb (t + 16) 65536;
    rewrite ?Z.eqb_eq; lia.
Qed.

(* ------------------------------------------------------------------ *)
(** ** Chip id and MAC address of the ESP8266 *)

Lemma lor_shiftl_8 (low high : Z) :
  0 <= low < 256 -> 0 <= high ->
  Z.lor low (Z.shiftl high 8) = low + high * 256.
Proof.
  intros Hlow Hhigh.
  rewrite Z.shiftl_mul_pow2 by lia. change (2 ^ 8) with 256.
  assert (Hland : Z.land low (high * 256) = 0).
  { apply Z.bits_inj'. intros n Hn. rewrite Z.land_spec, Z.bits_0.
    destruct (Z_lt_ge_dec n 8) as [Hlt|Hge].
    - change 256 with (2 ^ 8). rewrite Z.mul_pow2_bits_low by lia.
      apply andb_false_r.
    - rewrite (Z.bits_above_log2 low n); [reflexivity|lia|].
      destruct (Z.eq_dec low 0) as [->|Hnz]; [cbn; lia|].
      apply Z.lt_le_trans with 8; [|lia].
      apply Z.log2_lt_pow2; lia. }
  rewrite <- Z.lxor_lor by exact Hland.
  symmetry. apply Z.add_nocarry_lxor. exact Hland.
Qed.

Ltac otp_addr := unfold ESP_OTP_MAC0, ESP_OTP_MAC1, ESP_OTP_MAC3; lia.

(** X22. On an ESP8266 whose OTP registers are 32-bit words, the low 24
    bits of the chip id are the last three bytes of the MAC address, and
    its top byte is the byte of MAC1 that selects the vendor prefix when
    MAC3 is zero: 0 gives 18:fe:34, 1 gives ac:d0:74, and any other
    value makes [read_mac] raise "Unknown OUI". With MAC3 not zero the
    prefix is the low three bytes of MAC3. [chip_id] reads two registers
    and [read_mac] three, and neither sends anything else. *)
Theorem esp8266_chip_id_is_mac_tail (regs : Z -> Z) (s1 s2 : session device) :
  answers_from regs (transport s1) ->
  answers_from regs (transport s2) ->
  (forall a, 0 <= regs a < 2 ^ 32) ->
  exists id s1' r s2',
    ESP8266ROM_chip_id s1 = (inr id, s1')
    /\ ESP8266ROM_read_mac s2 = (inr r, s2')
    /\ log (transport s1')
       = log (transport s1)
         ++ [Command (Some ESP_READ_REG) (le_bytes 4 ESP_OTP_MAC0) 0;
             Command (Some ESP_READ_REG) (le_bytes 4 ESP_OTP_MAC1) 0]
    /\ log (transport s2')
       = log (transport s2)
         ++ [Command (Some ESP_READ_REG) (le_bytes 4 ESP_OTP_MAC0) 0;
             Command (Some ESP_READ_REG) (le_bytes 4 ESP_OTP_MAC1) 0;
             Command (Some ESP_READ_REG) (le_bytes 4 ESP_OTP_MAC3) 0]
    /\ 0 <= id < 2 ^ 32
    /\ match r with
       | inl UnknownOUI => regs ESP_OTP_MAC3 = 0 /\ 2 <= id / 2 ^ 24
       | inr mac =>
           exists o1 o2 o3 m3 m4 m5,
             mac = [o1; o2; o3; m3; m4; m5]
             /\ Forall (fun b => 0 <= b < 256) mac
             /\ id mod 2 ^ 24 = m3 * 65536 + m4 * 256 + m5
             /\ (regs ESP_OTP_MAC3 = 0 ->
                 (id / 2 ^ 24 = 0 /\ [o1; o2; o3] = [0x18; 0xfe; 0x34])
                 \/ (id / 2 ^ 24 = 1 /\ [o1; o2; o3] = [0xac; 0xd0; 0x74]))
             /\ (regs ESP_OTP_MAC3 <> 0 ->
                 regs ESP_OTP_MAC3 mod 2 ^ 24 = o1 * 65536 + o2 * 256 + o3)
       end.
Proof.
  intros Hs1 Hs2 Hword.
  assert (Hread : forall addr (s : session device),
            answers_from regs (transport s) -> 0 <= addr < 2 ^ 32 ->
            read_reg addr s
            = (inr (regs addr),
               sent s [Command (Some ESP_READ_REG) (le_bytes 4 addr) 0])).
  { intros addr s Hs Haddr.
    unfold read_reg. rewrite pack_I_ok by exact Haddr. cbn [pack].
    rewrite app_nil_r. cbn [lift]. unfold bind at 1. cbn [ret].
    unfold bind, on_transport. cbn [command scripted_transport].
    rewrite (Hs (log (transport s)) (Some ESP_READ_REG) (le_bytes 4 addr) 0).
    rewrite Z.eqb_refl.
    rewrite RoundTrip.le_value_le_bytes by (cbn; lia).
    reflexivity. }
  assert (Hsent : forall (s : session device) rs,
            answers_from regs (transport s) ->
            answers_from regs (transport (sent s rs)))
    by (intros s rs Hs l op data chk; apply Hs).
  pose proof (Hword ESP_OTP_MAC0) as H0.
  pose proof (Hword ESP_OTP_MAC1) as H1.
  pose proof (Hword ESP_OTP_MAC3) as H3.
  set (mac0 := regs ESP_OTP_MAC0) in *.
  set (mac1 := regs ESP_OTP_MAC1) in *.
  set (mac3 := regs ESP_OTP_MAC3) in *.
  assert (Hid : Z.lor (Z.shiftr mac0 24) (Z.shiftl (Z.land mac1 MAX_UINT24) 8)
                = mac0 / 2 ^ 24 + (mac1 mod 2 ^ 24) * 256).
  { change MAX_UINT24 with (Z.ones 24). rewrite Z.land_ones by lia.
    rewrite Z.shiftr_div_pow2 by lia.
    apply lor_shiftl_8.
    - split; [apply Z.div_pos; lia|].
      apply Z.div_lt_upper_bound; lia.
    - apply Z.mod_pos_bound. lia. }
  assert (Hbyte : forall x k, 0 <= k ->
            Z.land (Z.shiftr x k) 0xff = (x / 2 ^ k) mod 256).
  { intros x k Hk. change 0xff with (Z.ones 8).
    rewrite Z.land_ones, Z.shiftr_div_pow2 by lia. reflexivity. }
  assert (Hlow : forall x, Z.land x 0xff = x mod 256).
  { intros x. change 0xff with (Z.ones 8). now rewrite Z.land_ones by lia. }
  eexists _, _, _, _. split; [|split; [|split; [|split]]].
  - unfold ESP8266ROM_chip_id. unfold bind at 1.
    rewrite (Hread ESP_OTP_MAC0 s1 Hs1) by otp_addr.
    unfold bind at 1.
    rewrite (Hread ESP_OTP_MAC1 _ (Hsent _ _ Hs1)) by otp_addr.
    rewrite sent_sent. fold mac0 mac1. rewrite Hid. reflexivity.
  - unfold ESP8266ROM_read_mac. unfold bind at 1.
    rewrite (Hread ESP_OTP_MAC0 s2 Hs2) by otp_addr.
    unfold bind at 1.
    rewrite (Hread ESP_OTP_MAC1 _ (Hsent _ _ Hs2)) by otp_addr.
    unfold bind at 1.
    rewrite (Hread ESP_OTP_MAC3 _ (Hsent _ _ (Hsent _ _ Hs2))) by otp_addr.
    rewrite !sent_sent. fold mac0 mac1 mac3.
    rewrite !Hbyte, !Hlow by lia.
    instantiate (2 :=
      if negb (mac3 =? 0)
      then inr ([(mac3 / 2 ^ 16) mod 256; (mac3 / 2 ^ 8) mod 256; mac3 mod 256]
                  ++ [(mac1 / 2 ^ 8) mod 256; mac1 mod 256; (mac0 / 2 ^ 24) mod 256])
      else if (mac1 / 2 ^ 16) mod 256 =? 0
      then inr ([0x18; 0xfe; 0x34]
                  ++ [(mac1 / 2 ^ 8) mod 256; mac1 mod 256; (mac0 / 2 ^ 24) mod 256])
      else if (mac1 / 2 ^ 16) mod 256 =? 1
      then inr ([0xac; 0xd0; 0x74]
                  ++ [(mac1 / 2 ^ 8) mod 256; mac1 mod 256; (mac0 / 2 ^ 24) mod 256])
      else inl UnknownOUI).
    destruct (negb (mac3 =? 0)); [reflexivity|].
    destruct ((mac1 / 2 ^ 16) mod 256 =? 0); [reflexivity|].
    destruct ((mac1 / 2 ^ 16) mod 256 =? 1); reflexivity.
  - reflexivity.
  - reflexivity.
  - assert (Hbytes : 0 <= (mac1 / 2 ^ 8) mod 256 < 256
                     /\ 0 <= mac1 mod 256 < 256
                     /\ 0 <= (mac0 / 2 ^ 24) mod 256 < 256
                     /\ 0 <= (mac3 / 2 ^ 16) mod 256 < 256
                     /\ 0 <= (mac3 / 2 ^ 8) mod 256 < 256
                     /\ 0 <= mac3 mod 256 < 256)
      by (repeat split; apply Z.mod_pos_bound; lia).
    assert (Htail : (mac0 / 2 ^ 24 + mac1 mod 2 ^ 24 * 256) mod 2 ^ 24
                    = (mac1 / 2 ^ 8) mod 256 * 65536 + mac1 mod 256 * 256
                      + (mac0 / 2 ^ 24) mod 256).
    { change (2 ^ 24) with 16777216. change (2 ^ 8) with 256.
      change (2 ^ 32) with 4294967296 in *.
      Z.div_mod_to_equations. lia. }
    assert (Htop : (mac0 / 2 ^ 24 + mac1 mod 2 ^ 24 * 256) / 2 ^ 24
                   = (mac1 / 2 ^ 16) mod 256).
    { change (2 ^ 24) with 16777216. change (2 ^ 16) with 65536.
      change (2 ^ 32) with 4294967296 in *.
      Z.div_mod_to_equations. lia. }
    assert (Hprefix : mac3 mod 2 ^ 24
                      = (mac3 / 2 ^ 16) mod 256 * 65536
                        + (mac3 / 2 ^ 8) mod 256 * 256 + mac3 mod 256).
    { change (2 ^ 24) with 16777216. change (2 ^ 16) with 65536.
      change (2 ^ 8) with 256.
      Z.div_mod_to_equations. lia. }
    split.
    { change (2 ^ 24) with 16777216 in *. change (2 ^ 32) with 4294967296 in *.
      Z.div_mod_to_equations. lia. }
    rewrite Htail, Htop.
    destruct (mac3 =? 0) eqn:Hmac3; cbn [negb];
      [apply Z.eqb_eq in Hmac3|apply Z.eqb_neq in Hmac3].
    + destruct ((mac1 / 2 ^ 16) mod 256 =? 0) eqn:Hv0;
        [apply Z.eqb_eq in Hv0|apply Z.eqb_neq in Hv0].
      { eexists _, _, _, _, _, _. split; [reflexivity|].
        split; [repeat constructor; lia|]. split; [reflexivity|].
        split; [intros _; left; split; [exact Hv0|reflexivity]|].
        intros Hnz. contradiction. }
      destruct ((mac1 / 2 ^ 16) mod 256 =? 1) eqn:Hv1;
        [apply Z.eqb_eq in Hv1|apply Z.eqb_neq in Hv1].
      { eexists _, _, _, _, _, _. split; [reflexivity|].
        split; [repeat constructor; lia|]. split; [reflexivity|].
        split; [intros _; right; split; [exact Hv1|reflexivity]|].
        intros Hnz. contradiction. }
      split; [exact Hmac3|].
      pose proof (Z.mod_pos_bound (mac1 / 2 ^ 16) 256 ltac:(lia)). lia.
    + eexists _, _, _, _, _, _. split; [reflexivity|].
      split; [repeat constructor; lia|]. split; [reflexivity|].
      split; [intros Hz; contradiction|].
      intros _. exact Hprefix.
Qed.

Lemma esp8266_chip_id_is_mac_tail_witness :
  let regs := fun a => if a =? ESP_OTP_MAC0 then 0x5c000000
                       else if a =? ESP_OTP_MAC1 then 0x0001a47b else 0 in
  let s := mkSession (register_device regs) [] in
  exists id s1' r s2',
    ESP8266ROM_chip_id s = (inr id, s1')
    /\ ESP8266ROM_read_mac s = (inr r, s2')
    /\ log (transport s1')
       = log (transport s)
         ++ [Command (Some ESP_READ_REG) (le_bytes 4 ESP_OTP_MAC0) 0;
             Command (Some ESP_READ_REG) (le_bytes 4 ESP_OTP_MAC1) 0]
    /\ log (transport s2')
       = log (transport s)
         ++ [Command (Some ESP_READ_REG) (le_bytes 4 ESP_OTP_MAC0) 0;
             Command (Some ESP_READ_REG) (le_bytes 4 ESP_OTP_MAC1) 0;
             Command (Some ESP_READ_REG) (le_bytes 4 ESP_OTP_MAC3) 0]
    /\ 0 <= id < 2 ^ 32
    /\ match r with
       | inl UnknownOUI => regs ESP_OTP_MAC3 = 0 /\ 2 <= id / 2 ^ 24
       | inr mac =>
           exists o1 o2 o3 m3 m4 m5,
             mac = [o1; o2; o3; m3; m4; m5]
             /\ Forall (fun b => 0 <= b < 256) mac
             /\ id mod 2 ^ 24 = m3 * 65536 + m4 * 256 + m5
             /\ (regs ESP_OTP_MAC3 = 0 ->
                 (id / 2 ^ 24 = 0 /\ [o1; o2; o3] = [0x18; 0xfe; 0x34])
                 \/ (id / 2 ^ 24 = 1 /\ [o1; o2; o3] = [0xac; 0xd0; 0x74]))
             /\ (regs ESP_OTP_MAC3 <> 0 ->
                 regs ESP_OTP_MAC3 mod 2 ^ 24 = o1 * 65536 + o2 * 256 + o3)
       end.
Proof.
  apply (esp8266_chip_id_is_mac_tail
           (fun a => if a =? ESP_OTP_MAC0 then 0x5c000000
                     else if a =? ESP_OTP_MAC1 then 0x0001a47b else 0)
           (mkSession (register_device
                         (fun a => if a =? ESP_OTP_MAC0 then 0x5c000000
                                   else if a =? ESP_OTP_MAC1 then 0x0001a47b else 0)) [])
           (mkSession (register_device
                         (fun a => if a =? ESP_OTP_MAC0 then 0x5c000000
                                   else if a =? ESP_OTP_MAC1 then 0x0001a47b else 0)) [])).
  - intros l op data chk. reflexivity.
  - intros l op data chk. reflexivity.
  - intros a. destruct (a =? ESP_OTP_MAC0); [lia|].
    destruct (a =? ESP_OTP_MAC1); lia.
Defined.

(* ------------------------------------------------------------------ *)
(** ** The layout of a merged binary *)

Module MergeFacts.

Section Merging.

Context {C : Type} `{Transport C}.
Variable lib : libraries.
Variable chip_class : ESPLoader.
Variable args : Args.
Variable target_offset : Z.

Lemma update_keeps (address : Z) (image image' : bytes) (s s' : session C) :
  _update_image_flash_params lib chip_class address args image s = (inr image', s') ->
  length image' = length image
  /\ forall i, untouched chip_class address i ->
            nth_error image' i = nth_error image i.
Proof.
  intros Hrun. unfold _update_image_flash_params in Hrun.
  destruct (len image <? 8) eqn:Hlen.
  { injection Hrun as <- _. now split. }
  destruct (negb (address =? BOOTLOADER_FLASH_OFFSET chip_class)) eqn:Haddr.
  { injection Hrun as <- _. now split. }
  destruct (is_keep (flash_mode args) && is_keep (flash_freq args)
            && is_keep (flash_size args)).
  { injection Hrun as <- _. now split. }
  destruct (negb (nth 0 image 0 =? ESP_IMAGE_MAGIC)).
  { apply bind_inr in Hrun. destruct Hrun as [u [s1 [_ Hret]]].
    injection Hret as <- _. now split. }
  destruct (load_and_verify lib chip_class image) as [r printed].
  apply bind_inr in Hrun. destruct Hrun as [u [s1 [_ Hrun]]].
  destruct r as [e|ok].
  { apply bind_inr in Hrun. destruct Hrun as [u' [s2 [_ Hret]]].
    injection Hret as <- _. now split. }
  apply bind_inr in Hrun. destruct Hrun as [fm [s2 [_ Hrun]]].
  apply bind_inr in Hrun. destruct Hrun as [ff [s3 [_ Hrun]]].
  apply bind_inr in Hrun. destruct Hrun as [fs [s4 [_ Hrun]]].
  apply bind_inr in Hrun. destruct Hrun as [fp [s5 [Hpack Hrun]]].
  apply lift_inr in Hpack. destruct Hpack as [Hpack _].
  apply pack_BB_length in Hpack.
  destruct (negb (bytes_eqb fp (slice image 2 4))).
  2:{ injection Hrun as <- _. now split. }
  apply bind_inr in Hrun. destruct Hrun as [u' [s6 [_ Hret]]].
  injection Hret as <- _.
  apply Z.ltb_ge in Hlen. unfold len in Hlen.
  destruct (patch_frame image fp) as [Hlength Hbytes]; [lia|assumption|].
  split; [exact Hlength|].
  intros i Hi. apply negb_false_iff, Z.eqb_eq in Haddr.
  destruct (Hi Haddr) as [H2 H3]. now apply Hbytes.
Qed.

Lemma update_with_keep (address : Z) (image : bytes) (s : session C) :
  is_keep (flash_mode args) && is_keep (flash_freq args)
  && is_keep (flash_size args) = true ->
  _update_image_flash_params lib chip_class address args image s = (inr image, s).
Proof.
  intros Hkeep. unfold _update_image_flash_params. rewrite Hkeep.
  destruct (len image <? 8); [reflexivity|].
  destruct (negb (address =? BOOTLOADER_FLASH_OFFSET chip_class)); reflexivity.
Qed.

Lemma merge_files_laid_out (files : list (Z * argfile)) :
  forall (of_ file : bytes) (s s' : session C),
    ascending (target_offset + len of_) files ->
    merge_files lib chip_class args target_offset files of_ s = (inr file, s') ->
    laid_out chip_class target_offset files of_ file.
Proof.
  induction files as [|[addr f] rest IH]; intros of_ file s s' Hasc Hrun.
  - cbn in Hrun. injection Hrun as <- _. unfold laid_out.
    rewrite firstn_all. split; [reflexivity|]. split; [lia|].
    split; [intros addr f []|].
    intros k b Hk Hnth.
    assert (Hlt : (k < length of_)%nat) by (apply nth_error_Some; congruence).
    lia.
  - cbn [merge_files] in Hrun. cbn [ascending] in Hasc.
    destruct Hasc as [Hpos Hrest].
    apply bind_inr in Hrun. destruct Hrun as [image [s1 [Hupdate Hrun]]].
    apply update_keeps in Hupdate. destruct Hupdate as [Hlength Hbytes].
    set (gap := repeat 0xFF (Z.to_nat (addr - target_offset - len of_))) in *.
    assert (Hgap : length (of_ ++ gap) = Z.to_nat (addr - target_offset)).
    { unfold gap. rewrite length_app, repeat_length. unfold len in *. lia. }
    unfold merge_pad_to in Hrun. fold gap in Hrun.
    apply IH in Hrun.
    2:{ replace (target_offset + len ((of_ ++ gap) ++ image))
          with (addr + len (content f)); [exact Hrest|].
        unfold len in *. rewrite length_app, Hgap, Hlength. lia. }
    destruct Hrun as [Hprefix [Hlonger [Hfiles Hother]]].
    assert (Hfile : file = of_ ++ gap ++ image
                           ++ skipn (length ((of_ ++ gap) ++ image)) file).
    { rewrite <- (firstn_skipn (length ((of_ ++ gap) ++ image)) file) at 1.
      rewrite Hprefix. now rewrite <- !app_assoc. }
    set (tail := skipn (length ((of_ ++ gap) ++ image)) file) in *.
    assert (Hlen : length file
                   = (Z.to_nat (addr - target_offset) + length (content f)
                      + length tail)%nat).
    { rewrite Hfile at 1. rewrite !app_assoc, !length_app.
      rewrite length_app in Hgap. rewrite Hgap, Hlength. reflexivity. }
    split; [|split; [|split]].
    + rewrite Hfile. rewrite firstn_app, firstn_all, Nat.sub_diag.
      cbn [firstn]. apply app_nil_r.
    + rewrite length_app in Hgap. lia.
    + intros addr' f' [Heq|Hin].
      * injection Heq as <- <-. split; [exact Hpos|].
        split; [unfold len in *; lia|].
        intros i b Hnth Hi.
        rewrite Hfile, app_assoc, <- Hgap.
        rewrite nth_error_app2 by lia.
        replace (length (of_ ++ gap) + i - length (of_ ++ gap))%nat with i by lia.
        rewrite nth_error_app1
          by (rewrite Hlength; apply nth_error_Some; congruence).
        rewrite Hbytes by exact Hi. exact Hnth.
      * destruct (Hfiles addr' f' Hin) as [Hfrom [Hto Hcontent]].
        split; [|split; assumption].
        unfold len in *. rewrite !length_app in Hfrom.
        rewrite length_app in Hgap. lia.
    + intros k b Hk Hnth.
      destruct (Nat.lt_ge_cases k (length ((of_ ++ gap) ++ image))) as [Hin|Hout].
      * destruct (Nat.lt_ge_cases k (length (of_ ++ gap))) as [Hgapk|Hfilek].
        -- left. rewrite Hfile in Hnth.
           rewrite nth_error_app2 in Hnth by lia.
           rewrite nth_error_app1 in Hnth
             by (rewrite length_app in Hgapk; lia).
           apply nth_error_In in Hnth. unfold gap in Hnth.
           now apply repeat_spec in Hnth.
        -- right. exists addr, f, (k - length (of_ ++ gap))%nat.
           split; [now left|]. rewrite <- Hgap. split; [lia|].
           rewrite length_app, Hlength in Hin. lia.
      * destruct (Hother k b Hout Hnth) as [Hff|[addr' [f' [i [Hin' Hk']]]]];
          [now left|].
        right. exists addr', f', i. split; [now right|exact Hk'].
Qed.

Lemma merge_files_keep (files : list (Z * argfile)) :
  forall (of_ : bytes) (s : session C),
    is_keep (flash_mode args) && is_keep (flash_freq args)
    && is_keep (flash_size args) = true ->
    exists file,
      merge_files lib chip_class args target_offset files of_ s = (inr file, s).
Proof.
  induction files as [|[addr f] rest IH]; intros of_ s Hkeep.
  - now exists of_.
  - cbn [merge_files]. unfold bind at 1.
    rewrite update_with_keep by exact Hkeep. now apply IH.
Qed.

End Merging.

Lemma ascending_sorted (files : list (Z * argfile)) :
  forall pos,
    match files with [] => True | p :: _ => pos <= fst p end ->
    ForallOrdPairs (fun a b => sectors_end a <= first_sector b) files ->
    ascending pos files.
Proof.
  induction files as [|[addr f] rest IH]; intros pos Hfrom Hord; [constructor|].
  inversion Hord as [|? ? Hnext Hrest]; subst.
  split; [exact Hfrom|]. apply IH; [|exact Hrest].
  destruct rest as [|[addr' f'] rest]; [constructor|].
  inversion Hnext as [|? ? Hle _]; subst. revert Hle.
  unfold sectors_end, first_sector, ESPLoader_FLASH_SECTOR_SIZE. cbn [fst snd].
  intros Hle.
  pose proof (Z.mul_div_le addr' 4096 ltac:(lia)).
  pose proof (Z.mod_pos_bound (addr + len (content f) + 4096 - 1) 4096 ltac:(lia)).
  pose proof (Z.div_mod (addr + len (content f) + 4096 - 1) 4096 ltac:(lia)).
  lia.
Qed.

Lemma accepted_ascending (pairs : list (Z * argfile)) (pos : Z) :
  AddrFilenamePairAction pairs = inr pairs ->
  match sorted_by_address pairs with [] => True | p :: _ => pos <= fst p end ->
  ascending pos (sorted_by_address pairs).
Proof.
  unfold AddrFilenamePairAction. intros Haccepted Hfrom.
  destruct (check_overlap 0 (sorted_by_address pairs)) eqn:Hcheck; [discriminate|].
  apply ascending_sorted; [exact Hfrom|].
  destruct (sorted_by_address pairs) as [|pair rest]; [constructor|].
  rewrite check_overlap_unfold in Hcheck.
  destruct (ESPLoader_FLASH_SECTOR_SIZE * first_sector pair <? 0); [discriminate|].
  apply check_overlap_accepts in Hcheck. destruct Hcheck as [Hall Hord].
  constructor; assumption.
Qed.

End MergeFacts.

(** X23. [merge_bin] puts every input file at its flash address. For
    pairs that [AddrFilenamePairAction] accepted, whenever [merge_bin]
    writes an output file: the format is 'raw'; the file starts at
    [target_offset], no input file begins before it or ends behind the
    end of the output; the bytes of each input file stand at its address
    less [target_offset], but for bytes 2 and 3 of a file at the
    bootloader offset, which the flash parameters may replace; every
    other byte of the output is 0xFF; and the line printed reports the
    length of the output. With mode, frequency and size all 'keep',
    format 'raw', no fill size and no file before [target_offset],
    [merge_bin] does write the file. *)
Theorem merge_bin_places_files (lib : libraries) (chip_class : ESPLoader)
    (args : Args) (target_offset : Z) (format : string)
    (fill_flash_size : option string) (s : session device) :
  AddrFilenamePairAction (addr_filename args) = inr (addr_filename args) ->
  (forall file line s',
     merge_bin lib (Some chip_class) args target_offset format fill_flash_size s
     = (inr (inr (file, line)), s') ->
     format = "raw"%string
     /\ line = WroteBytes (len file) target_offset
     /\ (forall addr f,
           In (addr, f) (addr_filename args) ->
           target_offset <= addr
           /\ addr + len (content f) <= target_offset + len file
           /\ forall i b,
                nth_error (content f) i = Some b ->
                (addr = BOOTLOADER_FLASH_OFFSET chip_class ->
                 i <> 2%nat /\ i <> 3%nat) ->
                nth_error file (Z.to_nat (addr - target_offset) + i) = Some b)
     /\ (forall k b,
           nth_error file k = Some b ->
           b = 0xFF
           \/ exists addr f i,
                In (addr, f) (addr_filename args)
                /\ k = (Z.to_nat (addr - target_offset) + i)%nat
                /\ (i < length (content f))%nat))
  /\ (is_keep (flash_mode args) && is_keep (flash_freq args)
      && is_keep (flash_size args) = true ->
      format = "raw"%string ->
      fill_flash_size = None ->
      addr_filename args <> [] ->
      Forall (fun p => target_offset <= fst p) (addr_filename args) ->
      exists file,
        merge_bin lib (Some chip_class) args target_offset format fill_flash_size s
        = (inr (inr (file, WroteBytes (len file) target_offset)), s)).
Proof.
  intros Haccepted. split.
  - intros file line s' Hrun. unfold merge_bin in Hrun.
    pose proof (MergeFacts.accepted_ascending (addr_filename args) target_offset
                  Haccepted) as Hasc.
    destruct (sorted_by_address (addr_filename args)) as [|[first_addr f0] rest]
      eqn:Hsorted; [discriminate|].
    destruct (first_addr <? target_offset) eqn:Hfirst; [discriminate|].
    apply Z.ltb_ge in Hfirst. specialize (Hasc Hfirst).
    destruct (negb (String.eqb format "raw")) eqn:Hformat; [discriminate|].
    apply negb_false_iff, String.eqb_eq in Hformat.
    apply bind_inr in Hrun. destruct Hrun as [file1 [s1 [Hfiles Hrun]]].
    apply bind_inr in Hrun. destruct Hrun as [file2 [s2 [Hfill Hret]]].
    injection Hret as <- <- _.
    apply MergeFacts.merge_files_laid_out in Hfiles;
      [|rewrite Z.add_0_r; exact Hasc].
    assert (Hpadded : exists pad,
              file2 = file1 ++ pad /\ Forall (fun b => b = 0xFF) pad).
    { destruct fill_flash_size as [size|].
      - destruct (String.eqb size "").
        + injection Hfill as <- _. exists []. now rewrite app_nil_r.
        + apply bind_inr in Hfill. destruct Hfill as [flash_end [s3 [_ Hret]]].
          injection Hret as <- _. eexists. split; [reflexivity|].
          apply Forall_forall. intros b Hb. now apply repeat_spec in Hb.
      - injection Hfill as <- _. exists []. now rewrite app_nil_r. }
    destruct Hpadded as [pad [-> Hpad]].
    destruct Hfiles as [_ [_ [Hplaced Hother]]].
    split; [exact Hformat|]. split; [reflexivity|]. split.
    + intros addr f Hin.
      rewrite <- (sorted_by_address_In (addr, f)), Hsorted in Hin.
      destruct (Hplaced addr f Hin) as [Hfrom [Hto Hcontent]].
      cbn [length] in Hfrom. unfold len in *. rewrite length_app.
      split; [lia|]. split; [lia|].
      intros i b Hnth Hi.
      rewrite nth_error_app1; [now apply Hcontent|].
      apply nth_error_Some. rewrite (Hcontent i b Hnth Hi). discriminate.
    + intros k b Hnth.
      destruct (Nat.lt_ge_cases k (length file1)) as [Hin|Hout].
      * rewrite nth_error_app1 in Hnth by exact Hin.
        destruct (Hother k b ltac:(cbn; lia) Hnth)
          as [Hff|[addr [f [i [Hfile Hk]]]]]; [now left|].
        right. exists addr, f, i. split; [|exact Hk].
        apply (sorted_by_address_In (addr, f)). now rewrite Hsorted.
      * rewrite nth_error_app2 in Hnth by exact Hout.
        apply nth_error_In in Hnth. rewrite Forall_forall in Hpad.
        left. now apply Hpad.
  - intros Hkeep Hformat Hfill Hfiles Hfrom. unfold merge_bin.
    destruct (sorted_by_address (addr_filename args)) as [|[first_addr f0] rest]
      eqn:Hsorted.
    { pose proof (sorted_by_address_length (addr_filename args)) as Hlength.
      rewrite Hsorted in Hlength.
      destruct (addr_filename args); [now contradiction Hfiles|discriminate]. }
    assert (Hfirst : target_offset <= first_addr).
    { rewrite Forall_forall in Hfrom.
      apply (Hfrom (first_addr, f0)).
      apply (sorted_by_address_In (first_addr, f0)). rewrite Hsorted. now left. }
    replace (first_addr <? target_offset) with false
      by (symmetry; apply Z.ltb_ge; exact Hfirst).
    rewrite Hformat, Hfill, String.eqb_refl. cbn [negb].
    destruct (MergeFacts.merge_files_keep lib chip_class args target_offset
                ((first_addr, f0) :: rest) [] s Hkeep) as [file Hrun].
    exists file. unfold bind at 1. rewrite Hrun. reflexivity.
Qed.

Lemma merge_bin_places_files_witness :
  let args := mkArgs None false false false None
                [(0x8000, mkFile "partitions.bin" (repeat 0x50 12));
                 (0x1000, mkFile "bootloader.bin" (repeat 0xe9 20))]
                "keep" "keep" "keep" false false false in
  let s := mkSession (mkDevice (fun _ _ _ _ => inl ResponseMismatch)
                               (fun _ => inl StopIteration) []) [] in
  (forall file line s',
     merge_bin no_libraries (Some esp32_rom) args 0x1000 "raw" None s
     = (inr (inr (file, line)), s') ->
     "raw"%string = "raw"%string
     /\ line = WroteBytes (len file) 0x1000
     /\ (forall addr f,
           In (addr, f) (addr_filename args) ->
           0x1000 <= addr
           /\ addr + len (content f) <= 0x1000 + len file
           /\ forall i b,
                nth_error (content f) i = Some b ->
                (addr = BOOTLOADER_FLASH_OFFSET esp32_rom ->
                 i <> 2%nat /\ i <> 3%nat) ->
                nth_error file (Z.to_nat (addr - 0x1000) + i) = Some b)
     /\ (forall k b,
           nth_error file k = Some b ->
           b = 0xFF
           \/ exists addr f i,
                In (addr, f) (addr_filename args)
                /\ k = (Z.to_nat (addr - 0x1000) + i)%nat
                /\ (i < length (content f))%nat))
  /\ (is_keep (flash_mode args) && is_keep (flash_freq args)
      && is_keep (flash_size args) = true ->
      "raw"%string = "raw"%string ->
      @None string = None ->
      addr_filename args <> [] ->
      Forall (fun p => 0x1000 <= fst p) (addr_filename args) ->
      exists file,
        merge_bin no_libraries (Some esp32_rom) args 0x1000 "raw" None s
        = (inr (inr (file, WroteBytes (len file) 0x1000)), s)).
Proof.
  apply (merge_bin_places_files no_libraries esp32_rom
           (mkArgs None false false false None
              [(0x8000, mkFile "partitions.bin" (repeat 0x50 12));
               (0x1000, mkFile "bootloader.bin" (repeat 0xe9 20))]
              "keep" "keep" "keep" false false false)
           0x1000 "raw" None
           (mkSession (mkDevice (fun _ _ _ _ => inl ResponseMismatch)
                                (fun _ => inl StopIteration) []) [])).
  reflexivity.
Defined.

Example merge_bin_example :
  merge_bin no_libraries (Some esp32_rom)
    (mkArgs None false false false None
       [(0x2000, mkFile "b.bin" [5; 6]); (0x1000, mkFile "a.bin" [1; 2; 3])]
       "keep" "keep" "keep" false false false)
    0x1000 "raw" None
    (mkSession (mkDevice (fun _ _ _ _ => inl ResponseMismatch)
                         (fun _ => inl StopIteration) []) [])
  = (inr (inr ([1; 2; 3] ++ repeat 0xFF 4093 ++ [5; 6], WroteBytes 4098 0x1000)),
     mkSession (mkDevice (fun _ _ _ _ => inl ResponseMismatch)
                         (fun _ => inl StopIteration) []) []).
Proof. reflexivity. Qed.

(* ------------------------------------------------------------------ *)
(** ** Verifying by digest *)

Module VerifyFacts.

Lemma pad_to_4 (f : argfile) :
  pad_to (content f) 4 0xFF = inr (Verify.padded_image f).
Proof.
  unfold Verify.padded_image, pad_to. change (4 =? 0) with false. cbn iota.
  destruct (negb (len (content f) mod 4 =? 0)); reflexivity.
Qed.

Lemma padded_image_length (f : argfile) :
  len (content f) <= len (Verify.padded_image f) <= len (content f) + 3.
Proof.
  unfold Verify.padded_image, pad_to. change (4 =? 0) with false. cbn iota.
  pose proof (Z.mod_pos_bound (len (content f)) 4 ltac:(lia)) as Hmod.
  destruct (len (content f) mod 4 =? 0) eqn:Hzero; cbn [negb]; [lia|].
  apply Z.eqb_neq in Hzero.
  unfold len in *. rewrite length_app, repeat_length. lia.
Qed.

(** ASCII text decodes to itself. *)
Lemma utf8_decode_ascii (b : bytes) :
  Forall (fun c => 0 <= c < 128) b -> utf8_decode b = Some b.
Proof.
  induction 1 as [|c rest Hc _ IH]; [reflexivity|].
  cbn [utf8_decode].
  replace ((0 <=? c) && (c <? 128)) with true
    by (symmetry; apply andb_true_iff; split;
        [apply Z.leb_le|apply Z.ltb_lt]; lia).
  now rewrite IH.
Qed.

Section Digests.

Variable lib : libraries.
Variable esp : ESPLoader.
Variable digest_at : Z -> Z -> bytes.

Hypothesis Hsupport : IS_STUB esp || isinstance_ESP32ROM (CHIP esp) = true.
Hypothesis Hstatus : (0 < STATUS_BYTES_LENGTH esp)%nat.

Lemma flash_md5sum_digest (address size : Z) (s : session device) :
  Verify.flash_digests esp digest_at (transport s) ->
  0 <= address < 2 ^ 32 ->
  0 <= size < 2 ^ 32 ->
  flash_md5sum esp address size s
  = (inr (digest_at address size), sent s [Verify.md5_request address size]).
Proof.
  intros Hdigests Haddress Hsize.
  destruct (Hdigests (log (transport s)) address size Haddress Hsize)
    as [Hlength [Hascii Hreply]].
  unfold flash_md5sum, stub_and_esp32_function_only. rewrite Hsupport.
  rewrite pack_IIII by (assumption || lia). run_bind.
  unfold check_command, bind, on_transport.
  cbn [command scripted_transport]. rewrite Hreply.
  fold (sent s [Verify.md5_request address size]).
  set (n := STATUS_BYTES_LENGTH esp) in *.
  set (digest := digest_at address size) in *.
  assert (Hlen : length (digest ++ repeat 0 n) = (32 + n)%nat)
    by (rewrite length_app, repeat_length; lia).
  rewrite Hlen.
  replace (32 + n <? n)%nat with false by (symmetry; apply Nat.ltb_ge; lia).
  replace (n <? 32 + n)%nat with true by (symmetry; apply Nat.ltb_lt; lia).
  destruct n as [|n]; [lia|].
  unfold last_n, but_last_n. rewrite Hlen.
  replace (32 + S n - S n)%nat with (length digest) by lia.
  rewrite skipn_app, skipn_all, Nat.sub_diag. cbn [skipn app].
  rewrite firstn_app, firstn_all, Nat.sub_diag. cbn [firstn].
  rewrite app_nil_r.
  cbn [repeat byte nth_error lift ret].
  change (0 =? 0) with true. cbn [negb].
  unfold ret at 1. cbn iota. rewrite Hlength.
  rewrite (utf8_decode_ascii digest Hascii). reflexivity.
Qed.

Variable read_flash : Z -> Z -> M (session device) bytes.
Variable args : Args.
Variable diff : string.

Hypothesis Hkeep :
  is_keep (flash_mode args) && is_keep (flash_freq args)
  && is_keep (flash_size args) = true.
Hypothesis Hdiff : diff <> "yes"%string.

Lemma verify_files_by_digest (files : list (Z * argfile)) :
  forall (differences : bool) (st : Verify.console device),
    Verify.flash_digests esp digest_at (Verify.target st) ->
    Forall (fun p => 0 <= fst p < 2 ^ 32 /\ len (content (snd p)) + 3 < 2 ^ 32)
           files ->
    exists st',
      Verify.verify_files lib read_flash esp args diff files differences st
      = (inr (inr (differences || negb (forallb (digest_matches lib digest_at) files))), st')
      /\ on_command (Verify.target st') = on_command (Verify.target st)
      /\ log (Verify.target st')
         = log (Verify.target st) ++ map verify_request files
      /\ Verify.shown st' = Verify.shown st ++ flat_map (verify_lines lib digest_at) files.
Proof.
  induction files as [|[address f] rest IH]; intros differences st Hdigests Hrange.
  - exists st. cbn [Verify.verify_files forallb negb map flat_map].
    rewrite orb_false_r, !app_nil_r. repeat split; reflexivity.
  - inversion Hrange as [|? ? [Haddress Hsize] Hrest]; subst.
    cbn [fst snd] in Haddress, Hsize.
    pose proof (padded_image_length f) as Hpadded.
    cbn [Verify.verify_files]. rewrite pad_to_4. cbn [Verify.of_result].
    unfold bind at 1. cbn [ret].
    unfold bind at 1. unfold Verify.inner at 1.
    rewrite (MergeFacts.update_with_keep lib esp args) by exact Hkeep.
    cbn [transport stdout map].
    unfold bind at 1. unfold Verify.say at 1, modify at 1.
    cbn [Verify.target Verify.shown].
    unfold bind at 1. unfold Verify.inner at 1. cbn [Verify.target Verify.shown].
    rewrite flash_md5sum_digest
      by (assumption || (cbn [transport]; assumption) || (unfold len in *; lia)).
    cbn [transport stdout sent map].
    change (bytes_eqb (digest_at address (len (Verify.padded_image f)))
                      (md5_hexdigest lib (Verify.padded_image f)))
      with (digest_matches lib digest_at (address, f)).
    set (st1 := Verify.mkConsole _ _).
    assert (Hdigests1 : Verify.flash_digests esp digest_at (Verify.target st1))
      by (intros l a n Ha Hn; apply (Hdigests l a n Ha Hn)).
    assert (Hstep : forall differences',
              exists st',
                (Verify.say (if digest_matches lib digest_at (address, f) then Verify.VerifyOK
                             else Verify.VerifyFailedDigest) ;;;
                 Verify.verify_files lib read_flash esp args diff rest differences')
                  st1
                = (inr (inr (differences' || negb (forallb (digest_matches lib digest_at) rest))), st')
                /\ on_command (Verify.target st') = on_command (Verify.target st)
                /\ log (Verify.target st')
                   = log (Verify.target st)
                     ++ map verify_request ((address, f) :: rest)
                /\ Verify.shown st'
                   = Verify.shown st ++ flat_map (verify_lines lib digest_at) ((address, f) :: rest)).
    { intros differences'.
      unfold bind at 1. unfold Verify.say at 1, modify at 1.
      set (st2 := Verify.mkConsole _ _).
      destruct (IH differences' st2) as [st' [Hrun [Hcommand [Hlog Hshown]]]];
        [exact Hdigests1|exact Hrest|].
      exists st'. split; [exact Hrun|]. split; [exact Hcommand|].
      split.
      - rewrite Hlog. unfold st2, st1. cbn [Verify.target log map].
        rewrite <- app_assoc. reflexivity.
      - rewrite Hshown. unfold st2, st1.
        cbn [Verify.shown flat_map verify_lines].
        rewrite app_nil_r, <- !app_assoc. reflexivity. }
    cbn [forallb].
    destruct (digest_matches lib digest_at (address, f)) eqn:Hmatch.
    + cbn [andb]. apply Hstep.
    + cbn [andb negb]. rewrite orb_true_r.
      replace (negb (String.eqb diff "yes")) with true
        by (symmetry; apply negb_true_iff, String.eqb_neq; exact Hdiff).
      destruct (Hstep true) as [st' [Hrun Hrest']].
      exists st'. split; [|exact Hrest'].
      rewrite Hrun. reflexivity.
Qed.

End Digests.

End VerifyFacts.

Lemma forallb_false_Exists {A} (f : A -> bool) (l : list A) :
  forallb f l = false -> Exists (fun x => f x = false) l.
Proof.
  induction l as [|x l IH]; [discriminate|].
  cbn [forallb]. intros Hfalse. apply andb_false_iff in Hfalse.
  destruct Hfalse as [Hx|Hl]; [now left|right; now apply IH].
Qed.

(** X24. Without [--diff yes], and with flash mode, frequency and size
    kept, [verify_flash] checks every file by its digest and reads no
    flash: on a loader that has the MD5 command and a target that
    answers it with a digest in 32 hexadecimal characters, it sends one
    MD5 request per file, in the order of the files, for the file
    padded with 0xFF to a multiple of four bytes; it prints the file and
    the verdict for each, goes on behind a mismatch, and raises "Verify
    failed." at the end exactly when the digest of some file differed. *)
Theorem verify_flash_checks_every_file (lib : libraries)
    (read_flash : Z -> Z -> M (session device) bytes) (esp : ESPLoader)
    (args : Args) (diff : string) (digest_at : Z -> Z -> bytes)
    (st : Verify.console device) :
  Verify.flash_digests esp digest_at (Verify.target st) ->
  IS_STUB esp || isinstance_ESP32ROM (CHIP esp) = true ->
  (0 < STATUS_BYTES_LENGTH esp)%nat ->
  is_keep (flash_mode args) && is_keep (flash_freq args)
  && is_keep (flash_size args) = true ->
  diff <> "yes"%string ->
  Forall (fun p => 0 <= fst p < 2 ^ 32 /\ len (content (snd p)) + 3 < 2 ^ 32)
         (addr_filename args) ->
  let image := fun p : Z * argfile => Verify.padded_image (snd p) in
  let flash_digest := fun p => digest_at (fst p) (len (image p)) in
  let file_digest := fun p => md5_hexdigest lib (image p) in
  exists r st',
    Verify.verify_flash lib read_flash esp args diff st = (inr r, st')
    /\ (r = inr tt
        <-> Forall (fun p => flash_digest p = file_digest p) (addr_filename args))
    /\ (r = inl Verify.VerifyFailed
        <-> Exists (fun p => flash_digest p <> file_digest p) (addr_filename args))
    /\ log (Verify.target st')
       = log (Verify.target st)
         ++ map (fun p => Verify.md5_request (fst p) (len (image p)))
                (addr_filename args)
    /\ Verify.shown st'
       = Verify.shown st
         ++ flat_map
              (fun p =>
                 [inr (Verify.Verifying (len (image p)) (fst p) (name (snd p)));
                  inr (if bytes_eqb (flash_digest p) (file_digest p)
                       then Verify.VerifyOK else Verify.VerifyFailedDigest)])
              (addr_filename args).
Proof.
  intros Hdigests Hsupport Hstatus Hkeep Hdiff Hrange image flash_digest file_digest.
  destruct (VerifyFacts.verify_files_by_digest lib esp digest_at Hsupport Hstatus
              read_flash args diff Hkeep Hdiff (addr_filename args) false st
              Hdigests Hrange) as [st' [Hrun [_ [Hlog Hshown]]]].
  set (ok := forallb (digest_matches lib digest_at) (addr_filename args)) in *.
  assert (Hok : ok = true
                <-> Forall (fun p => flash_digest p = file_digest p)
                           (addr_filename args)).
  { unfold ok. rewrite forallb_forall, Forall_forall. split; intros Hall p Hp.
    - apply bytes_eqb_eq. exact (Hall p Hp).
    - specialize (Hall p Hp). unfold digest_matches.
      destruct (bytes_eqb _ _) eqn:Hcmp; [reflexivity|].
      apply bytes_eqb_neq in Hcmp. now contradiction Hcmp. }
  assert (Hbad : ok = false
                 <-> Exists (fun p => flash_digest p <> file_digest p)
                            (addr_filename args)).
  { split.
    - intros Hfalse. unfold ok in Hfalse.
      apply forallb_false_Exists in Hfalse.
      eapply Exists_impl; [|exact Hfalse].
      intros p Hp. now apply bytes_eqb_neq.
    - intros Hex. apply not_true_is_false. intros Hval.
      apply (proj1 Hok) in Hval. rewrite Forall_forall in Hval.
      apply Exists_exists in Hex. destruct Hex as [p [Hp Hne]].
      contradiction Hne. now apply Hval. }
  exists (if ok then inr tt else inl Verify.VerifyFailed), st'.
  split; [|split; [|split; [|split]]].
  - unfold Verify.verify_flash. unfold bind. rewrite Hrun. cbn [orb].
    destruct ok; reflexivity.
  - rewrite <- Hok. destruct ok; split; intros; congruence.
  - rewrite <- Hbad. destruct ok; split; intros; congruence.
  - exact Hlog.
  - exact Hshown.
Qed.

Lemma verify_flash_checks_every_file_witness :
  let args := mkArgs None false false false None
                [(0x1000, mkFile "bootloader.bin" (repeat 0xe9 22));
                 (0x8000, mkFile "partitions.bin" (repeat 0x50 12))]
                "keep" "keep" "keep" false false false in
  let digest_at := fun address size : Z =>
                     toy_digest (repeat 0xe9 22 ++ [0xFF; 0xFF]) in
  let st := Verify.mkConsole
              (md5_device (toy_digest (repeat 0xe9 22 ++ [0xFF; 0xFF]))) [] in
  let lib := scenario_C_libraries in
  let image := fun p : Z * argfile => Verify.padded_image (snd p) in
  let flash_digest := fun p => digest_at (fst p) (len (image p)) in
  let file_digest := fun p => md5_hexdigest lib (image p) in
  exists r st',
    Verify.verify_flash lib (fun _ _ => raise NotImplementedInROMError)
      esp32_rom args "no" st = (inr r, st')
    /\ (r = inr tt
        <-> Forall (fun p => flash_digest p = file_digest p) (addr_filename args))
    /\ (r = inl Verify.VerifyFailed
        <-> Exists (fun p => flash_digest p <> file_digest p) (addr_filename args))
    /\ log (Verify.target st')
       = log (Verify.target st)
         ++ map (fun p => Verify.md5_request (fst p) (len (image p)))
                (addr_filename args)
    /\ Verify.shown st'
       = Verify.shown st
         ++ flat_map
              (fun p =>
                 [inr (Verify.Verifying (len (image p)) (fst p) (name (snd p)));
                  inr (if bytes_eqb (flash_digest p) (file_digest p)
                       then Verify.VerifyOK else Verify.VerifyFailedDigest)])
              (addr_filename args).
Proof.
  apply (verify_flash_checks_every_file scenario_C_libraries
           (fun _ _ => raise NotImplementedInROMError) esp32_rom
           (mkArgs None false false false None
              [(0x1000, mkFile "bootloader.bin" (repeat 0xe9 22));
               (0x8000, mkFile "partitions.bin" (repeat 0x50 12))]
              "keep" "keep" "keep" false false false)
           "no"
           (fun address size : Z => toy_digest (repeat 0xe9 22 ++ [0xFF; 0xFF]))
           (Verify.mkConsole
              (md5_device (toy_digest (repeat 0xe9 22 ++ [0xFF; 0xFF]))) [])).
  - intros l address size _ _. split; [reflexivity|]. split; [|reflexivity].
    vm_compute. repeat constructor; discriminate.
  - reflexivity.
  - cbn. lia.
  - reflexivity.
  - discriminate.
  - repeat constructor; cbn; lia.
Defined.

(** A reply of 32 bytes that are no UTF-8 text ends [verify_flash] at the
    first file: [flash_md5sum] cannot decode it. *)
Example verify_flash_undecodable_digest :
  let args := mkArgs None false false false None
                [(0x1000, mkFile "bootloader.bin" (repeat 0xe9 22));
                 (0x8000, mkFile "partitions.bin" (repeat 0x50 12))]
                "keep" "keep" "keep" false false false in
  let st := Verify.mkConsole (md5_device (repeat 0xff 32)) [] in
  let run := Verify.verify_flash scenario_C_libraries
               (fun _ _ => raise NotImplementedInROMError)
               esp32_rom args "no" st in
  fst run = inl UnicodeDecodeError
  /\ log (Verify.target (snd run)) = [Verify.md5_request 0x1000 24].
Proof. vm_compute. split; reflexivity. Qed.

(* ------------------------------------------------------------------ *)
(** ** Reading the flash through the stub *)

Module ReadFlashFacts.

Lemma upper_hex_digit (d : Z) :
  0 <= d < 16 ->
  upper [hex_digit_upper d] = [hex_digit_upper d]
  /\ upper [hex_digit d] = [hex_digit_upper d].
Proof.
  intros Hd. unfold upper, hex_digit_upper, hex_digit. cbn [map].
  destruct (d <? 10) eqn:Hlt; [apply Z.ltb_lt in Hlt|apply Z.ltb_ge in Hlt].
  - replace ((97 <=? 48 + d) && (48 + d <=? 122)) with false; [now split|].
    symmetry. apply andb_false_iff. left. apply Z.leb_gt. lia.
  - replace ((97 <=? 55 + d) && (55 + d <=? 122)) with false.
    2:{ symmetry. apply andb_false_iff. left. apply Z.leb_gt. lia. }
    replace ((97 <=? 87 + d) && (87 + d <=? 122)) with true.
    2:{ symmetry. apply andb_true_iff. split; apply Z.leb_le; lia. }
    split; [reflexivity|]. f_equal. lia.
Qed.

(** The two ways [read_flash] writes a digest agree. *)
Lemma upper_hexify (digest : bytes) :
  Forall (fun b => 0 <= b < 256) digest ->
  upper (hexify digest) = upper (hexify_lower digest).
Proof.
  induction 1 as [|b digest Hb _ IH]; [reflexivity|].
  unfold hexify, hexify_lower in *. cbn [flat_map].
  unfold upper in *. rewrite !map_app, IH. f_equal.
  assert (Hhigh : 0 <= b / 16 < 16)
    by (split; [apply Z.div_pos; lia|apply Z.div_lt_upper_bound; lia]).
  pose proof (Z.mod_pos_bound b 16 ltac:(lia)) as Hlow.
  destruct (upper_hex_digit (b / 16) Hhigh) as [Hu1 Hl1].
  destruct (upper_hex_digit (b mod 16) Hlow) as [Hu2 Hl2].
  unfold upper in *. cbn [map] in *. congruence.
Qed.

Section Stub.

Variable lib : libraries.
Variable esp : ESPLoader.

(** [check_command] on a port where the response to the request is the
    next frame and carries nothing but a zero status. *)
Lemma check_command_serial (o : Z) (data : bytes) (chk : Z)
    (l0 l1 v0 v1 v2 v3 : Z) (later w : list bytes) (s : bool)
    (out : list message) :
  (0 < STATUS_BYTES_LENGTH esp)%nat ->
  0 <= o < 256 ->
  len data < 65536 ->
  0 <= chk < 2 ^ 32 ->
  let response := [1; o; l0; l1; v0; v1; v2; v3]
                  ++ repeat 0 (STATUS_BYTES_LENGTH esp) in
  let request := [0x00; o] ++ le_bytes 2 (len data) ++ le_bytes 4 chk ++ data in
  check_command esp (Some o) data chk
    (mkSession (idle_channel (Slip.write response :: later) w s) out)
  = (inr (RVal (le_value [v0; v1; v2; v3])),
     mkSession (idle_channel later (w ++ [Slip.write request]) true) out).
Proof.
  intros Hstatus Ho Hlen Hchk response request.
  pose proof (CommandFacts.pack_header o data chk Ho Hlen Hchk) as Hpack.
  assert (Hreq : ([0; o] ++ le_bytes 2 (len data) ++ le_bytes 4 chk) ++ data
                 = request)
    by (unfold request; now rewrite <- !app_assoc).
  pose proof (CommandFacts.wait_response o response 99 later
                (w ++ [Slip.write request]) s) as Hwait.
  change (S 99) with 100%nat in Hwait.
  unfold check_command. unfold bind at 1. unfold on_transport.
  cbn [transport stdout command serial_transport].
  unfold Serial.command_val_data. unfold bind at 1.
  rewrite (CommandFacts.command_send o data _ chk _ Hpack), Hreq.
  change (Serial.mkChannel _ _ _)
    with (idle_channel (Slip.write response :: later)
            (w ++ [Slip.write request]) s).
  rewrite Hwait.
  2:{ unfold response, len. rewrite length_app. cbn [length]. lia. }
  2:{ reflexivity. }
  2:{ reflexivity. }
  cbn [Serial.unpack_reply ret].
  set (n := STATUS_BYTES_LENGTH esp) in *.
  assert (Hbody : skipn 8 response = repeat 0 n) by reflexivity.
  assert (Hval : slice response 4 8 = [v0; v1; v2; v3]) by reflexivity.
  rewrite Hbody, Hval, repeat_length.
  rewrite Nat.ltb_irrefl.
  unfold last_n. rewrite repeat_length, Nat.sub_diag. cbn [skipn].
  destruct n as [|n]; [lia|]. cbn [repeat byte nth_error lift ret].
  unfold bind. cbn [ret]. change (0 =? 0) with true. cbn [negb].
  reflexivity.
Qed.

(** One round of the loop on a packet that is not too short. *)
Lemma read_flash_loop_step (length : Z) (p data : bytes) (k : nat)
    (later w : list bytes) (s : bool) (out : list message) :
  len data < length ->
  len (data ++ p) < 2 ^ 32 ->
  (len (data ++ p) < length -> FLASH_SECTOR_SIZE esp <= len p) ->
  read_flash_loop None esp length (S k) data
    (mkSession (idle_channel (Slip.write p :: later) w s) out)
  = read_flash_loop None esp length k (data ++ p)
      (mkSession (idle_channel later
                    (w ++ [Slip.write (le_bytes 4 (len (data ++ p)))]) true) out).
Proof.
  intros Hshort Hfits Hsector. cbn [read_flash_loop].
  replace (len data <? length) with true by (symmetry; apply Z.ltb_lt; lia).
  unfold bind at 1. unfold on_transport at 1.
  cbn [transport stdout]. rewrite SyncFacts.read_idle.
  replace ((len (data ++ p) <? length) && (len p <? FLASH_SECTOR_SIZE esp))
    with false.
  2:{ symmetry. apply andb_false_iff.
      destruct (Z_lt_ge_dec (len (data ++ p)) length) as [Hlt|Hge].
      - right. apply Z.ltb_ge. now apply Hsector.
      - left. apply Z.ltb_ge. lia. }
  rewrite pack_I_ok by (unfold len in *; lia).
  cbn [pack lift]. rewrite app_nil_r.
  unfold bind at 1. cbn [ret].
  unfold bind at 1. unfold on_transport at 1, Serial.write at 1, modify at 1.
  cbn [transport stdout Serial._port Serial.written Serial._slip_reader idle_channel].
  unfold bind at 1. cbn [report_progress ret].
  reflexivity.
Qed.

(** One round of the loop on a packet that is too short. *)
Lemma read_flash_loop_corrupt (length : Z) (p data : bytes) (k : nat)
    (later w : list bytes) (s : bool) (out : list message) :
  len (data ++ p) < length ->
  len p < FLASH_SECTOR_SIZE esp ->
  read_flash_loop None esp length (S k) data
    (mkSession (idle_channel (Slip.write p :: later) w s) out)
  = (inr (inl (CorruptData (FLASH_SECTOR_SIZE esp) (len p))),
     mkSession (idle_channel later w true) out).
Proof.
  intros Hshort Hsector. cbn [read_flash_loop].
  replace (len data <? length) with true
    by (symmetry; apply Z.ltb_lt; unfold len in *; rewrite length_app in Hshort; lia).
  unfold bind at 1. unfold on_transport at 1.
  cbn [transport stdout]. rewrite SyncFacts.read_idle.
  replace ((len (data ++ p) <? length) && (len p <? FLASH_SECTOR_SIZE esp))
    with true; [reflexivity|].
  symmetry. apply andb_true_iff. split; apply Z.ltb_lt; assumption.
Qed.

Lemma packets_count (ps : list bytes) :
  Forall (fun p => p <> []) ps ->
  (Datatypes.length ps <= Datatypes.length (concat ps))%nat.
Proof.
  induction 1 as [|p ps Hp _ IH]; [reflexivity|].
  cbn [concat Datatypes.length]. rewrite length_app.
  destruct p; [contradiction|cbn [Datatypes.length]; lia].
Qed.

(** The loop on whole sectors that leave the data short. *)
Lemma read_flash_loop_sectors (length : Z) (ps : list bytes) :
  forall (data : bytes) (k : nat) (later w : list bytes) (s : bool)
         (out : list message),
    0 <= length < 2 ^ 32 ->
    Forall (fun p => FLASH_SECTOR_SIZE esp <= len p) ps ->
    len data + len (concat ps) < length ->
    read_flash_loop None esp length (Datatypes.length ps + k) data
      (mkSession (idle_channel (map Slip.write ps ++ later) w s) out)
    = read_flash_loop None esp length k (data ++ concat ps)
        (mkSession (idle_channel later (w ++ read_flash_acks (len data) ps)
                      (s || negb (Datatypes.length ps =? 0)%nat)) out).
Proof.
  induction ps as [|p ps IH]; intros data k later w s out Hlength Hsector Htotal.
  - cbn [concat read_flash_acks map app Datatypes.length Nat.add Nat.eqb negb].
    now rewrite !app_nil_r, orb_false_r.
  - apply Forall_cons_iff in Hsector. destruct Hsector as [Hfull Hrest].
    cbn [concat] in Htotal. unfold len in Htotal. rewrite length_app in Htotal.
    cbn [Datatypes.length Nat.add map app].
    rewrite read_flash_loop_step
      by (unfold len in *; rewrite ?length_app; (lia || (intros _; exact Hfull))).
    rewrite IH; [|exact Hlength|exact Hrest|unfold len; rewrite length_app; lia].
    cbn [concat read_flash_acks Nat.eqb negb]. rewrite orb_true_r.
    rewrite <- !app_assoc. cbn [app].
    replace (len (data ++ p)) with (len data + len p)
      by (unfold len; rewrite length_app; lia).
    reflexivity.
Qed.

Lemma read_flash_acks_app (ps : list bytes) (p : bytes) :
  forall n,
    read_flash_acks n (ps ++ [p])
    = read_flash_acks n ps
      ++ [Slip.write (le_bytes 4 (n + len (concat ps) + len p))].
Proof.
  induction ps as [|q ps IH]; intros n.
  - cbn [read_flash_acks concat app]. unfold len at 2. cbn [Datatypes.length].
    now rewrite Z.add_0_r.
  - cbn [read_flash_acks concat app]. rewrite IH.
    replace (n + len (q ++ concat ps) + len p)
      with (n + len q + len (concat ps) + len p)
      by (unfold len; rewrite length_app; lia).
    reflexivity.
Qed.

Lemma read_flash_loop_exit (length : Z) (data : bytes) (bound : nat)
    (st : session Serial.channel) :
  length <= len data ->
  read_flash_loop None esp length bound data st = (inr (inr data), st).
Proof.
  intros Hdone. apply Z.ltb_ge in Hdone.
  destruct bound; cbn [read_flash_loop]; rewrite Hdone; reflexivity.
Qed.

End Stub.

End ReadFlashFacts.

(** X25. [read_flash] through the stub. The loader sends READ_FLASH with
    offset, length, sector size and 64, and the response carries a zero
    status. It then reads the data packet by packet and writes behind
    each packet the number of bytes it has so far, as four bytes. A
    packet that leaves the data short must be a whole sector at least:
    a shorter one makes it raise "Corrupt data" before answering it.
    When the data is complete, the next packet is read as the digest:
    [read_flash] returns the data when the digest has 16 bytes and is
    the MD5 digest of the data, and raises "Digest mismatch" when it is
    another one; a last packet that brings more than [length] bytes
    makes it raise "Read more than expected" without reading a
    digest. *)
Theorem read_flash_stub_protocol (lib : libraries) (esp : ESPLoader)
    (offset length : Z) (sectors later w : list bytes) (s : bool)
    (out : list message) (l0 l1 v0 v1 v2 v3 : Z) :
  IS_STUB esp = true ->
  (0 < STATUS_BYTES_LENGTH esp)%nat ->
  0 < FLASH_SECTOR_SIZE esp < 2 ^ 32 ->
  0 <= offset < 2 ^ 32 ->
  0 <= length < 2 ^ 32 ->
  Forall (fun p => FLASH_SECTOR_SIZE esp <= len p) sectors ->
  len (concat sectors) < length ->
  let response := [1; ESP_READ_FLASH; l0; l1; v0; v1; v2; v3]
                  ++ repeat 0 (STATUS_BYTES_LENGTH esp) in
  let request :=
    Slip.write ([0x00; ESP_READ_FLASH] ++ le_bytes 2 16 ++ le_bytes 4 0
                ++ le_bytes 4 offset ++ le_bytes 4 length
                ++ le_bytes 4 (FLASH_SECTOR_SIZE esp) ++ le_bytes 4 64) in
  let port := fun frames =>
    mkSession (idle_channel (Slip.write response
                             :: map Slip.write sectors ++ frames) w s) out in
  let answered := fun ps rest =>
    mkSession (idle_channel rest (w ++ request :: read_flash_acks 0 ps) true) out in
  (forall last digest_frame,
     len (concat sectors) + len last = length ->
     len digest_frame = 16 ->
     let data := concat sectors ++ last in
     let expected_digest := upper (hexify digest_frame) in
     let digest := upper (md5_hexdigest lib data) in
     read_flash lib None esp offset length
       (port (Slip.write last :: Slip.write digest_frame :: later))
     = (inr (if bytes_eqb digest expected_digest then inr data
             else inl (DigestMismatch expected_digest digest)),
        answered (sectors ++ [last]) later)
     /\ (Forall (fun b => 0 <= b < 256) digest_frame ->
         hexify_lower digest_frame = md5_hexdigest lib data ->
         bytes_eqb digest expected_digest = true))
  /\ (forall last,
        length < len (concat sectors) + len last < 2 ^ 32 ->
        read_flash lib None esp offset length (port (Slip.write last :: later))
        = (inr (inl ReadMoreThanExpected), answered (sectors ++ [last]) later))
  /\ (forall p,
        len (concat sectors) + len p < length ->
        len p < FLASH_SECTOR_SIZE esp ->
        read_flash lib None esp offset length (port (Slip.write p :: later))
        = (inr (inl (CorruptData (FLASH_SECTOR_SIZE esp) (len p))),
           answered sectors later)).
Proof.
  intros Hstub Hstatus Hsector Hoffset Hlength Hfull Hshort
         response request port answered.
  assert (Hcount : (Datatypes.length sectors < Z.to_nat length)%nat).
  { assert (Hne : Forall (fun p : bytes => p <> []) sectors).
    { eapply Forall_impl; [|exact Hfull]. intros p Hp ->. cbn in Hp. lia. }
    pose proof (ReadFlashFacts.packets_count sectors Hne). unfold len in *. lia. }
  assert (Hbegin : forall frames k,
            Z.to_nat length = (Datatypes.length sectors + k)%nat ->
            read_flash lib None esp offset length (port frames)
            = bind (read_flash_loop None esp length k (concat sectors))
                   (fun r =>
                      match r with
                      | inl e => ret (inl e)
                      | inr data =>
                          ret tt ;;;
                          if length <? len data then ret (inl ReadMoreThanExpected)
                          else
                            digest_frame <- on_transport Serial.read ;;
                            if negb (len digest_frame =? 16)
                            then ret (inl (ExpectedDigest digest_frame))
                            else
                              if negb (bytes_eqb (upper (md5_hexdigest lib data))
                                                 (upper (hexify digest_frame)))
                              then ret (inl (DigestMismatch
                                               (upper (hexify digest_frame))
                                               (upper (md5_hexdigest lib data))))
                              else ret (inr data)
                      end)
                   (answered sectors frames)).
  { intros frames k Hbound. unfold read_flash. rewrite Hstub. cbn [negb].
    rewrite pack_IIII by (assumption || lia). run_bind.
    unfold bind at 1. unfold port, response.
    rewrite (ReadFlashFacts.check_command_serial esp ESP_READ_FLASH)
      by (assumption || (unfold ESP_READ_FLASH; lia) || (cbn; lia) || lia).
    rewrite Hbound.
    unfold bind at 1.
    rewrite (ReadFlashFacts.read_flash_loop_sectors esp length sectors [])
      by (assumption || (cbn [len Datatypes.length]; unfold len in *; lia)).
    cbn [app orb]. unfold bind at 1. unfold answered, request.
    replace (len (@nil Z)) with 0 by reflexivity.
    rewrite <- !app_assoc. cbn [app]. reflexivity. }
  destruct (Z.to_nat length - Datatypes.length sectors)%nat as [|k] eqn:Hk; [lia|].
  assert (Hbound : Z.to_nat length = (Datatypes.length sectors + S k)%nat) by lia.
  assert (Hacks : forall p,
            read_flash_acks 0 sectors
            ++ [Slip.write (le_bytes 4 (len (concat sectors ++ p)))]
            = read_flash_acks 0 (sectors ++ [p])).
  { intros p. rewrite ReadFlashFacts.read_flash_acks_app.
    replace (0 + len (concat sectors) + len p) with (len (concat sectors ++ p))
      by (unfold len; rewrite length_app; lia).
    reflexivity. }
  split; [|split].
  - intros last digest_frame Htotal Hdigest data expected_digest digest.
    split.
    + rewrite (Hbegin _ (S k) Hbound). unfold bind at 1. unfold answered.
      rewrite ReadFlashFacts.read_flash_loop_step
        by (unfold len in *; rewrite ?length_app; lia).
      rewrite ReadFlashFacts.read_flash_loop_exit
        by (unfold len in *; rewrite ?length_app; lia).
      fold data. unfold bind at 1. cbn [ret].
      replace (length <? len data) with false
        by (symmetry; apply Z.ltb_ge; unfold data, len in *;
            rewrite length_app; lia).
      unfold bind at 1. unfold on_transport at 1. cbn [transport stdout].
      rewrite SyncFacts.read_idle. rewrite Hdigest. cbn [Z.eqb Pos.eqb negb].
      fold expected_digest digest.
      rewrite <- app_assoc. cbn [app]. unfold data. rewrite Hacks.
      destruct (bytes_eqb digest expected_digest); reflexivity.
    + intros Hbytes Hmd5. unfold digest, expected_digest.
      rewrite <- Hmd5, ReadFlashFacts.upper_hexify by exact Hbytes.
      unfold bytes_eqb.
      destruct (list_eq_dec Z.eq_dec _ _) as [|Hne]; [reflexivity|].
      now contradiction Hne.
  - intros last Hmore.
    rewrite (Hbegin _ (S k) Hbound). unfold bind at 1. unfold answered.
    rewrite ReadFlashFacts.read_flash_loop_step
      by (unfold len in *; rewrite ?length_app; lia).
    rewrite ReadFlashFacts.read_flash_loop_exit
      by (unfold len in *; rewrite ?length_app; lia).
    unfold bind at 1. cbn [ret].
    replace (length <? len (concat sectors ++ last)) with true
      by (symmetry; apply Z.ltb_lt; unfold len in *; rewrite length_app; lia).
    rewrite <- app_assoc. cbn [app]. rewrite Hacks. reflexivity.
  - intros p Hless Hsmall.
    rewrite (Hbegin _ (S k) Hbound). unfold bind at 1. unfold answered.
    rewrite ReadFlashFacts.read_flash_loop_corrupt
      by (unfold len in *; rewrite ?length_app; lia).
    reflexivity.
Qed.


Lemma read_flash_stub_protocol_witness :
  let data := repeat 0xAA 4096 ++ [1; 2; 3] in
  let digest_frame :=
    le_bytes 16 (checksum data ESP_CHECKSUM_MAGIC + 256 * len data) in
  exists st',
    read_flash scenario_C_libraries None esp8266_stub 0x10000 4099
      (mkSession
         (idle_channel
            (Slip.write ([1; ESP_READ_FLASH; 0; 0; 0; 0; 0; 0] ++ repeat 0 2)
             :: map Slip.write [repeat 0xAA 4096]
                ++ [Slip.write [1; 2; 3]; Slip.write digest_frame])
            [] false) [])
    = (inr (inr data), st').
Proof.
  cbv zeta.
  destruct (proj1 (read_flash_stub_protocol scenario_C_libraries esp8266_stub
                     0x10000 4099 [repeat 0xAA 4096] [] [] false [] 0 0 0 0 0 0
                     eq_refl ltac:(cbn; lia) ltac:(cbn; lia) ltac:(lia) ltac:(lia)
                     ltac:(repeat constructor; vm_compute; discriminate)
                     ltac:(vm_compute; reflexivity))
              [1; 2; 3]
              (le_bytes 16 (checksum (repeat 0xAA 4096 ++ [1; 2; 3]) ESP_CHECKSUM_MAGIC
                            + 256 * len (repeat 0xAA 4096 ++ [1; 2; 3])))
              ltac:(vm_compute; reflexivity) ltac:(vm_compute; reflexivity))
    as [Hrun Hagree].
  cbv zeta in Hrun, Hagree.
  rewrite Hagree in Hrun.
  - eexists. exact Hrun.
  - vm_compute. repeat constructor; discriminate.
  - vm_compute. reflexivity.
Defined.

(* ------------------------------------------------------------------ *)
(** ** Reading the flash through the ROM loader *)

Module SlowReadFacts.

Lemma flash_bytes_length (flash : Z -> Z) (addr : Z) (n : nat) :
  length (flash_bytes flash addr n) = n.
Proof. unfold flash_bytes. now rewrite length_map, length_seq. Qed.

Lemma seq_from (n m : nat) : seq n m = map (fun i => (n + i)%nat) (seq 0 m).
Proof.
  induction n as [|n IH].
  - cbn [Nat.add]. now rewrite map_id.
  - rewrite <- seq_shift, IH, map_map. reflexivity.
Qed.

Lemma flash_bytes_app (flash : Z -> Z) (addr : Z) (n m : nat) :
  flash_bytes flash addr (n + m)
  = flash_bytes flash addr n ++ flash_bytes flash (addr + Z.of_nat n) m.
Proof.
  unfold flash_bytes. rewrite seq_app, map_app. f_equal.
  cbn [Nat.add]. rewrite (seq_from n m), map_map.
  apply map_ext. intros i. f_equal. lia.
Qed.

Lemma flash_bytes_firstn (flash : Z -> Z) (addr : Z) (n m : nat) :
  (m <= n)%nat ->
  firstn m (flash_bytes flash addr n) = flash_bytes flash addr m.
Proof.
  intros Hle. replace n with (m + (n - m))%nat by lia.
  rewrite flash_bytes_app, firstn_app, flash_bytes_length, Nat.sub_diag.
  cbn [firstn]. rewrite app_nil_r. apply firstn_all2.
  rewrite flash_bytes_length. lia.
Qed.

Section Rom.

Variable esp : ESPLoader.
Variable flash : Z -> Z.
Variable offset length : Z.

Hypothesis Hstatus : (0 < STATUS_BYTES_LENGTH esp)%nat.
Hypothesis Hoffset : 0 <= offset.
Hypothesis Hend : offset + length <= 2 ^ 32.

Lemma check_command_buffer (addr block_len : Z) (s : session device) :
  flash_reader esp flash (transport s) ->
  0 <= addr < 2 ^ 32 ->
  0 <= block_len < 2 ^ 32 ->
  check_command esp (Some ESP_READ_FLASH_SLOW)
    (le_bytes 4 addr ++ le_bytes 4 block_len) 0 s
  = (inr (RData (flash_bytes flash addr 64)),
     sent s [read_flash_slow_request addr block_len]).
Proof.
  intros Hreader Haddr Hblock.
  unfold check_command, bind, on_transport.
  cbn [command scripted_transport].
  rewrite (Hreader (log (transport s)) addr block_len Haddr Hblock).
  fold (sent s [read_flash_slow_request addr block_len]).
  set (n := STATUS_BYTES_LENGTH esp) in *.
  set (buffer := flash_bytes flash addr 64).
  assert (Hbuffer : Datatypes.length buffer = 64%nat)
    by apply flash_bytes_length.
  assert (Hlen : Datatypes.length (buffer ++ repeat 0 n) = (64 + n)%nat)
    by (rewrite length_app, repeat_length; lia).
  rewrite Hlen.
  replace (64 + n <? n)%nat with false by (symmetry; apply Nat.ltb_ge; lia).
  replace (n <? 64 + n)%nat with true by (symmetry; apply Nat.ltb_lt; lia).
  unfold last_n, but_last_n. rewrite Hlen.
  replace (64 + n - n)%nat with (Datatypes.length buffer) by lia.
  rewrite skipn_app, skipn_all, Nat.sub_diag. cbn [skipn app].
  rewrite firstn_app, firstn_all, Nat.sub_diag. cbn [firstn].
  rewrite app_nil_r.
  destruct n as [|n]; [lia|]. cbn [repeat byte nth_error lift ret].
  change (0 =? 0) with true. cbn [negb]. reflexivity.
Qed.

Lemma read_flash_slow_rounds (k : nat) :
  forall (i : nat) (bound : nat) (s : session device),
    flash_reader esp flash (transport s) ->
    (k <= bound)%nat ->
    length <= 64 * Z.of_nat (i + k) ->
    (k = 0%nat \/ 64 * (Z.of_nat (i + k) - 1) < length) ->
    read_flash_slow_loop None esp offset length bound
      (flash_bytes flash offset (Z.to_nat (Z.min length (64 * Z.of_nat i)))) s
    = (inr (inr (flash_bytes flash offset (Z.to_nat length))),
       sent s (map (round_request offset length) (seq i k))).
Proof.
  induction k as [|k IH]; intros i bound s Hreader Hbound Hmax Hmin.
  - rewrite Nat.add_0_r in Hmax.
    replace (Z.min length (64 * Z.of_nat i)) with length by lia.
    assert (Hdone : (len (flash_bytes flash offset (Z.to_nat length)) <? length)
                    = false)
      by (apply Z.ltb_ge; unfold len; rewrite flash_bytes_length; lia).
    cbn [seq map]. rewrite sent_nil.
    destruct bound; cbn [read_flash_slow_loop]; rewrite Hdone; reflexivity.
  - destruct Hmin as [Hzero|Hmin]; [discriminate|].
    destruct bound as [|bound]; [lia|].
    assert (Hshort : 64 * Z.of_nat i < length) by lia.
    replace (Z.min length (64 * Z.of_nat i)) with (64 * Z.of_nat i) by lia.
    cbn [read_flash_slow_loop].
    set (data := flash_bytes flash offset (Z.to_nat (64 * Z.of_nat i))).
    assert (Hdata : len data = 64 * Z.of_nat i)
      by (unfold len, data; rewrite flash_bytes_length; lia).
    rewrite Hdata.
    replace (64 * Z.of_nat i <? length) with true
      by (symmetry; apply Z.ltb_lt; exact Hshort).
    set (block_len := Z.min 64 (length - 64 * Z.of_nat i)).
    assert (Hblock : 0 < block_len <= 64) by (unfold block_len; lia).
    rewrite !pack_I_ok by lia. cbn [pack lift]. rewrite app_nil_r.
    unfold bind at 1. cbn [ret]. unfold bind at 1.
    rewrite check_command_buffer by (assumption || lia).
    replace (len (flash_bytes flash (offset + 64 * Z.of_nat i) 64) <? block_len)
      with false
      by (symmetry; apply Z.ltb_ge; unfold len; rewrite flash_bytes_length; lia).
    unfold bind at 1. cbn [report_progress ret].
    rewrite flash_bytes_firstn by lia.
    assert (Hnext : data ++ flash_bytes flash (offset + 64 * Z.of_nat i)
                               (Z.to_nat block_len)
                    = flash_bytes flash offset
                        (Z.to_nat (Z.min length (64 * Z.of_nat (S i))))).
    { unfold data.
      replace (offset + 64 * Z.of_nat i)
        with (offset + Z.of_nat (Z.to_nat (64 * Z.of_nat i))) by lia.
      rewrite <- flash_bytes_app. f_equal. unfold block_len. lia. }
    rewrite Hnext.
    rewrite (IH (S i) bound).
    + rewrite sent_sent. cbn [seq map]. reflexivity.
    + intros l a b Ha Hb. apply (Hreader l a b Ha Hb).
    + lia.
    + replace (S i + k)%nat with (i + S k)%nat by lia. exact Hmax.
    + destruct k as [|k]; [now left|right].
      replace (S i + S k)%nat with (i + S (S k))%nat by lia. exact Hmin.
Qed.

End Rom.

End SlowReadFacts.

(** X26. [read_flash_slow] of the ESP32 ROM loaders reads the flash in
    blocks of 64 bytes: for [length] bytes from [offset] it sends
    ceil(length / 64) READ_FLASH_SLOW requests, one for each 64 bytes,
    the last for the bytes that are left; of the 64-byte buffer that
    comes back it keeps as many bytes as it asked for, and it returns
    the [length] bytes of the flash from [offset], in order. *)
Theorem read_flash_slow_reads_blocks (esp : ESPLoader) (flash : Z -> Z)
    (offset length : Z) (s : session device) :
  isinstance_ESP32ROM (CHIP esp) = true ->
  (0 < STATUS_BYTES_LENGTH esp)%nat ->
  flash_reader esp flash (transport s) ->
  0 <= offset ->
  0 <= length ->
  offset + length <= 2 ^ 32 ->
  let blocks := Z.to_nat ((length + 63) / 64) in
  read_flash_slow None esp offset length s
  = (inr (inr (flash_bytes flash offset (Z.to_nat length))),
     sent s (map (fun j =>
                    read_flash_slow_request
                      (offset + 64 * Z.of_nat j)
                      (Z.min 64 (length - 64 * Z.of_nat j)))
                 (seq 0 blocks))).
Proof.
  intros Hchip Hstatus Hreader Hoffset Hlength Hend blocks.
  unfold read_flash_slow. rewrite Hchip.
  pose proof (Z.div_mod (length + 63) 64 ltac:(lia)) as Hdiv.
  pose proof (Z.mod_pos_bound (length + 63) 64 ltac:(lia)) as Hmod.
  assert (Hblocks : Z.of_nat blocks = (length + 63) / 64)
    by (unfold blocks; rewrite Z2Nat.id; [reflexivity|apply Z.div_pos; lia]).
  pose proof (SlowReadFacts.read_flash_slow_rounds esp flash offset length
                Hstatus Hoffset Hend blocks 0 (Z.to_nat length) s Hreader)
    as Hrun.
  replace (Z.to_nat (Z.min length (64 * Z.of_nat 0))) with 0%nat in Hrun by lia.
  apply Hrun.
  - lia.
  - cbn [Nat.add]. lia.
  - cbn [Nat.add]. destruct blocks; [now left|right]. lia.
Qed.

Lemma read_flash_slow_reads_blocks_witness :
  let flash := fun a : Z => a mod 251 in
  let s := mkSession
             (mkDevice
                (fun _ _ data _ =>
                   inr (0, flash_bytes flash (le_value (firstn 4 data)) 64
                           ++ [0; 0; 0; 0]))
                (fun _ => inr []) []) [] in
  read_flash_slow None esp32_rom 0x1000 100 s
  = (inr (inr (flash_bytes flash 0x1000 100)),
     sent s [read_flash_slow_request 0x1000 64;
             read_flash_slow_request 0x1040 36]).
Proof.
  apply (read_flash_slow_reads_blocks esp32_rom (fun a : Z => a mod 251)
           0x1000 100
           (mkSession
              (mkDevice
                 (fun _ _ data _ =>
                    inr (0, flash_bytes (fun a : Z => a mod 251)
                              (le_value (firstn 4 data)) 64
                            ++ [0; 0; 0; 0]))
                 (fun _ => inr []) []) [])).
  - reflexivity.
  - cbn. lia.
  - intros l addr block_len Haddr Hblock. cbn [transport on_command].
    assert (Hfirst : firstn 4 (le_bytes 4 addr ++ le_bytes 4 block_len)
                     = le_bytes 4 addr).
    { rewrite <- (RoundTrip.le_bytes_length 4 addr) at 1.
      rewrite firstn_app, firstn_all, Nat.sub_diag. apply app_nil_r. }
    rewrite Hfirst, RoundTrip.le_value_le_bytes by (cbn; lia).
    reflexivity.
  - lia.
  - lia.
  - lia.
Defined.

(* ------------------------------------------------------------------ *)
(** ** The extended header of an ESP32 image *)

Module HeaderFacts.

Lemma join_byte_range (ln hn : Z) : 0 <= join_byte ln hn < 256.
Proof.
  unfold join_byte. change 0x0F with (Z.ones 4).
  rewrite !Z.land_ones, Z.shiftl_mul_pow2 by lia.
  pose proof (Z.mod_pos_bound ln (2 ^ 4) ltac:(lia)).
  pose proof (Z.mod_pos_bound hn (2 ^ 4) ltac:(lia)).
  change (2 ^ 4) with 16 in *. lia.
Qed.

Lemma split_join_byte (ln hn : Z) :
  Image.split_byte (join_byte ln hn) = (Z.land ln 0x0F, Z.land hn 0x0F).
Proof.
  unfold Image.split_byte, join_byte. change 0x0F with (Z.ones 4).
  rewrite !Z.land_ones, Z.shiftl_mul_pow2, Z.shiftr_div_pow2 by lia.
  pose proof (Z.mod_pos_bound ln (2 ^ 4) ltac:(lia)) as Hl.
  pose proof (Z.mod_pos_bound hn (2 ^ 4) ltac:(lia)) as Hh.
  set (l := ln mod 2 ^ 4) in *. set (h := hn mod 2 ^ 4) in *.
  change (2 ^ 4) with 16 in *.
  f_equal; Z.div_mod_to_equations; lia.
Qed.

Lemma pack_cons_ok (w : nat) (v : Z) (rest : list (nat * Z)) :
  0 <= v < 256 ^ Z.of_nat w ->
  pack ((w, v) :: rest)
  = match pack rest with
    | inr b => inr (le_bytes w v ++ b)
    | inl e => inl e
    end.
Proof.
  intros Hv. cbn [pack].
  replace ((0 <=? v) && (v <? 256 ^ Z.of_nat w)) with true; [reflexivity|].
  symmetry. apply andb_true_iff. split; [apply Z.leb_le|apply Z.ltb_lt]; lia.
Qed.

Lemma split_fields_cons (w : nat) (ws : list nat) (x rest : bytes) :
  length x = w ->
  Image.split_fields (w :: ws) (x ++ rest)
  = le_value x :: Image.split_fields ws rest.
Proof.
  intros <-. cbn [Image.split_fields].
  rewrite firstn_app, firstn_all, Nat.sub_diag, skipn_app, skipn_all, Nat.sub_diag.
  cbn [firstn skipn]. now rewrite app_nil_r.
Qed.

End HeaderFacts.

(** X27. The extended header that [save_extended_header] writes is the
    one [load_extended_header] reads. For a WP pin and a minimal
    revision that fit a byte, a chip id and full revisions that fit two
    bytes: 16 bytes are written, and loading them for the same chip
    gives the WP pin, the revisions and the digest flag unchanged and
    each of the six drive strengths in its low four bits, without a
    warning. *)
Theorem extended_header_save_load_round_trip (IMAGE_CHIP_ID : Z)
    (h : Image.ExtendedHeader) (clk q d cs hd wp : Z)
    (buf rest : bytes) (printed : list message) :
  Image.drv h = [clk; q; d; cs; hd; wp] ->
  0 <= Image.wp_pin h < 256 ->
  0 <= IMAGE_CHIP_ID < 65536 ->
  0 <= Image.min_rev h < 256 ->
  0 <= Image.min_rev_full h < 65536 ->
  0 <= Image.max_rev_full h < 65536 ->
  exists header,
    length header = 16%nat
    /\ save_extended_header IMAGE_CHIP_ID h
         (ImageSave.mkOut buf (length buf))
       = (inr tt, ImageSave.mkOut (buf ++ header) (length buf + 16))
    /\ Image.load_extended_header IMAGE_CHIP_ID
         (Image.mkFile (buf ++ header ++ rest) (length buf) printed)
       = (inr (Image.wp_pin h,
               map (fun x => Z.land x 0x0F) [clk; q; d; cs; hd; wp],
               (Image.min_rev h, Image.min_rev_full h, Image.max_rev_full h),
               Image.append_digest h),
          Image.mkFile (buf ++ header ++ rest) (length buf + 16) printed).
Proof.
  intros Hdrv Hwp Hchip Hmin Hminfull Hmaxfull.
  set (flag := if Image.append_digest h then 1 else 0).
  set (header :=
         le_bytes 1 (Image.wp_pin h) ++ le_bytes 1 (join_byte clk q)
         ++ le_bytes 1 (join_byte d cs) ++ le_bytes 1 (join_byte hd wp)
         ++ le_bytes 2 IMAGE_CHIP_ID ++ le_bytes 1 (Image.min_rev h)
         ++ le_bytes 2 (Image.min_rev_full h) ++ le_bytes 2 (Image.max_rev_full h)
         ++ le_bytes 1 0 ++ le_bytes 1 0 ++ le_bytes 1 0 ++ le_bytes 1 0
         ++ le_bytes 1 flag ++ []).
  assert (Hflag : 0 <= flag < 256) by (unfold flag; destruct (Image.append_digest h); lia).
  assert (Hlength : length header = 16%nat) by reflexivity.
  exists header. split; [exact Hlength|]. split.
  - unfold save_extended_header. rewrite Hdrv. cbn [nth app repeat].
    fold flag. unfold B, H.
    pose proof (join_byte_range := HeaderFacts.join_byte_range).
    rewrite !HeaderFacts.pack_cons_ok
      by (change (256 ^ Z.of_nat 1) with 256; change (256 ^ Z.of_nat 2) with 65536;
          (assumption || lia || apply join_byte_range)).
    cbn [pack]. fold header. cbn [ImageSave.liftW].
    unfold ImageSave.bindW, ImageSave.retW.
    rewrite RoundTrip.write_at_end by reflexivity.
    cbn [ImageSave.out_buf]. rewrite length_app, Hlength. reflexivity.
  - unfold Image.load_extended_header.
    unfold bind at 1.
    replace 16 with (len header) at 1 by (unfold len; rewrite Hlength; reflexivity).
    rewrite RoundTrip.read_exact. rewrite Hlength.
    unfold bind at 1. unfold Image.unpack. rewrite Hlength.
    cbn [fold_right Nat.add Nat.eqb ret].
    unfold header.
    rewrite !HeaderFacts.split_fields_cons by apply RoundTrip.le_bytes_length.
    cbn [Image.split_fields].
    pose proof (HeaderFacts.join_byte_range clk q).
    pose proof (HeaderFacts.join_byte_range d cs).
    pose proof (HeaderFacts.join_byte_range hd wp).
    rewrite !RoundTrip.le_value_le_bytes
      by (change (256 ^ Z.of_nat 1) with 256; change (256 ^ Z.of_nat 2) with 65536;
          (assumption || lia)).
    cbn [Image.field nth]. rewrite !HeaderFacts.split_join_byte.
    rewrite Z.eqb_refl. cbn [negb].
    unfold bind at 1. cbn [ret].
    unfold slice. cbn [skipn firstn Nat.sub existsb].
    change (0 =? 0) with true. cbn [negb orb].
    unfold bind at 1. cbn [ret].
    unfold flag. destruct (Image.append_digest h); reflexivity.
Qed.

Lemma extended_header_save_load_round_trip_witness :
  let h := Image.mkExtended 0xEE [0; 1; 2; 3; 4; 5] 0 0 0xFFFF true None None in
  exists header,
    length header = 16%nat
    /\ save_extended_header 0 h (ImageSave.mkOut (repeat 0xE9 8) (length (repeat 0xE9 8)))
       = (inr tt, ImageSave.mkOut (repeat 0xE9 8 ++ header) (length (repeat 0xE9 8) + 16))
    /\ Image.load_extended_header 0
         (Image.mkFile (repeat 0xE9 8 ++ header ++ [7; 7]) (length (repeat 0xE9 8)) [])
       = (inr (Image.wp_pin h,
               map (fun x => Z.land x 0x0F) [0; 1; 2; 3; 4; 5],
               (Image.min_rev h, Image.min_rev_full h, Image.max_rev_full h),
               Image.append_digest h),
          Image.mkFile (repeat 0xE9 8 ++ header ++ [7; 7])
                       (length (repeat 0xE9 8) + 16) []).
Proof.
  apply (extended_header_save_load_round_trip 0
           (Image.mkExtended 0xEE [0; 1; 2; 3; 4; 5] 0 0 0xFFFF true None None)
           0 1 2 3 4 5 (repeat 0xE9 8) [7; 7] []);
    cbn; (reflexivity || lia).
Defined.
